(* ===== verification/_CoqProject ===== *)
-Q . S2P
Prelude.v
Utils.v
Numbers.v
MemSize.v
Lexer.v
Tokens.v
Editor.v
ReadLine.v
Draw.v
Store.v
State.v
Program.v
Variables.v
Eval.v
Semantics.v
Exec.v
Statements.v
Run.v
Programs.v
Loops.v
Files.v
Repl.v
Main.v
