(* ===== verification/Prelude.v ===== *)
(** * CFBasic: a verification development for the BASIC interpreter core

    The program is a line-numbered BASIC interpreter written in C.  Its
    sources are [src/lexer.c] (tokenizer), [src/interpreter.c] (program
    store, variable store, control stacks, expression evaluator, statement
    executor, run loop), [src/editor.c] (logical screen), [src/utils.c]
    (allocation budget, case-insensitive strings, memory sizes) and
    [src/cfbasic.c] (options of the command line, banner, direct-mode
    command surface and REPL).

    A line typed with a number is stored in the program store; [RUN] walks
    the store with a cursor, and for each line the statement executor reads
    tokens from a lexer over the text of the line, calls the expression
    evaluator for operands, and acts on the variable store, the emulated
    memory and the screen.

    ** Files of the development, in dependency order

    - [Prelude] (this file): C characters as [ascii] with the [<ctype.h>]
      predicates in the C locale, strings as [string] (a NUL-terminated C
      string is the [string] of its bytes before the NUL; [cstr] says that a
      string holds no NUL), decimal printing of integers, 32/16/8-bit wrap
      functions, the development's tactics and the hint databases [cfb] and
      [cfb_rw].
    - [Utils]: [src/utils.c].  The allocation budget ([init_memory],
      [safe_malloc], [safe_realloc], [safe_free], [get_free_memory]) as
      operations on a [MemState]; [str_duplicate], [str_upper],
      [str_compare_nocase], [error], [warning].  Theorems: the budget counts
      every granted byte and [safe_free] gives nothing back; the comparison
      is 0 exactly on strings that are equal up to letter case.
    - [Numbers]: the [double] of the interpreter, the casts of the code to
      [int], [uint16_t], [uint8_t] and [char], and the two libc conversions
      the code relies on, [atof] and [printf] with [%g].  Lemmas: a printed
      integer is read back ([take_digits_fmt_d], [atof_fmt_d]); an integer
      below 2^53 is a double without rounding ([binary_round_exact]), so an
      [int] survives the way through a double ([double_to_int_of_Z]).
    - [MemSize]: [parse_memory_size] and [format_memory_size] of
      [src/utils.c], with [strtod] and [printf] with [%.Nf] modelled from
      the C standard on the doubles of [Numbers].  Theorems: a positive
      number that is printed in decimal, alone or with a suffix K, M or G,
      is read as that many bytes, without rounding below 2^53
      ([parse_memory_size_printed]); the loop that picks the unit ends
      within four turns on every double, with a unit that the array of
      names holds ([format_unit_bounds]).
    - [Lexer]: [src/lexer.c].  [lexer_next_token] with its readers
      ([read_number], [read_string], [read_identifier], [read_operator]) and
      [lexer_peek_token], on a record [Lexer] with the input and a position.
      Theorems: every token but [TOK_EOF] consumes input and the lexer stays
      inside the input; tokenizing ends in [TOK_EOF]; peeking restores the
      lexer; keywords are recognised in any letter case.
    - [Tokens]: what the lexer reads.  For a lexer at any position, with
      the text [s] left to read ([reads lexer s]), the next token of a
      printed number, a string literal, a word or an operator at the head
      of [s] is that number, literal, word or operator, and the lexer is
      left at the text behind it ([next_is]); a blank before a token is
      skipped.  [spells] says that a text is a sequence of tokens of given
      types.  The evaluator and the executor are proved against these
      lemmas.
    - [Editor]: [src/editor.c].  The screen buffer and cursor with the bytes
      written to the terminal ([editor_print], [editor_scroll],
      [editor_plot], [editor_poke_char], ...).  The field [ed_fault] is a
      ghost: it records an access outside the buffer.  Theorems: every
      display operation keeps the screen well formed ([editor_ok]) and only
      appends to the terminal output ([extends]).
    - [ReadLine]: [editor_read_line] of [src/editor.c], one definition per
      key ([read_enter], [read_backspace], [read_escape], [read_char]) and
      the loop over the results of [read] ([read_line_loop]).  Theorems: a
      character and a backspace keep the screen well formed but for a cursor
      at the start of the row below the last one ([editor_loose]); Enter and
      the cursor keys keep a well-formed screen; Enter on the row below the
      screen reads outside the buffer.
    - [Draw]: the line loop of [draw_line] in [src/interpreter.c]
      ([draw_loop], [draw_scaled]) and the list of cells of the same walk
      ([draw_points]).  Theorem: the loop ends within its fuel, and the
      cells form a connected line from the first point to the second.
    - [Store]: the interface [KeyedStore] of a store that is used as a
      finite map (invariant, abstraction, lookup, update and their laws),
      with the laws of lookup after update proved once for its instances.
    - [State]: the structs of [src/interpreter.h] as records, the emulated
      memory as a finite map, one update function per field.  The state
      also holds the environment of the process: the two output streams and
      the files ([FileSystem]).
    - [Program]: [program_add_line], [program_delete_line],
      [program_find_line], [program_clear].  Theorems: the list stays
      strictly ascending; on a sorted list the operations implement a finite
      map from line numbers to texts; after any sequence of edits a lookup
      finds the latest text.  The store is the instance [program_store] of
      [KeyedStore].
    - [Variables]: [var_get], [var_set_number], [var_set_string],
      [var_clear_all] and the two stacks.  Theorems: the store implements a
      finite map keyed by the upper-cased name; rebinding changes the type;
      names stay unique up to case.  The store is the instance
      [variable_store] of [KeyedStore].
    - [Eval]: [evaluate_factor] and [evaluate_expression].  Theorems: the
      evaluator terminates within its fuel and the answer does not depend on
      the fuel; an answer leaves the lexer past the first token; a text value
      carries the number 0; an identifier reads what the last assignment
      stored.  Examples evaluate the coercion rules.
    - [Semantics]: the reference for the evaluator.  The syntax of
      expressions ([Factor], [Expr]), their text ([show_expr]) and their
      value ([den_expr], on the numbers and texts of [VarValue]) are
      written down as the code implies them, and [abstract] maps a [Value]
      of the code to the [VarValue] it stands for.  Theorem: on the text
      of an expression the evaluator answers a value that stands for the
      value of the expression and leaves the lexer behind the text
      ([evaluate_denotes]), and the tag of that value is the type of the
      expression ([ty_expr], [evaluate_typed]).  None of these definitions
      models a line of the code; they are what the code is measured
      against.
    - [Exec]: [interpreter_execute_line] with one definition per statement,
      [basic_print] and [draw_line].  Theorems: the executor terminates
      within its fuel; [PEEK] reads what the last [POKE] to the address
      stored, addresses taken modulo 65536 and values modulo 256.  The class [Preserved] is the interface between the
      statements and their invariants: a relation that the steps of the
      statements keep (printing, assignment, a jump to a line that was
      found, [POKE], the line drawing, updates of flags) is kept by every
      line ([kept_exec_line]).  Its two instances: no statement changes the
      program or the stacks, every jump lands on a line of the program, the
      screen stays well formed and a recorded error stays recorded
      ([frame]); the variable store stays well formed ([vars_kept]).
    - [Statements]: the reference for the executor.  The statements
      ([Stmt]: [PRINT] with its items, [LET] and assignment, [GOTO], the
      two forms of [IF], [POKE], [PLOT], [DRAW], [END], [STOP], [EXIT],
      [REM]), the text of a line ([show_line]) and what a line does
      ([run_line], with the values of [Semantics]) are written down, and
      the theorem says that [interpreter_execute_line] on the text of a
      line leaves the state that [run_line] gives
      ([execute_line_denotes]).  The per-statement lemmas are stated with
      the rest of the line as a continuation ([continues]); the skip of a
      false [IF] is followed through the tokens of the rest of the line
      ([skippable]).  As in [Semantics], these definitions model no line
      of the code.
    - [Run]: [interpreter_run] as a loop on fuel ([run_loop]) and as a
      transition system ([step], [halts]), [interpreter_list],
      [interpreter_new].  The loop and the transition system agree
      ([run_loop_runs_to], [runs_to_run_loop]); the invariants are proved
      on the transition system by induction on its steps.  Theorems: a run
      keeps the program, a valid cursor, a well-formed screen
      ([run_frame]) and well-formed stores ([interp_ok]); a run that is
      entered with the error flag set stops after its first line.
      Examples run whole programs.
    - [Programs]: the reference for the run of a program.  A program is a
      list of numbered lines of statements ([Line]) and
      [show_program] is the store that holds their text.  Without jumps,
      [run_lines] runs the statements of the lines one after the other up
      to the first [END], [STOP] or [EXIT], and [interpreter_run] on the
      text of the program ends within one turn per line and one more and
      leaves that state ([jump_free_program_runs]).  The statements other
      than [GOTO] and [IF] with a line number leave the cursor, the
      program and the two flags of the loop as they are ([steady],
      [calm]), which is why the comparison of pointers in the loop takes
      every such line for a fall through.  With a jump at the end of a
      line, one turn of the loop is [jump_to] after the statements before
      the jump ([jump_turn]): the cursor goes to the line with the number
      of the jump ([line_index]), to the next line when that line is the
      line of the jump itself or when an [IF] names no line of the
      program, and a [GOTO] to no line stops the run with two messages.
      A [GOTO] back to a line above it, with lines in between that run
      through, makes a run that no fuel ends
      ([backward_goto_diverges]).
    - [Loops]: the reference for the run of a program with jumps.
      [run_ref] runs the lines on their statements: the statements of a
      line up to a jump at its end ([run_flow], which says whether a
      false [IF] or an [END] left the line before the jump), the jump by
      [jump_to], and so on from the line that the cursor names, up to the
      end of the program, a statement that ends the run or a [GOTO] to
      no line.  Theorem: on a program in ascending order whose lines
      hold a jump at their end only ([tidy]), [interpreter_run] on the
      text is [run_ref], for every fuel ([interpreter_run_refines]); the
      two end together, in the same state, or neither ends.  The proof
      is a lock-step simulation: a turn of the loop is a turn of the
      reference ([run_step_turn]) and keeps what the loop relies on
      ([ready]).
    - [Files]: [interpreter_load] and [interpreter_save] of
      [src/interpreter.c], with [fgets] and [sscanf] modelled from the C
      standard.  Theorems: a load ends on every file and leaves well-formed
      stores; a load of a saved file gives the saved program back, for
      lines that a file holds as they are ([storable]); what [LIST] prints
      is the text that [SAVE] writes.
    - [Repl]: the direct mode of [src/cfbasic.c]: [is_immediate_command],
      [extract_line_number], [execute_immediate_command], [print_banner]
      and the loop of [repl] over the keys of the input ([repl_loop]).
      [repl] takes the state of the allocator: the cells of the screen are
      charged to the budget, and the banner prints what is left.
      Theorems: a line that [LIST] prints is read back as it is; whatever
      the user types, the program stays in ascending order and the
      variable store well formed; on keys without Enter the loop ends
      within one turn per key and two more, leaves the program, the
      variables, the memory and the files as they are ([idle]) and the
      interrupt flag cleared ([repl_loop_ends]); the banner fits its
      buffer of 1024 bytes on a screen of up to 720 columns.  More fuel
      than that does not change the answer of the loop
      ([repl_loop_fuel]).  Examples run whole sessions ([session]).
    - [Main]: [main] of [src/cfbasic.c] over the arguments behind the name
      of the program: the loop over the options ([parse_args], with
      [print_usage]), the budget, the choice between a file and the direct
      mode ([main_body]) and [interpreter_free].  Theorems: an unknown
      option ends the process with the usage and exit code 1; file names
      followed by [-M] and a size with a unit start the session with that
      budget and the last file name.

    ** Modelling conventions

    - A C [int] is a [Z]; where the code converts or truncates, the wrap is
      written out ([wrap32], [wrap16], [wrap8]).  A [double] is an IEEE-754
      binary64 value of [Stdlib.Floats.SpecFloat] (no primitive floats, no
      axioms).
    - A pointer into a linked list is the index of the node in the list
      ([option nat], [None] for [NULL]); the [next] member of the node at
      index [i] is [node_next].  An index cannot dangle: the state of the
      code in which [current_line] points to a node that
      [program_delete_line] has freed has no counterpart, and the run
      loop, which sets the cursor before it reads it, does not depend on
      one.  [current_line_number] is 0 where the code would read the
      number through a [NULL] cursor.
    - Output is explicit: the fields [stdout] and [stderr] of [Interpreter]
      hold the bytes written so far, and an [Editor] travels with the
      terminal stream as a [Screen].
    - Input is explicit: the keys are a list of results of [read]
      ([ReadLine.Input]); a read that a signal interrupts is the element
      [RdIntr], after which the interrupt flag is set.  The files are a
      finite map from names to contents together with the set of names
      that cannot be opened for writing.
    - The sources call [malloc] through a budget; the interpreter files are
      modelled under the assumption that the budget is not exhausted, so a
      copy of a string is the string and a release has no effect; [Utils]
      models the budget itself.  The one allocation that is charged to
      the budget outside [Utils] is the screen of [repl], before the
      banner prints the free memory.
    - [strtod] has no answer ([None]) on hexadecimal numbers, infinity
      and NaN, and [parse_memory_size] and [main] have none with it.
    - A conversion of a double outside the range of its integer type
      ([double_to_int], [double_to_uint16], [double_to_uint8],
      [double_to_size]) is undefined in C; the model takes what the code
      of the compilers on x86-64 gives.  [sscanf] with [%d] on a number
      outside [int] takes the result of glibc.
    - The products of two [int]s in [draw_line] and [editor_init]
      ([rows * cols], [y * cols + x]) are computed in [Z]; the theorems
      on them are stated for screens in the range where the product is an
      [int].

    ** Fuel

    A loop whose termination depends on the input is a [Fixpoint] on a fuel
    argument returning [option], [None] when the fuel runs out.
    - The lexer loops ([skip_while]) get the number of characters left:
      each turn consumes one.
    - The evaluator gets [eval_fuel], twice the characters left plus two:
      every recursive call through a parenthesis and every turn of the
      operator loop consumes a token, and a call of [evaluate_expression]
      spends one unit on itself and one on its factor
      ([Eval.evaluate_expression_total]).
    - The token loop of the executor, the [PRINT] loop and the skip loop of
      [IF] get the characters left plus one: each turn consumes a token
      that is not [TOK_EOF] ([Exec.interpreter_execute_line_total]).
    - The run loop has no bound: a program with a [GOTO] back runs for
      ever, which the model states as no fuel giving an answer
      ([Programs.backward_goto_diverges]); the invariants of a run are
      stated for the fuels that give an answer and for the transition
      system.  A program without jumps needs one turn per line and one
      more ([Programs.jump_free_program_runs]).  The reference run of
      [Loops] takes the same fuel as the loop, one unit per line that is
      executed and one for the test that ends the loop, so that the two
      are compared fuel by fuel ([Loops.interpreter_run_refines]).
    - [draw_loop] gets one turn per step along either axis plus one: each
      turn but the last moves one cell closer to the end point along an
      axis ([Draw.draw_scaled_line]).
    - The scans of a row in [editor_read_line] get the columns of the
      screen plus one.
    - The loop of [interpreter_load] gets the bytes of the file plus one:
      each [fgets] takes at least one byte ([Files.interpreter_load_total]).
    - The loop of [repl] gets the number of keys plus two: each turn reads
      at least one key, and without keys the loop ends in its second turn
      ([Repl.repl_loop_ends] for keys without Enter, [Repl.repl_loop_fuel]
      for all inputs on which the loop has an answer).  A [RUN] inside it
      gets the fuel that [repl] is given for runs, and the loop has no
      answer when a run has none.
    - The loop of [format_memory_size] gets four turns: the unit grows by
      one in each and stops the loop at 3 ([MemSize.format_unit_bounds]).
    - The loop of [main] over its arguments is structural.

    ** Not modelled

    The installation of the signal handler and the raw terminal mode are
    calls into the system; their effect on the program is the list of
    keys and interrupted reads that [ReadLine] takes as its input.
    [clear_screen] and [read_line] of [src/utils.c] are called by no code
    and are left out.  The functions that only release memory
    ([lexer_free], [token_free], [editor_free]) have no counterpart.  The
    allocations of the interpreter (program lines, variables, values,
    the line buffer of [editor_read_line]) are not charged to the budget,
    so the branches of the code on a failed allocation are left out, the
    one of [basic_print] on a failed [vasprintf] among them.  Where the
    budget refuses the cells of the screen the code goes on and writes
    through [NULL]; the model stops there with the fault flag of the
    screen set.  [interpreter_free] releases the stores and leaves the
    message buffer out, which the model does not hold.  A signal that
    arrives during [RUN] is not modelled: the interrupt flag changes only
    between the keys of [editor_read_line].  An [int] overflow in
    [draw_line], which is undefined in C, is not modelled. *)

From Stdlib Require Export ZArith Ascii String Lia.
From Stdlib Require Import DecimalString.
From stdpp Require Export base tactics option list.

#[global] Open Scope string_scope.
#[global] Open Scope list_scope.
#[global] Open Scope Z_scope.

(** ** Scope and notations *)

Declare Scope cfb_scope.
Delimit Scope cfb_scope with cfb.

Abbreviation NUL := ("000"%char) (only parsing).

(** The double quote character. *)
Abbreviation QUOTE := ("034"%char) (only parsing).
Notation "s1 +++ s2" := (String.append s1 s2)
  (at level 60, right associativity) : cfb_scope.
Notation "[ c ]s" := (String c EmptyString) (at level 0) : cfb_scope.

#[global] Open Scope cfb_scope.

Create HintDb cfb discriminated.
Create Rewrite HintDb cfb_rw.

(** ** Characters

    [code c] is the value of [(unsigned char)c].  The classification
    functions are those of [<ctype.h>] in the C locale. *)

Definition code (c : ascii) : Z := Z.of_N (N_of_ascii c).

Definition c_isdigit (c : ascii) : bool := (48 <=? code c) && (code c <=? 57).
Definition c_isupper (c : ascii) : bool := (65 <=? code c) && (code c <=? 90).
Definition c_islower (c : ascii) : bool := (97 <=? code c) && (code c <=? 122).
Definition c_isalpha (c : ascii) : bool := c_isupper c || c_islower c.
Definition c_isalnum (c : ascii) : bool := c_isalpha c || c_isdigit c.

(** [isspace] in the C locale. *)
Definition c_isspace (c : ascii) : bool :=
  (code c =? 32) || ((9 <=? code c) && (code c <=? 13)).
Definition c_iscntrl (c : ascii) : bool := (code c <? 32) || (code c =? 127).

Definition c_toupper (c : ascii) : ascii :=
  if c_islower c then ascii_of_N (N_of_ascii c - 32) else c.

Definition char_of_Z (z : Z) : ascii := ascii_of_N (Z.to_N (z mod 256)).

(** ** Machine integers *)

Definition wrap8 (z : Z) : Z := z mod 2 ^ 8.
Definition wrap16 (z : Z) : Z := z mod 2 ^ 16.
Definition wrap32 (z : Z) : Z := (z + 2 ^ 31) mod 2 ^ 32 - 2 ^ 31.
Definition wrap64u (z : Z) : Z := z mod 2 ^ 64.

Definition INT_MIN : Z := - 2 ^ 31.
Definition INT_MAX : Z := 2 ^ 31 - 1.

(** ** Strings *)

(** A C string holds no NUL before its terminator. *)
Fixpoint cstr (s : string) : Prop :=
  match s with
  | EmptyString => True
  | String c s' => c <> NUL /\ cstr s'
  end.

(** [s[n]] for a NUL-terminated buffer: the terminator past the end. *)
Definition char_at (s : string) (n : nat) : ascii :=
  default NUL (String.get n s).

(** Whether every character of [s] satisfies [p]. *)
Fixpoint str_all (p : ascii -> bool) (s : string) : bool :=
  match s with
  | String c s' => p c && str_all p s'
  | EmptyString => true
  end.

(** The last character of a string, [NUL] for the empty one. *)
Fixpoint last_char (s : string) : ascii :=
  match s with
  | EmptyString => NUL
  | String c EmptyString => c
  | String _ s' => last_char s'
  end.

(** The text [s] between double quotes, as a BASIC source writes it. *)
Definition quoted (s : string) : string := String QUOTE (s +++ String QUOTE "").

(** [printf("%d", z)]. *)
Definition fmt_d (z : Z) : string := NilZero.string_of_int (Z.to_int z).

(** ** Tactics *)

(** Case analysis over the 256 characters. *)
Ltac ascii_cases c :=
  destruct c as [[] [] [] [] [] [] [] []]; vm_compute; try reflexivity; try discriminate;
  try tauto.

(** Destructs the scrutinee of the first [match] or [if] of the goal. *)
Ltac case_head :=
  match goal with
  | |- context [match ?x with _ => _ end] => destruct x eqn:?
  end.

(** Inverts equations between [Some] and pairs in the hypotheses. *)
Ltac inv_some :=
  repeat match goal with
  | H : Some _ = Some _ |- _ => injection H as H; try subst
  | H : (_, _) = (_, _) |- _ => injection H as ?; try subst
  | H : None = Some _ |- _ => discriminate H
  | H : Some _ = None |- _ => discriminate H
  end.

(** ** Lemmas on characters *)

Lemma code_range (c : ascii) : 0 <= code c < 256.
Proof.
  unfold code. pose proof (N_ascii_bounded c). lia.
Qed.

Lemma code_inj (a b : ascii) : code a = code b -> a = b.
Proof.
  unfold code. intros H.
  rewrite <- (ascii_N_embedding a), <- (ascii_N_embedding b).
  f_equal. lia.
Qed.

Lemma c_toupper_idem (c : ascii) : c_toupper (c_toupper c) = c_toupper c.
Proof. ascii_cases c. Qed.

Lemma c_toupper_not_lower (c : ascii) : c_islower (c_toupper c) = false.
Proof. ascii_cases c. Qed.

Lemma c_isalpha_toupper (c : ascii) : c_isalpha (c_toupper c) = c_isalpha c.
Proof. ascii_cases c. Qed.

Lemma c_isdigit_toupper (c : ascii) : c_isdigit (c_toupper c) = c_isdigit c.
Proof. ascii_cases c. Qed.

Lemma c_isalnum_toupper (c : ascii) : c_isalnum (c_toupper c) = c_isalnum c.
Proof. ascii_cases c. Qed.

Lemma c_toupper_NUL (c : ascii) : c_toupper c = NUL <-> c = NUL.
Proof. ascii_cases c; split; discriminate. Qed.

Lemma c_toupper_dollar (c : ascii) : c_toupper c = "$"%char <-> c = "$"%char.
Proof. ascii_cases c; split; discriminate. Qed.

Lemma c_toupper_underscore (c : ascii) : c_toupper c = "_"%char <-> c = "_"%char.
Proof. ascii_cases c; split; discriminate. Qed.

Lemma c_isdigit_not_NUL (c : ascii) : c_isdigit c = true -> c <> NUL.
Proof. ascii_cases c. Qed.

Lemma c_isalnum_not_NUL (c : ascii) : c_isalnum c = true -> c <> NUL.
Proof. ascii_cases c. Qed.

(** ** Lemmas on machine integers *)

Lemma wrap8_range z : 0 <= wrap8 z < 256.
Proof. unfold wrap8. apply Z.mod_pos_bound. lia. Qed.

Lemma wrap16_range z : 0 <= wrap16 z < 65536.
Proof. unfold wrap16. apply Z.mod_pos_bound. lia. Qed.

Lemma wrap32_range z : INT_MIN <= wrap32 z <= INT_MAX.
Proof.
  unfold wrap32, INT_MIN, INT_MAX.
  pose proof (Z.mod_pos_bound (z + 2 ^ 31) (2 ^ 32)). lia.
Qed.

Lemma wrap32_small z : INT_MIN <= z <= INT_MAX -> wrap32 z = z.
Proof.
  unfold wrap32, INT_MIN, INT_MAX. intros H.
  rewrite Z.mod_small; lia.
Qed.

Lemma wrap16_small z : 0 <= z < 65536 -> wrap16 z = z.
Proof. unfold wrap16. intros H. apply Z.mod_small. lia. Qed.

Lemma wrap8_small z : 0 <= z < 256 -> wrap8 z = z.
Proof. unfold wrap8. intros H. apply Z.mod_small. lia. Qed.

#[export] Hint Resolve wrap8_range wrap16_range wrap32_range code_range : cfb.
#[export] Hint Rewrite c_toupper_idem c_isalpha_toupper c_isdigit_toupper
  c_isalnum_toupper : cfb_rw.

(** ** Lemmas on strings *)

Lemma get_lt_is_Some (s : string) (n : nat) :
  (n < String.length s)%nat -> is_Some (String.get n s).
Proof.
  revert n. induction s as [|c s IH]; intros [|n] H; simpl in *; try lia; eauto.
  apply IH. lia.
Qed.

Lemma get_ge_None (s : string) (n : nat) :
  (String.length s <= n)%nat -> String.get n s = None.
Proof.
  revert n. induction s as [|c s IH]; intros [|n] H; simpl in *; try lia; eauto.
  apply IH. lia.
Qed.

Lemma get_Some_lt (s : string) (n : nat) (c : ascii) :
  String.get n s = Some c -> (n < String.length s)%nat.
Proof.
  intros H. destruct (Nat.lt_ge_cases n (String.length s)) as [|Hge]; [done|].
  rewrite get_ge_None in H by done. discriminate.
Qed.

Lemma char_at_ge (s : string) (n : nat) :
  (String.length s <= n)%nat -> char_at s n = NUL.
Proof. intros H. unfold char_at. by rewrite get_ge_None. Qed.

Lemma char_at_not_NUL_lt (s : string) (n : nat) :
  char_at s n <> NUL -> (n < String.length s)%nat.
Proof.
  intros H. destruct (Nat.lt_ge_cases n (String.length s)) as [|Hge]; [done|].
  by rewrite char_at_ge in H.
Qed.

Lemma length_append (s1 s2 : string) :
  String.length (s1 +++ s2) = (String.length s1 + String.length s2)%nat.
Proof. induction s1; simpl; congruence. Qed.

Lemma append_nil_r (s : string) : s +++ "" = s.
Proof. induction s; simpl; congruence. Qed.

Lemma append_assoc (s1 s2 s3 : string) : (s1 +++ s2) +++ s3 = s1 +++ s2 +++ s3.
Proof. induction s1; simpl; congruence. Qed.

Lemma cstr_append (s1 s2 : string) : cstr (s1 +++ s2) <-> cstr s1 /\ cstr s2.
Proof. induction s1; simpl; tauto. Qed.

Lemma length_substring_le (n m : nat) (s : string) :
  (String.length (substring n m s) <= m)%nat.
Proof.
  revert n m. induction s as [|c s IH]; intros [|n] [|m]; simpl; try lia.
  - specialize (IH 0%nat m). lia.
  - apply (IH n 0%nat).
  - apply (IH n (S m)).
Qed.

Lemma length_substring (n m : nat) (s : string) :
  (n + m <= String.length s)%nat -> String.length (substring n m s) = m.
Proof.
  revert n m. induction s as [|c s IH]; intros [|n] [|m]; simpl; try lia.
  - intros H. rewrite IH; lia.
  - intros H. apply (IH n 0%nat). lia.
  - intros H. apply (IH n (S m)). lia.
Qed.

#[export] Hint Rewrite length_append append_nil_r append_assoc : cfb_rw.
