(* ===== verification/Utils.v ===== *)
(** * Utils: the allocation budget and the string helpers of [src/utils.c]

    [MemState] holds the two globals of [utils.c] and the [stderr] stream
    that [error] writes.  [safe_malloc] takes the answer of the system
    allocator as a boolean argument: the budget check, the accounting and
    the fatal exit are the code's, the answer of [malloc] is the
    environment's.  [size_t] is 64 bits wide and its arithmetic wraps. *)

From S2P Require Import Prelude.

(** ** Error reporting *)

(** [error(msg)]: writes "?msg ERROR" and a newline to [stderr]. *)
Definition error (stderr : string) (msg : string) : string :=
  stderr +++ "?" +++ msg +++ " ERROR" +++ ["010"%char]s.

(** [warning(msg)]. *)
Definition warning (stderr : string) (msg : string) : string :=
  stderr +++ "WARNING: " +++ msg +++ ["010"%char]s.

(** ** The allocation budget *)

Record MemState := mkMemState {
  total_memory_limit : Z;
  memory_used : Z;
  mem_stderr : string
}.

(** The initial values of the globals: a budget of 1GB. *)
Definition mem_initial : MemState :=
  {| total_memory_limit := 1073741824; memory_used := 0; mem_stderr := "" |}.

Definition init_memory (m : MemState) (limit : Z) : MemState :=
  {| total_memory_limit := limit; memory_used := 0; mem_stderr := mem_stderr m |}.

(** What a call of the allocator gives: a block (and the new state), [NULL]
    (the budget refused), or the end of the process ([exit(1)]). *)
Inductive AllocResult : Type :=
  | AllocOk (m : MemState)
  | AllocNull (m : MemState)
  | AllocExit (m : MemState).

Definition safe_malloc (sys_ok : bool) (m : MemState) (size : Z) : AllocResult :=
  if wrap64u (memory_used m + size) >? total_memory_limit m then
    AllocNull {| total_memory_limit := total_memory_limit m;
                 memory_used := memory_used m;
                 mem_stderr := error (mem_stderr m) "OUT OF MEMORY" |}
  else if negb sys_ok then
    AllocExit {| total_memory_limit := total_memory_limit m;
                 memory_used := memory_used m;
                 mem_stderr := error (mem_stderr m) "SYSTEM OUT OF MEMORY" |}
  else
    AllocOk {| total_memory_limit := total_memory_limit m;
               memory_used := wrap64u (memory_used m + size);
               mem_stderr := mem_stderr m |}.

Definition safe_realloc (sys_ok : bool) (m : MemState) (old_size new_size : Z)
  : AllocResult :=
  if wrap64u (memory_used m - old_size + new_size) >? total_memory_limit m then
    AllocNull {| total_memory_limit := total_memory_limit m;
                 memory_used := memory_used m;
                 mem_stderr := error (mem_stderr m) "OUT OF MEMORY" |}
  else if negb sys_ok then
    AllocExit {| total_memory_limit := total_memory_limit m;
                 memory_used := memory_used m;
                 mem_stderr := error (mem_stderr m) "SYSTEM OUT OF MEMORY" |}
  else
    AllocOk {| total_memory_limit := total_memory_limit m;
               memory_used := wrap64u (memory_used m - old_size + new_size);
               mem_stderr := mem_stderr m |}.

(** [safe_free] releases the block and leaves the accounting as it is. *)
Definition safe_free (m : MemState) : MemState := m.

Definition get_free_memory (m : MemState) : Z :=
  wrap64u (total_memory_limit m - memory_used m).

(** The state after a call, whatever its outcome. *)
Definition alloc_state (r : AllocResult) : MemState :=
  match r with AllocOk m | AllocNull m | AllocExit m => m end.

(** One request to the allocator, for sequences of requests. *)
Inductive MemOp : Type :=
  | OpMalloc (size : Z)
  | OpFree.

Definition mem_step (m : MemState) (op : MemOp) : MemState :=
  match op with
  | OpMalloc size => alloc_state (safe_malloc true m size)
  | OpFree => safe_free m
  end.

Definition mem_run (ops : list MemOp) (m : MemState) : MemState :=
  fold_left mem_step ops m.

(** The bytes the successful requests of a sequence asked for. *)
Fixpoint granted (ops : list MemOp) (m : MemState) : Z :=
  match ops with
  | [] => 0
  | OpMalloc size :: ops' =>
      let r := safe_malloc true m size in
      match r with AllocOk _ => size | _ => 0 end + granted ops' (alloc_state r)
  | OpFree :: ops' => granted ops' (safe_free m)
  end.

(** Requests of sizes a program can make: at most the budget each. *)
Definition sane_op (limit : Z) (op : MemOp) : Prop :=
  match op with
  | OpMalloc size => 0 <= size <= limit
  | OpFree => True
  end.

Definition mem_ok (m : MemState) : Prop :=
  0 <= memory_used m <= total_memory_limit m /\ total_memory_limit m < 2 ^ 63.

(** ** Strings *)

(** [str_duplicate]: the copy and the bytes it asks the allocator for. *)
Definition str_duplicate (sys_ok : bool) (m : MemState) (str : option string)
  : option string * AllocResult :=
  match str with
  | None => (None, AllocOk m)
  | Some s =>
      let len := Z.of_nat (String.length s) + 1 in
      match safe_malloc sys_ok m len with
      | AllocOk m' => (Some s, AllocOk m')
      | r => (None, r)
      end
  end.

Fixpoint str_upper (str : string) : string :=
  match str with
  | EmptyString => EmptyString
  | String c s => String (c_toupper c) (str_upper s)
  end.

Fixpoint str_compare_nocase (s1 s2 : string) : Z :=
  match s1, s2 with
  | String a s1', String b s2' =>
      let c1 := code (c_toupper a) in
      let c2 := code (c_toupper b) in
      if negb (c1 =? c2) then c1 - c2 else str_compare_nocase s1' s2'
  | String a _, EmptyString => code (c_toupper a) - code (c_toupper NUL)
  | EmptyString, String b _ => code (c_toupper NUL) - code (c_toupper b)
  | EmptyString, EmptyString => code (c_toupper NUL) - code (c_toupper NUL)
  end.

(** ** Properties of the budget *)

Section Budget.
Implicit Types (m : MemState) (size : Z).

Lemma safe_malloc_limit sys_ok m size :
  total_memory_limit (alloc_state (safe_malloc sys_ok m size)) = total_memory_limit m.
Proof. unfold safe_malloc. repeat case_match; reflexivity. Qed.

Lemma safe_malloc_ok_used m m' size :
  mem_ok m -> 0 <= size <= total_memory_limit m ->
  safe_malloc true m size = AllocOk m' ->
  memory_used m' = memory_used m + size /\ mem_ok m'.
Proof.
  unfold safe_malloc, mem_ok, wrap64u. intros [Hu Hl] Hs.
  rewrite Z.mod_small by lia.
  destruct (Z.gtb_spec (memory_used m + size) (total_memory_limit m));
    simpl; intros [= <-]; simpl; lia.
Qed.

Lemma safe_malloc_null_iff m size :
  mem_ok m -> 0 <= size <= total_memory_limit m ->
  (exists m', safe_malloc true m size = AllocNull m') <->
  total_memory_limit m < memory_used m + size.
Proof.
  unfold safe_malloc, mem_ok, wrap64u. intros [Hu Hl] Hs.
  rewrite Z.mod_small by lia.
  destruct (Z.gtb_spec (memory_used m + size) (total_memory_limit m)); simpl.
  - split; [lia | eauto].
  - split; [intros [? [=]] | lia].
Qed.

Lemma safe_malloc_refused sys_ok m size :
  match safe_malloc sys_ok m size with
  | AllocOk _ => True
  | AllocNull m' | AllocExit m' =>
      memory_used m' = memory_used m /\
      total_memory_limit m' = total_memory_limit m
  end.
Proof. unfold safe_malloc. repeat case_match; simplify_eq; done. Qed.

Lemma mem_step_ok m op :
  mem_ok m -> sane_op (total_memory_limit m) op ->
  mem_ok (mem_step m op) /\
  total_memory_limit (mem_step m op) = total_memory_limit m.
Proof.
  intros Hm Hop. destruct op as [size|]; simpl in *; [|done].
  destruct (safe_malloc true m size) as [m'|m'|m'] eqn:E; simpl.
  - destruct (safe_malloc_ok_used _ _ _ Hm Hop E) as [_ Hok].
    split; [done|]. by rewrite <- (safe_malloc_limit true m size), E.
  - pose proof (safe_malloc_refused true m size) as H. rewrite E in H.
    unfold mem_ok in *. lia.
  - pose proof (safe_malloc_refused true m size) as H. rewrite E in H.
    unfold mem_ok in *. lia.
Qed.
End Budget.

(** C11: the budget counts what was ever allocated, not what is live: after
    any sequence of requests of sane sizes, [memory_used] is its initial
    value plus the sizes of all the requests that were granted, whatever
    blocks were freed in between. *)
Theorem memory_used_is_cumulative (ops : list MemOp) (m : MemState) :
  mem_ok m ->
  Forall (sane_op (total_memory_limit m)) ops ->
  memory_used (mem_run ops m) = memory_used m + granted ops m.
Proof.
  revert m. induction ops as [|op ops IH]; intros m Hm Hops; simpl; [lia|].
  inversion Hops as [|? ? Hop Hrest]; subst.
  destruct (mem_step_ok m op Hm Hop) as [Hok Hlim].
  unfold mem_run in *. simpl. rewrite IH by (by rewrite ?Hlim).
  destruct op as [size|]; simpl in *; [|done].
  destruct (safe_malloc true m size) as [m'|m'|m'] eqn:E; simpl.
  - destruct (safe_malloc_ok_used _ _ _ Hm Hop E). lia.
  - pose proof (safe_malloc_refused true m size) as H. rewrite E in H. lia.
  - pose proof (safe_malloc_refused true m size) as H. rewrite E in H. lia.
Qed.

Lemma memory_used_is_cumulative_witness :
  memory_used (mem_run [OpMalloc 10; OpFree; OpMalloc 10] (init_memory mem_initial 16))
  = 0 + granted [OpMalloc 10; OpFree; OpMalloc 10] (init_memory mem_initial 16).
Proof.
  apply memory_used_is_cumulative.
  - unfold mem_ok. simpl. lia.
  - repeat constructor; simpl; lia.
Defined.

(** Allocating 10 bytes, freeing them and asking for 10 again is refused
    under a budget of 16 bytes: the free gave nothing back. *)
Example free_gives_nothing_back :
  exists m, safe_malloc true
    (mem_run [OpMalloc 10; OpFree] (init_memory mem_initial 16)) 10 = AllocNull m /\
    get_free_memory m = 6.
Proof. eexists. split; reflexivity. Qed.

(** A request close to [2^64] wraps the sum and passes the budget check. *)
Example safe_malloc_wraps :
  exists m, safe_malloc true (mkMemState 16 10 "") (2 ^ 64 - 5) = AllocOk m /\
    memory_used m = 5.
Proof. eexists. split; reflexivity. Qed.

(** ** Properties of the string helpers *)

Lemma length_str_upper (s : string) :
  String.length (str_upper s) = String.length s.
Proof. induction s; simpl; congruence. Qed.

Lemma str_upper_idem (s : string) : str_upper (str_upper s) = str_upper s.
Proof. induction s; simpl; [done|]. by rewrite c_toupper_idem, IHs. Qed.

Lemma str_upper_append (s1 s2 : string) :
  str_upper (s1 +++ s2) = str_upper s1 +++ str_upper s2.
Proof. induction s1; simpl; congruence. Qed.

Lemma cstr_str_upper (s : string) : cstr (str_upper s) <-> cstr s.
Proof. induction s; simpl; [done|]. rewrite c_toupper_NUL. tauto. Qed.

Lemma c_toupper_NUL_eq : c_toupper NUL = NUL.
Proof. reflexivity. Qed.

Lemma code_NUL : code NUL = 0.
Proof. reflexivity. Qed.

Lemma code_toupper_eqb (a b : ascii) :
  (code (c_toupper a) =? code (c_toupper b)) = true <-> c_toupper a = c_toupper b.
Proof.
  rewrite Z.eqb_eq. split; [apply code_inj | congruence].
Qed.

Lemma nocase_zero_upper (s1 s2 : string) :
  cstr s1 -> cstr s2 ->
  str_compare_nocase s1 s2 = 0 <-> str_upper s1 = str_upper s2.
Proof.
  revert s2. induction s1 as [|a s1 IH]; intros [|b s2] H1 H2;
    cbn [str_compare_nocase str_upper cstr] in *; rewrite ?c_toupper_NUL_eq.
  - done.
  - split; [|discriminate]. intros H. exfalso.
    assert (c_toupper b = NUL) as Hb by (apply code_inj; rewrite code_NUL in *; lia).
    apply (proj1 (c_toupper_NUL b)) in Hb. tauto.
  - split; [|discriminate]. intros H. exfalso.
    assert (c_toupper a = NUL) as Ha by (apply code_inj; rewrite code_NUL in *; lia).
    apply (proj1 (c_toupper_NUL a)) in Ha. tauto.
  - destruct (code (c_toupper a) =? code (c_toupper b)) eqn:E; simpl.
    + apply code_toupper_eqb in E. rewrite IH by tauto. rewrite E.
      split; [congruence | by intros [= ->]].
    + apply Z.eqb_neq in E. split; [lia|]. intros [= Hab _]. congruence.
Qed.

(** C40: on C strings, [str_compare_nocase] answers 0 exactly when the
    upper-cased strings are equal. *)
Theorem str_compare_nocase_zero (s1 s2 : string) :
  cstr s1 -> cstr s2 ->
  str_compare_nocase s1 s2 = 0 <-> str_upper s1 = str_upper s2.
Proof. apply nocase_zero_upper. Qed.

Lemma str_compare_nocase_zero_witness :
  str_compare_nocase "Print" "pRINT" = 0 <-> str_upper "Print" = str_upper "pRINT".
Proof.
  apply str_compare_nocase_zero; simpl; repeat split; discriminate.
Defined.

Lemma str_compare_nocase_refl (s : string) : str_compare_nocase s s = 0.
Proof. induction s; simpl; [done|]. by rewrite Z.eqb_refl. Qed.

Lemma str_compare_nocase_antisym (s1 s2 : string) :
  str_compare_nocase s2 s1 = - str_compare_nocase s1 s2.
Proof.
  revert s2. induction s1 as [|a s1 IH]; intros [|b s2]; simpl; try lia.
  rewrite (Z.eqb_sym (code (c_toupper b))).
  destruct (code (c_toupper a) =? code (c_toupper b)); simpl; [apply IH | lia].
Qed.

Lemma str_compare_nocase_upper_l (s1 s2 : string) :
  str_compare_nocase (str_upper s1) s2 = str_compare_nocase s1 s2.
Proof.
  revert s2. induction s1 as [|a s1 IH]; intros [|b s2]; simpl;
    rewrite ?c_toupper_idem; try done.
  by rewrite IH.
Qed.

#[export] Hint Rewrite length_str_upper str_upper_idem str_upper_append
  str_compare_nocase_refl str_compare_nocase_upper_l : cfb_rw.
