(* ===== verification/Numbers.v ===== *)
(** * Numbers: the C [double] and its conversions

    A [double] is an IEEE-754 binary64 value of [SpecFloat] (precision 53,
    [emax] 1024), with round-to-nearest-even arithmetic.  The operators the
    interpreter applies to doubles ([+], the six comparisons, [!= 0]) and
    the conversions to [int], [uint16_t], [uint8_t] and [char] are defined
    here, together with the two libc routines the interpreter calls on
    numbers: [atof] on the text of a numeric token and [printf("%g")].

    Conversions of a double outside the range of [int] are undefined in C;
    the model takes the x86-64 result ([cvttsd2si]: [INT_MIN]), and the
    narrower unsigned conversions keep the low bits of that [int].

    The last section shows that integers are exact: a positive number
    below 2^53 is rounded to itself, so an [int] that is made a double and
    cast back is unchanged, and a printed natural number is read back by
    [atof] as that number. *)

From Stdlib Require Export SpecFloat.
From Stdlib Require Import Decimal DecimalString DecimalPos.
From S2P Require Import Prelude.

Abbreviation double := spec_float.

Definition prec : Z := 53.
Definition emax : Z := 1024.

(** ** Constants and arithmetic *)

Definition d_zero : double := S754_zero false.

(** [(double)z] for an integer [z]. *)
Definition d_of_Z (z : Z) : double := binary_normalize prec emax z 0 false.

Definition d_add (a b : double) : double := SFadd prec emax a b.

(** The C comparison operators on doubles; all are false on a NaN operand
    except [!=], which is true. *)
Definition d_eq (a b : double) : bool := SFeqb a b.
Definition d_ne (a b : double) : bool := negb (SFeqb a b).
Definition d_lt (a b : double) : bool := SFltb a b.
Definition d_gt (a b : double) : bool := SFltb b a.
Definition d_le (a b : double) : bool := SFleb a b.
Definition d_ge (a b : double) : bool := SFleb b a.

(** [d != 0], the truth of a double in a C condition. *)
Definition d_nonzero (d : double) : bool := d_ne d d_zero.

Definition d_is_nan (d : double) : bool :=
  match d with S754_nan => true | _ => false end.

(** ** Conversions to integers *)

(** The integer part of a finite double (rounding toward zero). *)
Definition d_trunc (d : double) : option Z :=
  match d with
  | S754_zero _ => Some 0
  | S754_finite s m e =>
      let a := if 0 <=? e then Z.pos m * 2 ^ e else Z.pos m / 2 ^ (- e) in
      Some (if s then - a else a)
  | S754_infinity _ | S754_nan => None
  end.

(** [(int)d]. *)
Definition double_to_int (d : double) : Z :=
  match d_trunc d with
  | Some z => if (INT_MIN <=? z) && (z <=? INT_MAX) then z else INT_MIN
  | None => INT_MIN
  end.

(** [(uint16_t)d], [(uint8_t)d] and [(char)d]. *)
Definition double_to_uint16 (d : double) : Z := wrap16 (double_to_int d).
Definition double_to_uint8 (d : double) : Z := wrap8 (double_to_int d).
Definition double_to_char (d : double) : ascii := char_of_Z (double_to_int d).

(** ** Decimal input: [atof] *)

(** The correctly rounded double of [m * 10^e], for [0 <= m]. *)
Definition dec_to_double (m e : Z) : double :=
  if m =? 0 then d_zero
  else if 0 <=? e then binary_normalize prec emax (m * 10 ^ e) 0 false
  else
    let '(q, e', l) := SFdiv_core_binary prec emax m 0 (10 ^ (- e)) 0 in
    binary_round_aux prec emax false q e' l.

(** The longest prefix of decimal digits, and what follows it. *)
Fixpoint take_digits (s : string) : string * string :=
  match s with
  | String c s' =>
      if c_isdigit c then
        let '(d, r) := take_digits s' in (String c d, r)
      else (EmptyString, s)
  | EmptyString => (EmptyString, EmptyString)
  end.

Fixpoint digits_to_Z (acc : Z) (s : string) : Z :=
  match s with
  | String c s' => digits_to_Z (acc * 10 + (code c - 48)) s'
  | EmptyString => acc
  end.

Definition LONG_MAX : Z := 2 ^ 63 - 1.

(** libc's [strtol] in base 10 on a string that starts with a digit: the
    value, [LONG_MAX] when it does not fit, and the rest of the string. *)
Definition strtol (s : string) : Z * string :=
  let '(digits, rest) := take_digits s in
  (Z.min (digits_to_Z 0 digits) LONG_MAX, rest).

(** The exponent part [e[+-]ddd] at the head of [s]; 0 when there is none
    or when it holds no digit. *)
Definition exponent_part (s : string) : Z :=
  match s with
  | String c r =>
      if (c =? "e")%char || (c =? "E")%char then
        let '(neg, r') :=
          match r with
          | String "+" r' => (false, r')
          | String "-" r' => (true, r')
          | _ => (false, r)
          end in
        let '(ep, _) := take_digits r' in
        if neg then - digits_to_Z 0 ep else digits_to_Z 0 ep
      else 0
  | EmptyString => 0
  end.

(** [atof] on a text that starts with its digits: integer part, optional
    fraction, optional exponent; what follows is ignored. *)
Definition atof (s : string) : double :=
  let '(ip, r1) := take_digits s in
  let '(fp, r2) :=
    match r1 with
    | String "." r => take_digits r
    | _ => (EmptyString, r1)
    end in
  dec_to_double (digits_to_Z 0 (ip +++ fp))
                (exponent_part r2 - Z.of_nat (String.length fp)).

(** ** Decimal output: [printf("%g")] *)

(** Whether [num / den >= 10^k]. *)
Definition ge_pow10 (num den k : Z) : bool :=
  if 0 <=? k then den * 10 ^ k <=? num else den <=? num * 10 ^ (- k).

(** The decimal exponent of [num / den]: the largest [x] with
    [10^x <= num / den], searched upwards from [x]. *)
Fixpoint log10_from (fuel : nat) (x num den : Z) : Z :=
  match fuel with
  | O => x
  | S f => if ge_pow10 num den (x + 1) then log10_from f (x + 1) num den else x
  end.

(** [num / den * 10^s] rounded to the nearest integer, ties to even. *)
Definition round_scaled (num den s : Z) : Z :=
  let n := if 0 <=? s then num * 10 ^ s else num in
  let d := if 0 <=? s then den else den * 10 ^ (- s) in
  let q := n / d in
  let r := n mod d in
  if (d <? 2 * r) || ((d =? 2 * r) && Z.odd q) then q + 1 else q.

Fixpoint strip_zeros_rev (s : list ascii) : list ascii :=
  match s with
  | "0"%char :: s' => strip_zeros_rev s'
  | _ => s
  end.

(** Removes the trailing zeros of a string of digits. *)
Definition strip_zeros (s : string) : string :=
  string_of_list_ascii (rev (strip_zeros_rev (rev (list_ascii_of_string s)))).

Definition with_fraction (ip fp : string) : string :=
  match strip_zeros fp with
  | EmptyString => ip
  | f => ip +++ "." +++ f
  end.

Fixpoint zeros (n : nat) : string :=
  match n with O => EmptyString | S n' => String "0" (zeros n') end.

(** The exponent of the [e] style: a sign and at least two digits. *)
Definition fmt_exp (x : Z) : string :=
  (if x <? 0 then "e-" else "e+") +++
  (if Z.abs x <? 10 then "0" else "") +++ fmt_d (Z.abs x).

(** [%g] of the positive rational [num / den], precision 6. *)
Definition fmt_g_pos (num den : Z) : string :=
  let x0 := log10_from 700 (-350) num den in
  let d0 := round_scaled num den (5 - x0) in
  let '(d, x) := if d0 =? 1000000 then (100000, x0 + 1) else (d0, x0) in
  let ds := fmt_d d in
  if (-4 <=? x) && (x <? 6) then
    if 0 <=? x then
      with_fraction (substring 0 (Z.to_nat (x + 1)) ds)
                    (substring (Z.to_nat (x + 1)) (Z.to_nat (5 - x)) ds)
    else "0." +++ zeros (Z.to_nat (- x - 1)) +++ strip_zeros ds
  else with_fraction (substring 0 1 ds) (substring 1 5 ds) +++ fmt_exp x.

(** [printf("%g", d)]. *)
Definition fmt_g (d : double) : string :=
  match d with
  | S754_zero s => if s then "-0" else "0"
  | S754_infinity s => if s then "-inf" else "inf"
  | S754_nan => "nan"
  | S754_finite s m e =>
      (if s then "-" else "") +++
      (if 0 <=? e then fmt_g_pos (Z.pos m * 2 ^ e) 1
       else fmt_g_pos (Z.pos m) (2 ^ (- e)))
  end.

(** ** Evaluation on concrete inputs *)

Example atof_314 : atof "3.14E2" = d_of_Z 314.
Proof. vm_compute. reflexivity. Qed.

Example atof_tenth : atof "0.1" = S754_finite false 7205759403792794 (-56).
Proof. vm_compute. reflexivity. Qed.

Example atof_no_exponent_digits : atof "12E+" = d_of_Z 12.
Proof. vm_compute. reflexivity. Qed.

Example atof_overflow : atof "1E999" = S754_infinity false.
Proof. vm_compute. reflexivity. Qed.

Example fmt_g_5 : fmt_g (d_add (d_of_Z 2) (d_of_Z 3)) = "5".
Proof. vm_compute. reflexivity. Qed.

Example fmt_g_minus_one : fmt_g (d_of_Z (-1)) = "-1".
Proof. vm_compute. reflexivity. Qed.

Example fmt_g_tenth : fmt_g (atof "0.1") = "0.1".
Proof. vm_compute. reflexivity. Qed.

Example fmt_g_rounds : fmt_g (atof "1234567") = "1.23457e+06".
Proof. vm_compute. reflexivity. Qed.

Example fmt_g_small : fmt_g (atof "0.00001234") = "1.234e-05".
Proof. vm_compute. reflexivity. Qed.

Example fmt_g_fixed : fmt_g (atof "123456.7") = "123457".
Proof. vm_compute. reflexivity. Qed.

(** ** Properties *)

(** A comparison of doubles and its negation-free dual. *)
Lemma d_gt_lt (a b : double) : d_gt a b = d_lt b a.
Proof. reflexivity. Qed.

Lemma d_ge_le (a b : double) : d_ge a b = d_le b a.
Proof. reflexivity. Qed.

Lemma d_ne_eq (a b : double) : d_ne a b = negb (d_eq a b).
Proof. reflexivity. Qed.

Lemma SFcompare_refl (a : double) :
  d_is_nan a = false -> SFcompare a a = Some Eq.
Proof.
  destruct a as [s|s| |s m e]; simpl; try done; destruct s; try done;
    intros _; rewrite Z.compare_refl, Pos.compare_cont_refl; done.
Qed.

Lemma d_eq_refl (a : double) : d_is_nan a = false -> d_eq a a = true.
Proof. intros H. unfold d_eq, SFeqb. by rewrite SFcompare_refl. Qed.

Lemma d_nonzero_zero : d_nonzero d_zero = false.
Proof. reflexivity. Qed.

Lemma d_nonzero_minus_one : d_nonzero (d_of_Z (-1)) = true.
Proof. reflexivity. Qed.

Lemma double_to_int_range (d : double) :
  INT_MIN <= double_to_int d <= INT_MAX.
Proof.
  unfold double_to_int, INT_MIN, INT_MAX.
  destruct (d_trunc d) as [z|]; [|lia].
  destruct (Z.leb_spec (- 2 ^ 31) z), (Z.leb_spec z (2 ^ 31 - 1)); simpl; lia.
Qed.

Lemma double_to_uint16_range (d : double) : 0 <= double_to_uint16 d < 65536.
Proof. apply wrap16_range. Qed.

Lemma double_to_uint8_range (d : double) : 0 <= double_to_uint8 d < 256.
Proof. apply wrap8_range. Qed.

#[export] Hint Resolve double_to_int_range double_to_uint16_range
  double_to_uint8_range : cfb.

(** ** Decimal numerals

    [fmt_d] and the digit reader of [atof] and [strtol] are inverse to each
    other on the numbers that are not negative. *)

Section Decimal.
Import Decimal.

(** The value of the digits [d] after a prefix of value [acc]. *)
Fixpoint uint_val (acc : Z) (d : uint) : Z :=
  match d with
  | Nil => acc
  | D0 l => uint_val (acc * 10 + 0) l
  | D1 l => uint_val (acc * 10 + 1) l
  | D2 l => uint_val (acc * 10 + 2) l
  | D3 l => uint_val (acc * 10 + 3) l
  | D4 l => uint_val (acc * 10 + 4) l
  | D5 l => uint_val (acc * 10 + 5) l
  | D6 l => uint_val (acc * 10 + 6) l
  | D7 l => uint_val (acc * 10 + 7) l
  | D8 l => uint_val (acc * 10 + 8) l
  | D9 l => uint_val (acc * 10 + 9) l
  end.

Lemma of_uint_acc_val (l : uint) (p : positive) :
  Z.pos (Pos.of_uint_acc l p) = uint_val (Z.pos p) l.
Proof.
  revert p. induction l; intros p; simpl; rewrite ?IHl; try done; f_equal; lia.
Qed.

Lemma of_uint_val (d : uint) : Z.of_N (Pos.of_uint d) = uint_val 0 d.
Proof.
  induction d; simpl; try done; rewrite of_uint_acc_val; f_equal.
Qed.

Lemma digits_to_Z_uint (acc : Z) (d : uint) :
  digits_to_Z acc (NilEmpty.string_of_uint d) = uint_val acc d.
Proof. revert acc. induction d; intros acc; simpl; rewrite ?IHd; done. Qed.

Lemma take_digits_uint (d : uint) (rest : string) :
  c_isdigit (char_at rest 0) = false ->
  take_digits (NilEmpty.string_of_uint d +++ rest) = (NilEmpty.string_of_uint d, rest).
Proof.
  intros Hr. induction d; simpl; rewrite ?IHd; try done.
  destruct rest as [|c rest]; [done|]. simpl. unfold char_at in Hr. simpl in Hr.
  by rewrite Hr.
Qed.

Lemma fmt_d_uint (n : Z) :
  0 <= n -> exists d, fmt_d n = NilEmpty.string_of_uint d /\ uint_val 0 d = n.
Proof.
  intros Hn. destruct n as [|p|p]; [by exists (D0 Nil) | | lia].
  exists (Pos.to_uint p). split.
  - unfold fmt_d. simpl. pose proof (DecimalPos.Unsigned.to_uint_nonnil p).
    by destruct (Pos.to_uint p).
  - by rewrite <- of_uint_val, DecimalPos.Unsigned.of_to.
Qed.

End Decimal.

(** Reading the digits that [fmt_d] prints gives the number back, and the
    reading stops where the digits end. *)
Lemma take_digits_fmt_d (n : Z) (rest : string) :
  0 <= n -> c_isdigit (char_at rest 0) = false ->
  take_digits (fmt_d n +++ rest) = (fmt_d n, rest) /\
  digits_to_Z 0 (fmt_d n) = n.
Proof.
  intros Hn Hr. destruct (fmt_d_uint n Hn) as (d & -> & Hd).
  split; [by apply take_digits_uint | by rewrite digits_to_Z_uint].
Qed.

(** A printed number that is not negative is made of digits. *)
Lemma fmt_d_digits (n : Z) : 0 <= n -> str_all c_isdigit (fmt_d n) = true.
Proof.
  intros Hn. destruct (fmt_d_uint n Hn) as (d & -> & _). by induction d.
Qed.

Lemma char_at_append_head (s1 s2 : string) :
  s1 <> "" -> char_at (s1 +++ s2) 0 = char_at s1 0.
Proof. by destruct s1. Qed.

(** A printed number that is not negative starts with a digit. *)
Lemma fmt_d_digit_head (n : Z) : 0 <= n -> c_isdigit (char_at (fmt_d n) 0) = true.
Proof.
  intros Hn. destruct n as [|p|p]; [done | | lia]. unfold fmt_d. simpl.
  pose proof (DecimalPos.Unsigned.to_uint_nonnil p). by destruct (Pos.to_uint p).
Qed.

Lemma fmt_d_nonempty (n : Z) : 0 <= n -> fmt_d n <> "".
Proof.
  intros Hn E. pose proof (fmt_d_digit_head n Hn) as H. by rewrite E in H.
Qed.

(** ** Integers as doubles

    An integer below [2 ^ 53] is a double, and the casts of the code give
    it back: line numbers, addresses and bytes go through [double] without
    loss. *)

Section Exact.

Lemma iter_xO_val (p k : positive) : Z.pos (Pos.iter xO p k) = Z.pos p * 2 ^ Z.pos k.
Proof.
  induction k as [|k IH] using Pos.peano_ind.
  - simpl. lia.
  - rewrite Pos.iter_succ, Pos2Z.inj_succ, Z.pow_succ_r by lia.
    rewrite Pos2Z.inj_xO, IH. lia.
Qed.

Lemma digits2_iter_xO (p k : positive) :
  Z.pos (digits2_pos (Pos.iter xO p k)) = Z.pos (digits2_pos p) + Z.pos k.
Proof.
  induction k as [|k IH] using Pos.peano_ind.
  - simpl. lia.
  - rewrite Pos.iter_succ. simpl. rewrite Pos2Z.inj_succ, IH. lia.
Qed.

Lemma digits2_le (p : positive) (n : Z) :
  0 <= n -> Z.pos p < 2 ^ n -> Z.pos (digits2_pos p) <= n.
Proof.
  revert n. induction p as [p IH|p IH|]; intros n Hn Hlt; simpl.
  - destruct (Z.eq_dec n 0) as [->|]; [simpl in Hlt; lia|].
    specialize (IH (n - 1)). replace n with (Z.succ (n - 1)) in Hlt by lia.
    rewrite Z.pow_succ_r in Hlt by lia. lia.
  - destruct (Z.eq_dec n 0) as [->|]; [simpl in Hlt; lia|].
    specialize (IH (n - 1)). replace n with (Z.succ (n - 1)) in Hlt by lia.
    rewrite Z.pow_succ_r in Hlt by lia. lia.
  - destruct (Z.eq_dec n 0) as [->|]; [simpl in Hlt; lia|]. lia.
Qed.

(** A positive integer below [2 ^ 53] is rounded to itself, with a
    mantissa of 53 bits. *)
Lemma binary_round_canonical (s : bool) (p : positive) :
  Z.pos p < 2 ^ 53 ->
  exists m e, binary_round prec emax s p 0 = S754_finite s m e /\
              -52 <= e <= 0 /\ Z.pos m = Z.pos p * 2 ^ (- e) /\
              Z.pos (digits2_pos m) = 53.
Proof.
  intros Hp. pose proof (digits2_le p 53 ltac:(lia) Hp) as Hd.
  assert (0 < Z.pos (digits2_pos p)) as Hd0 by lia.
  unfold binary_round.
  assert (fexp prec emax (Z.pos (digits2_pos p) + 0) = Z.pos (digits2_pos p) - 53) as ->.
  { unfold fexp, emin, prec, emax. lia. }
  unfold shl_align. rewrite Z.sub_0_r.
  destruct (Z.pos (digits2_pos p) - 53) as [|q|q] eqn:E; [|lia|].
  - exists p, 0. split; [|split; [lia | split; [simpl; lia | lia]]].
    unfold binary_round_aux, shr_fexp. simpl Zdigits2.
    assert (fexp prec emax (Z.pos (digits2_pos p) + 0) = 0) as ->
      by (unfold fexp, emin, prec, emax; lia).
    simpl. assert (fexp prec emax (Z.pos (digits2_pos p) + 0) = 0) as ->
      by (unfold fexp, emin, prec, emax; lia).
    reflexivity.
  - pose proof (digits2_iter_xO p q) as Hq.
    exists (Pos.iter xO p q), (Z.neg q).
    split; [|split; [lia | split; [exact (iter_xO_val p q) | lia]]].
    unfold binary_round_aux, shr_fexp. simpl Zdigits2.
    assert (fexp prec emax (Z.pos (digits2_pos (Pos.iter xO p q)) + Z.neg q) = Z.neg q) as Hf
      by (unfold fexp, emin, prec, emax; lia).
    rewrite Hf, Z.sub_diag. simpl. rewrite Hf, Z.sub_diag. simpl.
    unfold prec, emax. reflexivity.
Qed.

Lemma binary_round_exact (s : bool) (p : positive) :
  Z.pos p < 2 ^ 53 ->
  exists m e, binary_round prec emax s p 0 = S754_finite s m e /\
              -52 <= e <= 0 /\ Z.pos m = Z.pos p * 2 ^ (- e).
Proof.
  intros Hp. destruct (binary_round_canonical s p Hp) as (m & e & E & He & Hm & _).
  by exists m, e.
Qed.

(** [(double)n] has the integer part [n]. *)
Lemma d_trunc_of_Z (n : Z) : - 2 ^ 53 < n < 2 ^ 53 -> d_trunc (d_of_Z n) = Some n.
Proof.
  intros Hn. destruct n as [|p|p]; [done| |]; unfold d_of_Z, binary_normalize.
  - destruct (binary_round_exact false p) as (m & e & -> & He & Hm); [lia|]. simpl.
    destruct (Z.leb_spec 0 e); f_equal.
    + replace e with 0 in * by lia. simpl in Hm. lia.
    + rewrite Hm. apply Z.div_mul. apply Z.pow_nonzero; lia.
  - destruct (binary_round_exact true p) as (m & e & -> & He & Hm); [lia|]. simpl.
    destruct (Z.leb_spec 0 e); f_equal.
    + replace e with 0 in * by lia. simpl in Hm. lia.
    + rewrite Hm, Z.div_mul by (apply Z.pow_nonzero; lia). lia.
Qed.

(** [(int)(double)n] is [n]. *)
Lemma double_to_int_of_Z (n : Z) :
  INT_MIN <= n <= INT_MAX -> double_to_int (d_of_Z n) = n.
Proof.
  intros Hn. unfold double_to_int. rewrite d_trunc_of_Z.
  - destruct (Z.leb_spec INT_MIN n), (Z.leb_spec n INT_MAX); simpl; lia.
  - unfold INT_MIN, INT_MAX in Hn. lia.
Qed.

Lemma double_to_uint16_of_Z (n : Z) : 0 <= n < 65536 -> double_to_uint16 (d_of_Z n) = n.
Proof.
  intros Hn. unfold double_to_uint16.
  rewrite double_to_int_of_Z by (unfold INT_MIN, INT_MAX; lia). by apply wrap16_small.
Qed.

Lemma double_to_uint8_of_Z (n : Z) : 0 <= n < 256 -> double_to_uint8 (d_of_Z n) = n.
Proof.
  intros Hn. unfold double_to_uint8.
  rewrite double_to_int_of_Z by (unfold INT_MIN, INT_MAX; lia). by apply wrap8_small.
Qed.

(** The decimal [n] with the exponent 0 is the double of [n]. *)
Lemma dec_to_double_int (n : Z) : 0 <= n -> dec_to_double n 0 = d_of_Z n.
Proof.
  intros Hn. unfold dec_to_double.
  destruct (Z.eqb_spec n 0) as [->|]; [done|]. simpl (0 <=? _).
  cbv iota. by rewrite Z.pow_0_r, Z.mul_1_r.
Qed.

(** [atof] reads a printed integer as that integer. *)
Lemma atof_fmt_d (n : Z) : 0 <= n -> atof (fmt_d n) = d_of_Z n.
Proof.
  intros Hn. unfold atof.
  destruct (take_digits_fmt_d n "" Hn eq_refl) as [Ht Hd].
  rewrite append_nil_r in Ht. rewrite Ht. cbn [exponent_part String.length].
  by rewrite append_nil_r, Hd, dec_to_double_int.
Qed.

End Exact.

