(* ===== verification/MemSize.v ===== *)
(** * MemSize: [parse_memory_size] and [format_memory_size] of [src/utils.c]

    The size of the allocation budget is read from the command line as a
    decimal number with an optional suffix [K], [M] or [G], and written in
    the banner with a unit.  Both functions compute in [double].

    libc is modelled from the C standard: [strtod] on the decimal forms
    (white space, a sign, digits with an optional fraction, an exponent
    that has a digit), [printf] with [%.Nf] (the exact value rounded to [N]
    decimals, ties to even).  The hexadecimal forms and the words [inf] and
    [nan] of [strtod] are left out: on a text that begins with one of them
    the model has no answer ([None]).

    The conversion of a double outside the range of [size_t] is undefined
    in C; the model takes the x86-64 result of the compilers, as [Numbers]
    does for [int]. *)

From S2P Require Import Prelude Utils Numbers.

#[local] Open Scope Z_scope.
#[local] Open Scope cfb_scope.

(** ** Arithmetic *)

Definition d_mul (a b : double) : double := SFmul prec emax a b.
Definition d_div (a b : double) : double := SFdiv prec emax a b.

(** [(size_t)d] on x86-64: the truncation when it fits 64 bits; above and
    on infinity the code that the compilers emit answers 0, and [2^63]
    below [-2^63] and on NaN. *)
Definition double_to_size (d : double) : Z :=
  match d_trunc d with
  | Some z =>
      if z <? - 2 ^ 63 then 2 ^ 63
      else if z <? 2 ^ 64 then wrap64u z
      else 0
  | None => match d with S754_infinity false => 0 | _ => 2 ^ 63 end
  end.

(** ** [strtod] *)

Fixpoint skip_spaces (s : string) : string :=
  match s with
  | String c s' => if c_isspace c then skip_spaces s' else s
  | EmptyString => s
  end.

(** The sign at the head of a text, and what follows it. *)
Definition take_sign (s : string) : bool * string :=
  match s with
  | String c r =>
      if (c =? "-")%char then (true, r)
      else if (c =? "+")%char then (false, r)
      else (false, s)
  | EmptyString => (false, s)
  end.

(** The exponent [e[+-]ddd] at the head of a text and what follows it;
    without a digit there is no exponent and nothing is taken. *)
Definition take_exponent (s : string) : Z * string :=
  match s with
  | String c r =>
      if (c =? "e")%char || (c =? "E")%char then
        let '(neg, r') := take_sign r in
        let '(ep, r'') := take_digits r' in
        match ep with
        | EmptyString => (0, s)
        | _ => (if neg then - digits_to_Z 0 ep else digits_to_Z 0 ep, r'')
        end
      else (0, s)
  | EmptyString => (0, s)
  end.

(** Whether the upper-case text [p] is a prefix of [s], letter case
    ignored. *)
Fixpoint prefix_nocase (p s : string) : bool :=
  match p, s with
  | EmptyString, _ => true
  | String a p', String b s' => (a =? c_toupper b)%char && prefix_nocase p' s'
  | String _ _, EmptyString => false
  end.

(** The forms of [strtod] that the model leaves out. *)
Definition special_form (s : string) : bool :=
  prefix_nocase "0X" s || prefix_nocase "INF" s || prefix_nocase "NAN" s.

(** [strtod(str, &endptr)]: the value and the text at [endptr].  Without a
    digit nothing is converted: the value is 0 and [endptr] is [str]. *)
Definition strtod (str : string) : option (double * string) :=
  let '(neg, r0) := take_sign (skip_spaces str) in
  if special_form r0 then None
  else
    let '(ip, r1) := take_digits r0 in
    let '(fp, r2) :=
      match r1 with
      | String c r => if (c =? ".")%char then take_digits r else (EmptyString, r1)
      | EmptyString => (EmptyString, r1)
      end in
    match ip +++ fp with
    | EmptyString => Some (d_zero, str)
    | digits =>
        let '(ex, r3) := take_exponent r2 in
        let d := dec_to_double (digits_to_Z 0 digits) (ex - Z.of_nat (String.length fp)) in
        Some (if neg then SFopp d else d, r3)
    end.

(** ** [parse_memory_size] *)

(** The [switch] on the suffix: the multiplier, or nothing for a suffix
    that is not known. *)
Definition multiplier_of (c : ascii) : option Z :=
  let u := c_toupper c in
  if (u =? "K")%char then Some 1024
  else if (u =? "M")%char then Some (1024 * 1024)
  else if (u =? "G")%char then Some (1024 * 1024 * 1024)
  else None.

Definition parse_memory_size (str : string) : option Z :=
  '(value, endptr) ← strtod str;
  if d_le value d_zero then Some 0
  else
    match endptr with
    | EmptyString => Some (double_to_size (d_mul value (d_of_Z 1)))
    | String c _ =>
        match multiplier_of c with
        | Some multiplier => Some (double_to_size (d_mul value (d_of_Z multiplier)))
        | None => Some 0
        end
    end.

(** ** [printf] with [%.Nf] *)

(** The digits of [n] in [width] places at least, with zeros in front. *)
Definition pad_zeros (width : nat) (n : Z) : string :=
  let ds := fmt_d n in
  zeros (width - String.length ds) +++ ds.

(** [%.Nf] of the rational [num / den], not negative. *)
Definition fmt_f_pos (places : nat) (num den : Z) : string :=
  let n := round_scaled num den (Z.of_nat places) in
  let unit := 10 ^ Z.of_nat places in
  match places with
  | O => fmt_d n
  | _ => fmt_d (n / unit) +++ "." +++ pad_zeros places (n mod unit)
  end.

Definition fmt_f (places : nat) (d : double) : string :=
  match d with
  | S754_zero s => (if s then "-" else "") +++ fmt_f_pos places 0 1
  | S754_infinity s => if s then "-inf" else "inf"
  | S754_nan => "nan"
  | S754_finite s m e =>
      (if s then "-" else "") +++
      (if 0 <=? e then fmt_f_pos places (Z.pos m * 2 ^ e) 1
       else fmt_f_pos places (Z.pos m) (2 ^ (- e)))
  end.

(** ** [format_memory_size] *)

Definition units : list string := ["B"; "KB"; "MB"; "GB"].

(** [while (x >= 1024 && unit < 3) { x /= 1024; unit++; }] *)
Fixpoint scale_loop (fuel : nat) (x : double) (unit : Z) : option (double * Z) :=
  match fuel with
  | O => None
  | S fuel =>
      if d_ge x (d_of_Z 1024) && (unit <? 3) then
        scale_loop fuel (d_div x (d_of_Z 1024)) (unit + 1)
      else Some (x, unit)
  end.

(** The loop from unit 0: three divisions at most. *)
Definition scale (x : double) : double * Z :=
  default (x, 0) (scale_loop 4 x 0).

Definition unit_name (unit : Z) : string := default "" (units !! Z.to_nat unit).

Definition format_memory_size (size limit : Z) : string :=
  let '(size_float, size_unit) := scale (d_of_Z size) in
  let '(limit_float, limit_unit) := scale (d_of_Z limit) in
  fmt_f 2 size_float +++ " " +++ unit_name size_unit +++ " Free, " +++
  fmt_f 0 limit_float +++ " " +++ unit_name limit_unit +++ " Allocated".

(** The characters behind a printed number that end it for [strtod]. *)
Definition ends_decimal (c : ascii) : bool :=
  negb (c_isdigit c) && negb (c =? ".")%char && negb (c_toupper c =? "E")%char &&
  negb (c_toupper c =? "X")%char.

(** The suffixes of a size and what they stand for. *)
Definition suffix_unit (c : ascii) (mult : Z) : Prop :=
  (c = "K"%char \/ c = "k"%char) /\ mult = 1024 \/
  (c = "M"%char \/ c = "m"%char) /\ mult = 1048576 \/
  (c = "G"%char \/ c = "g"%char) /\ mult = 1073741824.

(** ** Evaluation on concrete inputs *)

Example parse_1G : parse_memory_size "1G" = Some 1073741824.
Proof. vm_compute. reflexivity. Qed.

Example parse_512m : parse_memory_size "512m" = Some 536870912.
Proof. vm_compute. reflexivity. Qed.

Example parse_fraction : parse_memory_size " +1.5K" = Some 1536.
Proof. vm_compute. reflexivity. Qed.

Example parse_plain : parse_memory_size "2048" = Some 2048.
Proof. vm_compute. reflexivity. Qed.

(** Only the first character behind the number is looked at. *)
Example parse_long_suffix : parse_memory_size "4KiB and more" = Some 4096.
Proof. vm_compute. reflexivity. Qed.

Example parse_bad_suffix : parse_memory_size "10T" = Some 0.
Proof. vm_compute. reflexivity. Qed.

Example parse_negative : parse_memory_size "-5M" = Some 0.
Proof. vm_compute. reflexivity. Qed.

Example parse_no_number : parse_memory_size "M" = Some 0.
Proof. vm_compute. reflexivity. Qed.

(** A size below one byte is accepted by the test on the value and then
    truncated to 0, which [main] reports as invalid. *)
Example parse_tiny : parse_memory_size "0.5" = Some 0.
Proof. vm_compute. reflexivity. Qed.

(** A size of [2^64] bytes or more does not fit [size_t]. *)
Example parse_huge : parse_memory_size "1e30" = Some 0.
Proof. vm_compute. reflexivity. Qed.

Example parse_exponent : parse_memory_size "1e3K" = Some 1024000.
Proof. vm_compute. reflexivity. Qed.

(** An [e] without a digit is no exponent; it is the suffix. *)
Example parse_e_suffix : parse_memory_size "1e" = Some 0.
Proof. vm_compute. reflexivity. Qed.

Example format_default :
  format_memory_size 1073741824 1073741824 = "1.00 GB Free, 1 GB Allocated".
Proof. vm_compute. reflexivity. Qed.

Example format_used :
  format_memory_size (1073741824 - 123456) 1073741824 =
    "1023.88 MB Free, 1 GB Allocated".
Proof. vm_compute. reflexivity. Qed.

Example format_small : format_memory_size 1000 2048 = "1000.00 B Free, 2 KB Allocated".
Proof. vm_compute. reflexivity. Qed.

(** Above the last unit the number grows. *)
Example format_large :
  format_memory_size (2 ^ 44) (2 ^ 44) = "16384.00 GB Free, 16384 GB Allocated".
Proof. vm_compute. reflexivity. Qed.

(** The limit is written without decimals: 1.5 KB is rounded to even. *)
Example format_rounds : format_memory_size 0 1536 = "0.00 B Free, 2 KB Allocated".
Proof. vm_compute. reflexivity. Qed.

(** ** [strtod] on a printed number *)

Section Strtod.
Implicit Types (s r : string) (c : ascii) (n : Z).

Lemma skip_spaces_id s : c_isspace (char_at s 0) = false -> skip_spaces s = s.
Proof. destruct s as [|c s]; [done|]. simpl. unfold char_at. simpl. by intros ->. Qed.

Lemma digit_facts c :
  c_isdigit c = true ->
  c_isspace c = false /\ (c =? "-")%char = false /\ (c =? "+")%char = false /\
  ("I" =? c_toupper c)%char = false /\ ("N" =? c_toupper c)%char = false /\
  ("X" =? c_toupper c)%char = false.
Proof. ascii_cases c. Qed.

Lemma ends_decimal_facts c :
  ends_decimal c = true ->
  c_isdigit c = false /\ (c =? ".")%char = false /\
  (c =? "e")%char || (c =? "E")%char = false /\ ("X" =? c_toupper c)%char = false.
Proof. ascii_cases c. Qed.

(** No special form begins with a digit that is followed by a digit or by
    the end of the number. *)
Lemma special_form_digits (a : string) r :
  str_all c_isdigit a = true -> a <> "" -> ends_decimal (char_at r 0) = true ->
  special_form (a +++ r) = false.
Proof.
  intros Ha Hne Hr. destruct (ends_decimal_facts _ Hr) as (_ & _ & _ & Hx).
  destruct a as [|c a]; [done|]. simpl in Ha. apply andb_prop in Ha as [Hc Ha].
  destruct (digit_facts c Hc) as (_ & _ & _ & Hi & Hn & _).
  unfold special_form. cbn [prefix_nocase append]. rewrite Hi, Hn.
  cbn [andb orb]. rewrite !orb_false_r. apply andb_false_intro2.
  destruct a as [|c' a]; cbn [append].
  - destruct r as [|c' r]; [done|]. change (char_at (String c' r) 0) with c' in Hx.
    by rewrite Hx.
  - apply andb_prop in Ha as [Hc' _].
    destruct (digit_facts c' Hc') as (_ & _ & _ & _ & _ & ->). done.
Qed.

Lemma take_sign_digit s : c_isdigit (char_at s 0) = true -> take_sign s = (false, s).
Proof.
  destruct s as [|c s]; [done|]. change (char_at (String c s) 0) with c. intros Hc.
  destruct (digit_facts c Hc) as (_ & Hm & Hp & _). unfold take_sign. by rewrite Hm, Hp.
Qed.

(** [strtod] reads a printed number up to the character that ends it. *)
Lemma strtod_printed n r :
  0 <= n -> ends_decimal (char_at r 0) = true ->
  strtod (fmt_d n +++ r) = Some (d_of_Z n, r).
Proof.
  intros Hn Hr. destruct (ends_decimal_facts _ Hr) as (Hd & Hdot & He & _).
  pose proof (fmt_d_digit_head n Hn) as Hh.
  rewrite <- (char_at_append_head _ r (fmt_d_nonempty n Hn)) in Hh.
  destruct (digit_facts _ Hh) as (Hsp & _).
  destruct (take_digits_fmt_d n r Hn Hd) as [Ht Hv].
  unfold strtod. rewrite skip_spaces_id, take_sign_digit by done.
  rewrite special_form_digits, Ht by auto using fmt_d_digits, fmt_d_nonempty.
  assert (match r with
          | String c r' => if (c =? ".")%char then take_digits r' else ("", r)
          | "" => ("", r)
          end = ("", r)) as ->.
  { destruct r as [|c r']; [done|]. change (char_at _ 0) with c in Hdot. by rewrite Hdot. }
  assert (take_exponent r = (0, r)) as Hx.
  { destruct r as [|c r']; [done|]. change (char_at _ 0) with c in He.
    unfold take_exponent. by rewrite He. }
  rewrite append_nil_r. pose proof (fmt_d_nonempty n Hn) as Hne.
  remember (fmt_d n) as t eqn:Et. destruct t as [|a t]; [done|].
  by rewrite Hx, Hv, dec_to_double_int.
Qed.

End Strtod.

(** ** Multiplication by a power of two *)

Section Scaled.
Implicit Types (m : positive) (n k e : Z).

Lemma mul_shift52 m : (4503599627370496 * m)%positive = Pos.iter xO m 52.
Proof. reflexivity. Qed.

Lemma shr_shift52 m :
  iter_pos shr_1 52 (Build_shr_record (Z.pos (Pos.iter xO m 52)) false false) =
    Build_shr_record (Z.pos m) false false.
Proof. reflexivity. Qed.

(** The product of an integer below [2 ^ 53] and [2 ^ k] is exact: the
    mantissa stays and the exponent moves by [k]. *)
Lemma d_mul_pow2 n k (mult : Z) :
  0 < n < 2 ^ 53 -> 0 <= k <= 30 ->
  d_of_Z mult = S754_finite false 4503599627370496 (k - 52) ->
  exists m e, d_mul (d_of_Z n) (d_of_Z mult) = S754_finite false m (e + k) /\
    -52 <= e <= 0 /\ Z.pos m = n * 2 ^ (- e).
Proof.
  intros Hn Hk Hmult. destruct n as [|p|p]; try lia.
  unfold d_of_Z at 1. unfold binary_normalize.
  destruct (binary_round_canonical false p) as (m & e & -> & He & Hm & Hd); [lia|].
  exists m, e. split; [|done]. rewrite Hmult. unfold d_mul, SFmul.
  rewrite Pos.mul_comm, mul_shift52. unfold binary_round_aux, shr_fexp, Zdigits2.
  rewrite digits2_iter_xO, Hd.
  assert (fexp prec emax (53 + 52 + (e + (k - 52))) = e + k) as ->
    by (unfold fexp, emin, prec, emax; lia).
  replace (e + k - (e + (k - 52))) with 52 by lia.
  unfold shr, shr_record_of_loc. rewrite shr_shift52.
  cbn [shr_m loc_of_shr_record round_nearest_even]. rewrite Hd.
  replace (e + (k - 52) + 52) with (e + k) by lia.
  assert (fexp prec emax (53 + (e + k)) - (e + k) = 0) as ->
    by (unfold fexp, emin, prec, emax; lia).
  cbn [shr_m xorb]. destruct (Z.leb_spec (e + k) (emax - prec)); [done|].
  unfold emax, prec in *. lia.
Qed.

Lemma double_to_size_scaled m e k n :
  -52 <= e <= 0 -> 0 <= k -> Z.pos m = n * 2 ^ (- e) -> n * 2 ^ k < 2 ^ 64 ->
  double_to_size (S754_finite false m (e + k)) = n * 2 ^ k.
Proof.
  intros He Hk Hm Hlt. assert (0 < n) as Hn by nia.
  assert (d_trunc (S754_finite false m (e + k)) = Some (n * 2 ^ k)) as Ht.
  { simpl. f_equal. rewrite Hm. destruct (Z.leb_spec 0 (e + k)).
    - rewrite <- Z.mul_assoc, <- Z.pow_add_r by lia. f_equal. f_equal. lia.
    - replace (- e) with (k + - (e + k)) by lia. rewrite Z.pow_add_r by lia.
      rewrite Z.mul_assoc. apply Z.div_mul. apply Z.pow_nonzero; lia. }
  unfold double_to_size. rewrite Ht.
  assert (0 < 2 ^ k) by (apply Z.pow_pos_nonneg; lia).
  destruct (Z.ltb_spec (n * 2 ^ k) (- 2 ^ 63)); [nia|].
  destruct (Z.ltb_spec (n * 2 ^ k) (2 ^ 64)); [|lia].
  unfold wrap64u. apply Z.mod_small. nia.
Qed.

(** The size of [n] units of [2 ^ k] bytes. *)
Lemma size_of_product n k (mult : Z) :
  0 < n -> 0 <= k <= 30 -> mult = 2 ^ k -> n * mult < 2 ^ 53 ->
  d_of_Z mult = S754_finite false 4503599627370496 (k - 52) ->
  d_le (d_of_Z n) d_zero = false /\
  double_to_size (d_mul (d_of_Z n) (d_of_Z mult)) = n * mult.
Proof.
  intros Hn Hk -> Hlt Hmult. assert (0 < 2 ^ k) by (apply Z.pow_pos_nonneg; lia).
  destruct (d_mul_pow2 n k (2 ^ k)) as (m & e & E & He & Hm); [nia | done | done |].
  split; [|rewrite E; apply double_to_size_scaled; [done | lia | done | lia]].
  destruct n as [|p|p]; try lia. unfold d_of_Z, binary_normalize.
  by destruct (binary_round_exact false p) as (m' & e' & -> & _); [nia|].
Qed.

End Scaled.

(** ** The two functions *)

Section Sizes.
Implicit Types (n k mult : Z) (c : ascii).

Lemma multiplier_ends c : (if multiplier_of c is Some _ then ends_decimal c else true) = true.
Proof. ascii_cases c. Qed.

Lemma multiplier_cases c mult :
  multiplier_of c = Some mult ->
  ends_decimal c = true /\
  exists k, 0 <= k <= 30 /\ mult = 2 ^ k /\
    d_of_Z mult = S754_finite false 4503599627370496 (k - 52).
Proof.
  intros H. pose proof (multiplier_ends c) as He. rewrite H in He. split; [done|].
  unfold multiplier_of in H. cbv zeta in H.
  repeat case_match; simplify_eq; [by exists 10 | by exists 20 | by exists 30].
Qed.

Lemma suffix_unit_multiplier c mult : suffix_unit c mult -> multiplier_of c = Some mult.
Proof. by intros [[[-> | ->] ->] | [[[-> | ->] ->] | [[-> | ->] ->]]]. Qed.

Lemma parse_printed n c (rest : string) mult :
  0 < n -> multiplier_of c = Some mult -> n * mult < 2 ^ 53 ->
  parse_memory_size (fmt_d n +++ String c rest) = Some (n * mult).
Proof.
  intros Hn Hc Hlt. destruct (multiplier_cases c mult Hc) as (He & k & Hk & Hm & Hd).
  destruct (size_of_product n k mult) as [Hpos Hsize]; try done.
  unfold parse_memory_size. rewrite strtod_printed by (done || lia). simpl.
  by rewrite Hpos, Hc, Hsize.
Qed.

Lemma parse_printed_plain n :
  0 < n < 2 ^ 53 -> parse_memory_size (fmt_d n) = Some n.
Proof.
  intros Hn. destruct (size_of_product n 0 1) as [Hpos Hsize]; try done; try lia.
  unfold parse_memory_size. rewrite <- (append_nil_r (fmt_d n)).
  rewrite strtod_printed by (done || lia). cbn [mbind option_bind].
  rewrite Hpos, Hsize. f_equal. lia.
Qed.

(** The loop of [format_memory_size] ends when the fuel exceeds the
    units that are left, and more fuel does not change its answer. *)
Lemma scale_loop_ends (fuel : nat) (x : double) (u : Z) :
  0 <= u <= 3 -> 3 - u < Z.of_nat fuel ->
  exists y v, scale_loop fuel x u = Some (y, v) /\ u <= v <= 3 /\
    (v < 3 -> d_ge y (d_of_Z 1024) = false).
Proof.
  revert x u. induction fuel as [|fuel IH]; intros x u Hu Hf; [lia|].
  cbn [scale_loop]. destruct (d_ge x (d_of_Z 1024)) eqn:Ex, (Z.ltb_spec u 3);
    cbn [andb]; try (exists x, u; split_and!; (done || lia)).
  destruct (IH (d_div x (d_of_Z 1024)) (u + 1)) as (y & v & E & Hv & Hy); [lia..|].
  exists y, v. split_and!; (done || lia).
Qed.

Lemma scale_loop_more (fuel k : nat) (x : double) (u : Z) (r : double * Z) :
  scale_loop fuel x u = Some r -> scale_loop (fuel + k) x u = Some r.
Proof.
  revert x u. induction fuel as [|fuel IH]; intros x u; [done|].
  cbn [scale_loop Nat.add]. case_match; auto.
Qed.

Lemma scale_loop_enough (fuel : nat) (x : double) :
  scale_loop (4 + fuel) x 0 = Some (scale x) /\
  0 <= (scale x).2 <= 3 /\
  ((scale x).2 < 3 -> d_ge (scale x).1 (d_of_Z 1024) = false).
Proof.
  destruct (scale_loop_ends 4 x 0) as (y & v & E & Hv & Hy); [lia..|].
  unfold scale. rewrite (scale_loop_more 4 fuel x 0 _ E), E. by simpl.
Qed.

End Sizes.

(** C25: a size that is written as a number of units is read as that many
    bytes.  For a positive number [n], printed in decimal and followed by
    a suffix [K], [M] or [G] in either letter case and by anything,
    [parse_memory_size] answers [n] times 1024, 1048576 or 1073741824,
    as long as the product is below [2 ^ 53]; without a suffix it answers
    [n].  The computation in [double] loses nothing. *)
Theorem parse_memory_size_printed (n : Z) (c : ascii) (rest : string) (mult : Z) :
  0 < n -> suffix_unit c mult -> n * mult < 2 ^ 53 ->
  parse_memory_size (fmt_d n +++ String c rest) = Some (n * mult) /\
  parse_memory_size (fmt_d n) = Some n.
Proof.
  intros Hn Hc%suffix_unit_multiplier Hlt. split; [by apply parse_printed|].
  apply parse_printed_plain.
  destruct (multiplier_cases c mult Hc) as (_ & k & Hk & -> & _).
  assert (1 <= 2 ^ k) by (apply (Z.pow_le_mono_r 2 0 k); lia). nia.
Qed.

Lemma parse_memory_size_printed_witness :
  parse_memory_size (fmt_d 8388607 +++ String "g" "ib") = Some (8388607 * 1073741824) /\
  parse_memory_size (fmt_d 8388607) = Some 8388607.
Proof.
  apply parse_memory_size_printed; [lia | do 2 right; split; [by right | reflexivity] | lia].
Defined.

(** C34: the unit of [format_memory_size] is one of the four.  The loop
    that divides by 1024 ends within four turns on every double, with a
    unit between 0 and 3, and below the last unit the number that is
    printed is below 1024. *)
Theorem format_unit_bounds (x : double) (fuel : nat) :
  scale_loop (4 + fuel) x 0 = Some (scale x) /\
  0 <= (scale x).2 <= 3 /\
  is_Some (units !! Z.to_nat (scale x).2) /\
  ((scale x).2 < 3 -> d_ge (scale x).1 (d_of_Z 1024) = false).
Proof.
  destruct (scale_loop_enough fuel x) as (E & Hu & Hx). split_and!; try done; try lia.
  apply lookup_lt_is_Some. simpl. lia.
Qed.
