(* ===== verification/Lexer.v ===== *)
(** * Lexer: the tokenizer of [src/lexer.c]

    [TokenType], [Token] and [Lexer] are the types of [src/lexer.h]; the
    record fields carry the prefixes [tok_] and [lx_].  The [current_token]
    member of the C [Lexer] is written by [lexer_init] only and is left out.
    The position is an index into the input, as in the code.  A scanning
    loop ([while (p(peek_char)) next_char]) is [skip_while] with the number
    of remaining characters as fuel; [skip_while_stops] shows that this
    fuel is enough for every predicate that is false on NUL. *)

From S2P Require Import Prelude Utils Numbers.

(** ** Tokens *)

Inductive TokenType : Type :=
  (* Literals *)
  | TOK_NUMBER | TOK_STRING | TOK_IDENTIFIER
  (* Keywords - Immediate commands *)
  | TOK_LIST | TOK_RUN | TOK_NEW | TOK_LOAD | TOK_SAVE | TOK_EXIT
  (* Keywords - Program statements *)
  | TOK_PRINT | TOK_INPUT | TOK_LET | TOK_GOTO | TOK_GOSUB | TOK_RETURN
  | TOK_IF | TOK_THEN | TOK_ELSE | TOK_FOR | TOK_TO | TOK_STEP | TOK_NEXT
  | TOK_DO | TOK_LOOP | TOK_WHILE | TOK_WEND | TOK_REPEAT | TOK_UNTIL
  | TOK_REM | TOK_END | TOK_STOP | TOK_DIM | TOK_TRAP | TOK_RESUME
  | TOK_DATA | TOK_READ | TOK_RESTORE | TOK_POKE | TOK_PLOT | TOK_DRAW
  (* Operators *)
  | TOK_PLUS | TOK_MINUS | TOK_MULTIPLY | TOK_DIVIDE | TOK_POWER
  | TOK_EQUAL | TOK_NOT_EQUAL | TOK_LESS | TOK_GREATER | TOK_LESS_EQUAL
  | TOK_GREATER_EQUAL | TOK_AND | TOK_OR | TOK_NOT
  (* Built-in functions *)
  | TOK_ABS | TOK_INT | TOK_RND | TOK_SIN | TOK_COS | TOK_TAN | TOK_SQR
  | TOK_LEN | TOK_LEFT | TOK_RIGHT | TOK_MID | TOK_STR | TOK_VAL | TOK_CHR
  | TOK_ASC | TOK_PEEK
  (* Delimiters *)
  | TOK_LPAREN | TOK_RPAREN | TOK_COMMA | TOK_SEMICOLON | TOK_COLON
  | TOK_QUESTION
  (* Special *)
  | TOK_NEWLINE | TOK_EOF | TOK_ERROR.

#[export] Instance TokenType_eq_dec : EqDecision TokenType.
Proof. solve_decision. Defined.

Record Token := mkToken {
  tok_type : TokenType;
  tok_text : option string;
  tok_number_value : double;
  tok_line_number : Z;
  tok_column : Z
}.

Record Lexer := mkLexer {
  lx_input : string;
  lx_position : nat;
  lx_line : Z;
  lx_column : Z
}.

(** The keyword table, in the order of the code. *)
Definition keywords : list (string * TokenType) :=
  [ ("LIST", TOK_LIST); ("RUN", TOK_RUN); ("NEW", TOK_NEW);
    ("LOAD", TOK_LOAD); ("SAVE", TOK_SAVE); ("EXIT", TOK_EXIT);
    ("PRINT", TOK_PRINT); ("INPUT", TOK_INPUT); ("LET", TOK_LET);
    ("GOTO", TOK_GOTO); ("GOSUB", TOK_GOSUB); ("RETURN", TOK_RETURN);
    ("IF", TOK_IF); ("THEN", TOK_THEN); ("ELSE", TOK_ELSE);
    ("FOR", TOK_FOR); ("TO", TOK_TO); ("STEP", TOK_STEP);
    ("NEXT", TOK_NEXT); ("DO", TOK_DO); ("LOOP", TOK_LOOP);
    ("WHILE", TOK_WHILE); ("WEND", TOK_WEND); ("REPEAT", TOK_REPEAT);
    ("UNTIL", TOK_UNTIL); ("REM", TOK_REM); ("END", TOK_END);
    ("STOP", TOK_STOP); ("DIM", TOK_DIM); ("TRAP", TOK_TRAP);
    ("RESUME", TOK_RESUME); ("DATA", TOK_DATA); ("READ", TOK_READ);
    ("RESTORE", TOK_RESTORE); ("POKE", TOK_POKE); ("PLOT", TOK_PLOT);
    ("DRAW", TOK_DRAW); ("AND", TOK_AND); ("OR", TOK_OR);
    ("NOT", TOK_NOT); ("ABS", TOK_ABS); ("INT", TOK_INT);
    ("RND", TOK_RND); ("SIN", TOK_SIN); ("COS", TOK_COS);
    ("TAN", TOK_TAN); ("SQR", TOK_SQR); ("LEN", TOK_LEN);
    ("LEFT$", TOK_LEFT); ("RIGHT$", TOK_RIGHT); ("MID$", TOK_MID);
    ("STR$", TOK_STR); ("VAL", TOK_VAL); ("CHR$", TOK_CHR);
    ("PEEK", TOK_PEEK); ("ASC", TOK_ASC) ].

(** ** Character level *)

Definition lexer_init (input : string) : Lexer :=
  {| lx_input := input; lx_position := 0; lx_line := 1; lx_column := 1 |}.

Definition peek_char (lexer : Lexer) : ascii :=
  char_at (lx_input lexer) (lx_position lexer).

Definition next_char (lexer : Lexer) : ascii * Lexer :=
  let c := peek_char lexer in
  if (c =? NUL)%char then (c, lexer)
  else
    (c, {| lx_input := lx_input lexer;
           lx_position := S (lx_position lexer);
           lx_line := if (c =? "010")%char then lx_line lexer + 1 else lx_line lexer;
           lx_column := if (c =? "010")%char then 1 else lx_column lexer + 1 |}).

(** The lexer after [next_char]. *)
Definition advance (lexer : Lexer) : Lexer := snd (next_char lexer).

(** The characters that are left to read. *)
Definition remaining (lexer : Lexer) : nat :=
  (String.length (lx_input lexer) - lx_position lexer)%nat.

(** [while (p(peek_char(lexer))) next_char(lexer);] *)
Fixpoint skip_while (p : ascii -> bool) (fuel : nat) (lexer : Lexer) : Lexer :=
  match fuel with
  | O => lexer
  | S f => if p (peek_char lexer) then skip_while p f (advance lexer) else lexer
  end.

Definition scan (p : ascii -> bool) (lexer : Lexer) : Lexer :=
  skip_while p (remaining lexer) lexer.

Definition is_blank (c : ascii) : bool := (c =? " ")%char || (c =? "009")%char.

Definition skip_whitespace (lexer : Lexer) : Lexer := scan is_blank lexer.

Definition make_token (type : TokenType) (text : option string)
    (number_value : double) (line col : Z) : Token :=
  {| tok_type := type; tok_text := text; tok_number_value := number_value;
     tok_line_number := line; tok_column := col |}.

(** The text between [start] and the position of [lexer]. *)
Definition lexeme (start : nat) (lexer : Lexer) : string :=
  substring start (lx_position lexer - start) (lx_input lexer).

(** ** Token readers *)

Definition is_exp_mark (c : ascii) : bool := (c =? "E")%char || (c =? "e")%char.
Definition is_sign (c : ascii) : bool := (c =? "+")%char || (c =? "-")%char.

Definition read_number (lexer : Lexer) : Token * Lexer :=
  let start := lx_position lexer in
  let line := lx_line lexer in
  let col := lx_column lexer in
  let l1 := scan c_isdigit lexer in
  let l2 := if (peek_char l1 =? ".")%char then scan c_isdigit (advance l1) else l1 in
  let l3 :=
    if is_exp_mark (peek_char l2) then
      let l := advance l2 in
      let l := if is_sign (peek_char l) then advance l else l in
      scan c_isdigit l
    else l2 in
  let num_str := lexeme start l3 in
  (make_token TOK_NUMBER (Some num_str) (atof num_str) line col, l3).

Definition in_string (c : ascii) : bool :=
  negb (c =? QUOTE)%char && negb (c =? NUL)%char && negb (c =? "010")%char.

Definition read_string (lexer : Lexer) : Token * Lexer :=
  let line := lx_line lexer in
  let col := lx_column lexer in
  let l0 := advance lexer in
  let start := lx_position l0 in
  let l1 := scan in_string l0 in
  let str := lexeme start l1 in
  let l2 := if (peek_char l1 =? QUOTE)%char then advance l1 else l1 in
  (make_token TOK_STRING (Some str) d_zero line col, l2).

Definition is_ident_char (c : ascii) : bool :=
  c_isalnum c || (c =? "_")%char || (c =? "$")%char.

(** The search of the keyword table: [strcmp(upper, keyword) == 0]. *)
Fixpoint keyword_lookup (upper : string) (table : list (string * TokenType))
  : TokenType :=
  match table with
  | [] => TOK_IDENTIFIER
  | (keyword, type) :: table' =>
      if String.eqb upper keyword then type else keyword_lookup upper table'
  end.

Definition read_identifier (lexer : Lexer) : Token * Lexer :=
  let start := lx_position lexer in
  let line := lx_line lexer in
  let col := lx_column lexer in
  let l1 := scan is_ident_char lexer in
  let ident := lexeme start l1 in
  let upper := str_upper ident in
  let type := keyword_lookup upper keywords in
  (make_token type (Some ident) d_zero line col, l1).

(** The token of a character that is no digit, quote or letter, read after
    the character was consumed. *)
Definition read_operator (c : ascii) (line col : Z) (lexer : Lexer) : Token * Lexer :=
  if (c =? "+")%char then (make_token TOK_PLUS (Some "+") d_zero line col, lexer)
  else if (c =? "-")%char then (make_token TOK_MINUS (Some "-") d_zero line col, lexer)
  else if (c =? "*")%char then (make_token TOK_MULTIPLY (Some "*") d_zero line col, lexer)
  else if (c =? "/")%char then (make_token TOK_DIVIDE (Some "/") d_zero line col, lexer)
  else if (c =? "^")%char then (make_token TOK_POWER (Some "^") d_zero line col, lexer)
  else if (c =? "(")%char then (make_token TOK_LPAREN (Some "(") d_zero line col, lexer)
  else if (c =? ")")%char then (make_token TOK_RPAREN (Some ")") d_zero line col, lexer)
  else if (c =? ",")%char then (make_token TOK_COMMA (Some ",") d_zero line col, lexer)
  else if (c =? ";")%char then (make_token TOK_SEMICOLON (Some ";") d_zero line col, lexer)
  else if (c =? ":")%char then (make_token TOK_COLON (Some ":") d_zero line col, lexer)
  else if (c =? "?")%char then (make_token TOK_QUESTION (Some "?") d_zero line col, lexer)
  else if (c =? "=")%char then (make_token TOK_EQUAL (Some "=") d_zero line col, lexer)
  else if (c =? "<")%char then
    if (peek_char lexer =? "=")%char then
      (make_token TOK_LESS_EQUAL (Some "<=") d_zero line col, advance lexer)
    else if (peek_char lexer =? ">")%char then
      (make_token TOK_NOT_EQUAL (Some "<>") d_zero line col, advance lexer)
    else (make_token TOK_LESS (Some "<") d_zero line col, lexer)
  else if (c =? ">")%char then
    if (peek_char lexer =? "=")%char then
      (make_token TOK_GREATER_EQUAL (Some ">=") d_zero line col, advance lexer)
    else (make_token TOK_GREATER (Some ">") d_zero line col, lexer)
  else (make_token TOK_ERROR None d_zero line col, lexer).

(** ** The two entry points *)

Definition lexer_next_token (lexer : Lexer) : Token * Lexer :=
  let lexer := skip_whitespace lexer in
  let c := peek_char lexer in
  let line := lx_line lexer in
  let col := lx_column lexer in
  if (c =? NUL)%char then (make_token TOK_EOF None d_zero line col, lexer)
  else if (c =? "010")%char || (c =? "013")%char then
    let l1 := advance lexer in
    let l2 :=
      if (c =? "013")%char && (peek_char l1 =? "010")%char then advance l1 else l1 in
    (make_token TOK_NEWLINE None d_zero line col, l2)
  else if c_isdigit c then read_number lexer
  else if (c =? QUOTE)%char then read_string lexer
  else if c_isalpha c then read_identifier lexer
  else read_operator c line col (advance lexer).

Definition lexer_peek_token (lexer : Lexer) : Token * Lexer :=
  let pos := lx_position lexer in
  let line := lx_line lexer in
  let col := lx_column lexer in
  let '(token, l) := lexer_next_token lexer in
  (token, {| lx_input := lx_input l; lx_position := pos;
             lx_line := line; lx_column := col |}).

Definition token_type_name (type : TokenType) : string :=
  match type with
  | TOK_NUMBER => "NUMBER"
  | TOK_STRING => "STRING"
  | TOK_IDENTIFIER => "IDENTIFIER"
  | TOK_PRINT => "PRINT"
  | TOK_IF => "IF"
  | TOK_THEN => "THEN"
  | TOK_ELSE => "ELSE"
  | TOK_FOR => "FOR"
  | TOK_NEXT => "NEXT"
  | TOK_GOTO => "GOTO"
  | TOK_GOSUB => "GOSUB"
  | TOK_RETURN => "RETURN"
  | TOK_EOF => "EOF"
  | TOK_NEWLINE => "NEWLINE"
  | _ => "UNKNOWN"
  end.

(** ** Reference definitions *)

(** The suffix of a string from index [n]. *)
Fixpoint str_drop (n : nat) (s : string) : string :=
  match n, s with
  | O, _ => s
  | S n', String _ s' => str_drop n' s'
  | S _, EmptyString => EmptyString
  end.

(** The length of the longest prefix whose characters satisfy [p]. *)
Fixpoint span_len (p : ascii -> bool) (s : string) : nat :=
  match s with
  | String c s' => if p c then S (span_len p s') else O
  | EmptyString => O
  end.

(** [c_in c s]: the character [c] occurs in [s]. *)
Fixpoint c_in (c : ascii) (s : string) : Prop :=
  match s with
  | String a s' => a = c \/ c_in c s'
  | EmptyString => False
  end.

(** A word that [read_identifier] reads whole: a letter, then identifier
    characters. *)
Definition is_word (s : string) : bool :=
  match s with
  | String c _ => c_isalpha c && str_all is_ident_char s
  | EmptyString => false
  end.

(** The lexer has not run past the end of its input. *)
Definition lexer_ok (lexer : Lexer) : Prop :=
  (lx_position lexer <= String.length (lx_input lexer))%nat.

(** All tokens of an input, up to and including [TOK_EOF]. *)
Fixpoint tokens_from (fuel : nat) (lexer : Lexer) : list Token :=
  match fuel with
  | O => []
  | S f =>
      let '(t, l) := lexer_next_token lexer in
      if decide (tok_type t = TOK_EOF) then [t] else t :: tokens_from f l
  end.

Definition tokenize (input : string) : list Token :=
  tokens_from (S (String.length input)) (lexer_init input).

Definition token_types (input : string) : list TokenType :=
  map tok_type (tokenize input).

(** ** Ordering of lexer states

    [lx_le a b]: [b] reads the same input as [a], is at least as far, and
    is within its input if [a] is. *)

Definition lx_le (a b : Lexer) : Prop :=
  lx_input b = lx_input a /\
  (lx_position a <= lx_position b)%nat /\
  (lexer_ok a -> lexer_ok b).

Definition lx_lt (a b : Lexer) : Prop :=
  lx_le a b /\ (lx_position a < lx_position b)%nat.

#[export] Instance lx_le_preorder : PreOrder lx_le.
Proof.
  split.
  - intros a. unfold lx_le. auto.
  - intros a b c (Hi1 & Hp1 & Ho1) (Hi2 & Hp2 & Ho2). unfold lx_le.
    split; [congruence|]. split; [lia | auto].
Qed.

Lemma lx_lt_le (a b : Lexer) : lx_lt a b -> lx_le a b.
Proof. by intros [H _]. Qed.

Lemma lx_le_lt_trans (a b c : Lexer) : lx_le a b -> lx_lt b c -> lx_lt a c.
Proof.
  intros Hab [Hbc Hlt]. split; [by etrans|]. destruct Hab as (_ & Hp & _). lia.
Qed.

Lemma lx_lt_le_trans (a b c : Lexer) : lx_lt a b -> lx_le b c -> lx_lt a c.
Proof.
  intros [Hab Hlt] Hbc. split; [by etrans|]. destruct Hbc as (_ & Hp & _). lia.
Qed.

Lemma lx_le_remaining (a b : Lexer) : lx_le a b -> (remaining b <= remaining a)%nat.
Proof. intros (Hi & Hp & _). unfold remaining. rewrite Hi. lia. Qed.

Lemma lx_lt_remaining (a b : Lexer) :
  lexer_ok a -> lx_lt a b -> (remaining b < remaining a)%nat.
Proof.
  intros Hok [(Hi & Hp & Ho) Hlt]. specialize (Ho Hok).
  unfold remaining, lexer_ok in *. rewrite Hi in *. lia.
Qed.

(** ** Character level lemmas *)

Section Chars.
Implicit Types (lexer : Lexer) (p : ascii -> bool).

Lemma lexer_init_ok (input : string) : lexer_ok (lexer_init input).
Proof. unfold lexer_ok. simpl. lia. Qed.

Lemma peek_char_lt lexer :
  peek_char lexer <> NUL -> (lx_position lexer < String.length (lx_input lexer))%nat.
Proof. apply char_at_not_NUL_lt. Qed.

Lemma advance_NUL lexer : peek_char lexer = NUL -> advance lexer = lexer.
Proof. unfold advance, next_char. by intros ->. Qed.

Lemma advance_input lexer : lx_input (advance lexer) = lx_input lexer.
Proof. unfold advance, next_char. by case_match. Qed.

Lemma advance_position lexer :
  peek_char lexer <> NUL -> lx_position (advance lexer) = S (lx_position lexer).
Proof.
  unfold advance, next_char. intros H.
  destruct (Ascii.eqb_spec (peek_char lexer) NUL); done.
Qed.

Lemma advance_le lexer : lx_le lexer (advance lexer).
Proof.
  destruct (Ascii.eqb_spec (peek_char lexer) NUL) as [E|E].
  - by rewrite advance_NUL.
  - pose proof (peek_char_lt _ E).
    unfold lx_le, lexer_ok. rewrite advance_input, advance_position by done.
    repeat split; lia.
Qed.

Lemma advance_lt lexer : peek_char lexer <> NUL -> lx_lt lexer (advance lexer).
Proof.
  intros E. split; [apply advance_le|]. rewrite advance_position by done. lia.
Qed.

Lemma advance_line_column lexer :
  peek_char lexer <> NUL -> peek_char lexer <> "010"%char ->
  lx_line (advance lexer) = lx_line lexer /\
  lx_column (advance lexer) = lx_column lexer + 1.
Proof.
  unfold advance, next_char. intros H1 H2.
  destruct (Ascii.eqb_spec (peek_char lexer) NUL); [done|].
  destruct (Ascii.eqb_spec (peek_char lexer) "010"); done.
Qed.

Lemma skip_while_le p fuel lexer : lx_le lexer (skip_while p fuel lexer).
Proof.
  revert lexer. induction fuel as [|f IH]; intros lexer; simpl; [done|].
  case_match; [|done]. etrans; [apply advance_le | apply IH].
Qed.

Lemma scan_le p lexer : lx_le lexer (scan p lexer).
Proof. apply skip_while_le. Qed.

(** The fuel of [scan] is enough: the loop ends on a character that fails
    the test. *)
Lemma skip_while_stops p fuel lexer :
  p NUL = false -> (remaining lexer <= fuel)%nat ->
  p (peek_char (skip_while p fuel lexer)) = false.
Proof.
  intros HN. revert lexer. induction fuel as [|f IH]; intros lexer Hf; simpl.
  - unfold peek_char. rewrite char_at_ge; [done|]. unfold remaining in Hf. lia.
  - destruct (p (peek_char lexer)) eqn:E; [|done].
    assert (peek_char lexer <> NUL) as Hc by congruence.
    apply IH. pose proof (lx_lt_remaining lexer (advance lexer)) as Hlt.
    pose proof (peek_char_lt _ Hc). unfold remaining in *.
    rewrite advance_input, advance_position by done. lia.
Qed.

Lemma scan_stops p lexer : p NUL = false -> p (peek_char (scan p lexer)) = false.
Proof. intros H. by apply skip_while_stops. Qed.

Lemma scan_lt p lexer :
  p NUL = false -> p (peek_char lexer) = true -> lx_lt lexer (scan p lexer).
Proof.
  intros HN Hp. assert (peek_char lexer <> NUL) as Hc by congruence.
  pose proof (peek_char_lt _ Hc) as Hlt.
  unfold scan, remaining. destruct (_ - _)%nat as [|f] eqn:E; [lia|].
  simpl. rewrite Hp. eapply lx_lt_le_trans; [by apply advance_lt | apply skip_while_le].
Qed.

End Chars.

#[export] Hint Resolve advance_le scan_le skip_while_le lexer_init_ok : cfb.

(** ** Token level lemmas *)

(** Solves [lx_le a b] and [lx_lt a b] where [b] is [a] after a sequence of
    [advance], [scan] and conditionals, given for [lx_lt] one hypothesis
    that makes a step strict. *)
Ltac lx_chain :=
  repeat match goal with
  | |- lx_le ?a ?a => reflexivity
  | H : lx_le ?a ?b |- lx_le ?a ?b => exact H
  | H : lx_lt ?a ?b |- lx_le ?a ?b => exact (lx_lt_le _ _ H)
  | |- lx_le _ (if ?c then _ else _) => destruct c
  | |- lx_le _ (let _ := _ in _) => cbv zeta
  | |- lx_le ?a (advance ?b) => transitivity b; [|apply advance_le]
  | |- lx_le ?a (scan _ ?b) => transitivity b; [|apply scan_le]
  | |- lx_le ?a (skip_whitespace ?b) => transitivity b; [|apply scan_le]
  end.

Section Tokens.
Implicit Types (lexer : Lexer) (t : Token).

Lemma is_blank_NUL : is_blank NUL = false.
Proof. reflexivity. Qed.

Lemma c_isdigit_NUL : c_isdigit NUL = false.
Proof. reflexivity. Qed.

Lemma in_string_NUL : in_string NUL = false.
Proof. reflexivity. Qed.

Lemma is_ident_char_NUL : is_ident_char NUL = false.
Proof. reflexivity. Qed.

Lemma c_isalpha_ident (c : ascii) : c_isalpha c = true -> is_ident_char c = true.
Proof. unfold is_ident_char, c_isalnum. by intros ->. Qed.

Lemma read_number_le lexer : lx_le lexer (snd (read_number lexer)).
Proof. unfold read_number. simpl. lx_chain. Qed.

Lemma read_number_lt lexer :
  c_isdigit (peek_char lexer) = true -> lx_lt lexer (snd (read_number lexer)).
Proof.
  intros H. unfold read_number. simpl.
  eapply lx_lt_le_trans; [apply (scan_lt c_isdigit); [done | exact H]|].
  lx_chain.
Qed.

Lemma read_number_type lexer : tok_type (fst (read_number lexer)) = TOK_NUMBER.
Proof. reflexivity. Qed.

Lemma read_string_le lexer : lx_le lexer (snd (read_string lexer)).
Proof. unfold read_string. simpl. lx_chain. Qed.

Lemma read_string_lt lexer :
  peek_char lexer <> NUL -> lx_lt lexer (snd (read_string lexer)).
Proof.
  intros H. unfold read_string. simpl.
  eapply lx_lt_le_trans; [by apply advance_lt|]. lx_chain.
Qed.

Lemma read_identifier_le lexer : lx_le lexer (snd (read_identifier lexer)).
Proof. unfold read_identifier. simpl. lx_chain. Qed.

Lemma read_identifier_lt lexer :
  c_isalpha (peek_char lexer) = true -> lx_lt lexer (snd (read_identifier lexer)).
Proof.
  intros H. unfold read_identifier. simpl.
  apply scan_lt; [done | by apply c_isalpha_ident].
Qed.

Lemma read_operator_le c line col lexer :
  lx_le lexer (snd (read_operator c line col lexer)).
Proof.
  unfold read_operator. repeat case_match; simpl; lx_chain.
Qed.

(** What [keyword_lookup] can answer. *)
Lemma keyword_lookup_cases (upper : string) (table : list (string * TokenType)) :
  keyword_lookup upper table = TOK_IDENTIFIER \/
  (upper, keyword_lookup upper table) ∈ table.
Proof.
  induction table as [|[k ty] table IH]; simpl; [by left|].
  destruct (String.eqb_spec upper k) as [->|Hne]; [right; by left|].
  destruct IH; [by left | right; by right].
Qed.

Lemma keyword_lookup_not_special (upper : string) :
  keyword_lookup upper keywords <> TOK_EOF /\
  keyword_lookup upper keywords <> TOK_NEWLINE /\
  keyword_lookup upper keywords <> TOK_ERROR.
Proof.
  destruct (keyword_lookup_cases upper keywords) as [->|H]; [done|].
  revert H. generalize (keyword_lookup upper keywords). intros ty H.
  assert (Forall (fun kt => kt.2 <> TOK_EOF /\ kt.2 <> TOK_NEWLINE /\ kt.2 <> TOK_ERROR)
            keywords) as HF by (repeat constructor; discriminate).
  rewrite Forall_forall in HF. apply (HF _ H).
Qed.

(** [lexer_next_token] never moves backwards and keeps the lexer inside
    its input; it reads the same input. *)
Lemma next_token_le lexer : lx_le lexer (snd (lexer_next_token lexer)).
Proof.
  unfold lexer_next_token. cbv zeta.
  repeat case_match; simpl;
    try (etrans; [|first [apply read_number_le | apply read_string_le
                         | apply read_identifier_le | apply read_operator_le]]);
    lx_chain.
Qed.

(** The token is [TOK_EOF] exactly at the end of the input. *)
Lemma lexer_next_token_eof lexer :
  tok_type (fst (lexer_next_token lexer)) = TOK_EOF <->
  peek_char (skip_whitespace lexer) = NUL.
Proof.
  unfold lexer_next_token. cbv zeta.
  destruct (Ascii.eqb_spec (peek_char (skip_whitespace lexer)) NUL) as [E|E];
    [done|].
  split; [|done]. repeat case_match; simpl; try discriminate.
  - intros Heof. by destruct (keyword_lookup_not_special
      (str_upper (lexeme (lx_position (skip_whitespace lexer))
         (scan is_ident_char (skip_whitespace lexer))))).
  - unfold read_operator. repeat case_match; simpl; discriminate.
Qed.

(** Every token but [TOK_EOF] consumes at least one character. *)
Lemma next_token_lt lexer :
  tok_type (fst (lexer_next_token lexer)) <> TOK_EOF ->
  lx_lt lexer (snd (lexer_next_token lexer)).
Proof.
  rewrite lexer_next_token_eof. intros E.
  unfold lexer_next_token. cbv zeta.
  destruct (Ascii.eqb_spec (peek_char (skip_whitespace lexer)) NUL); [done|].
  eapply lx_le_lt_trans; [apply scan_le|]. fold (skip_whitespace lexer).
  repeat case_match; simpl.
  - eapply lx_lt_le_trans; [by apply advance_lt | apply advance_le].
  - by apply advance_lt.
  - by apply read_number_lt.
  - by apply read_string_lt.
  - by apply read_identifier_lt.
  - eapply lx_lt_le_trans; [by apply advance_lt | apply read_operator_le].
Qed.

(** At the end of the input, [lexer_next_token] answers [TOK_EOF] again. *)
Lemma scan_id p lexer : p (peek_char lexer) = false -> scan p lexer = lexer.
Proof. intros H. unfold scan. destruct (remaining lexer); simpl; by rewrite ?H. Qed.

Lemma lexer_next_token_at_end lexer :
  peek_char (skip_whitespace lexer) = NUL ->
  snd (lexer_next_token lexer) = skip_whitespace lexer.
Proof. intros H. unfold lexer_next_token. cbv zeta. by rewrite H. Qed.

Lemma lexer_next_token_eof_again lexer :
  tok_type (fst (lexer_next_token lexer)) = TOK_EOF ->
  tok_type (fst (lexer_next_token (snd (lexer_next_token lexer)))) = TOK_EOF.
Proof.
  rewrite !lexer_next_token_eof. intros H.
  rewrite lexer_next_token_at_end by done.
  unfold skip_whitespace at 1. rewrite scan_id; [done|].
  fold (skip_whitespace lexer). by rewrite H.
Qed.

(** [lexer_peek_token] answers the token of [lexer_next_token] and leaves
    the lexer as it was. *)
Lemma peek_token_eq lexer :
  lexer_peek_token lexer = (fst (lexer_next_token lexer), lexer).
Proof.
  unfold lexer_peek_token.
  pose proof (next_token_le lexer) as (Hi & _).
  destruct (lexer_next_token lexer) as [t l]. simpl in *. rewrite Hi.
  by destruct lexer.
Qed.

(** Literal and word tokens carry their text. *)
Lemma read_operator_type c line col lexer :
  tok_type (read_operator c line col lexer).1 <> TOK_STRING /\
  tok_type (read_operator c line col lexer).1 <> TOK_IDENTIFIER /\
  tok_type (read_operator c line col lexer).1 <> TOK_NUMBER.
Proof. unfold read_operator. repeat case_match; simpl; by repeat split. Qed.

Lemma next_token_text lexer :
  tok_type (lexer_next_token lexer).1 = TOK_STRING \/
  tok_type (lexer_next_token lexer).1 = TOK_IDENTIFIER \/
  tok_type (lexer_next_token lexer).1 = TOK_NUMBER ->
  is_Some (tok_text (lexer_next_token lexer).1).
Proof.
  unfold lexer_next_token. cbv zeta.
  repeat case_match; simpl; try by (intros [|[|]]).
  pose proof (read_operator_type (peek_char (skip_whitespace lexer))
    (lx_line (skip_whitespace lexer)) (lx_column (skip_whitespace lexer))
    (advance (skip_whitespace lexer))).
  intros [|[|]]; tauto.
Qed.

End Tokens.

#[export] Hint Resolve next_token_le read_number_le read_string_le
  read_identifier_le read_operator_le : cfb.
#[export] Hint Rewrite peek_token_eq : cfb_rw.

(** ** Scanning against the reference definition *)

Section Span.
Implicit Types (lexer : Lexer) (p : ascii -> bool) (s : string).

Lemma str_drop_cons n s c s' :
  str_drop n s = String c s' -> char_at s n = c /\ str_drop (S n) s = s'.
Proof.
  revert s. induction n as [|n IH]; intros [|a s]; simpl; try discriminate.
  - by intros [= -> ->].
  - intros H. by apply IH in H.
Qed.

Lemma str_drop_nil n s : str_drop n s = EmptyString -> char_at s n = NUL.
Proof.
  revert s. induction n as [|n IH]; intros [|a s]; simpl; try done.
  intros H. by apply IH in H.
Qed.

Lemma length_str_drop n s :
  String.length (str_drop n s) = (String.length s - n)%nat.
Proof. revert s. induction n as [|n IH]; intros [|a s]; simpl; auto. Qed.

Lemma str_drop_0 s : str_drop 0 s = s.
Proof. by destruct s. Qed.

Lemma substring_span_all p s :
  span_len p s = String.length s -> substring 0 (span_len p s) s = s.
Proof.
  induction s as [|c s IH]; simpl; [done|].
  destruct (p c); [|discriminate]. intros [= H]. by rewrite IH.
Qed.

Lemma substring_0_length s : substring 0 (String.length s) s = s.
Proof. induction s; simpl; congruence. Qed.

(** [skip_while] advances by the longest prefix that satisfies the test,
    and counts its characters as columns when none is a newline. *)
Lemma skip_while_span p fuel lexer :
  p NUL = false -> p "010"%char = false -> (remaining lexer <= fuel)%nat ->
  let n := span_len p (str_drop (lx_position lexer) (lx_input lexer)) in
  skip_while p fuel lexer =
    {| lx_input := lx_input lexer;
       lx_position := lx_position lexer + n;
       lx_line := lx_line lexer;
       lx_column := lx_column lexer + Z.of_nat n |}.
Proof.
  intros HN HL. revert lexer. induction fuel as [|f IH]; intros lexer Hf; simpl.
  - destruct (str_drop _ _) as [|c s'] eqn:E; simpl.
    + destruct lexer; simpl. f_equal; lia.
    + apply (f_equal String.length) in E. rewrite length_str_drop in E.
      unfold remaining in Hf. simpl in E. lia.
  - destruct (str_drop _ _) as [|c s'] eqn:E; simpl.
    + apply str_drop_nil in E. unfold peek_char. rewrite E, HN.
      destruct lexer; simpl. f_equal; lia.
    + apply str_drop_cons in E as [E1 E2]. unfold peek_char at 1. rewrite E1.
      destruct (p c) eqn:Ep; [|destruct lexer; simpl; f_equal; lia].
      assert (peek_char lexer <> NUL) as Hc by (unfold peek_char; congruence).
      assert (peek_char lexer <> "010"%char) as Hl by (unfold peek_char; congruence).
      pose proof (peek_char_lt _ Hc).
      destruct (advance_line_column _ Hc Hl) as [Hline Hcol].
      rewrite IH; [|unfold remaining in *; rewrite advance_input, advance_position; [lia|done]].
      rewrite advance_input, advance_position, Hline, Hcol, E2 by done.
      f_equal; lia.
Qed.

Lemma scan_span p lexer :
  p NUL = false -> p "010"%char = false ->
  let n := span_len p (str_drop (lx_position lexer) (lx_input lexer)) in
  scan p lexer =
    {| lx_input := lx_input lexer;
       lx_position := lx_position lexer + n;
       lx_line := lx_line lexer;
       lx_column := lx_column lexer + Z.of_nat n |}.
Proof. intros HN HL. by apply skip_while_span. Qed.

Lemma span_len_all p s :
  (forall c, c_in c s -> p c = true) -> span_len p s = String.length s.
Proof.
  induction s as [|c s IH]; simpl; [done|]. intros H.
  rewrite (H c) by (by left). f_equal. apply IH. intros c' Hc'. apply H. by right.
Qed.

End Span.

(** ** Keywords in any letter case *)

Section Keywords.
Implicit Types (s kw : string) (ty : TokenType).

Lemma is_ident_char_toupper (c : ascii) :
  is_ident_char (c_toupper c) = is_ident_char c.
Proof. ascii_cases c. Qed.

Lemma c_isalpha_facts (c : ascii) :
  c_isalpha c = true ->
  is_blank c = false /\ (c =? NUL)%char = false /\ (c =? "010")%char = false /\
  (c =? "013")%char = false /\ c_isdigit c = false /\ (c =? QUOTE)%char = false.
Proof. ascii_cases c. Qed.

Lemma str_all_upper s :
  str_all is_ident_char (str_upper s) = str_all is_ident_char s.
Proof. induction s; simpl; [done|]. by rewrite is_ident_char_toupper, IHs. Qed.

Lemma is_word_upper s : is_word (str_upper s) = is_word s.
Proof.
  destruct s as [|c s]; [done|]. simpl.
  by rewrite c_isalpha_toupper, is_ident_char_toupper, str_all_upper.
Qed.

Lemma str_all_span p s : str_all p s = true -> span_len p s = String.length s.
Proof.
  induction s as [|c s IH]; simpl; [done|].
  destruct (p c); [|done]. simpl. intros H. by rewrite IH.
Qed.

(** The keyword table maps each of its words to its own type (no word is
    listed twice) and holds words only. *)
Lemma keywords_wf :
  Forall (fun kt => keyword_lookup kt.1 keywords = kt.2 /\ is_word kt.1 = true)
         keywords.
Proof. repeat (constructor; [split; reflexivity|]). constructor. Qed.

(** What [lexer_next_token] reads on an input that is one word. *)
Lemma lexer_next_token_word s :
  is_word s = true ->
  lexer_next_token (lexer_init s) =
    (make_token (keyword_lookup (str_upper s) keywords) (Some s) d_zero 1 1,
     {| lx_input := s; lx_position := String.length s; lx_line := 1;
        lx_column := 1 + Z.of_nat (String.length s) |}).
Proof.
  destruct s as [|c s]; [done|]. unfold is_word. intros [Hc Hall]%andb_prop.
  destruct (c_isalpha_facts c Hc) as (Hb & HN & HL & HR & Hd & Hq).
  unfold lexer_next_token. cbv zeta.
  unfold skip_whitespace. rewrite scan_id by done.
  change (peek_char (lexer_init (String c s))) with c.
  rewrite HN, HL, HR, Hd, Hq, Hc. simpl orb. cbv iota.
  unfold read_identifier. cbv zeta.
  rewrite scan_span by done. unfold lexeme. cbn [lx_position lx_input lx_line lx_column lexer_init].
  rewrite str_drop_0, (str_all_span _ _ Hall), Nat.add_0_l, Nat.sub_0_r,
    substring_0_length.
  reflexivity.
Qed.

(** C35: a keyword written in any letter case is read as its keyword token,
    with the text as it was written. *)
Theorem keyword_any_case kw ty s :
  (kw, ty) ∈ keywords -> str_upper s = kw ->
  lexer_next_token (lexer_init s) =
    (make_token ty (Some s) d_zero 1 1,
     {| lx_input := s; lx_position := String.length s; lx_line := 1;
        lx_column := 1 + Z.of_nat (String.length s) |}).
Proof.
  intros Hin Hup. pose proof keywords_wf as HF. rewrite Forall_forall in HF.
  destruct (HF _ Hin) as [Hty Hw]. cbn [fst snd] in Hty, Hw.
  rewrite lexer_next_token_word by (by rewrite <- is_word_upper, Hup).
  by rewrite Hup, Hty.
Qed.

Lemma keyword_any_case_witness :
  lexer_next_token (lexer_init "gOtO") =
    (make_token TOK_GOTO (Some "gOtO") d_zero 1 1,
     {| lx_input := "gOtO"; lx_position := 4; lx_line := 1; lx_column := 5 |}).
Proof.
  apply (keyword_any_case "GOTO" TOK_GOTO "gOtO"); [|reflexivity].
  do 9 apply list_elem_of_further. apply list_elem_of_here.
Defined.

(** A word that is no keyword is an identifier. *)
Lemma identifier_token s :
  is_word s = true -> (forall ty, (str_upper s, ty) ∉ keywords) ->
  tok_type (fst (lexer_next_token (lexer_init s))) = TOK_IDENTIFIER.
Proof.
  intros Hw Hnk. rewrite lexer_next_token_word by done. simpl.
  destruct (keyword_lookup_cases (str_upper s) keywords) as [|Hin]; [done|].
  by apply Hnk in Hin.
Qed.

End Keywords.

(** ** The text of an identifier *)

Section Identifiers.
Implicit Types (p : ascii -> bool) (s : string) (lexer : Lexer).

Lemma substring_str_drop (n m : nat) s : substring n m s = substring 0 m (str_drop n s).
Proof.
  revert s. induction n as [|n IH]; intros s; [by rewrite str_drop_0|].
  destruct s as [|c s]; simpl; [by destruct m | apply IH].
Qed.

Lemma str_all_span_prefix p s : str_all p (substring 0 (span_len p s) s) = true.
Proof.
  induction s as [|c s IH]; simpl; [done|].
  destruct (p c) eqn:E; simpl; [by rewrite E, IH | done].
Qed.

Lemma str_all_cstr p s : p NUL = false -> str_all p s = true -> cstr s.
Proof.
  intros HN. induction s as [|c s IH]; simpl; [done|].
  intros [Hc Hs]%andb_true_iff. split; [congruence | auto].
Qed.

(** [read_identifier] reads identifier characters only. *)
Lemma read_identifier_text lexer :
  exists name, tok_text (read_identifier lexer).1 = Some name /\
               str_all is_ident_char name = true.
Proof.
  unfold read_identifier, lexeme. cbv zeta. eexists. split; [done|].
  rewrite scan_span by done. cbn [lx_position lx_input].
  rewrite substring_str_drop.
  replace (lx_position lexer + _ - lx_position lexer)%nat
    with (span_len is_ident_char (str_drop (lx_position lexer) (lx_input lexer))) by lia.
  apply str_all_span_prefix.
Qed.

(** The text of an identifier token holds no NUL. *)
Lemma next_token_identifier lexer (name : string) :
  tok_type (lexer_next_token lexer).1 = TOK_IDENTIFIER ->
  tok_text (lexer_next_token lexer).1 = Some name -> cstr name.
Proof.
  unfold lexer_next_token. cbv zeta.
  case_match; [done|]. case_match; [done|].
  case_match; [by rewrite read_number_type|]. case_match; [done|].
  case_match.
  - destruct (read_identifier_text (skip_whitespace lexer)) as (n & -> & Hn).
    intros _ [= <-]. by apply (str_all_cstr is_ident_char).
  - intros Hty. by apply read_operator_type in Hty.
Qed.

End Identifiers.

(** ** Tokenizing a whole input *)

Lemma tokens_from_eof (fuel : nat) (lexer : Lexer) :
  lexer_ok lexer -> (remaining lexer < fuel)%nat ->
  exists ts t, tokens_from fuel lexer = ts ++ [t] /\ tok_type t = TOK_EOF /\
    Forall (fun t => tok_type t <> TOK_EOF) ts.
Proof.
  revert lexer. induction fuel as [|f IH]; intros lexer Hok Hr; [lia|].
  simpl. pose proof (next_token_lt lexer) as Hlt.
  pose proof (next_token_le lexer) as Hle.
  destruct (lexer_next_token lexer) as [t l]. simpl in *.
  case_decide as E; [by exists [], t|].
  specialize (Hlt E). pose proof (lx_lt_remaining _ _ Hok Hlt).
  destruct (IH l) as (ts & t' & -> & ? & ?); [by apply Hle | lia |].
  exists (t :: ts), t'. by repeat split; [|constructor].
Qed.

(** C9: [lexer_next_token] never moves backwards, reads the same input and
    stays inside it, and every token but [TOK_EOF] consumes at least one
    character. *)
Theorem lexer_next_token_progress (lexer : Lexer) :
  lx_le lexer (snd (lexer_next_token lexer)) /\
  (tok_type (fst (lexer_next_token lexer)) <> TOK_EOF ->
   lx_lt lexer (snd (lexer_next_token lexer))).
Proof. split; [apply next_token_le | apply next_token_lt]. Qed.

Lemma lexer_next_token_progress_witness :
  lx_lt (lexer_init "  PRINT 1") (snd (lexer_next_token (lexer_init "  PRINT 1"))).
Proof.
  apply (lexer_next_token_progress (lexer_init "  PRINT 1")).
  vm_compute. discriminate.
Defined.

(** C36: the tokens of an input are finitely many and the last one, and no
    other, is [TOK_EOF]: reading tokens until [TOK_EOF] terminates. *)
Theorem tokenize_ends_in_eof (input : string) :
  exists ts t, tokenize input = ts ++ [t] /\ tok_type t = TOK_EOF /\
    Forall (fun t => tok_type t <> TOK_EOF) ts.
Proof.
  apply tokens_from_eof; [apply lexer_init_ok|].
  unfold remaining, lexer_init. simpl. lia.
Qed.

(** [lexer_peek_token] leaves the lexer as it was (position, line and
    column are restored), and the token it answers is the one the next
    call of [lexer_next_token] reads. *)
Theorem lexer_peek_token_spec (lexer : Lexer) :
  snd (lexer_peek_token lexer) = lexer /\
  fst (lexer_peek_token lexer) = fst (lexer_next_token (snd (lexer_peek_token lexer))).
Proof. by rewrite peek_token_eq. Qed.

(** ** Literals *)

Example number_token_3_14E2 :
  lexer_next_token (lexer_init "3.14E2") =
    (make_token TOK_NUMBER (Some "3.14E2") (d_of_Z 314) 1 1,
     {| lx_input := "3.14E2"; lx_position := 6; lx_line := 1; lx_column := 7 |}).
Proof. vm_compute. reflexivity. Qed.

(** An unterminated text literal is read up to the end of the line. *)
Example unterminated_string_token :
  fst (lexer_next_token (lexer_init (String QUOTE "abc"))) =
    make_token TOK_STRING (Some "abc") d_zero 1 1.
Proof. vm_compute. reflexivity. Qed.

Example unterminated_string_before_newline :
  token_types (String QUOTE ("abc" +++ String "010" "PRINT")) =
    [TOK_STRING; TOK_NEWLINE; TOK_PRINT; TOK_EOF].
Proof. vm_compute. reflexivity. Qed.

Example unknown_character_token :
  token_types "A @ B" = [TOK_IDENTIFIER; TOK_ERROR; TOK_IDENTIFIER; TOK_EOF].
Proof. vm_compute. reflexivity. Qed.
