(* ===== verification/Tokens.v ===== *)
(** * Tokens: what [lexer_next_token] reads from a text

    The lemmas of [Lexer] say that the lexer moves forward and stops.  The
    lemmas of this file say what it reads: when the text that is left to
    read ([rest_of]) begins with a printed number, a string literal, a word
    or an operator, the next token is that number, string, word or operator
    and the text that is left afterwards is the text behind it.  A blank
    before a token is skipped.

    The statements are about a lexer at any position of any input
    ([reads lexer s]: the lexer is within its input and [s] is left to
    read), so they compose along a text of several tokens; the evaluator
    and the statements are proved against them.  [spells ok s r] says that
    the text [s] is a sequence of tokens with types in [ok] in front of
    [r]. *)

From S2P Require Import Prelude Utils Numbers Lexer.

#[local] Open Scope Z_scope.
#[local] Open Scope cfb_scope.

(** The text that the lexer has not read yet. *)
Definition rest_of (lexer : Lexer) : string :=
  str_drop (lx_position lexer) (lx_input lexer).

Definition reads (lexer : Lexer) (s : string) : Prop :=
  lexer_ok lexer /\ rest_of lexer = s.

(** The first character of a text, [NUL] at its end. *)
Definition first_char (s : string) : ascii := char_at s 0.

(** The next token of every lexer that reads [s] has the type, the text and
    the number given, and leaves [r] to read. *)
Definition next_is (s : string) (type : TokenType) (text : option string)
    (number : double) (r : string) : Prop :=
  forall lexer, reads lexer s ->
    exists line col lexer',
      lexer_next_token lexer = (make_token type text number line col, lexer') /\
      reads lexer' r.

(** The characters that end a number. *)
Definition ends_number (c : ascii) : bool :=
  negb (c_isdigit c) && negb (c =? ".")%char && negb (is_exp_mark c).

(** The characters that [lexer_next_token] gives to [read_operator]. *)
Definition is_op_char (c : ascii) : bool :=
  negb (is_blank c) && negb (c =? NUL)%char && negb (c =? "010")%char &&
  negb (c =? "013")%char && negb (c_isdigit c) && negb (c =? QUOTE)%char &&
  negb (c_isalpha c).

(** [spells ok s r]: the text [s] is a sequence of tokens whose types
    satisfy [ok], followed by the text [r]. *)
Inductive spells (ok : TokenType -> bool) : string -> string -> Prop :=
  | spells_nil r : spells ok r r
  | spells_cons s type text number r r' :
      next_is s type text number r -> ok type = true -> spells ok r r' ->
      spells ok s r'.

(** The same with one token at least. *)
Definition spelled (ok : TokenType -> bool) (s r : string) : Prop :=
  exists type text number r',
    next_is s type text number r' /\ ok type = true /\ spells ok r' r.

(** ** Strings *)

Section Strings.
Implicit Types (p : ascii -> bool) (s a r : string).

Lemma str_all_append p a b : str_all p (a +++ b) = str_all p a && str_all p b.
Proof. induction a as [|c a IH]; simpl; [done|]. by rewrite IH, andb_assoc. Qed.

Lemma str_all_impl (p q : ascii -> bool) a :
  (forall c, p c = true -> q c = true) -> str_all p a = true -> str_all q a = true.
Proof.
  intros Hpq. induction a as [|c a IH]; simpl; [done|].
  intros [Hc Ha]%andb_true_iff. by rewrite (Hpq c Hc), IH.
Qed.

Lemma substring_prefix a b : substring 0 (String.length a) (a +++ b) = a.
Proof.
  induction a as [|c a IH]; simpl; [by destruct b | by rewrite IH].
Qed.

Lemma str_drop_append a r : str_drop (String.length a) (a +++ r) = r.
Proof. induction a as [|c a IH]; simpl; [apply str_drop_0 | done]. Qed.

Lemma str_drop_add n m s : str_drop (n + m) s = str_drop m (str_drop n s).
Proof.
  revert s. induction n as [|n IH]; intros s; simpl; [by rewrite ?str_drop_0|].
  destruct s; [by destruct m | apply IH].
Qed.

Lemma char_at_str_drop n s : char_at s n = first_char (str_drop n s).
Proof.
  revert s. induction n as [|n IH]; intros [|c s]; try done. apply (IH s).
Qed.

Lemma span_len_append p a r :
  str_all p a = true -> p (first_char r) = false -> p NUL = false ->
  span_len p (a +++ r) = String.length a.
Proof.
  intros Ha Hr HN. induction a as [|c a IH]; simpl in *.
  - destruct r as [|c r]; simpl; [done|]. unfold first_char, char_at in Hr. simpl in Hr.
    by rewrite Hr.
  - apply andb_prop in Ha as [-> Ha]. by rewrite IH.
Qed.

End Strings.

(** ** Lexers *)

Section Reads.
Implicit Types (lexer : Lexer) (p : ascii -> bool) (s a r : string).

Lemma reads_init s : reads (lexer_init s) s.
Proof. split; [apply lexer_init_ok | apply str_drop_0]. Qed.

Lemma peek_rest lexer s : reads lexer s -> peek_char lexer = first_char s.
Proof. intros [_ <-]. apply char_at_str_drop. Qed.

(** One character forward. *)
Lemma reads_advance lexer c s :
  reads lexer (String c s) -> c <> NUL -> reads (advance lexer) s.
Proof.
  intros Hr Hc. pose proof (peek_rest _ _ Hr) as Hp. change (first_char _) with c in Hp.
  destruct Hr as [Hok Hr]. split; [by apply advance_le|].
  unfold rest_of. rewrite advance_input, advance_position by congruence.
  by apply str_drop_cons in Hr as [_ ?].
Qed.

Lemma advance_same_line lexer c s :
  reads lexer (String c s) -> c <> NUL -> c <> "010"%char ->
  lx_line (advance lexer) = lx_line lexer /\
  lx_column (advance lexer) = lx_column lexer + 1.
Proof.
  intros Hr Hc Hl. pose proof (peek_rest _ _ Hr) as Hp. change (first_char _) with c in Hp.
  apply advance_line_column; congruence.
Qed.

(** A scan over a prefix that satisfies the test, up to a character that
    does not. *)
Lemma reads_scan p lexer a r :
  p NUL = false -> p "010"%char = false ->
  reads lexer (a +++ r) -> str_all p a = true -> p (first_char r) = false ->
  reads (scan p lexer) r /\
  lexeme (lx_position lexer) (scan p lexer) = a.
Proof.
  intros HN HL [Hok Hr] Ha Hstop. rewrite scan_span by done.
  unfold rest_of in Hr. rewrite Hr, span_len_append by done.
  unfold reads, rest_of, lexeme, lexer_ok. simpl.
  rewrite str_drop_add, Hr, str_drop_append, substring_str_drop, Hr.
  replace (lx_position lexer + String.length a - lx_position lexer)%nat
    with (String.length a) by lia.
  rewrite substring_prefix. repeat split; try done.
  pose proof (length_str_drop (lx_position lexer) (lx_input lexer)) as Hlen.
  rewrite Hr, length_append in Hlen. unfold lexer_ok in Hok. lia.
Qed.

(** Nothing to skip before a character that is not a blank. *)
Lemma skip_whitespace_id lexer s :
  reads lexer s -> is_blank (first_char s) = false -> skip_whitespace lexer = lexer.
Proof. intros Hr Hb. apply scan_id. by rewrite (peek_rest _ _ Hr). Qed.

(** A blank before a token is skipped. *)
Lemma skip_whitespace_advance lexer :
  is_blank (peek_char lexer) = true ->
  skip_whitespace (advance lexer) = skip_whitespace lexer.
Proof.
  intros Hb. unfold skip_whitespace, scan.
  assert (peek_char lexer <> NUL) as Hc by (intros E; by rewrite E in Hb).
  pose proof (peek_char_lt _ Hc) as Hlt.
  unfold remaining. rewrite advance_input, advance_position by done.
  destruct (String.length (lx_input lexer) - lx_position lexer)%nat as [|n] eqn:E;
    [lia|].
  replace (String.length (lx_input lexer) - S (lx_position lexer))%nat with n by lia.
  simpl. by rewrite Hb.
Qed.

Lemma next_token_skips lexer :
  lexer_next_token lexer = lexer_next_token (skip_whitespace lexer).
Proof.
  unfold lexer_next_token. cbv zeta.
  assert (skip_whitespace (skip_whitespace lexer) = skip_whitespace lexer) as ->;
    [|done].
  apply scan_id, scan_stops, is_blank_NUL.
Qed.

Lemma next_token_blank lexer :
  is_blank (peek_char lexer) = true ->
  lexer_next_token lexer = lexer_next_token (advance lexer).
Proof.
  intros Hb. rewrite (next_token_skips lexer), (next_token_skips (advance lexer)).
  by rewrite skip_whitespace_advance.
Qed.

End Reads.

(** ** The next token *)

Section Next.
Implicit Types (lexer : Lexer) (s a r w : string) (c d : ascii) (type : TokenType).

Lemma c_isdigit_facts c :
  c_isdigit c = true ->
  is_blank c = false /\ (c =? NUL)%char = false /\ (c =? "010")%char = false /\
  (c =? "013")%char = false.
Proof. ascii_cases c. Qed.

Lemma is_op_char_facts c :
  is_op_char c = true ->
  is_blank c = false /\ (c =? NUL)%char = false /\ (c =? "010")%char = false /\
  (c =? "013")%char = false /\ c_isdigit c = false /\ (c =? QUOTE)%char = false /\
  c_isalpha c = false.
Proof. ascii_cases c. Qed.

(** The token starts where the lexer is when no blank is before it. *)
Lemma next_token_here lexer s :
  reads lexer s -> is_blank (first_char s) = false ->
  lexer_next_token lexer =
    let c := first_char s in
    let line := lx_line lexer in
    let col := lx_column lexer in
    if (c =? NUL)%char then (make_token TOK_EOF None d_zero line col, lexer)
    else if (c =? "010")%char || (c =? "013")%char then
      let l1 := advance lexer in
      let l2 :=
        if (c =? "013")%char && (peek_char l1 =? "010")%char then advance l1 else l1 in
      (make_token TOK_NEWLINE None d_zero line col, l2)
    else if c_isdigit c then read_number lexer
    else if (c =? QUOTE)%char then read_string lexer
    else if c_isalpha c then read_identifier lexer
    else read_operator c line col (advance lexer).
Proof.
  intros Hr Hb. unfold lexer_next_token. cbv zeta.
  by rewrite (skip_whitespace_id _ _ Hr), (peek_rest _ _ Hr).
Qed.

Lemma next_is_blank c s type text number r :
  is_blank c = true -> next_is s type text number r ->
  next_is (String c s) type text number r.
Proof.
  intros Hb H lexer Hr.
  rewrite next_token_blank by (by rewrite (peek_rest _ _ Hr)).
  apply H. eapply reads_advance; [done|]. by intros ->.
Qed.

Lemma next_is_eof : next_is "" TOK_EOF None d_zero "".
Proof.
  intros lexer Hr. exists (lx_line lexer), (lx_column lexer), lexer.
  split; [|done]. by rewrite (next_token_here _ _ Hr).
Qed.

Lemma next_is_number n r :
  0 <= n -> ends_number (first_char r) = true ->
  next_is (fmt_d n +++ r) TOK_NUMBER (Some (fmt_d n)) (d_of_Z n) r.
Proof.
  intros Hn [[Hd Hdot]%andb_prop Hexp]%andb_prop lexer Hr.
  apply negb_true_iff in Hd, Hdot, Hexp.
  assert (first_char (fmt_d n +++ r) = first_char (fmt_d n)) as Hh
    by apply char_at_append_head, fmt_d_nonempty, Hn.
  pose proof (fmt_d_digit_head n Hn) as Hc. fold (first_char (fmt_d n)) in Hc.
  rewrite <- Hh in Hc. destruct (c_isdigit_facts _ Hc) as (Hb & HN & HL & HR).
  destruct (reads_scan c_isdigit lexer (fmt_d n) r) as [Hr' Hlex];
    auto using fmt_d_digits.
  exists (lx_line lexer), (lx_column lexer), (scan c_isdigit lexer).
  split; [|done]. rewrite (next_token_here _ _ Hr) by done. cbv zeta.
  rewrite HN, HL, HR, Hc. simpl orb. cbv iota. unfold read_number. cbv zeta.
  rewrite (peek_rest _ _ Hr'), Hdot. cbv iota.
  rewrite (peek_rest _ _ Hr'), Hexp. cbv iota. by rewrite Hlex, atof_fmt_d.
Qed.

Lemma next_is_word w r :
  is_word w = true -> is_ident_char (first_char r) = false ->
  next_is (w +++ r) (keyword_lookup (str_upper w) keywords) (Some w) d_zero r.
Proof.
  intros Hw Hstop lexer Hr. destruct w as [|c w]; [done|].
  apply andb_prop in Hw as [Hc Hall].
  destruct (c_isalpha_facts c Hc) as (Hb & HN & HL & HR & Hd & Hq).
  destruct (reads_scan is_ident_char lexer (String c w) r) as [Hr' Hlex]; try done.
  exists (lx_line lexer), (lx_column lexer), (scan is_ident_char lexer).
  split; [|done]. rewrite (next_token_here _ _ Hr) by done. cbv zeta.
  change (first_char (String c w +++ r)) with c. rewrite HN, HL, HR, Hd, Hq, Hc.
  simpl orb. cbv iota. unfold read_identifier. cbv zeta. by rewrite Hlex.
Qed.

Lemma next_is_string a r :
  str_all in_string a = true -> next_is (quoted a +++ r) TOK_STRING (Some a) d_zero r.
Proof.
  intros Ha lexer Hr. unfold quoted in Hr. simpl in Hr. rewrite append_assoc in Hr.
  assert (reads (advance lexer) (a +++ String QUOTE r)) as H0
    by (by eapply reads_advance).
  destruct (reads_scan in_string (advance lexer) a (String QUOTE r))
    as [H1 Hlex]; try done.
  assert (reads (advance (scan in_string (advance lexer))) r) as H2
    by (by eapply reads_advance).
  exists (lx_line lexer), (lx_column lexer), (advance (scan in_string (advance lexer))).
  split; [|done]. rewrite (next_token_here _ _ Hr) by done. cbv zeta.
  change (first_char (String QUOTE _)) with QUOTE. simpl. unfold read_string. cbv zeta.
  rewrite (peek_rest _ _ H1), Hlex. by change (first_char (String QUOTE r)) with QUOTE.
Qed.

(** An operator of one character, whatever its reader makes of the
    character [first_char r] behind it. *)
Lemma next_is_operator c r type text :
  is_op_char c = true ->
  (forall line col lexer, peek_char lexer = first_char r ->
     read_operator c line col lexer = (make_token type text d_zero line col, lexer)) ->
  next_is (String c r) type text d_zero r.
Proof.
  intros Hc Hop lexer Hr.
  destruct (is_op_char_facts c Hc) as (Hb & HN & HL & HR & Hd & Hq & Ha).
  assert (reads (advance lexer) r) as H1
    by (eapply reads_advance; [done|]; by intros ->).
  exists (lx_line lexer), (lx_column lexer), (advance lexer). split; [|done].
  rewrite (next_token_here _ _ Hr) by done. cbv zeta.
  change (first_char (String c r)) with c. rewrite HN, HL, HR, Hd, Hq, Ha.
  simpl orb. cbv iota. apply Hop, (peek_rest _ _ H1).
Qed.

(** An operator of two characters. *)
Lemma next_is_operator2 c d r type text :
  is_op_char c = true -> d <> NUL ->
  (forall line col lexer, peek_char lexer = d ->
     read_operator c line col lexer =
       (make_token type text d_zero line col, advance lexer)) ->
  next_is (String c (String d r)) type text d_zero r.
Proof.
  intros Hc Hd' Hop lexer Hr.
  destruct (is_op_char_facts c Hc) as (Hb & HN & HL & HR & Hd & Hq & Ha).
  assert (reads (advance lexer) (String d r)) as H1
    by (eapply reads_advance; [done|]; by intros ->).
  assert (reads (advance (advance lexer)) r) as H2 by (by eapply reads_advance).
  exists (lx_line lexer), (lx_column lexer), (advance (advance lexer)).
  split; [|done]. rewrite (next_token_here _ _ Hr) by done. cbv zeta.
  change (first_char (String c _)) with c. rewrite HN, HL, HR, Hd, Hq, Ha.
  simpl orb. cbv iota. apply Hop, (peek_rest _ _ H1).
Qed.

(** [lexer_peek_token] in the same terms. *)
Lemma peek_is s type text number r lexer :
  next_is s type text number r -> reads lexer s ->
  exists line col,
    lexer_peek_token lexer = (make_token type text number line col, lexer).
Proof.
  intros H Hr. destruct (H lexer Hr) as (line & col & l' & E & _).
  exists line, col. by rewrite peek_token_eq, E.
Qed.

End Next.

(** ** Sequences of tokens *)

Section Spells.
Context (ok : TokenType -> bool).
Implicit Types (s r : string).

Lemma spells_app s r r' : spells ok s r -> spells ok r r' -> spells ok s r'.
Proof. induction 1; [done|]. intros H'. eapply spells_cons; eauto. Qed.

Lemma spelled_spells s r : spelled ok s r -> spells ok s r.
Proof. intros (type & text & number & r' & H & Hok & Hs). by eapply spells_cons. Qed.

Lemma spelled_one s type text number r :
  next_is s type text number r -> ok type = true -> spelled ok s r.
Proof. intros H Hok. exists type, text, number, r. by repeat split; [..|constructor]. Qed.

Lemma spelled_app s r r' : spelled ok s r -> spells ok r r' -> spelled ok s r'.
Proof.
  intros (type & text & number & r1 & H & Hok & Hs) H'.
  exists type, text, number, r1. repeat split; [done..|]. by eapply spells_app.
Qed.

Lemma spelled_blank c s r : is_blank c = true -> spelled ok s r -> spelled ok (String c s) r.
Proof.
  intros Hb (type & text & number & r1 & H & Hok & Hs).
  exists type, text, number, r1. repeat split; [|done..]. by apply next_is_blank.
Qed.

Lemma spells_impl (ok' : TokenType -> bool) s r :
  (forall type, ok type = true -> ok' type = true) -> spells ok s r -> spells ok' s r.
Proof. intros Himpl. induction 1; [constructor|]. eapply spells_cons; eauto. Qed.

Lemma spelled_impl (ok' : TokenType -> bool) s r :
  (forall type, ok type = true -> ok' type = true) -> spelled ok s r -> spelled ok' s r.
Proof.
  intros Himpl (type & text & number & r1 & H & Hok & Hs).
  exists type, text, number, r1. repeat split; [done | auto |]. by eapply spells_impl.
Qed.

End Spells.
