(* ===== verification/Editor.v ===== *)
(** * Editor: the logical screen of [src/editor.c]

    The [Editor] record is the C struct: a [rows * cols] character buffer
    and a cursor.  Every function of [editor.c] that writes to the terminal
    takes the bytes written to [stdout] so far and returns them extended, so
    an [Editor] travels with the terminal stream as a [Screen].

    The buffer is a list; an access outside its [rows * cols] cells, which
    is undefined behaviour in C, leaves the buffer as it is and sets the
    field [ed_fault]; so does a scroll of a screen without rows, whose
    [memmove] has a negative size.  The invariant [editor_ok] includes that
    no fault has happened. *)

From S2P Require Import Prelude Utils.

Record Editor := mkEditor {
  ed_rows : Z;
  ed_cols : Z;
  ed_cursor_row : Z;
  ed_cursor_col : Z;
  ed_buffer : list ascii;
  ed_fault : bool
}.

(** An editor and the bytes written to the terminal. *)
Definition Screen : Type := Editor * string.

Definition ESC : ascii := "027"%char.
Definition CR : ascii := "013"%char.
Definition LF : ascii := "010"%char.

(** [printf("\033[%d;%dH", row + 1, col + 1)] *)
Definition cursor_to (row col : Z) : string :=
  [ESC]s +++ "[" +++ fmt_d (row + 1) +++ ";" +++ fmt_d (col + 1) +++ "H".

(** ** Buffer accesses *)

Definition buf_in_range (ed : Editor) (i : Z) : bool :=
  (0 <=? i) && (i <? Z.of_nat (length (ed_buffer ed))).

(** [ed->buffer[i] = c] *)
Definition buf_set (ed : Editor) (i : Z) (c : ascii) : Editor :=
  if buf_in_range ed i then
    {| ed_rows := ed_rows ed; ed_cols := ed_cols ed;
       ed_cursor_row := ed_cursor_row ed; ed_cursor_col := ed_cursor_col ed;
       ed_buffer := <[Z.to_nat i := c]> (ed_buffer ed);
       ed_fault := ed_fault ed |}
  else
    {| ed_rows := ed_rows ed; ed_cols := ed_cols ed;
       ed_cursor_row := ed_cursor_row ed; ed_cursor_col := ed_cursor_col ed;
       ed_buffer := ed_buffer ed;
       ed_fault := true |}.

Definition set_cursor (ed : Editor) (row col : Z) : Editor :=
  {| ed_rows := ed_rows ed; ed_cols := ed_cols ed;
     ed_cursor_row := row; ed_cursor_col := col;
     ed_buffer := ed_buffer ed; ed_fault := ed_fault ed |}.

Definition set_buffer (ed : Editor) (buffer : list ascii) : Editor :=
  {| ed_rows := ed_rows ed; ed_cols := ed_cols ed;
     ed_cursor_row := ed_cursor_row ed; ed_cursor_col := ed_cursor_col ed;
     ed_buffer := buffer; ed_fault := ed_fault ed |}.

(** ** Operations *)

(** [get_window_size]: the answer of the terminal, or 24 x 80 when the
    request fails or reports no columns. *)
Definition get_window_size (ws : option (Z * Z)) : Z * Z :=
  match ws with
  | Some (rows, cols) => if cols =? 0 then (24, 80) else (rows, cols)
  | None => (24, 80)
  end.

Definition editor_init (ws : option (Z * Z)) : Editor :=
  let '(rows, cols) := get_window_size ws in
  {| ed_rows := rows; ed_cols := cols; ed_cursor_row := 0; ed_cursor_col := 0;
     ed_buffer := replicate (Z.to_nat (rows * cols)) " "%char;
     ed_fault := false |}.

Definition editor_clear_screen (sc : Screen) : Screen :=
  let '(ed, out) := sc in
  (set_cursor (set_buffer ed (replicate (Z.to_nat (ed_rows ed * ed_cols ed)) " "%char)) 0 0,
   out +++ [ESC]s +++ "[2J" +++ [ESC]s +++ "[H").

Definition editor_scroll (sc : Screen) : Screen :=
  let '(ed, out) := sc in
  let n := Z.to_nat ((ed_rows ed - 1) * ed_cols ed) in
  let cols := Z.to_nat (ed_cols ed) in
  let moved := take n (drop cols (ed_buffer ed)) ++ drop n (ed_buffer ed) in
  let blanked := take n moved ++ replicate cols " "%char ++ drop (n + cols) moved in
  let row := ed_cursor_row ed - 1 in
  ({| ed_rows := ed_rows ed; ed_cols := ed_cols ed;
      ed_cursor_row := if row <? 0 then 0 else row;
      ed_cursor_col := ed_cursor_col ed;
      ed_buffer := blanked;
      ed_fault := ed_fault ed || (ed_rows ed <? 1) |},
   out +++ [ESC]s +++ "[S").

(** The rows of the buffer as [editor_refresh] writes them. *)
Fixpoint refresh_rows (fuel : nat) (r : Z) (ed : Editor) : string :=
  match fuel with
  | O => ""
  | S f =>
      string_of_list_ascii
        (take (Z.to_nat (ed_cols ed)) (drop (Z.to_nat (r * ed_cols ed)) (ed_buffer ed)))
      +++ (if r <? ed_rows ed - 1 then [CR]s +++ [LF]s else "")
      +++ refresh_rows f (r + 1) ed
  end.

Definition editor_refresh (sc : Screen) : Screen :=
  let '(ed, out) := sc in
  (ed, out +++ [ESC]s +++ "[H" +++ refresh_rows (Z.to_nat (ed_rows ed)) 0 ed
       +++ cursor_to (ed_cursor_row ed) (ed_cursor_col ed)).

(** The wrap and scroll checks that end every step of [editor_print]. *)
Definition wrap_and_scroll (sc : Screen) : Screen :=
  let '(ed, out) := sc in
  let '(ed, out) :=
    if ed_cols ed <=? ed_cursor_col ed then
      (set_cursor ed (ed_cursor_row ed + 1) 0, out +++ [CR]s +++ [LF]s)
    else (ed, out) in
  if ed_rows ed <=? ed_cursor_row ed then editor_scroll (ed, out) else (ed, out).

(** One character of [editor_print]. *)
Definition editor_putc (sc : Screen) (c : ascii) : Screen :=
  let '(ed, out) := sc in
  let sc1 :=
    if (c =? LF)%char then
      (set_cursor ed (ed_cursor_row ed + 1) 0, out +++ [CR]s +++ [LF]s)
    else if (c =? CR)%char then
      (set_cursor ed (ed_cursor_row ed) 0, out +++ [CR]s)
    else if (c =? "009")%char then
      let old_col := ed_cursor_col ed in
      let col := Z.land (old_col + 8) (Z.lnot 7) in
      (set_cursor ed (ed_cursor_row ed) col,
       out +++ string_of_list_ascii (replicate (Z.to_nat (col - old_col)) " "%char))
    else
      let '(ed, out) :=
        if ed_rows ed <=? ed_cursor_row ed then editor_scroll (ed, out) else (ed, out) in
      let ed := buf_set ed (ed_cursor_row ed * ed_cols ed + ed_cursor_col ed) c in
      (set_cursor ed (ed_cursor_row ed) (ed_cursor_col ed + 1), out +++ [c]s) in
  wrap_and_scroll sc1.

(** The loop of [editor_print] over the characters before the NUL. *)
Fixpoint editor_print_chars (sc : Screen) (str : string) : Screen :=
  match str with
  | EmptyString => sc
  | String c str' =>
      if (c =? NUL)%char then sc else editor_print_chars (editor_putc sc c) str'
  end.

Definition editor_print (sc : Screen) (str : string) : Screen :=
  let '(ed, out) := editor_print_chars sc str in
  (ed, out +++ cursor_to (ed_cursor_row ed) (ed_cursor_col ed)).

Definition editor_plot (sc : Screen) (x y : Z) (c : ascii) : Screen :=
  let '(ed, out) := sc in
  if (x <? 0) || (ed_cols ed <=? x) || (y <? 0) || (ed_rows ed <=? y) then sc
  else (buf_set ed (y * ed_cols ed + x) c, out +++ cursor_to y x +++ [c]s).

(** The ANSI background code of a C64 colour. *)
Definition ansi_background (color : Z) : Z :=
  match Z.land color 15 with
  | 0 => 40 | 1 => 107 | 2 => 41 | 3 => 106 | 4 => 45 | 5 => 42 | 6 => 44
  | 7 => 103 | 8 => 43 | 9 => 101 | 10 => 101 | 11 => 100 | 12 => 100
  | 13 => 102 | 14 => 104 | 15 => 100
  | _ => 40
  end.

Definition editor_set_background_color (sc : Screen) (color : Z) : Screen :=
  let '(ed, out) := sc in
  (ed, out +++ [ESC]s +++ "[" +++ fmt_d (ansi_background color) +++ "m").

(** The character a screen code is shown as. *)
Definition screen_code_char (val : Z) : ascii :=
  if (1 <=? val) && (val <=? 26) then char_of_Z (val + 64)
  else if (27 <=? val) && (val <=? 31) then char_of_Z (val + 64)
  else if (32 <=? val) && (val <=? 63) then char_of_Z val
  else if (64 <=? val) && (val <=? 95) then char_of_Z (val + 32)
  else if (96 <=? val) && (val <=? 127) then char_of_Z val
  else "?"%char.

Definition editor_poke_char (sc : Screen) (addr val : Z) : Screen :=
  let '(ed, out) := sc in
  let offset := addr - 1024 in
  if (offset <? 0) || (1000 <=? offset) then sc
  else
    let r := Z.quot offset 40 in
    let c := Z.rem offset 40 in
    let tr := Z.quot (r * ed_rows ed) 25 in
    let tc := Z.quot (c * ed_cols ed) 40 in
    editor_plot sc tc tr (screen_code_char val).

(** ** The invariant *)

Definition editor_ok (ed : Editor) : Prop :=
  0 < ed_rows ed /\ 0 < ed_cols ed /\
  Z.of_nat (length (ed_buffer ed)) = ed_rows ed * ed_cols ed /\
  0 <= ed_cursor_row ed < ed_rows ed /\
  0 <= ed_cursor_col ed < ed_cols ed /\
  ed_fault ed = false.

(** ** The display operations *)

(** The calls the interpreter makes on its screen. *)
Inductive EdOp : Type :=
  | OpPrint (str : string)
  | OpPlot (x y : Z) (c : ascii)
  | OpBackground (color : Z)
  | OpPoke (addr val : Z)
  | OpClear
  | OpRefresh.

Definition ed_apply (sc : Screen) (op : EdOp) : Screen :=
  match op with
  | OpPrint str => editor_print sc str
  | OpPlot x y c => editor_plot sc x y c
  | OpBackground color => editor_set_background_color sc color
  | OpPoke addr val => editor_poke_char sc addr val
  | OpClear => editor_clear_screen sc
  | OpRefresh => editor_refresh sc
  end.

(** [extends out out']: the stream [out'] is [out] with more bytes. *)
Definition extends (out out' : string) : Prop := exists s, out' = out +++ s.

(** ** Evaluation *)

Example screen_code_letter : screen_code_char 1 = "A"%char.
Proof. reflexivity. Qed.

Example screen_code_fallback : screen_code_char 0 = "?"%char.
Proof. reflexivity. Qed.

Example editor_print_HI :
  let sc := editor_print (editor_init (Some (2, 4)), "") "HI" in
  ed_buffer sc.1 = ["H"; "I"; " "; " "; " "; " "; " "; " "]%char /\
  (ed_cursor_row sc.1, ed_cursor_col sc.1) = (0, 2) /\
  sc.2 = "HI" +++ cursor_to 0 2.
Proof. vm_compute. auto. Qed.

(** ** The invariant is preserved *)

Section Invariant.
Implicit Types (ed : Editor) (sc : Screen) (out : string).

Lemma tab_stop (col : Z) :
  0 <= col -> col < Z.land (col + 8) (Z.lnot 7) <= col + 8.
Proof.
  intros H. change (Z.lnot 7) with (Z.lnot (Z.ones 3)).
  rewrite <- Z.ldiff_land, Z.ldiff_ones_r by lia.
  rewrite Z.shiftr_div_pow2, Z.shiftl_mul_pow2 by lia.
  change (2 ^ 3) with 8. pose proof (Z.div_mod (col + 8) 8 ltac:(lia)).
  pose proof (Z.mod_pos_bound (col + 8) 8 ltac:(lia)). lia.
Qed.

Lemma editor_init_ok (ws : option (Z * Z)) :
  (forall rows cols, ws = Some (rows, cols) -> 0 < rows /\ 0 <= cols) ->
  editor_ok (editor_init ws).
Proof.
  intros H. unfold editor_init, get_window_size.
  destruct ws as [[rows cols]|]; [|by vm_compute].
  destruct (H rows cols eq_refl). destruct (Z.eqb_spec cols 0); [by vm_compute|].
  repeat split; simpl; rewrite ?length_replicate; nia.
Qed.

Lemma buf_set_ok ed i c :
  editor_ok ed -> 0 <= i < ed_rows ed * ed_cols ed -> editor_ok (buf_set ed i c).
Proof.
  intros (Hr & Hc & Hl & Hrow & Hcol & Hf) Hi. unfold buf_set, buf_in_range.
  rewrite Hl. destruct (Z.leb_spec 0 i), (Z.ltb_spec i (ed_rows ed * ed_cols ed));
    try lia.
  cbn [andb]. unfold editor_ok.
  cbn [ed_rows ed_cols ed_cursor_row ed_cursor_col ed_buffer ed_fault].
  rewrite length_insert. repeat split; lia || done.
Qed.

Lemma set_cursor_ok ed row col :
  editor_ok ed -> 0 <= row < ed_rows ed -> 0 <= col < ed_cols ed ->
  editor_ok (set_cursor ed row col).
Proof. intros (? & ? & ? & ? & ? & ?) ? ?. repeat split; simpl; lia || done. Qed.

(** After a scroll the screen is well formed even when the cursor stood one
    row below the last one. *)
Lemma editor_scroll_ok ed out :
  editor_ok (set_cursor ed 0 (ed_cursor_col ed)) ->
  0 <= ed_cursor_row ed <= ed_rows ed ->
  editor_ok (editor_scroll (ed, out)).1.
Proof.
  intros (Hr & Hc & Hl & _ & Hcol & Hf) Hrow. simpl in *.
  repeat split; simpl; try lia.
  - rewrite !length_app, !length_take, !length_drop, length_replicate,
      length_app, length_take, !length_drop. nia.
  - destruct (Z.ltb_spec (ed_cursor_row ed - 1) 0); lia.
  - destruct (Z.ltb_spec (ed_cursor_row ed - 1) 0); lia.
  - rewrite Hf. simpl. destruct (Z.ltb_spec (ed_rows ed) 1); [lia | done].
Qed.

Lemma wrap_and_scroll_ok ed out :
  editor_ok (set_cursor ed 0 0) ->
  0 <= ed_cursor_row ed <= ed_rows ed -> 0 <= ed_cursor_col ed ->
  (ed_cursor_row ed = ed_rows ed -> ed_cursor_col ed < ed_cols ed) ->
  editor_ok (wrap_and_scroll (ed, out)).1.
Proof.
  intros Hok Hrow Hcol Hlast. destruct Hok as (Hr & Hc & Hl & _ & _ & Hf).
  cbn [set_cursor ed_rows ed_cols ed_buffer ed_fault] in Hr, Hc, Hl, Hf.
  unfold wrap_and_scroll.
  destruct (ed_cols ed <=? ed_cursor_col ed) eqn:Hw;
    [apply Z.leb_le in Hw | apply Z.leb_gt in Hw].
  - cbn [set_cursor ed_rows ed_cursor_row].
    destruct (ed_rows ed <=? ed_cursor_row ed + 1) eqn:Hs;
      [apply Z.leb_le in Hs | apply Z.leb_gt in Hs].
    + apply editor_scroll_ok; [repeat split; simpl; lia || done | simpl; lia].
    + repeat split; simpl; lia || done.
  - destruct (ed_rows ed <=? ed_cursor_row ed) eqn:Hs;
      [apply Z.leb_le in Hs | apply Z.leb_gt in Hs].
    + apply editor_scroll_ok; [repeat split; simpl; lia || done | lia].
    + repeat split; simpl; lia || done.
Qed.

Lemma editor_ok_origin ed row col :
  editor_ok ed -> editor_ok (set_cursor (set_cursor ed row col) 0 0).
Proof. intros (? & ? & ? & ? & ? & ?). repeat split; simpl; lia || done. Qed.

Lemma editor_putc_ok sc c : editor_ok sc.1 -> editor_ok (editor_putc sc c).1.
Proof.
  destruct sc as [ed out]. cbn [fst]. intros Hok.
  pose proof Hok as (Hr & Hc & Hl & Hrow & Hcol & Hf). unfold editor_putc.
  destruct (c =? LF)%char; [|destruct (c =? CR)%char; [|destruct (c =? "009")%char]].
  - apply wrap_and_scroll_ok; [by apply editor_ok_origin | simpl; lia..].
  - apply wrap_and_scroll_ok; [by apply editor_ok_origin | simpl; lia..].
  - pose proof (tab_stop (ed_cursor_col ed) ltac:(lia)).
    apply wrap_and_scroll_ok; [by apply editor_ok_origin | simpl; lia..].
  - destruct (Z.leb_spec (ed_rows ed) (ed_cursor_row ed)); [lia|].
    assert (editor_ok (buf_set ed (ed_cursor_row ed * ed_cols ed + ed_cursor_col ed) c))
      as Hb by (apply buf_set_ok; [done | nia]).
    set (ed' := buf_set ed _ c) in *.
    assert (ed_rows ed' = ed_rows ed /\ ed_cols ed' = ed_cols ed /\
            ed_cursor_row ed' = ed_cursor_row ed /\
            ed_cursor_col ed' = ed_cursor_col ed) as (Er & Ec & Erow & Ecol)
      by (unfold ed', buf_set; by destruct (buf_in_range _ _)).
    apply wrap_and_scroll_ok; [by apply editor_ok_origin | simpl; lia..].
Qed.

Lemma editor_print_chars_ok sc str :
  editor_ok sc.1 -> editor_ok (editor_print_chars sc str).1.
Proof.
  revert sc. induction str as [|c str IH]; intros sc Hok; simpl; [done|].
  case_match; [done|]. by apply IH, editor_putc_ok.
Qed.

Lemma editor_print_ok sc str : editor_ok sc.1 -> editor_ok (editor_print sc str).1.
Proof.
  intros Hok%(editor_print_chars_ok sc str). unfold editor_print.
  by destruct (editor_print_chars sc str).
Qed.

Lemma editor_plot_ok sc x y c : editor_ok sc.1 -> editor_ok (editor_plot sc x y c).1.
Proof.
  destruct sc as [ed out]. cbn [fst]. intros Hok. unfold editor_plot.
  destruct (Z.ltb_spec x 0), (Z.leb_spec (ed_cols ed) x), (Z.ltb_spec y 0),
    (Z.leb_spec (ed_rows ed) y); simpl; try done.
  apply buf_set_ok; [done|]. destruct Hok as (? & ? & _). nia.
Qed.

Lemma editor_poke_char_ok sc addr val :
  editor_ok sc.1 -> editor_ok (editor_poke_char sc addr val).1.
Proof.
  destruct sc as [ed out]. intros Hok. unfold editor_poke_char.
  case_match; [done|]. by apply editor_plot_ok.
Qed.

Lemma editor_clear_screen_ok sc : editor_ok sc.1 -> editor_ok (editor_clear_screen sc).1.
Proof.
  destruct sc as [ed out]. cbn [fst]. intros (? & ? & ? & ? & ? & ?).
  repeat split; simpl; rewrite ?length_replicate; nia || done.
Qed.

End Invariant.

#[export] Hint Resolve editor_putc_ok editor_print_ok editor_plot_ok
  editor_poke_char_ok editor_clear_screen_ok : cfb.

(** ** The terminal stream only grows *)

#[export] Instance extends_preorder : PreOrder extends.
Proof.
  split.
  - intros out. exists "". by rewrite append_nil_r.
  - intros a b c [s1 ->] [s2 ->]. exists (s1 +++ s2). by rewrite append_assoc.
Qed.

Lemma extends_append out s : extends out (out +++ s).
Proof. by exists s. Qed.

Lemma extends_append_r out out' s : extends out out' -> extends out (out' +++ s).
Proof. intros H. etrans; [done | apply extends_append]. Qed.

#[export] Hint Resolve extends_append extends_append_r : cfb.

Section Stream.
Implicit Types (ed : Editor) (sc : Screen) (out : string).

Lemma editor_scroll_extends sc : extends sc.2 (editor_scroll sc).2.
Proof. destruct sc as [ed out]. simpl. auto with cfb. Qed.

Lemma wrap_and_scroll_extends sc : extends sc.2 (wrap_and_scroll sc).2.
Proof.
  destruct sc as [ed out]. unfold wrap_and_scroll.
  destruct (_ <=? _); destruct (_ <=? _); simpl; auto with cfb.
  all: try reflexivity.
  all: etrans; [|apply extends_append]; auto with cfb.
Qed.

Lemma editor_putc_extends sc c : extends sc.2 (editor_putc sc c).2.
Proof.
  destruct sc as [ed out]. unfold editor_putc.
  etrans; [|apply wrap_and_scroll_extends].
  repeat case_match; simplify_eq; simpl; auto with cfb.
  match goal with H : editor_scroll _ = _ |- _ =>
    pose proof (editor_scroll_extends (ed, out)) as He; rewrite H in He end.
  auto with cfb.
Qed.

Lemma editor_print_chars_extends sc str : extends sc.2 (editor_print_chars sc str).2.
Proof.
  revert sc. induction str as [|c str IH]; intros sc; simpl; [done|].
  case_match; [done|]. etrans; [apply editor_putc_extends | apply IH].
Qed.

Lemma ed_apply_extends sc op : extends sc.2 (ed_apply sc op).2.
Proof.
  destruct op; simpl.
  - unfold editor_print. pose proof (editor_print_chars_extends sc str) as H.
    destruct (editor_print_chars sc str). simpl in *. auto with cfb.
  - destruct sc as [ed out]. unfold editor_plot. case_match; simpl; [done|].
    rewrite ?append_assoc. auto with cfb.
  - destruct sc as [ed out]. simpl. auto with cfb.
  - destruct sc as [ed out]. unfold editor_poke_char, editor_plot.
    repeat case_match; simpl; try done. rewrite ?append_assoc. auto with cfb.
  - destruct sc as [ed out]. simpl. auto with cfb.
  - destruct sc as [ed out]. simpl. auto with cfb.
Qed.

Lemma ed_apply_ok sc op : editor_ok sc.1 -> editor_ok (ed_apply sc op).1.
Proof.
  destruct op; simpl; auto with cfb; by destruct sc.
Qed.

End Stream.

(** ** The screen is safe *)

(** C20: every sequence of display operations on a well-formed screen
    leaves it well formed: the buffer keeps its size, the cursor stays
    inside the screen, and no operation reads or writes outside the buffer;
    the bytes already sent to the terminal are never taken back. *)
Theorem editor_operations_safe (ops : list EdOp) (sc : Screen) :
  editor_ok sc.1 ->
  editor_ok (fold_left ed_apply ops sc).1 /\
  extends sc.2 (fold_left ed_apply ops sc).2.
Proof.
  revert sc. induction ops as [|op ops IH]; intros sc Hok; simpl; [done|].
  destruct (IH (ed_apply sc op) (ed_apply_ok sc op Hok)) as [H1 H2].
  split; [done|]. etrans; [apply ed_apply_extends | done].
Qed.

Lemma editor_operations_safe_witness :
  let sc := fold_left ed_apply
    [OpPrint "HELLO WORLD"; OpPoke 1024 1; OpPlot 3 1 "*"; OpClear]
    (editor_init (Some (2, 4)), "") in
  editor_ok sc.1 /\ extends "" sc.2.
Proof.
  apply (editor_operations_safe _ (editor_init (Some (2, 4)), "")).
  apply editor_init_ok. intros rows cols [= <- <-]. lia.
Defined.
