(* ===== verification/ReadLine.v ===== *)
(** * ReadLine: the line input of [src/editor.c]

    [editor_read_line] reads keys one by one, edits the screen buffer, and on
    Enter picks the row under the cursor as the input line.  The keys come
    from [read(STDIN_FILENO, &c, 1)]; here they come from a list of read
    results ([Input]), and a read from the empty list is the end of the
    input.  The function answers the line ([None] for [NULL]), the screen
    and the input that is left.

    A read of the buffer outside its cells sets [ed_fault], as a write does
    in [Editor]. *)

From S2P Require Import Prelude Utils Editor.

(** The answers of [read]: a byte, [-1] with [EINTR], [-1] with another
    error, and [0]. *)
Inductive ReadResult : Type :=
  | RdChar (c : ascii)
  | RdIntr
  | RdError
  | RdEof.

Definition Input : Type := list ReadResult.

(** ** Buffer reads *)

(** [ed->buffer[i]] *)
Definition buf_get (ed : Editor) (i : Z) : ascii :=
  if buf_in_range ed i then nth (Z.to_nat i) (ed_buffer ed) " "%char else " "%char.

(** The editor after a read of [ed->buffer[i]]. *)
Definition buf_touch (ed : Editor) (i : Z) : Editor :=
  if buf_in_range ed i then ed
  else {| ed_rows := ed_rows ed; ed_cols := ed_cols ed;
          ed_cursor_row := ed_cursor_row ed; ed_cursor_col := ed_cursor_col ed;
          ed_buffer := ed_buffer ed; ed_fault := true |}.

(** [while (start <= end && ed->buffer[start] == ' ') start++;] *)
Fixpoint trim_start (fuel : nat) (ed : Editor) (start end_ : Z) : Z * Editor :=
  match fuel with
  | O => (start, ed)
  | S fuel =>
      if start <=? end_ then
        let ed := buf_touch ed start in
        if (buf_get ed start =? " ")%char then trim_start fuel ed (start + 1) end_
        else (start, ed)
      else (start, ed)
  end.

(** [while (end >= start && ed->buffer[end] == ' ') end--;] *)
Fixpoint trim_end (fuel : nat) (ed : Editor) (start end_ : Z) : Z * Editor :=
  match fuel with
  | O => (end_, ed)
  | S fuel =>
      if end_ >=? start then
        let ed := buf_touch ed end_ in
        if (buf_get ed end_ =? " ")%char then trim_end fuel ed start (end_ - 1)
        else (end_, ed)
      else (end_, ed)
  end.

(** The bytes of a buffer up to the first NUL, as [strlen] sees them. *)
Fixpoint c_string (l : list ascii) : string :=
  match l with
  | [] => ""
  | c :: l' => if (c =? NUL)%char then "" else String c (c_string l')
  end.

(** ** Keys *)

(** The Enter key: pick the row of the cursor and move to the next row. *)
Definition read_enter (sc : Screen) : string * Screen :=
  let '(ed, out) := sc in
  let r := ed_cursor_row ed in
  let start := r * ed_cols ed in
  let end_ := start + ed_cols ed - 1 in
  let fuel := S (Z.to_nat (ed_cols ed)) in
  let '(start, ed) := trim_start fuel ed start end_ in
  let '(end_, ed) := trim_end fuel ed start end_ in
  let len := end_ - start + 1 in
  let line :=
    if len >? 0 then
      c_string (take (Z.to_nat len) (drop (Z.to_nat start) (ed_buffer ed)))
    else "" in
  let out := out +++ [CR]s +++ [LF]s in
  let ed := set_cursor ed (ed_cursor_row ed + 1) 0 in
  let sc := if ed_rows ed <=? ed_cursor_row ed then editor_scroll (ed, out) else (ed, out) in
  (line, sc).

Definition read_backspace (sc : Screen) : Screen :=
  let '(ed, out) := sc in
  if ed_cursor_col ed >? 0 then
    let ed := set_cursor ed (ed_cursor_row ed) (ed_cursor_col ed - 1) in
    let ed := buf_set ed (ed_cursor_row ed * ed_cols ed + ed_cursor_col ed) " " in
    (ed, out +++ ["008"%char]s +++ " " +++ ["008"%char]s)
  else sc.

(** The escape sequence [ESC seq0 seq1]. *)
Definition read_escape (sc : Screen) (seq0 seq1 : ascii) : Screen :=
  let '(ed, out) := sc in
  let ed :=
    if (seq0 =? "[")%char then
      if (seq1 =? "A")%char then
        if ed_cursor_row ed >? 0
        then set_cursor ed (ed_cursor_row ed - 1) (ed_cursor_col ed) else ed
      else if (seq1 =? "B")%char then
        if ed_cursor_row ed <? ed_rows ed - 1
        then set_cursor ed (ed_cursor_row ed + 1) (ed_cursor_col ed) else ed
      else if (seq1 =? "C")%char then
        if ed_cursor_col ed <? ed_cols ed - 1
        then set_cursor ed (ed_cursor_row ed) (ed_cursor_col ed + 1) else ed
      else if (seq1 =? "D")%char then
        if ed_cursor_col ed >? 0
        then set_cursor ed (ed_cursor_row ed) (ed_cursor_col ed - 1) else ed
      else ed
    else ed in
  (ed, out +++ cursor_to (ed_cursor_row ed) (ed_cursor_col ed)).

(** A character that is no control code. *)
Definition read_char (sc : Screen) (c : ascii) : Screen :=
  let '(ed, out) := sc in
  let '(ed, out) :=
    if ed_rows ed <=? ed_cursor_row ed then editor_scroll (ed, out) else (ed, out) in
  let ed := buf_set ed (ed_cursor_row ed * ed_cols ed + ed_cursor_col ed) c in
  let ed := set_cursor ed (ed_cursor_row ed) (ed_cursor_col ed + 1) in
  let ed :=
    if ed_cols ed <=? ed_cursor_col ed
    then set_cursor ed (ed_cursor_row ed + 1) 0 else ed in
  (ed, out +++ [c]s).

Definition is_enter (c : ascii) : bool := (c =? CR)%char || (c =? LF)%char.
Definition is_backspace (c : ascii) : bool := (c =? "127")%char || (c =? "008")%char.

(** ** The loop *)

(** Why the loop is left: with a line, or with [NULL] after an interrupted
    read or at the end of the input. *)
Inductive LineResult : Type :=
  | Line (line : string)
  | Interrupted
  | Closed.

Fixpoint read_line_loop (inp : Input) (sc : Screen) : LineResult * Screen * Input :=
  match inp with
  | [] => (Closed, sc, [])
  | RdIntr :: inp' => (Interrupted, sc, inp')
  | RdError :: inp' => read_line_loop inp' sc
  | RdEof :: inp' => (Closed, sc, inp')
  | RdChar c :: inp' =>
      if is_enter c then
        let '(line, sc) := read_enter sc in (Line line, sc, inp')
      else if is_backspace c then read_line_loop inp' (read_backspace sc)
      else if (c =? ESC)%char then
        match inp' with
        | RdChar seq0 :: RdChar seq1 :: inp'' =>
            read_line_loop inp'' (read_escape sc seq0 seq1)
        | RdChar _ :: _ :: inp'' => read_line_loop inp'' sc
        | RdChar _ :: [] => (Closed, sc, [])
        | _ :: inp'' => read_line_loop inp'' sc
        | [] => (Closed, sc, [])
        end
      else if c_iscntrl c then read_line_loop inp' sc
      else read_line_loop inp' (read_char sc c)
  end.

(** The pointer [editor_read_line] returns. *)
Definition line_of (r : LineResult) : option string :=
  match r with
  | Line line => Some line
  | Interrupted | Closed => None
  end.

Definition editor_read_line (inp : Input) (sc : Screen)
  : option string * Screen * Input :=
  let '(r, sc, inp) := read_line_loop inp sc in (line_of r, sc, inp).

(** The keys of a text, typed one by one. *)
Definition keys_of (s : string) : Input := map RdChar (list_ascii_of_string s).

(** ** Invariant *)

(** The screen between two keys: as [editor_ok], but the cursor may stand at
    the start of the row below the last one, where the next character
    scrolls. *)
Definition editor_loose (ed : Editor) : Prop :=
  0 < ed_rows ed /\ 0 < ed_cols ed /\
  Z.of_nat (length (ed_buffer ed)) = ed_rows ed * ed_cols ed /\
  0 <= ed_cursor_row ed <= ed_rows ed /\
  0 <= ed_cursor_col ed < ed_cols ed /\
  (ed_cursor_row ed = ed_rows ed -> ed_cursor_col ed = 0) /\
  ed_fault ed = false.

(** ** Faults stay *)

Section Faults.
Implicit Types (ed : Editor) (sc : Screen).

Lemma buf_touch_fault ed i : ed_fault ed = true -> ed_fault (buf_touch ed i) = true.
Proof. unfold buf_touch. by case_match. Qed.

Lemma buf_touch_out ed i :
  buf_in_range ed i = false -> ed_fault (buf_touch ed i) = true.
Proof. unfold buf_touch. by intros ->. Qed.

Lemma trim_start_fault fuel ed start end_ :
  ed_fault ed = true -> ed_fault (trim_start fuel ed start end_).2 = true.
Proof.
  revert ed start. induction fuel as [|fuel IH]; intros ed start Hf; simpl; [done|].
  repeat case_match; simpl; auto using buf_touch_fault.
Qed.

Lemma trim_end_fault fuel ed start end_ :
  ed_fault ed = true -> ed_fault (trim_end fuel ed start end_).2 = true.
Proof.
  revert ed end_. induction fuel as [|fuel IH]; intros ed end_ Hf; simpl; [done|].
  repeat case_match; simpl; auto using buf_touch_fault.
Qed.

Lemma editor_scroll_fault sc :
  ed_fault sc.1 = true -> ed_fault (editor_scroll sc).1 = true.
Proof. destruct sc as [ed out]. simpl. by intros ->. Qed.

(** Enter keeps a fault that the trimming of the row has set. *)
Lemma read_enter_fault ed out :
  ed_fault (trim_start (S (Z.to_nat (ed_cols ed))) ed
              (ed_cursor_row ed * ed_cols ed)
              (ed_cursor_row ed * ed_cols ed + ed_cols ed - 1)).2 = true ->
  ed_fault (read_enter (ed, out)).2.1 = true.
Proof.
  intros H. unfold read_enter.
  destruct (trim_start _ ed _ _) as [start ed1]. simpl in H.
  pose proof (trim_end_fault (S (Z.to_nat (ed_cols ed))) ed1 start
    (ed_cursor_row ed * ed_cols ed + ed_cols ed - 1) H) as H2.
  destruct (trim_end _ ed1 _ _) as [end_ ed2]. simpl in H2.
  cbn [snd]. destruct (_ <=? _); [|done].
  by apply (editor_scroll_fault (_, _)).
Qed.

End Faults.

(** ** Reads inside the buffer *)

Section Range.
Implicit Types (ed : Editor) (sc : Screen).

Lemma buf_touch_in ed i : buf_in_range ed i = true -> buf_touch ed i = ed.
Proof. unfold buf_touch. by intros ->. Qed.

Lemma trim_start_range fuel ed start end_ :
  (forall i, start <= i <= end_ -> buf_in_range ed i = true) ->
  (trim_start fuel ed start end_).2 = ed /\
  start <= (trim_start fuel ed start end_).1 <= Z.max start (end_ + 1).
Proof.
  revert start. induction fuel as [|fuel IH]; intros start Hin; simpl;
    [split; [done | lia]|].
  destruct (Z.leb_spec start end_); [|split; [done | simpl; lia]].
  rewrite buf_touch_in by (apply Hin; lia).
  case_match; [|split; [done | simpl; lia]].
  destruct (IH (start + 1)) as [-> ?]; [intros i Hi; apply Hin; lia|].
  split; [done | lia].
Qed.

Lemma trim_end_range fuel ed start end_ :
  (forall i, start <= i <= end_ -> buf_in_range ed i = true) ->
  (trim_end fuel ed start end_).2 = ed /\
  Z.min (start - 1) end_ <= (trim_end fuel ed start end_).1 <= end_.
Proof.
  revert end_. induction fuel as [|fuel IH]; intros end_ Hin; simpl;
    [split; [done | lia]|].
  destruct (Z.geb_spec end_ start); [|split; [done | simpl; lia]].
  rewrite buf_touch_in by (apply Hin; lia).
  case_match; [|split; [done | simpl; lia]].
  destruct (IH (end_ - 1)) as [-> ?]; [intros i Hi; apply Hin; lia|].
  split; [done | lia].
Qed.

Lemma row_in_range ed i :
  editor_ok ed ->
  ed_cursor_row ed * ed_cols ed <= i <= ed_cursor_row ed * ed_cols ed + ed_cols ed - 1 ->
  buf_in_range ed i = true.
Proof.
  intros (Hr & Hc & Hl & Hrow & Hcol & Hf) Hi. unfold buf_in_range. rewrite Hl.
  apply andb_true_intro. split; [apply Z.leb_le | apply Z.ltb_lt]; nia.
Qed.

Lemma length_c_string (l : list ascii) : (String.length (c_string l) <= length l)%nat.
Proof. induction l as [|c l IH]; simpl; [done|]. case_match; simpl; lia. Qed.

End Range.

(** ** Keys on a well-formed screen *)

Section Keys.
Implicit Types (ed : Editor) (sc : Screen) (out : string).

Lemma editor_ok_loose ed : editor_ok ed -> editor_loose ed.
Proof. intros (? & ? & ? & ? & ? & ?). repeat split; lia || done. Qed.

Lemma read_enter_ok ed out :
  editor_ok ed ->
  editor_ok (read_enter (ed, out)).2.1 /\
  Z.of_nat (String.length (read_enter (ed, out)).1) <= ed_cols ed.
Proof.
  intros Hok. unfold read_enter.
  pose proof (trim_start_range (S (Z.to_nat (ed_cols ed))) ed _ _
    (fun i => row_in_range ed i Hok)) as [E1 B1].
  destruct (trim_start _ ed _ _) as [start ed1]. simpl in E1, B1. subst ed1.
  pose proof (trim_end_range (S (Z.to_nat (ed_cols ed))) ed start
    (ed_cursor_row ed * ed_cols ed + ed_cols ed - 1)) as [E2 B2].
  { intros i Hi. apply row_in_range; [done | lia]. }
  destruct (trim_end _ ed _ _) as [end_ ed2]. simpl in E2, B2. subst ed2.
  pose proof Hok as (Hr & Hc & Hl & Hrow & Hcol & Hf). split.
  - cbn [snd fst set_cursor ed_rows ed_cursor_row].
    destruct (Z.leb_spec (ed_rows ed) (ed_cursor_row ed + 1)).
    + apply editor_scroll_ok; [by apply editor_ok_origin | simpl; lia].
    + repeat split; simpl; lia || done.
  - cbn [fst]. destruct (Z.gtb_spec (end_ - start + 1) 0); [|simpl; lia].
    pose proof (length_c_string
      (take (Z.to_nat (end_ - start + 1)) (drop (Z.to_nat start) (ed_buffer ed)))) as Hlen.
    rewrite length_take in Hlen. lia.
Qed.

(** The part of [read_char] after the scroll. *)
Lemma read_char_step ed out c :
  editor_ok ed ->
  (ed_rows ed <=? ed_cursor_row ed) = false /\ editor_loose (read_char (ed, out) c).1.
Proof.
  intros Hok. pose proof Hok as (Hr & Hc & Hl & Hrow & Hcol & Hf).
  assert ((ed_rows ed <=? ed_cursor_row ed) = false) as E by (apply Z.leb_gt; lia).
  split; [done|]. unfold read_char. rewrite E.
  assert (editor_ok (buf_set ed (ed_cursor_row ed * ed_cols ed + ed_cursor_col ed) c))
    as Hb by (apply buf_set_ok; [done | nia]).
  set (ed' := buf_set ed _ c) in *.
  assert (ed_rows ed' = ed_rows ed /\ ed_cols ed' = ed_cols ed /\
          ed_cursor_row ed' = ed_cursor_row ed /\
          ed_cursor_col ed' = ed_cursor_col ed) as (Er & Ec & Erow & Ecol)
    by (unfold ed', buf_set; by destruct (buf_in_range _ _)).
  destruct Hb as (? & ? & ? & ? & ? & ?).
  cbn [fst set_cursor ed_cols ed_cursor_col ed_cursor_row].
  destruct (Z.leb_spec (ed_cols ed') (ed_cursor_col ed' + 1));
    repeat split; simpl; lia || done.
Qed.

Lemma read_char_loose ed out c :
  editor_loose ed -> editor_loose (read_char (ed, out) c).1.
Proof.
  intros (Hr & Hc & Hl & Hrow & Hcol & Hlast & Hf).
  destruct (Z.leb_spec (ed_rows ed) (ed_cursor_row ed)) as [Hs|Hs].
  - assert (editor_ok (editor_scroll (ed, out)).1) as Hok.
    { apply editor_scroll_ok; [repeat split; simpl; lia || done | lia]. }
    destruct (read_char_step _ (editor_scroll (ed, out)).2 c Hok) as [E H].
    unfold read_char in *. apply Z.leb_le in Hs. rewrite Hs.
    destruct (editor_scroll (ed, out)) as [ed1 out1]. cbn [fst snd] in *.
    by rewrite E in H.
  - apply read_char_step. repeat split; lia || done.
Qed.

Lemma read_backspace_loose ed out :
  editor_loose ed -> editor_loose (read_backspace (ed, out)).1.
Proof.
  intros Hl. pose proof Hl as (Hr & Hc & Hlen & Hrow & Hcol & Hlast & Hf).
  unfold read_backspace. destruct (Z.gtb_spec (ed_cursor_col ed) 0); [|done].
  cbn [fst set_cursor ed_cols ed_cursor_col ed_cursor_row].
  apply editor_ok_loose, buf_set_ok; [repeat split; simpl; lia || done | simpl; nia].
Qed.

Lemma read_escape_ok ed out seq0 seq1 :
  editor_ok ed -> editor_ok (read_escape (ed, out) seq0 seq1).1.
Proof.
  intros Hok. pose proof Hok as (Hr & Hc & Hlen & Hrow & Hcol & Hf).
  unfold read_escape. cbn [fst].
  repeat case_match; try done; apply set_cursor_ok; lia || done.
Qed.

End Keys.

(** ** The line input against the screen *)

(** C16: keys on the screen.  Between two keys the cursor may stand at
    the start of the row below the last one; from such a screen a character
    and a backspace lead to such a screen again, and neither reads or
    writes outside the buffer.  On a well-formed screen Enter picks a line
    of at most [cols] characters and leaves the screen well formed, and so
    does a cursor key. *)
Theorem read_key_safe (ed : Editor) (out : string) (c seq0 seq1 : ascii) :
  editor_loose ed ->
  editor_loose (read_char (ed, out) c).1 /\
  editor_loose (read_backspace (ed, out)).1 /\
  (editor_ok ed ->
   editor_ok (read_enter (ed, out)).2.1 /\
   Z.of_nat (String.length (read_enter (ed, out)).1) <= ed_cols ed /\
   editor_ok (read_escape (ed, out) seq0 seq1).1).
Proof.
  intros Hl. split; [by apply read_char_loose|].
  split; [by apply read_backspace_loose|]. intros Hok.
  destruct (read_enter_ok ed out Hok) as [H1 H2].
  do 2 (split; [done|]). by apply read_escape_ok.
Qed.

Lemma read_key_safe_witness :
  let ed := (editor_read_line (keys_of "RUN") (editor_init (Some (1, 3)), "")).1.2.1 in
  ed_cursor_row ed = ed_rows ed /\
  editor_loose (read_char (ed, "") "A").1 /\
  editor_loose (read_backspace (ed, "")).1.
Proof.
  split; [reflexivity|].
  destruct (read_key_safe
    (editor_read_line (keys_of "RUN") (editor_init (Some (1, 3)), "")).1.2.1
    "" "A" "[" "B") as (H1 & H2 & _); [|by split].
  vm_compute. repeat split; try reflexivity; discriminate.
Defined.

(** C19: Enter below the screen reads outside the buffer.  After a
    character has filled the last cell of the last row the cursor stands on
    the row below the screen; Enter then picks that row, and the first byte
    it reads is the one past the end of the buffer. *)
Theorem read_enter_below_screen (ed : Editor) (out : string) :
  editor_loose ed -> ed_cursor_row ed = ed_rows ed ->
  ed_fault (read_enter (ed, out)).2.1 = true.
Proof.
  intros (Hr & Hc & Hl & Hrow & Hcol & Hlast & Hf) Hbelow.
  apply read_enter_fault. cbn [trim_start].
  destruct (Z.leb_spec (ed_cursor_row ed * ed_cols ed)
              (ed_cursor_row ed * ed_cols ed + ed_cols ed - 1)); [|lia].
  assert (ed_fault (buf_touch ed (ed_cursor_row ed * ed_cols ed)) = true) as Ht.
  { apply buf_touch_out. unfold buf_in_range. rewrite Hl, Hbelow.
    apply andb_false_intro2, Z.ltb_ge. lia. }
  case_match; [by apply trim_start_fault | done].
Qed.

Lemma read_enter_below_screen_witness :
  let sc := (editor_read_line (keys_of "RUN") (editor_init (Some (1, 3)), "")).1.2 in
  ed_fault (read_enter sc).2.1 = true.
Proof.
  apply (read_enter_below_screen
    (editor_read_line (keys_of "RUN") (editor_init (Some (1, 3)), "")).1.2.1);
    vm_compute; [|reflexivity].
  repeat split; try reflexivity; discriminate.
Defined.

(** ** Evaluation *)

Example read_line_typed :
  let r := editor_read_line (keys_of "10 PRINT" ++ [RdChar CR])
             (editor_init (Some (2, 10)), "") in
  r.1.1 = Some "10 PRINT" /\ ed_cursor_row r.1.2.1 = 1 /\ ed_fault r.1.2.1 = false.
Proof. vm_compute. auto. Qed.

(** The picked line is the row of the screen, not the keys that were typed:
    after cursor up, Enter picks the row above again. *)
Example read_line_picks_row :
  let sc := (editor_read_line (keys_of "LIST" ++ [RdChar CR])
               (editor_init (Some (3, 8)), "")).1.2 in
  (editor_read_line [RdChar ESC; RdChar "["; RdChar "A"; RdChar CR] sc).1.1 =
    Some "LIST".
Proof. vm_compute. reflexivity. Qed.

(** A full last row followed by Enter reads outside the buffer. *)
Example read_line_overrun :
  ed_fault (editor_read_line (keys_of "RUN" ++ [RdChar CR])
              (editor_init (Some (1, 3)), "")).1.2.1 = true.
Proof. vm_compute. reflexivity. Qed.

(** Cursor right and backspace below the screen write outside the buffer. *)
Example read_line_overwrite :
  ed_fault (editor_read_line
              (keys_of "RUN" ++ [RdChar ESC; RdChar "["; RdChar "C"; RdChar "127"])
              (editor_init (Some (1, 3)), "")).1.2.1 = true.
Proof. vm_compute. reflexivity. Qed.
