(* ===== verification/Draw.v ===== *)
(** * Draw: the line rasteriser of [draw_line] in [src/interpreter.c]

    The loop of [draw_line] is Bresenham's algorithm on the cells of the
    screen: it plots a cell, and moves one step along either or both axes
    until it stands on the end point.  [draw_loop] is the loop on a fuel,
    [draw_points] the cells it plots.  The theorems show that the fuel
    [draw_fuel] is enough, that the first and the last cell are the two end
    points, and that each cell touches the one before. *)

From S2P Require Import Prelude Utils Editor.

(** The loop of [draw_line]. *)
Fixpoint draw_loop (fuel : nat) (sc : Screen) (tx1 ty1 tx2 ty2 dx dy sx sy err : Z)
  : option Screen :=
  match fuel with
  | O => None
  | S fuel =>
      let sc := editor_plot sc tx1 ty1 "*" in
      if (tx1 =? tx2) && (ty1 =? ty2) then Some sc
      else
        let e2 := 2 * err in
        let '(err, tx1) := if e2 >? - dy then (err - dy, tx1 + sx) else (err, tx1) in
        let '(err, ty1) := if e2 <? dx then (err + dx, ty1 + sy) else (err, ty1) in
        draw_loop fuel sc tx1 ty1 tx2 ty2 dx dy sx sy err
  end.

(** The fuel of [draw_loop]: one turn for each step along either axis. *)
Definition draw_fuel (dx dy : Z) : nat := S (Z.to_nat (dx + dy)).

(** The line on a screen, from and to scaled coordinates. *)
Definition draw_scaled (sc : Screen) (tx1 ty1 tx2 ty2 : Z) : option Screen :=
  let dx := Z.abs (tx2 - tx1) in
  let dy := Z.abs (ty2 - ty1) in
  let sx := if tx1 <? tx2 then 1 else -1 in
  let sy := if ty1 <? ty2 then 1 else -1 in
  let err := dx - dy in
  draw_loop (draw_fuel dx dy) sc tx1 ty1 tx2 ty2 dx dy sx sy err.

(** ** Specification *)

(** The cells the loop plots, in order. *)
Fixpoint draw_points (fuel : nat) (tx1 ty1 tx2 ty2 dx dy sx sy err : Z)
  : option (list (Z * Z)) :=
  match fuel with
  | O => None
  | S fuel =>
      if (tx1 =? tx2) && (ty1 =? ty2) then Some [(tx1, ty1)]
      else
        let e2 := 2 * err in
        let '(err, tx1') := if e2 >? - dy then (err - dy, tx1 + sx) else (err, tx1) in
        let '(err, ty1') := if e2 <? dx then (err + dx, ty1 + sy) else (err, ty1) in
        ps ← draw_points fuel tx1' ty1' tx2 ty2 dx dy sx sy err;
        Some ((tx1, ty1) :: ps)
  end.

(** A screen after plotting the cells of a list. *)
Definition plot_all (sc : Screen) (ps : list (Z * Z)) : Screen :=
  fold_left (fun sc p => editor_plot sc p.1 p.2 "*") ps sc.

(** Each cell is another cell than the one before and touches it. *)
Fixpoint connected (ps : list (Z * Z)) : Prop :=
  match ps with
  | p :: (q :: _) as rest =>
      p <> q /\ Z.abs (q.1 - p.1) <= 1 /\ Z.abs (q.2 - p.2) <= 1 /\ connected rest
  | _ => True
  end.

(** The state of the loop: [dx] and [dy] are the extent of the line, the
    steps go towards the end point, and [err] is the error term of the cell
    [(tx1, ty1)]. *)
Definition line_state (tx1 ty1 tx2 ty2 dx dy sx sy err : Z) : Prop :=
  0 <= dx /\ 0 <= dy /\ Z.abs (tx2 - tx1) <= dx /\ Z.abs (ty2 - ty1) <= dy /\
  tx2 - tx1 = sx * Z.abs (tx2 - tx1) /\ ty2 - ty1 = sy * Z.abs (ty2 - ty1) /\
  (sx = 1 \/ sx = -1) /\ (sy = 1 \/ sy = -1) /\
  err = dx - dy + Z.abs (tx2 - tx1) * dy - Z.abs (ty2 - ty1) * dx.

(** The cells that are left to the end point, along both axes. *)
Definition distance (tx1 ty1 tx2 ty2 : Z) : Z :=
  Z.abs (tx2 - tx1) + Z.abs (ty2 - ty1).

(** ** One step *)

Lemma line_step (tx1 ty1 tx2 ty2 dx dy sx sy err : Z) :
  line_state tx1 ty1 tx2 ty2 dx dy sx sy err ->
  ~ (tx1 = tx2 /\ ty1 = ty2) ->
  let '(err1, tx1') := if 2 * err >? - dy then (err - dy, tx1 + sx) else (err, tx1) in
  let '(err2, ty1') := if 2 * err <? dx then (err1 + dx, ty1 + sy) else (err1, ty1) in
  line_state tx1' ty1' tx2 ty2 dx dy sx sy err2 /\
  distance tx1' ty1' tx2 ty2 < distance tx1 ty1 tx2 ty2 /\
  Z.abs (tx1' - tx1) <= 1 /\ Z.abs (ty1' - ty1) <= 1.
Proof.
  unfold line_state, distance.
  intros (Hdx & Hdy & Hrx & Hry & Hx & Hy & Hsx & Hsy & Herr) Hne.
  remember (Z.abs (tx2 - tx1)) as rx eqn:Erx.
  remember (Z.abs (ty2 - ty1)) as ry eqn:Ery.
  assert (0 <= rx) by lia. assert (0 <= ry) by lia.
  assert (0 < rx \/ 0 < ry) as Hpos by lia.
  destruct (Z.gtb_spec (2 * err) (- dy)) as [Hgx|Hgx];
  destruct (Z.ltb_spec (2 * err) dx) as [Hgy|Hgy].
  - assert (0 < rx) by nia. assert (0 < ry) by nia.
    assert (Z.abs (tx2 - (tx1 + sx)) = rx - 1) as -> by lia.
    assert (Z.abs (ty2 - (ty1 + sy)) = ry - 1) as -> by lia.
    repeat split; try lia; nia.
  - assert (0 < rx) by nia.
    assert (Z.abs (tx2 - (tx1 + sx)) = rx - 1) as -> by lia.
    rewrite <- Ery. repeat split; try lia; nia.
  - assert (0 < ry) by nia.
    assert (Z.abs (ty2 - (ty1 + sy)) = ry - 1) as -> by lia.
    rewrite <- Erx. repeat split; try lia; nia.
  - exfalso. nia.
Qed.

Lemma line_state_init (tx1 ty1 tx2 ty2 : Z) :
  line_state tx1 ty1 tx2 ty2 (Z.abs (tx2 - tx1)) (Z.abs (ty2 - ty1))
    (if tx1 <? tx2 then 1 else -1) (if ty1 <? ty2 then 1 else -1)
    (Z.abs (tx2 - tx1) - Z.abs (ty2 - ty1)).
Proof.
  unfold line_state.
  destruct (Z.ltb_spec tx1 tx2), (Z.ltb_spec ty1 ty2); repeat split; lia.
Qed.

(** ** The loop *)

Lemma draw_loop_points fuel sc (tx1 ty1 tx2 ty2 dx dy sx sy err : Z) :
  draw_loop fuel sc tx1 ty1 tx2 ty2 dx dy sx sy err =
    ps ← draw_points fuel tx1 ty1 tx2 ty2 dx dy sx sy err; Some (plot_all sc ps).
Proof.
  revert sc tx1 ty1 err. induction fuel as [|fuel IH]; intros sc tx1 ty1 err; [done|].
  simpl. destruct ((tx1 =? tx2) && (ty1 =? ty2)); [done|].
  destruct (2 * err >? - dy), (2 * err <? dx); rewrite IH;
    by destruct (draw_points fuel _ _ _ _ _ _ _ _ _).
Qed.

Lemma connected_cons (p q : Z * Z) (ps : list (Z * Z)) :
  head ps = Some q -> p <> q -> Z.abs (q.1 - p.1) <= 1 -> Z.abs (q.2 - p.2) <= 1 ->
  connected ps -> connected (p :: ps).
Proof. destruct ps as [|q' ps]; [done|]. intros [= ->]. by repeat split. Qed.

Lemma last_cons_head {A} (p q : A) (ps : list A) :
  head ps = Some q -> last (p :: ps) = last ps.
Proof. by destruct ps. Qed.

Lemma draw_points_spec fuel (tx1 ty1 tx2 ty2 dx dy sx sy err : Z) :
  line_state tx1 ty1 tx2 ty2 dx dy sx sy err ->
  distance tx1 ty1 tx2 ty2 < Z.of_nat fuel ->
  exists ps, draw_points fuel tx1 ty1 tx2 ty2 dx dy sx sy err = Some ps /\
    head ps = Some (tx1, ty1) /\ last ps = Some (tx2, ty2) /\ connected ps /\
    Z.of_nat (length ps) <= distance tx1 ty1 tx2 ty2 + 1.
Proof.
  revert tx1 ty1 err. induction fuel as [|fuel IH]; intros tx1 ty1 err Hst Hf;
    [unfold distance in Hf; lia|].
  simpl. destruct ((tx1 =? tx2) && (ty1 =? ty2)) eqn:Hat.
  { apply andb_prop in Hat as [->%Z.eqb_eq ->%Z.eqb_eq].
    exists [(tx2, ty2)]. unfold distance. repeat split; simpl; lia. }
  assert (~ (tx1 = tx2 /\ ty1 = ty2)) as Hne.
  { intros [-> ->]. by rewrite !Z.eqb_refl in Hat. }
  pose proof (line_step _ _ _ _ _ _ _ _ _ Hst Hne) as Hstep.
  destruct (2 * err >? - dy), (2 * err <? dx);
    destruct Hstep as (Hst' & Hd & Hx & Hy);
    (destruct (IH _ _ _ Hst') as (ps & -> & Hh & Hl & Hc & Hlen); [lia|]);
    (eexists; split; [reflexivity|]);
    (split; [done|]); (split; [by rewrite (last_cons_head _ _ _ Hh)|]);
    (split; [|simpl; lia]);
    (eapply connected_cons; [exact Hh | | done..]);
    intros E; apply (f_equal (fun p => distance p.1 p.2 tx2 ty2)) in E;
    simpl in E; lia.
Qed.

(** The loop keeps the screen well formed. *)
Lemma draw_loop_ok fuel sc (tx1 ty1 tx2 ty2 dx dy sx sy err : Z) sc' :
  draw_loop fuel sc tx1 ty1 tx2 ty2 dx dy sx sy err = Some sc' ->
  editor_ok sc.1 -> editor_ok sc'.1.
Proof.
  revert sc tx1 ty1 err. induction fuel as [|fuel IH]; intros sc tx1 ty1 err; [done|].
  simpl. destruct ((tx1 =? tx2) && (ty1 =? ty2)).
  { intros [= <-] Hok. by apply editor_plot_ok. }
  destruct (2 * err >? - dy), (2 * err <? dx); intros H Hok;
    (eapply IH; [exact H | by apply editor_plot_ok]).
Qed.

Lemma draw_scaled_ok sc (tx1 ty1 tx2 ty2 : Z) sc' :
  draw_scaled sc tx1 ty1 tx2 ty2 = Some sc' -> editor_ok sc.1 -> editor_ok sc'.1.
Proof. apply draw_loop_ok. Qed.

(** ** The rasteriser *)

(** C15: the loop of [draw_line] terminates within its fuel for every pair
    of end points, and the cells it plots form a line: the first cell is
    the start point, the last one the end point, each cell is a neighbour
    of the one before, and there are at most as many cells as steps along
    both axes plus one. *)
Theorem draw_scaled_line (sc : Screen) (tx1 ty1 tx2 ty2 : Z) :
  exists ps, draw_scaled sc tx1 ty1 tx2 ty2 = Some (plot_all sc ps) /\
    head ps = Some (tx1, ty1) /\ last ps = Some (tx2, ty2) /\ connected ps /\
    Z.of_nat (length ps) <= distance tx1 ty1 tx2 ty2 + 1.
Proof.
  unfold draw_scaled. rewrite draw_loop_points.
  destruct (draw_points_spec
    (draw_fuel (Z.abs (tx2 - tx1)) (Z.abs (ty2 - ty1))) _ _ _ _ _ _ _ _ _
    (line_state_init tx1 ty1 tx2 ty2)) as (ps & -> & H);
    [unfold draw_fuel, distance; lia|].
  by exists ps.
Qed.

(** ** Evaluation *)

Example draw_points_shallow :
  draw_points 10 0 0 5 2 5 2 1 1 3 =
    Some [(0, 0); (1, 0); (2, 1); (3, 1); (4, 2); (5, 2)].
Proof. reflexivity. Qed.

Example draw_scaled_point :
  draw_scaled (editor_init (Some (2, 2)), "") 1 1 1 1 =
    Some (editor_plot (editor_init (Some (2, 2)), "") 1 1 "*").
Proof. reflexivity. Qed.
