(* ===== verification/Store.v ===== *)
(** * Store: what a keyed store of the interpreter promises

    The program store and the variable store of [src/interpreter.c] are both
    linked lists that the rest of the interpreter uses as maps: the run loop
    and [GOTO] look lines up by number, the evaluator and the assignment
    look variables up by name.  [KeyedStore] is that contract: a store has
    an invariant, an abstraction to a finite map, a lookup and an update,
    and the two operations are those of the map on the normalised key.

    [Program] and [Variables] each give an instance; the lemmas of this file
    are proved once, from the laws, for the clients of both. *)

From stdpp Require Export gmap.
From S2P Require Import Prelude.

Class KeyedStore (St Key K V : Type) `{Countable K} := {
  (** the invariant of the store *)
  ks_inv : St -> Prop;
  (** the keys and values the operations are called with *)
  ks_key : Key -> Prop;
  ks_val : V -> Prop;
  (** the key under which the map holds a binding *)
  ks_norm : Key -> K;
  (** the finite map a store stands for *)
  ks_abs : St -> gmap K V;
  ks_get : St -> Key -> option V;
  ks_put : St -> Key -> V -> St;
  ks_get_abs s k :
    ks_inv s -> ks_key k -> ks_get s k = ks_abs s !! ks_norm k;
  ks_put_abs s k v :
    ks_inv s -> ks_key k -> ks_val v ->
    ks_abs (ks_put s k v) = <[ks_norm k := v]> (ks_abs s);
  ks_put_inv s k v :
    ks_inv s -> ks_key k -> ks_val v -> ks_inv (ks_put s k v)
}.

(** A sequence of updates, oldest first. *)
Definition ks_puts `{KS : KeyedStore St Key K V} (s : St) (kvs : list (Key * V)) : St :=
  fold_left (fun s kv => ks_put s kv.1 kv.2) kvs s.

(** The same sequence on the map. *)
Definition map_puts `{KS : KeyedStore St Key K V} (m : gmap K V) (kvs : list (Key * V))
  : gmap K V :=
  fold_left (fun m kv => <[ks_norm kv.1 := kv.2]> m) kvs m.

Section Laws.
Context `{KS : KeyedStore St Key K V}.
Implicit Types (s : St) (k : Key) (v : V).

(** A lookup after an update under a key with the same normal form finds
    the value. *)
Lemma ks_get_put_same s k k' v :
  ks_inv s -> ks_key k -> ks_key k' -> ks_val v -> ks_norm k = ks_norm k' ->
  ks_get (ks_put s k v) k' = Some v.
Proof.
  intros Hi Hk Hk' Hv E.
  rewrite ks_get_abs, ks_put_abs by auto using ks_put_inv.
  by rewrite E, lookup_insert_eq.
Qed.

(** An update leaves the other keys as they were. *)
Lemma ks_get_put_other s k k' v :
  ks_inv s -> ks_key k -> ks_key k' -> ks_val v -> ks_norm k <> ks_norm k' ->
  ks_get (ks_put s k v) k' = ks_get s k'.
Proof.
  intros Hi Hk Hk' Hv E.
  rewrite !ks_get_abs, ks_put_abs by auto using ks_put_inv.
  by rewrite lookup_insert_ne.
Qed.

(** A sequence of updates is the same sequence on the map, and keeps the
    invariant. *)
Lemma ks_puts_abs s (kvs : list (Key * V)) :
  ks_inv s -> Forall (fun kv => ks_key kv.1 /\ ks_val kv.2) kvs ->
  ks_inv (ks_puts s kvs) /\ ks_abs (ks_puts s kvs) = map_puts (ks_abs s) kvs.
Proof.
  revert s. induction kvs as [|[k v] kvs IH]; intros s Hi Hall; [done|].
  inversion Hall as [|? ? [Hk Hv] Hall']; subst. simpl in *.
  destruct (IH (ks_put s k v)) as [H1 H2]; [by apply ks_put_inv | done |].
  split; [done|]. by rewrite H2, ks_put_abs.
Qed.

(** A lookup after a sequence of updates is the lookup in the map. *)
Lemma ks_get_puts s (kvs : list (Key * V)) k :
  ks_inv s -> Forall (fun kv => ks_key kv.1 /\ ks_val kv.2) kvs -> ks_key k ->
  ks_get (ks_puts s kvs) k = map_puts (ks_abs s) kvs !! ks_norm k.
Proof.
  intros Hi Hall Hk. destruct (ks_puts_abs s kvs Hi Hall) as [H1 H2].
  by rewrite ks_get_abs, H2.
Qed.

End Laws.
