(* ===== verification/State.v ===== *)
(** * State: the data of [src/interpreter.h]

    The structs of the interpreter as records.  A linked list is a [list];
    the [next] member of a node is its position in the list.  The pointer
    [current_line] is the index of a line in [program] ([None] for [NULL]);
    [node_next] is the [next] pointer of the node at an index.  The union
    of a [Variable] (here [Var]: the C name is a keyword of Rocq) is the
    inductive [VarValue]; [var_wf] says that the tag agrees with it.  The
    64KB [ram] array is a finite map from addresses to bytes in which an
    absent address holds 0.

    Three fields of [Interpreter] are not members of the C struct: [stdout]
    and [stderr] hold the bytes the process has written to its two streams,
    and [fs] holds the files that [fopen] sees.  A field is updated with its
    [set_] function. *)

From stdpp Require Export gmap.
From S2P Require Import Prelude Utils Numbers Editor.

Inductive VarType : Type :=
  | VAR_NUMBER | VAR_STRING | VAR_ARRAY_NUMBER | VAR_ARRAY_STRING.

#[export] Instance VarType_eq_dec : EqDecision VarType.
Proof. solve_decision. Defined.

(** The members [number] and [string] of the union [value]; the array
    member is never written. *)
Inductive VarValue : Type :=
  | VNumber (number : double)
  | VString (str : string).

Record Var := mkVar {
  var_name : string;
  var_type : VarType;
  var_value : VarValue
}.

Record ProgramLine := mkProgramLine {
  pl_line_number : Z;
  pl_text : string
}.

Record StackFrame := mkStackFrame {
  sf_return_line : Z
}.

Record ForLoop := mkForLoop {
  fl_var_name : string;
  fl_end_value : double;
  fl_step_value : double;
  fl_loop_line : Z
}.

(** The files of the process: the contents of those that exist, and the
    names that [fopen] refuses to open for writing. *)
Record FileSystem := mkFileSystem {
  fs_files : gmap string string;
  fs_locked : gset string
}.

Record Interpreter := mkInterpreter {
  program : list ProgramLine;
  current_line : option nat;
  variables : list Var;
  call_stack : list StackFrame;
  for_stack : list ForLoop;
  editor : option Editor;
  running : bool;
  break_requested : bool;
  exit_requested : bool;
  error_occurred : bool;
  graphics_x : double;
  graphics_y : double;
  ram : gmap Z Z;
  error_message : option string;
  stdout : string;
  stderr : string;
  fs : FileSystem
}.

(** ** Pointers into the program *)

(** [p->next] for the node at index [i] of a list of length [n]. *)
Definition node_next (n : nat) (i : nat) : option nat :=
  if decide (S i < n)%nat then Some (S i) else None.

(** The head pointer of a list. *)
Definition list_head {A} (l : list A) : option nat :=
  match l with [] => None | _ => Some 0%nat end.

(** The line a pointer refers to. *)
Definition line_at (interp : Interpreter) (p : option nat) : option ProgramLine :=
  i ← p; program interp !! i.

(** ** The union *)

Definition value_number (v : VarValue) : double :=
  match v with VNumber d => d | VString _ => d_zero end.

Definition value_string (v : VarValue) : string :=
  match v with VString s => s | VNumber _ => "" end.

Definition var_wf (v : Var) : Prop :=
  match var_value v with
  | VNumber _ => var_type v = VAR_NUMBER
  | VString _ => var_type v = VAR_STRING
  end.

(** ** Memory *)

(** [interp->ram[a]] *)
Definition ram_get (m : gmap Z Z) (a : Z) : Z := default 0 (m !! a).

(** [interp->ram[a] = v] *)
Definition ram_set (m : gmap Z Z) (a v : Z) : gmap Z Z := <[a := v]> m.

(** ** Field updates *)

Definition set_program (i : Interpreter) (x : list ProgramLine) : Interpreter :=
  mkInterpreter x (current_line i) (variables i) (call_stack i) (for_stack i)
    (editor i) (running i) (break_requested i) (exit_requested i)
    (error_occurred i) (graphics_x i) (graphics_y i) (ram i) (error_message i)
    (stdout i) (stderr i) (fs i).

Definition set_current_line (i : Interpreter) (x : option nat) : Interpreter :=
  mkInterpreter (program i) x (variables i) (call_stack i) (for_stack i)
    (editor i) (running i) (break_requested i) (exit_requested i)
    (error_occurred i) (graphics_x i) (graphics_y i) (ram i) (error_message i)
    (stdout i) (stderr i) (fs i).

Definition set_variables (i : Interpreter) (x : list Var) : Interpreter :=
  mkInterpreter (program i) (current_line i) x (call_stack i) (for_stack i)
    (editor i) (running i) (break_requested i) (exit_requested i)
    (error_occurred i) (graphics_x i) (graphics_y i) (ram i) (error_message i)
    (stdout i) (stderr i) (fs i).

Definition set_call_stack (i : Interpreter) (x : list StackFrame) : Interpreter :=
  mkInterpreter (program i) (current_line i) (variables i) x (for_stack i)
    (editor i) (running i) (break_requested i) (exit_requested i)
    (error_occurred i) (graphics_x i) (graphics_y i) (ram i) (error_message i)
    (stdout i) (stderr i) (fs i).

Definition set_for_stack (i : Interpreter) (x : list ForLoop) : Interpreter :=
  mkInterpreter (program i) (current_line i) (variables i) (call_stack i) x
    (editor i) (running i) (break_requested i) (exit_requested i)
    (error_occurred i) (graphics_x i) (graphics_y i) (ram i) (error_message i)
    (stdout i) (stderr i) (fs i).

Definition set_editor (i : Interpreter) (x : option Editor) : Interpreter :=
  mkInterpreter (program i) (current_line i) (variables i) (call_stack i)
    (for_stack i) x (running i) (break_requested i) (exit_requested i)
    (error_occurred i) (graphics_x i) (graphics_y i) (ram i) (error_message i)
    (stdout i) (stderr i) (fs i).

Definition set_running (i : Interpreter) (x : bool) : Interpreter :=
  mkInterpreter (program i) (current_line i) (variables i) (call_stack i)
    (for_stack i) (editor i) x (break_requested i) (exit_requested i)
    (error_occurred i) (graphics_x i) (graphics_y i) (ram i) (error_message i)
    (stdout i) (stderr i) (fs i).

Definition set_break_requested (i : Interpreter) (x : bool) : Interpreter :=
  mkInterpreter (program i) (current_line i) (variables i) (call_stack i)
    (for_stack i) (editor i) (running i) x (exit_requested i)
    (error_occurred i) (graphics_x i) (graphics_y i) (ram i) (error_message i)
    (stdout i) (stderr i) (fs i).

Definition set_exit_requested (i : Interpreter) (x : bool) : Interpreter :=
  mkInterpreter (program i) (current_line i) (variables i) (call_stack i)
    (for_stack i) (editor i) (running i) (break_requested i) x
    (error_occurred i) (graphics_x i) (graphics_y i) (ram i) (error_message i)
    (stdout i) (stderr i) (fs i).

Definition set_error_occurred (i : Interpreter) (x : bool) : Interpreter :=
  mkInterpreter (program i) (current_line i) (variables i) (call_stack i)
    (for_stack i) (editor i) (running i) (break_requested i) (exit_requested i)
    x (graphics_x i) (graphics_y i) (ram i) (error_message i)
    (stdout i) (stderr i) (fs i).

Definition set_graphics (i : Interpreter) (x y : double) : Interpreter :=
  mkInterpreter (program i) (current_line i) (variables i) (call_stack i)
    (for_stack i) (editor i) (running i) (break_requested i) (exit_requested i)
    (error_occurred i) x y (ram i) (error_message i)
    (stdout i) (stderr i) (fs i).

Definition set_ram (i : Interpreter) (x : gmap Z Z) : Interpreter :=
  mkInterpreter (program i) (current_line i) (variables i) (call_stack i)
    (for_stack i) (editor i) (running i) (break_requested i) (exit_requested i)
    (error_occurred i) (graphics_x i) (graphics_y i) x (error_message i)
    (stdout i) (stderr i) (fs i).

Definition set_stdout (i : Interpreter) (x : string) : Interpreter :=
  mkInterpreter (program i) (current_line i) (variables i) (call_stack i)
    (for_stack i) (editor i) (running i) (break_requested i) (exit_requested i)
    (error_occurred i) (graphics_x i) (graphics_y i) (ram i) (error_message i)
    x (stderr i) (fs i).

Definition set_stderr (i : Interpreter) (x : string) : Interpreter :=
  mkInterpreter (program i) (current_line i) (variables i) (call_stack i)
    (for_stack i) (editor i) (running i) (break_requested i) (exit_requested i)
    (error_occurred i) (graphics_x i) (graphics_y i) (ram i) (error_message i)
    (stdout i) x (fs i).

Definition set_fs (i : Interpreter) (x : FileSystem) : Interpreter :=
  mkInterpreter (program i) (current_line i) (variables i) (call_stack i)
    (for_stack i) (editor i) (running i) (break_requested i) (exit_requested i)
    (error_occurred i) (graphics_x i) (graphics_y i) (ram i) (error_message i)
    (stdout i) (stderr i) x.

(** The screen of an interpreter that has an editor, and its update. *)
Definition set_screen (i : Interpreter) (sc : Screen) : Interpreter :=
  set_stdout (set_editor i (Some sc.1)) sc.2.

(** ** Initial state *)

Definition interpreter_init : Interpreter :=
  {| program := []; current_line := None; variables := [];
     call_stack := []; for_stack := []; editor := None;
     running := false; break_requested := false; exit_requested := false;
     error_occurred := false; graphics_x := d_zero; graphics_y := d_zero;
     ram := ∅; error_message := None; stdout := ""; stderr := "";
     fs := {| fs_files := ∅; fs_locked := ∅ |} |}.

(** ** Lemmas *)

Lemma ram_get_set_eq (m : gmap Z Z) (a v : Z) : ram_get (ram_set m a v) a = v.
Proof. unfold ram_get, ram_set. by rewrite lookup_insert_eq. Qed.

Lemma ram_get_set_ne (m : gmap Z Z) (a b v : Z) :
  a <> b -> ram_get (ram_set m a v) b = ram_get m b.
Proof. intros H. unfold ram_get, ram_set. by rewrite lookup_insert_ne. Qed.

Lemma ram_get_empty (a : Z) : ram_get ∅ a = 0.
Proof. unfold ram_get. by rewrite lookup_empty. Qed.

Lemma node_next_Some (n i j : nat) :
  node_next n i = Some j <-> j = S i /\ (S i < n)%nat.
Proof.
  unfold node_next. case_decide.
  - split; [by intros [= <-] | by intros [-> _]].
  - split; [done | intros [_ ?]; lia].
Qed.

Lemma node_next_None (n i : nat) : node_next n i = None <-> (n <= S i)%nat.
Proof. unfold node_next. case_decide; split; try done; lia. Qed.

Lemma node_next_ne (n i : nat) : node_next n i <> Some i.
Proof. unfold node_next. case_decide; [intros [=]; lia | done]. Qed.

#[export] Hint Rewrite ram_get_set_eq ram_get_empty : cfb_rw.
