(* ===== verification/Program.v ===== *)
(** * Program: the program store of [src/interpreter.c]

    [program_add_line], [program_delete_line], [program_find_line] and
    [program_clear] on the list of program lines, written with the head case
    and the loop over [current->next] of the code.  The abstract
    specification of the store is a finite map from line numbers to texts
    ([prog_map]); the theorems show that the list stays strictly ascending
    and that each operation implements the corresponding map operation. *)

From Stdlib Require Import Sorted.
From S2P Require Import Prelude Utils Numbers Editor Store State.

#[local] Open Scope Z_scope.
#[local] Open Scope cfb_scope.

(** ** Operations *)

(** The loop of [program_delete_line] over the nodes after [current]. *)
Fixpoint delete_next (line_num : Z) (l : list ProgramLine) : list ProgramLine :=
  match l with
  | [] => []
  | next :: rest =>
      if pl_line_number next =? line_num then rest
      else next :: delete_next line_num rest
  end.

Definition program_delete_line (interp : Interpreter) (line_num : Z) : Interpreter :=
  match program interp with
  | [] => interp
  | head :: rest =>
      if pl_line_number head =? line_num then set_program interp rest
      else set_program interp (head :: delete_next line_num rest)
  end.

(** The loop of [program_add_line] over the nodes after [current]: the new
    line goes before the first node that is not below it. *)
Fixpoint insert_after (new_line : ProgramLine) (l : list ProgramLine)
  : list ProgramLine :=
  match l with
  | [] => [new_line]
  | next :: rest =>
      if pl_line_number next <? pl_line_number new_line
      then next :: insert_after new_line rest
      else new_line :: l
  end.

Definition program_add_line (interp : Interpreter) (line_num : Z)
    (text : option string) : Interpreter :=
  let interp := program_delete_line interp line_num in
  match text with
  | None => interp
  | Some t =>
      if (String.length t =? 0)%nat then interp
      else
        let new_line := {| pl_line_number := line_num; pl_text := t |} in
        match program interp with
        | [] => set_program interp [new_line]
        | head :: rest =>
            if pl_line_number head >? line_num
            then set_program interp (new_line :: head :: rest)
            else set_program interp (head :: insert_after new_line rest)
        end
  end.

(** The loop of [program_find_line], from the node at index [i]. *)
Fixpoint find_from (line_num : Z) (i : nat) (l : list ProgramLine) : option nat :=
  match l with
  | [] => None
  | current :: rest =>
      if pl_line_number current =? line_num then Some i
      else if pl_line_number current >? line_num then None
      else find_from line_num (S i) rest
  end.

Definition program_find_line (interp : Interpreter) (line_num : Z) : option nat :=
  find_from line_num 0 (program interp).

Definition program_clear (interp : Interpreter) : Interpreter :=
  set_program interp [].

(** ** Specification *)

Definition keys (l : list ProgramLine) : list Z := map pl_line_number l.

(** Strictly ascending line numbers. *)
Definition program_sorted (l : list ProgramLine) : Prop :=
  StronglySorted Z.lt (keys l).

(** No stored line has an empty text. *)
Definition program_texts (l : list ProgramLine) : Prop :=
  Forall (fun pl => pl_text pl <> "") l.

(** The store as a finite map. *)
Definition prog_map (l : list ProgramLine) : gmap Z string :=
  list_to_map (map (fun pl => (pl_line_number pl, pl_text pl)) l).

(** The text [program_find_line] finds. *)
Definition find_text (interp : Interpreter) (line_num : Z) : option string :=
  i ← program_find_line interp line_num; pl_text <$> program interp !! i.

(** Removal of the first line with a number, without the head case. *)
Fixpoint delete_first (line_num : Z) (l : list ProgramLine) : list ProgramLine :=
  match l with
  | [] => []
  | pl :: rest =>
      if pl_line_number pl =? line_num then rest
      else pl :: delete_first line_num rest
  end.

(** Sorted insertion, without the head case. *)
Fixpoint insert_sorted (new_line : ProgramLine) (l : list ProgramLine)
  : list ProgramLine :=
  match l with
  | [] => [new_line]
  | pl :: rest =>
      if pl_line_number pl <? pl_line_number new_line
      then pl :: insert_sorted new_line rest
      else new_line :: l
  end.

(** An edit of the store, and the store after a sequence of edits. *)
Inductive Edit : Type :=
  | Upsert (line_num : Z) (text : string)
  | Delete (line_num : Z).

Definition apply_edit (interp : Interpreter) (e : Edit) : Interpreter :=
  match e with
  | Upsert n t => program_add_line interp n (Some t)
  | Delete n => program_delete_line interp n
  end.

Definition apply_edit_map (m : gmap Z string) (e : Edit) : gmap Z string :=
  match e with
  | Upsert n t => if decide (t = "") then delete n m else <[n := t]> m
  | Delete n => delete n m
  end.

(** Sequences of edits. *)
Definition apply_edits (interp : Interpreter) (es : list Edit) : Interpreter :=
  fold_left apply_edit es interp.

Definition apply_edits_map (m : gmap Z string) (es : list Edit) : gmap Z string :=
  fold_left apply_edit_map es m.

(** ** The code's loops against the reference definitions *)

Section Reference.
Implicit Types (l : list ProgramLine) (n : Z) (interp : Interpreter).

Lemma set_program_id interp : set_program interp (program interp) = interp.
Proof. by destruct interp. Qed.

Lemma delete_next_eq n l : delete_next n l = delete_first n l.
Proof. induction l as [|a l IH]; simpl; [done|]. by rewrite IH. Qed.

Lemma program_delete_line_eq interp n :
  program_delete_line interp n =
  set_program interp (delete_first n (program interp)).
Proof.
  unfold program_delete_line. destruct (program interp) as [|h r] eqn:E; simpl.
  - by rewrite <- E, set_program_id.
  - by rewrite delete_next_eq; case_match.
Qed.

Lemma insert_after_eq pl l : insert_after pl l = insert_sorted pl l.
Proof. induction l as [|a l IH]; simpl; [done|]. by rewrite IH. Qed.

Lemma length_zero_iff (t : string) : (String.length t =? 0)%nat = true <-> t = "".
Proof. destruct t; simpl; split; congruence. Qed.

(** On a store that does not hold [n], [program_add_line] is the sorted
    insertion. *)
Lemma add_line_insert interp n t :
  t <> "" -> n ∉ keys (delete_first n (program interp)) ->
  program (program_add_line interp n (Some t)) =
  insert_sorted (mkProgramLine n t) (delete_first n (program interp)).
Proof.
  intros Ht Hn. unfold program_add_line. rewrite program_delete_line_eq.
  destruct (String.length t =? 0)%nat eqn:E; [by apply length_zero_iff in E|].
  simpl. destruct (delete_first n (program interp)) as [|h r]; simpl; [done|].
  rewrite insert_after_eq.
  destruct (Z.gtb_spec (pl_line_number h) n), (Z.ltb_spec (pl_line_number h) n);
    simpl; try done; try lia.
  exfalso. apply Hn. simpl. replace n with (pl_line_number h) by lia. by left.
Qed.

End Reference.

(** ** Sortedness *)

Section Sorted.
Implicit Types (l : list ProgramLine) (n : Z) (pl : ProgramLine).

Lemma sorted_cons pl l :
  program_sorted (pl :: l) <->
  program_sorted l /\ Forall (fun k => pl_line_number pl < k) (keys l).
Proof.
  unfold program_sorted. simpl. split.
  - intros H. by inversion H.
  - intros [H1 H2]. by constructor.
Qed.

Lemma sorted_nil : program_sorted [].
Proof. constructor. Qed.

Lemma keys_delete_first n l k : k ∈ keys (delete_first n l) -> k ∈ keys l.
Proof.
  induction l as [|pl l IH]; simpl; [done|].
  case_match; simpl; rewrite !elem_of_cons; intuition.
Qed.

Lemma delete_first_sorted n l :
  program_sorted l -> program_sorted (delete_first n l).
Proof.
  induction l as [|pl l IH]; simpl; [done|].
  rewrite sorted_cons. intros [Hs Hf]. case_match; [done|].
  apply sorted_cons. split; [auto|].
  rewrite Forall_forall in *. intros k Hk. apply Hf. by eapply keys_delete_first.
Qed.

Lemma delete_first_absent n l :
  program_sorted l -> n ∉ keys (delete_first n l).
Proof.
  induction l as [|pl l IH]; simpl; [intros _; apply not_elem_of_nil|].
  rewrite sorted_cons. intros [Hs Hf].
  destruct (Z.eqb_spec (pl_line_number pl) n) as [<-|Hne].
  - rewrite Forall_forall in Hf. intros Hin%Hf. lia.
  - simpl. rewrite elem_of_cons. intros [?|?]; [done|]. by apply IH.
Qed.

Lemma keys_insert_sorted pl l k :
  k ∈ keys (insert_sorted pl l) <-> k = pl_line_number pl \/ k ∈ keys l.
Proof.
  induction l as [|a l IH]; simpl.
  - rewrite list_elem_of_singleton. split; [auto | intros [|H]; [done|]].
    by apply not_elem_of_nil in H.
  - case_match; simpl; rewrite !elem_of_cons, ?IH; tauto.
Qed.

Lemma insert_sorted_sorted pl l :
  program_sorted l -> pl_line_number pl ∉ keys l ->
  program_sorted (insert_sorted pl l).
Proof.
  induction l as [|a l IH]; simpl.
  - intros _ _. apply sorted_cons. split; [apply sorted_nil | constructor].
  - rewrite sorted_cons, not_elem_of_cons. intros [Hs Hf] [Hne Hnin].
    destruct (Z.ltb_spec (pl_line_number a) (pl_line_number pl)).
    + apply sorted_cons. split; [auto|].
      rewrite Forall_forall in *. intros k [->|Hk]%keys_insert_sorted; auto.
    + apply sorted_cons. split; [by apply sorted_cons|].
      simpl. constructor; [lia|].
      rewrite Forall_forall in *. intros k Hk%Hf. lia.
Qed.

End Sorted.

Lemma apply_edit_sorted (interp : Interpreter) (e : Edit) :
  program_sorted (program interp) ->
  program_sorted (program (apply_edit interp e)).
Proof.
  intros Hs. destruct e as [n t|n]; cbn [apply_edit].
  - destruct (decide (t = "")) as [->|Ht].
    + unfold program_add_line. simpl. rewrite program_delete_line_eq. simpl.
      by apply delete_first_sorted.
    + rewrite add_line_insert by (done || by apply delete_first_absent).
      apply insert_sorted_sorted; [by apply delete_first_sorted|].
      by apply delete_first_absent.
  - rewrite program_delete_line_eq. simpl. by apply delete_first_sorted.
Qed.

Lemma program_add_line_sorted (interp : Interpreter) (n : Z) (text : option string) :
  program_sorted (program interp) ->
  program_sorted (program (program_add_line interp n text)).
Proof.
  destruct text as [t|].
  - apply (apply_edit_sorted interp (Upsert n t)).
  - apply (apply_edit_sorted interp (Delete n)).
Qed.

(** An edit of the program touches no variable. *)
Lemma program_add_line_variables (interp : Interpreter) (n : Z) (text : option string) :
  variables (program_add_line interp n text) = variables interp.
Proof.
  unfold program_add_line. rewrite program_delete_line_eq.
  repeat case_match; done.
Qed.

(** ** Lines that arrive in ascending order *)

Section Ascending.
Implicit Types (l : list ProgramLine) (n : Z) (pl : ProgramLine).

Lemma delete_first_above n l :
  Forall (fun pl => pl_line_number pl < n) l -> delete_first n l = l.
Proof.
  induction 1 as [|pl l Hlt _ IH]; simpl; [done|].
  destruct (Z.eqb_spec (pl_line_number pl) n); [lia | by rewrite IH].
Qed.

Lemma insert_sorted_above pl l :
  Forall (fun a => pl_line_number a < pl_line_number pl) l ->
  insert_sorted pl l = l ++ [pl].
Proof.
  induction 1 as [|a l Hlt _ IH]; simpl; [done|].
  destruct (Z.ltb_spec (pl_line_number a) (pl_line_number pl)); [by rewrite IH | lia].
Qed.

(** A line with a number above all stored ones goes to the end. *)
Lemma add_line_last (interp : Interpreter) n (t : string) :
  t <> "" -> Forall (fun pl => pl_line_number pl < n) (program interp) ->
  program (program_add_line interp n (Some t)) = program interp ++ [mkProgramLine n t].
Proof.
  intros Ht Hall. rewrite add_line_insert; rewrite ?delete_first_above by done.
  - by apply insert_sorted_above.
  - done.
  - intros (pl & E & Hin)%list_elem_of_fmap. rewrite Forall_forall in Hall.
    apply Hall in Hin. lia.
Qed.

End Ascending.

(** ** Refinement of the finite map *)

Section Refinement.
Implicit Types (l : list ProgramLine) (n : Z) (interp : Interpreter).

Lemma prog_map_nil : prog_map [] = ∅.
Proof. reflexivity. Qed.

Lemma prog_map_cons pl l :
  prog_map (pl :: l) = <[pl_line_number pl := pl_text pl]> (prog_map l).
Proof. reflexivity. Qed.

Lemma prog_map_absent n l : n ∉ keys l -> prog_map l !! n = None.
Proof.
  induction l as [|pl l IH]; simpl;
    [intros _; by rewrite prog_map_nil, lookup_empty|].
  rewrite not_elem_of_cons. intros [Hne Hn].
  rewrite prog_map_cons, lookup_insert_ne by done. auto.
Qed.

Lemma sorted_head_absent pl l :
  program_sorted (pl :: l) -> pl_line_number pl ∉ keys l.
Proof.
  rewrite sorted_cons. intros [_ Hf] Hin. rewrite Forall_forall in Hf.
  apply Hf in Hin. lia.
Qed.

Lemma prog_map_delete_first n l :
  program_sorted l -> prog_map (delete_first n l) = delete n (prog_map l).
Proof.
  induction l as [|pl l IH]; simpl;
    [intros _; by rewrite prog_map_nil, delete_empty|].
  intros Hs. pose proof (sorted_head_absent _ _ Hs) as Hab.
  apply sorted_cons in Hs as [Hs Hf]. rewrite prog_map_cons.
  destruct (Z.eqb_spec (pl_line_number pl) n) as [<-|Hne].
  - rewrite delete_insert_eq. symmetry. apply delete_id. by apply prog_map_absent.
  - rewrite prog_map_cons, IH by done. by rewrite delete_insert_ne.
Qed.

Lemma prog_map_insert_sorted pl l :
  program_sorted l -> pl_line_number pl ∉ keys l ->
  prog_map (insert_sorted pl l) = <[pl_line_number pl := pl_text pl]> (prog_map l).
Proof.
  induction l as [|a l IH]; simpl; [done|].
  rewrite sorted_cons, not_elem_of_cons. intros [Hs Hf] [Hne Hn].
  case_match; [|done].
  rewrite !prog_map_cons, IH by done. by apply insert_insert_ne.
Qed.

(** [program_find_line] finds the index of the line, if the store holds it. *)
Lemma find_from_spec n i l :
  program_sorted l ->
  match find_from n i l with
  | Some j => exists pl, l !! (j - i)%nat = Some pl /\ pl_line_number pl = n /\ (i <= j)%nat
  | None => n ∉ keys l
  end.
Proof.
  revert i. induction l as [|pl l IH]; intros i; simpl;
    [intros _; apply not_elem_of_nil|].
  intros Hs. apply sorted_cons in Hs as [Hs Hf].
  destruct (Z.eqb_spec (pl_line_number pl) n) as [E|Hne].
  - exists pl. by rewrite Nat.sub_diag.
  - destruct (Z.gtb_spec (pl_line_number pl) n).
    + rewrite not_elem_of_cons. split; [done|].
      rewrite Forall_forall in Hf. intros Hin%Hf. lia.
    + specialize (IH (S i) Hs). destruct (find_from n (S i) l) as [j|].
      * destruct IH as (pl' & Hl & Hk & Hle). exists pl'.
        replace (j - i)%nat with (S (j - S i)) by lia. repeat split; [done..|lia].
      * by rewrite not_elem_of_cons.
Qed.

Lemma prog_map_lookup l i pl :
  program_sorted l -> l !! i = Some pl ->
  prog_map l !! pl_line_number pl = Some (pl_text pl).
Proof.
  revert i. induction l as [|a l IH]; intros [|i] Hs; simpl; try done.
  - intros [= ->]. by rewrite prog_map_cons, lookup_insert_eq.
  - intros Hl. pose proof (sorted_head_absent _ _ Hs) as Hab.
    apply sorted_cons in Hs as [Hs _].
    rewrite prog_map_cons, lookup_insert_ne; [by eapply IH|].
    intros E. apply Hab. rewrite E. apply list_elem_of_fmap. exists pl.
    split; [done|]. by eapply list_elem_of_lookup_2.
Qed.

End Refinement.

Lemma find_text_map (interp : Interpreter) (n : Z) :
  program_sorted (program interp) ->
  find_text interp n = prog_map (program interp) !! n.
Proof.
  intros Hs. unfold find_text, program_find_line.
  pose proof (find_from_spec n 0 (program interp) Hs) as H.
  destruct (find_from n 0 (program interp)) as [j|]; simpl.
  - destruct H as (pl & Hl & <- & _). rewrite Nat.sub_0_r in Hl.
    rewrite Hl. simpl. symmetry. by eapply prog_map_lookup.
  - symmetry. by apply prog_map_absent.
Qed.

Lemma apply_edit_map_eq (interp : Interpreter) (e : Edit) :
  program_sorted (program interp) ->
  prog_map (program (apply_edit interp e)) =
  apply_edit_map (prog_map (program interp)) e.
Proof.
  intros Hs. destruct e as [n t|n]; cbn [apply_edit apply_edit_map].
  - destruct (decide (t = "")) as [->|Ht].
    + unfold program_add_line. simpl. rewrite program_delete_line_eq. simpl.
      by apply prog_map_delete_first.
    + rewrite add_line_insert by (done || by apply delete_first_absent).
      rewrite prog_map_insert_sorted, prog_map_delete_first;
        [by rewrite insert_delete_eq | done | by apply delete_first_sorted
        | by apply delete_first_absent].
  - rewrite program_delete_line_eq. simpl. by apply prog_map_delete_first.
Qed.

Lemma apply_edits_spec (es : list Edit) (interp : Interpreter) :
  program_sorted (program interp) ->
  program_sorted (program (apply_edits interp es)) /\
  prog_map (program (apply_edits interp es)) =
  apply_edits_map (prog_map (program interp)) es.
Proof.
  revert interp. induction es as [|e es IH]; intros interp Hs; simpl; [done|].
  destruct (IH (apply_edit interp e) (apply_edit_sorted _ _ Hs)) as [H1 H2].
  split; [done|]. by rewrite H2, apply_edit_map_eq.
Qed.

(** A line that is found is a line of the program. *)
Lemma find_from_lt (n : Z) (i : nat) (l : list ProgramLine) (j : nat) :
  find_from n i l = Some j -> (i <= j < i + length l)%nat.
Proof.
  revert i. induction l as [|pl l IH]; intros i; simpl; [done|].
  repeat case_match; try done.
  - intros [= <-]. lia.
  - intros H'. apply IH in H'. lia.
Qed.

Lemma program_find_line_lt (interp : Interpreter) (n : Z) (j : nat) :
  program_find_line interp n = Some j -> (j < length (program interp))%nat.
Proof. intros H. apply find_from_lt in H. lia. Qed.

(** ** The store as a keyed store *)

Lemma program_put_abs (interp : Interpreter) (n : Z) (t : string) :
  program_sorted (program interp) -> t <> "" ->
  prog_map (program (program_add_line interp n (Some t))) =
    <[n := t]> (prog_map (program interp)).
Proof.
  intros Hs Ht. pose proof (apply_edit_map_eq interp (Upsert n t) Hs) as H.
  cbn [apply_edit apply_edit_map] in H. by rewrite decide_False in H.
Qed.

(** The program store keeps texts under line numbers. *)
#[export] Instance program_store : KeyedStore Interpreter Z Z string := {|
  ks_inv interp := program_sorted (program interp);
  ks_key _ := True;
  ks_val t := t <> "";
  ks_norm n := n;
  ks_abs interp := prog_map (program interp);
  ks_get := find_text;
  ks_put interp n t := program_add_line interp n (Some t);
  ks_get_abs interp n Hs _ := find_text_map interp n Hs;
  ks_put_abs interp n t Hs _ Ht := program_put_abs interp n t Hs Ht;
  ks_put_inv interp n t Hs _ _ := apply_edit_sorted interp (Upsert n t) Hs
|}.

(** ** The store against its specification *)

(** C21: the program store stays strictly ascending: [program_add_line] and
    [program_delete_line] both preserve the order of the line numbers. *)
Theorem program_edit_sorted (interp : Interpreter) (e : Edit) :
  program_sorted (program interp) ->
  program_sorted (program (apply_edit interp e)).
Proof. apply apply_edit_sorted. Qed.

Lemma program_edit_sorted_witness :
  program_sorted (program (apply_edit (apply_edit interpreter_init (Upsert 20 "END"))
                                      (Upsert 10 "PRINT 1"))).
Proof.
  apply program_edit_sorted. apply apply_edit_sorted. apply sorted_nil.
Defined.

(** C37: on a sorted store the operations implement a finite map from line
    numbers to texts.  [program_find_line] is the lookup of the map: it
    finds the text stored under the number, and nothing when the number is
    absent (the early exit of the scan loses no line).  An upsert with a
    text binds the number to it; an upsert with the empty text and a delete
    unbind it. *)
Theorem program_store_refines (interp : Interpreter) (e : Edit) (n : Z) :
  program_sorted (program interp) ->
  find_text interp n = prog_map (program interp) !! n /\
  prog_map (program (apply_edit interp e)) =
    apply_edit_map (prog_map (program interp)) e.
Proof. intros Hs. split; [by apply find_text_map | by apply apply_edit_map_eq]. Qed.

Lemma program_store_refines_witness :
  let interp := apply_edit interpreter_init (Upsert 10 "PRINT 1") in
  find_text interp 10 = prog_map (program interp) !! 10 /\
  prog_map (program (apply_edit interp (Upsert 10 ""))) =
    apply_edit_map (prog_map (program interp)) (Upsert 10 "").
Proof. apply program_store_refines. apply apply_edit_sorted. apply sorted_nil. Defined.

(** C1: after any sequence of upserts and deletes on the empty store, the
    lines are strictly ascending and [program_find_line] finds exactly the
    text of the most recent upsert of a number that no later edit removed. *)
Theorem program_store_correct (es : list Edit) (n : Z) :
  let interp := apply_edits interpreter_init es in
  program_sorted (program interp) /\
  find_text interp n = apply_edits_map ∅ es !! n.
Proof.
  cbv zeta. destruct (apply_edits_spec es interpreter_init sorted_nil) as [H1 H2].
  split; [done|]. by rewrite find_text_map, H2.
Qed.

(** ** Evaluation *)

Example store_example :
  let interp := apply_edits interpreter_init
    [Upsert 20 "END"; Upsert 10 "PRINT 1"; Upsert 15 "REM"; Upsert 10 "PRINT 2";
     Delete 15; Upsert 30 ""] in
  program interp = [mkProgramLine 10 "PRINT 2"; mkProgramLine 20 "END"] /\
  program_find_line interp 20 = Some 1%nat /\
  program_find_line interp 15 = None.
Proof. vm_compute. auto. Qed.

#[export] Hint Resolve sorted_nil delete_first_sorted insert_sorted_sorted
  delete_first_absent apply_edit_sorted : cfb.
