(* ===== verification/Variables.v ===== *)
(** * Variables: the variable store and the control stacks

    [var_get], [var_set_number], [var_set_string] and [var_clear_all] of
    [src/interpreter.c] on the list of variables, and the two stacks
    ([stack_push], [stack_pop], [for_push], [for_find], [for_pop]).  A
    pointer to a variable is its index in the list.  The abstract
    specification of the store is a finite map from upper-cased names to
    values ([var_map]). *)

From stdpp Require Import strings.
From S2P Require Import Prelude Utils Numbers Editor Store State.

#[local] Open Scope Z_scope.
#[local] Open Scope cfb_scope.

(** ** The variable store *)

(** The loop of [var_get], from the node at index [i]. *)
Fixpoint var_find (name : string) (i : nat) (l : list Var) : option nat :=
  match l with
  | [] => None
  | current :: rest =>
      if str_compare_nocase (var_name current) name =? 0 then Some i
      else var_find name (S i) rest
  end.

Definition var_get (interp : Interpreter) (name : string) : option nat :=
  var_find name 0 (variables interp).

(** The variable a pointer refers to. *)
Definition var_at (interp : Interpreter) (p : option nat) : option Var :=
  i ← p; variables interp !! i.

(** The assignment to the node [*var]: the name stays as it was created. *)
Definition var_assign (type : VarType) (value : VarValue) (var : Var) : Var :=
  {| var_name := var_name var; var_type := type; var_value := value |}.

Definition var_set_number (interp : Interpreter) (name : string) (value : double)
  : Interpreter :=
  match var_get interp name with
  | None =>
      set_variables interp
        ({| var_name := name; var_type := VAR_NUMBER; var_value := VNumber value |}
         :: variables interp)
  | Some i =>
      set_variables interp
        (alter (var_assign VAR_NUMBER (VNumber value)) i (variables interp))
  end.

Definition var_set_string (interp : Interpreter) (name : string) (value : string)
  : Interpreter :=
  match var_get interp name with
  | None =>
      set_variables interp
        ({| var_name := name; var_type := VAR_STRING; var_value := VString value |}
         :: variables interp)
  | Some i =>
      set_variables interp
        (alter (var_assign VAR_STRING (VString value)) i (variables interp))
  end.

Definition var_clear_all (interp : Interpreter) : Interpreter :=
  set_variables interp [].

(** ** The control stacks *)

Definition stack_push (interp : Interpreter) (return_line : Z) : Interpreter :=
  set_call_stack interp ({| sf_return_line := return_line |} :: call_stack interp).

Definition stack_pop (interp : Interpreter) : Z * Interpreter :=
  match call_stack interp with
  | [] => (-1, set_stderr interp (error (stderr interp) "RETURN WITHOUT GOSUB"))
  | frame :: rest => (sf_return_line frame, set_call_stack interp rest)
  end.

Definition for_push (interp : Interpreter) (var_name : string) (end_value step : double)
    (line : Z) : Interpreter :=
  set_for_stack interp
    ({| fl_var_name := var_name; fl_end_value := end_value;
        fl_step_value := step; fl_loop_line := line |} :: for_stack interp).

(** The loop of [for_find], from the node at index [i]. *)
Fixpoint for_find_from (var_name : string) (i : nat) (l : list ForLoop) : option nat :=
  match l with
  | [] => None
  | current :: rest =>
      if str_compare_nocase (fl_var_name current) var_name =? 0 then Some i
      else for_find_from var_name (S i) rest
  end.

Definition for_find (interp : Interpreter) (var_name : string) : option nat :=
  for_find_from var_name 0 (for_stack interp).

Definition for_pop (interp : Interpreter) : Interpreter :=
  match for_stack interp with
  | [] => interp
  | _ :: rest => set_for_stack interp rest
  end.

(** The loops of [interpreter_new] and [interpreter_free] that empty the
    stacks: [while (interp->call_stack) stack_pop(interp);] *)
Fixpoint pop_all_calls (fuel : nat) (interp : Interpreter) : Interpreter :=
  match fuel with
  | O => interp
  | S f =>
      match call_stack interp with
      | [] => interp
      | _ => pop_all_calls f (stack_pop interp).2
      end
  end.

Fixpoint pop_all_fors (fuel : nat) (interp : Interpreter) : Interpreter :=
  match fuel with
  | O => interp
  | S f =>
      match for_stack interp with
      | [] => interp
      | _ => pop_all_fors f (for_pop interp)
      end
  end.

(** ** Specification *)

(** The value bound to a name, as [evaluate_factor] reads it. *)
Definition var_lookup (interp : Interpreter) (name : string) : option VarValue :=
  var_value <$> var_at interp (var_get interp name).

(** The store as a finite map from upper-cased names to values. *)
Definition var_map (l : list Var) : gmap string VarValue :=
  list_to_map (map (fun v => (str_upper (var_name v), var_value v)) l).

(** Names are C strings and tags agree with values. *)
Definition vars_ok (l : list Var) : Prop :=
  Forall (fun v => cstr (var_name v) /\ var_wf v) l.

(** At most one entry per name, up to letter case. *)
Definition vars_unique (l : list Var) : Prop :=
  NoDup (map (fun v => str_upper (var_name v)) l).

(** Two names of the same variable. *)
Definition same_name (a b : string) : Prop := str_upper a = str_upper b.

#[export] Instance same_name_equiv : Equivalence same_name.
Proof.
  unfold same_name. split; [by intros ? | by intros ? ? | intros ? ? ?; congruence].
Qed.

(** An assignment, and the store after a sequence of assignments. *)
Definition var_set (interp : Interpreter) (name : string) (v : VarValue) : Interpreter :=
  match v with
  | VNumber d => var_set_number interp name d
  | VString s => var_set_string interp name s
  end.

(** ** Lookup *)

Section Lookup.
Implicit Types (l : list Var) (name : string) (interp : Interpreter).

Lemma nocase_zero_iff a b :
  cstr a -> cstr b -> (str_compare_nocase a b =? 0) = true <-> same_name a b.
Proof. intros Ha Hb. rewrite Z.eqb_eq. by apply nocase_zero_upper. Qed.

Lemma var_map_nil : var_map [] = ∅.
Proof. reflexivity. Qed.

Lemma var_map_cons v l :
  var_map (v :: l) = <[str_upper (var_name v) := var_value v]> (var_map l).
Proof. reflexivity. Qed.

(** [var_find] finds the first variable with the name. *)
Lemma var_find_spec name i l :
  cstr name -> vars_ok l ->
  match var_find name i l with
  | Some j => exists v, l !! (j - i)%nat = Some v /\ same_name (var_name v) name /\
                (i <= j)%nat /\ var_map l !! str_upper name = Some (var_value v)
  | None => var_map l !! str_upper name = None
  end.
Proof.
  intros Hn. revert i. induction l as [|v l IH]; intros i Hok; simpl;
    [by rewrite var_map_nil, lookup_empty|].
  inversion Hok as [|? ? [Hc Hw] Hok']; subst. rewrite var_map_cons.
  destruct (str_compare_nocase (var_name v) name =? 0) eqn:E.
  - apply nocase_zero_iff in E; [|done..]. exists v. rewrite Nat.sub_diag.
    repeat split; [done..|]. by rewrite <- E, lookup_insert_eq.
  - assert (str_upper (var_name v) <> str_upper name) as Hne.
    { intros H. apply (nocase_zero_iff _ _ Hc Hn) in H. congruence. }
    rewrite lookup_insert_ne by done.
    specialize (IH (S i) Hok'). destruct (var_find name (S i) l) as [j|]; [|done].
    destruct IH as (v' & Hl & Hs & Hle & Hm). exists v'.
    replace (j - i)%nat with (S (j - S i)) by lia. repeat split; [done..|lia|done].
Qed.

End Lookup.

(** [var_get] implements the lookup of the finite map. *)
Lemma var_lookup_map (interp : Interpreter) (name : string) :
  cstr name -> vars_ok (variables interp) ->
  var_lookup interp name = var_map (variables interp) !! str_upper name.
Proof.
  intros Hn Hok. unfold var_lookup, var_at, var_get.
  pose proof (var_find_spec name 0 _ Hn Hok) as H.
  destruct (var_find name 0 (variables interp)) as [j|]; simpl; [|done].
  destruct H as (v & Hl & _ & _ & Hm). rewrite Nat.sub_0_r in Hl.
  by rewrite Hl, Hm.
Qed.

(** ** Assignment *)

Section Assign.
Implicit Types (l : list Var) (name : string) (interp : Interpreter).

Lemma var_map_alter l i v ty val :
  l !! i = Some v ->
  var_map l !! str_upper (var_name v) = Some (var_value v) ->
  (forall j w, (j < i)%nat -> l !! j = Some w -> str_upper (var_name w) <> str_upper (var_name v)) ->
  var_map (alter (var_assign ty val) i l) = <[str_upper (var_name v) := val]> (var_map l).
Proof.
  revert i. induction l as [|a l IH]; intros [|i] Hl Hm Hfirst; simpl in *; try done.
  - injection Hl as ->. by rewrite !var_map_cons, insert_insert_eq.
  - assert (str_upper (var_name a) <> str_upper (var_name v)) as Hne
      by (apply (Hfirst 0%nat); [lia | done]).
    rewrite !var_map_cons in *. rewrite lookup_insert_ne in Hm by done.
    rewrite (insert_insert_ne _ (str_upper (var_name v))) by done.
    f_equal. apply IH; [done..|].
    intros j w Hj Hw. apply (Hfirst (S j)); [lia | done].
Qed.

Lemma var_find_first name i l j :
  cstr name -> vars_ok l -> var_find name i l = Some j ->
  forall k w, (k < j - i)%nat -> l !! k = Some w ->
    str_upper (var_name w) <> str_upper name.
Proof.
  intros Hn. revert i. induction l as [|a l IH]; intros i Hok; simpl; [done|].
  inversion Hok as [|? ? [Hc Hw] Hok']; subst.
  destruct (str_compare_nocase (var_name a) name =? 0) eqn:E.
  - intros [= <-] k w Hk. lia.
  - intros Hf [|k] w Hk; simpl.
    + intros [= <-] H. apply (nocase_zero_iff _ _ Hc Hn) in H. congruence.
    + pose proof (var_find_spec name (S i) l Hn Hok') as Hs. rewrite Hf in Hs.
      destruct Hs as (_ & _ & _ & Hle & _).
      apply (IH (S i) Hok' Hf). lia.
Qed.

Lemma var_set_map interp name ty val :
  cstr name -> vars_ok (variables interp) ->
  var_map (variables
    (match var_get interp name with
     | None => set_variables interp (mkVar name ty val :: variables interp)
     | Some i => set_variables interp (alter (var_assign ty val) i (variables interp))
     end)) = <[str_upper name := val]> (var_map (variables interp)).
Proof.
  intros Hn Hok. unfold var_get.
  pose proof (var_find_spec name 0 _ Hn Hok) as H.
  pose proof (var_find_first name 0 (variables interp)) as Hfirst.
  destruct (var_find name 0 (variables interp)) as [j|]; simpl; [|done].
  destruct H as (v & Hl & Hs & _ & Hm). rewrite Nat.sub_0_r in Hl.
  specialize (Hfirst j Hn Hok eq_refl). rewrite Nat.sub_0_r in Hfirst.
  rewrite <- Hs in *. by apply var_map_alter.
Qed.

Lemma vars_ok_alter l i ty val :
  vars_ok l ->
  match val with VNumber _ => ty = VAR_NUMBER | VString _ => ty = VAR_STRING end ->
  vars_ok (alter (var_assign ty val) i l).
Proof.
  intros Hok Hty. unfold vars_ok in *. apply Forall_alter; [done|].
  intros v _ [Hc _]. rewrite Forall_forall in Hok.
  split; [done | by unfold var_wf; simpl].
Qed.

End Assign.

(** An assignment implements the insertion into the finite map and keeps
    the store well formed. *)
Lemma var_set_map_ok (interp : Interpreter) (name : string) (v : VarValue) :
  cstr name -> vars_ok (variables interp) ->
  var_map (variables (var_set interp name v)) =
    <[str_upper name := v]> (var_map (variables interp)) /\
  vars_ok (variables (var_set interp name v)).
Proof.
  intros Hn Hok. destruct v as [d|s]; simpl.
  - split; [by apply (var_set_map interp name VAR_NUMBER (VNumber d))|].
    unfold var_set_number. destruct (var_get interp name); simpl.
    + by apply vars_ok_alter.
    + by constructor.
  - split; [by apply (var_set_map interp name VAR_STRING (VString s))|].
    unfold var_set_string. destruct (var_get interp name); simpl.
    + by apply vars_ok_alter.
    + by constructor.
Qed.

(** ** The store as a keyed store *)

(** The variable store keeps values under names, up to letter case. *)
#[export] Instance variable_store
  : KeyedStore Interpreter string string VarValue := {|
  ks_inv interp := vars_ok (variables interp);
  ks_key := cstr;
  ks_val _ := True;
  ks_norm := str_upper;
  ks_abs interp := var_map (variables interp);
  ks_get := var_lookup;
  ks_put := var_set;
  ks_get_abs interp name Hok Hn := var_lookup_map interp name Hn Hok;
  ks_put_abs interp name v Hok Hn _ := proj1 (var_set_map_ok interp name v Hn Hok);
  ks_put_inv interp name v Hok Hn _ := proj2 (var_set_map_ok interp name v Hn Hok)
|}.

(** The two laws of a keyed store, for the variables. *)
Lemma var_lookup_set_same (interp : Interpreter) (n1 n2 : string) (v : VarValue) :
  cstr n1 -> cstr n2 -> vars_ok (variables interp) -> same_name n1 n2 ->
  var_lookup (var_set interp n1 v) n2 = Some v.
Proof. intros H1 H2 Hok E. by apply (ks_get_put_same (KS := variable_store)). Qed.

(** An assignment leaves the other variables as they were. *)
Lemma var_set_other (interp : Interpreter) (n1 n2 : string) (v : VarValue) :
  cstr n1 -> cstr n2 -> vars_ok (variables interp) -> ~ same_name n1 n2 ->
  var_lookup (var_set interp n1 v) n2 = var_lookup interp n2.
Proof. intros H1 H2 Hok E. by apply (ks_get_put_other (KS := variable_store)). Qed.

(** ** Uniqueness *)

Section Unique.
Implicit Types (l : list Var) (name : string) (interp : Interpreter).

Lemma var_map_dom_alter l i ty val :
  map (fun v => str_upper (var_name v)) (alter (var_assign ty val) i l) =
  map (fun v => str_upper (var_name v)) l.
Proof.
  revert i. induction l as [|a l IH]; intros [|i]; simpl; try done.
  f_equal. apply IH.
Qed.

Lemma var_find_None_notin name l i :
  cstr name -> vars_ok l -> var_find name i l = None ->
  str_upper name ∉ map (fun v => str_upper (var_name v)) l.
Proof.
  intros Hn. revert i. induction l as [|a l IH]; intros i Hok; simpl;
    [intros _; apply not_elem_of_nil|].
  inversion Hok as [|? ? [Hc Hw] Hok']; subst.
  destruct (str_compare_nocase (var_name a) name =? 0) eqn:E; [done|].
  intros Hf. rewrite not_elem_of_cons. split; [|by eapply IH].
  intros H. symmetry in H. apply (nocase_zero_iff _ _ Hc Hn) in H. congruence.
Qed.

Lemma var_set_nodup interp name v :
  cstr name -> vars_ok (variables interp) -> vars_unique (variables interp) ->
  vars_unique (variables (var_set interp name v)).
Proof.
  intros Hn Hok Hu. unfold vars_unique in *.
  destruct v as [d|s]; simpl; unfold var_set_number, var_set_string, var_get;
    destruct (var_find name 0 (variables interp)) eqn:E; simpl;
    rewrite ?var_map_dom_alter; try done;
    constructor; [by eapply var_find_None_notin | done |
                  by eapply var_find_None_notin | done].
Qed.

End Unique.

(** ** The stacks *)

Lemma stack_pop_push (interp : Interpreter) (n : Z) :
  stack_pop (stack_push interp n) = (n, set_call_stack interp (call_stack interp)).
Proof. reflexivity. Qed.

Lemma stack_pop_empty (interp : Interpreter) :
  call_stack interp = [] ->
  stack_pop interp = (-1, set_stderr interp (error (stderr interp) "RETURN WITHOUT GOSUB")).
Proof. unfold stack_pop. by intros ->. Qed.

Lemma pop_all_calls_empty (interp : Interpreter) :
  call_stack (pop_all_calls (length (call_stack interp)) interp) = [].
Proof.
  remember (length (call_stack interp)) as n eqn:E. revert interp E.
  induction n as [|n IH]; intros interp E; simpl.
  - by destruct (call_stack interp).
  - destruct (call_stack interp) as [|f r] eqn:Es; [done|].
    apply IH. unfold stack_pop. rewrite Es. simpl in *. lia.
Qed.

Lemma pop_all_fors_empty (interp : Interpreter) :
  for_stack (pop_all_fors (length (for_stack interp)) interp) = [].
Proof.
  remember (length (for_stack interp)) as n eqn:E. revert interp E.
  induction n as [|n IH]; intros interp E; simpl.
  - by destruct (for_stack interp).
  - destruct (for_stack interp) as [|f r] eqn:Es; [done|].
    apply IH. unfold for_pop. rewrite Es. simpl in *. lia.
Qed.

(** The two loops touch nothing but their stack. *)
Lemma pop_all_calls_keeps (fuel : nat) (interp : Interpreter) :
  program (pop_all_calls fuel interp) = program interp /\
  variables (pop_all_calls fuel interp) = variables interp /\
  for_stack (pop_all_calls fuel interp) = for_stack interp.
Proof.
  revert interp. induction fuel as [|fuel IH]; intros interp; simpl; [done|].
  destruct (call_stack interp) as [|f r] eqn:Es; [done|].
  unfold stack_pop. rewrite Es. simpl.
  by destruct (IH (set_call_stack interp r)) as (-> & -> & ->).
Qed.

Lemma pop_all_fors_keeps (fuel : nat) (interp : Interpreter) :
  program (pop_all_fors fuel interp) = program interp /\
  variables (pop_all_fors fuel interp) = variables interp /\
  call_stack (pop_all_fors fuel interp) = call_stack interp.
Proof.
  revert interp. induction fuel as [|fuel IH]; intros interp; simpl; [done|].
  destruct (for_stack interp) as [|f r] eqn:Es; [done|].
  unfold for_pop. rewrite Es.
  by destruct (IH (set_for_stack interp r)) as (-> & -> & ->).
Qed.

(** ** The store against its specification *)

(** C10: the variable store implements a finite map keyed by the
    upper-cased name.  A lookup through [var_get] is the lookup of the map,
    so a name finds its variable in any letter case; an assignment is the
    insertion into the map, whatever type the variable had before; and an
    assignment keeps the store well formed. *)
Theorem var_store_refines (interp : Interpreter) (name : string) (v : VarValue) :
  cstr name -> vars_ok (variables interp) ->
  var_lookup interp name = var_map (variables interp) !! str_upper name /\
  var_map (variables (var_set interp name v)) =
    <[str_upper name := v]> (var_map (variables interp)) /\
  vars_ok (variables (var_set interp name v)).
Proof.
  intros Hn Hok. split; [by apply var_lookup_map | by apply var_set_map_ok].
Qed.

Lemma var_store_refines_witness :
  let interp := var_set_number interpreter_init "Total" (d_of_Z 5) in
  var_lookup interp "TOTAL" = var_map (variables interp) !! str_upper "TOTAL" /\
  var_map (variables (var_set interp "TOTAL" (VString "x"))) =
    <[str_upper "TOTAL" := VString "x"]> (var_map (variables interp)) /\
  vars_ok (variables (var_set interp "TOTAL" (VString "x"))).
Proof.
  apply var_store_refines; [simpl; repeat split; discriminate|].
  repeat constructor; simpl; discriminate.
Defined.

(** Rebinding.  After a variable was set as text and then as number
    under any spelling of its name, a read finds the number. *)
Theorem var_rebind (interp : Interpreter) (n1 n2 n3 : string) (s : string) (d : double) :
  cstr n1 -> cstr n2 -> cstr n3 -> vars_ok (variables interp) ->
  same_name n1 n2 -> same_name n2 n3 ->
  var_lookup (var_set (var_set interp n1 (VString s)) n2 (VNumber d)) n3 =
    Some (VNumber d).
Proof.
  intros H1 H2 H3 Hok E12 E23. apply var_lookup_set_same; [done..| |done].
  by apply var_set_map_ok.
Qed.

Lemma var_rebind_witness :
  var_lookup (var_set (var_set interpreter_init "x" (VString "old")) "X" (VNumber (d_of_Z 7)))
    "x" = Some (VNumber (d_of_Z 7)).
Proof.
  apply var_rebind; try (simpl; repeat split; discriminate); try reflexivity.
  constructor.
Defined.

(** C28: after any sequence of assignments to an empty store, a read
    finds the value of the latest assignment to the name in any letter
    case, and nothing for a name that was never assigned. *)
Theorem var_store_correct (kvs : list (string * VarValue)) (name : string) :
  Forall (fun kv => cstr kv.1) kvs -> cstr name ->
  var_lookup (ks_puts interpreter_init kvs) name =
    map_puts (KS := variable_store) ∅ kvs !! str_upper name.
Proof.
  intros Hall Hn. apply (ks_get_puts (KS := variable_store)); [constructor| |done].
  eapply Forall_impl; [exact Hall|]. by intros kv Hk.
Qed.

Lemma var_store_correct_witness :
  var_lookup
    (ks_puts interpreter_init [("a", VNumber d_zero); ("B$", VString "x"); ("A", VString "y")])
    "a" = Some (VString "y").
Proof.
  apply (var_store_correct
    [("a", VNumber d_zero); ("B$", VString "x"); ("A", VString "y")] "a");
    [repeat constructor; simpl; discriminate | simpl; repeat split; discriminate].
Defined.

(** C39: the store holds at most one variable per name, up to letter
    case, after every assignment. *)
Theorem var_set_unique (interp : Interpreter) (name : string) (v : VarValue) :
  cstr name -> vars_ok (variables interp) -> vars_unique (variables interp) ->
  vars_unique (variables (var_set interp name v)).
Proof. apply var_set_nodup. Qed.

Lemma var_set_unique_witness :
  vars_unique (variables (var_set (var_set interpreter_init "a" (VString "s")) "A"
    (VNumber d_zero))).
Proof.
  apply var_set_unique; [simpl; repeat split; discriminate | |].
  - repeat constructor; simpl; discriminate.
  - repeat constructor. apply not_elem_of_nil.
Defined.

#[export] Hint Resolve var_set_nodup var_lookup_set_same : cfb.
