(* ===== verification/Eval.v ===== *)
(** * Eval: the expression evaluator of [src/interpreter.c]

    [evaluate_factor] and [evaluate_expression] read tokens from a lexer and
    compute a [Value]; neither changes the interpreter.  The two C functions
    are mutually recursive and [evaluate_expression] has a loop, so the
    three definitions here recurse on a fuel; [eval_fuel] is enough fuel for
    every input ([evaluate_expression_total]) and [eval_expression] is the
    evaluator at that fuel.

    A copy made with [str_duplicate] is the string itself: the allocation
    budget of [Utils] is assumed not to be exhausted.  The member [string]
    of a [Value] keeps its pointer after [safe_free]; the code reads it only
    when [is_string] is set. *)

From S2P Require Import Prelude Utils Numbers Lexer Editor Store State Variables.

#[local] Open Scope Z_scope.
#[local] Open Scope cfb_scope.

Record Value := mkValue {
  v_is_string : bool;
  v_number : double;
  v_string : option string
}.

(** [Value val = {false, 0, NULL};] *)
Definition value_init : Value :=
  {| v_is_string := false; v_number := d_zero; v_string := None |}.

(** The sign of libc's [strcmp]: bytes compare as unsigned characters. *)
Fixpoint strcmp (a b : string) : Z :=
  match a, b with
  | EmptyString, EmptyString => 0
  | EmptyString, String y _ => - code y
  | String x _, EmptyString => code x
  | String x a', String y b' =>
      if code x =? code y then strcmp a' b' else code x - code y
  end.

(** ** Factors *)

(** The branch of [evaluate_factor] for [TOK_IDENTIFIER]. *)
Definition identifier_value (interp : Interpreter) (token : Token) : Value :=
  let text := default "" (tok_text token) in
  match var_at interp (var_get interp text) with
  | Some v =>
      match var_type v with
      | VAR_NUMBER =>
          {| v_is_string := false; v_number := value_number (var_value v);
             v_string := None |}
      | VAR_STRING =>
          {| v_is_string := true; v_number := d_zero;
             v_string := Some (value_string (var_value v)) |}
      | _ => value_init
      end
  | None =>
      if (last_char text =? "$")%char then
        {| v_is_string := true; v_number := d_zero; v_string := Some "" |}
      else value_init
  end.

(** [char buf[2] = {(char)v.number, 0}; val.string = str_duplicate(buf);] *)
Definition chr_value (v : Value) : Value :=
  let c := double_to_char (v_number v) in
  {| v_is_string := true; v_number := d_zero;
     v_string := Some (if (c =? NUL)%char then "" else [c]s) |}.

(** [uint16_t addr = (uint16_t)v.number; val.number = interp->ram[addr];] *)
Definition peek_value (interp : Interpreter) (v : Value) : Value :=
  {| v_is_string := false;
     v_number := d_of_Z (ram_get (ram interp) (double_to_uint16 (v_number v)));
     v_string := None |}.

(** ** Operators *)

Definition apply_plus (left right : Value) : Value :=
  if v_is_string left && v_is_string right then
    {| v_is_string := true; v_number := v_number left;
       v_string := Some (default "" (v_string left) +++ default "" (v_string right)) |}
  else if negb (v_is_string left) && negb (v_is_string right) then
    {| v_is_string := false; v_number := d_add (v_number left) (v_number right);
       v_string := v_string left |}
  else left.

Definition is_relational (type : TokenType) : bool :=
  match type with
  | TOK_EQUAL | TOK_NOT_EQUAL | TOK_LESS | TOK_GREATER
  | TOK_LESS_EQUAL | TOK_GREATER_EQUAL => true
  | _ => false
  end.

Definition compare_strings (op : TokenType) (cmp : Z) : bool :=
  match op with
  | TOK_EQUAL => cmp =? 0
  | TOK_NOT_EQUAL => negb (cmp =? 0)
  | TOK_LESS => cmp <? 0
  | TOK_GREATER => cmp >? 0
  | TOK_LESS_EQUAL => cmp <=? 0
  | TOK_GREATER_EQUAL => cmp >=? 0
  | _ => false
  end.

Definition compare_numbers (op : TokenType) (a b : double) : bool :=
  match op with
  | TOK_EQUAL => d_eq a b
  | TOK_NOT_EQUAL => d_ne a b
  | TOK_LESS => d_lt a b
  | TOK_GREATER => d_gt a b
  | TOK_LESS_EQUAL => d_le a b
  | TOK_GREATER_EQUAL => d_ge a b
  | _ => false
  end.

Definition apply_relational (op : TokenType) (left right : Value) : Value :=
  let res :=
    if v_is_string left && v_is_string right then
      compare_strings op
        (strcmp (default "" (v_string left)) (default "" (v_string right)))
    else if negb (v_is_string left) && negb (v_is_string right) then
      compare_numbers op (v_number left) (v_number right)
    else false in
  {| v_is_string := false;
     v_number := if res then d_of_Z (-1) else d_zero;
     v_string := v_string left |}.

(** ** The evaluator *)

Fixpoint evaluate_factor (fuel : nat) (interp : Interpreter) (lexer : Lexer)
    {struct fuel} : option (Value * Lexer) :=
  match fuel with
  | O => None
  | S fuel =>
      let '(token, lexer) := lexer_next_token lexer in
      if decide (tok_type token = TOK_NUMBER) then
        Some ({| v_is_string := false; v_number := tok_number_value token;
                 v_string := None |}, lexer)
      else if decide (tok_type token = TOK_STRING) then
        Some ({| v_is_string := true; v_number := d_zero;
                 v_string := tok_text token |}, lexer)
      else if decide (tok_type token = TOK_IDENTIFIER) then
        Some (identifier_value interp token, lexer)
      else if decide (tok_type token = TOK_LPAREN) then
        '(val, lexer) ← evaluate_expression fuel interp lexer;
        let '(rparen, lexer) := lexer_next_token lexer in
        Some (val, lexer)
      else if decide (tok_type token = TOK_CHR) then
        let '(lparen, lexer) := lexer_next_token lexer in
        '(v, lexer) ← evaluate_expression fuel interp lexer;
        let '(rparen, lexer) := lexer_next_token lexer in
        Some (chr_value v, lexer)
      else if decide (tok_type token = TOK_PEEK) then
        let '(lparen, lexer) := lexer_next_token lexer in
        '(v, lexer) ← evaluate_expression fuel interp lexer;
        let '(rparen, lexer) := lexer_next_token lexer in
        Some (peek_value interp v, lexer)
      else Some (value_init, lexer)
  end
with evaluate_expression (fuel : nat) (interp : Interpreter) (lexer : Lexer)
    {struct fuel} : option (Value * Lexer) :=
  match fuel with
  | O => None
  | S fuel =>
      '(left_, lexer) ← evaluate_factor fuel interp lexer;
      expression_loop fuel interp left_ lexer
  end
with expression_loop (fuel : nat) (interp : Interpreter) (left_ : Value)
    (lexer : Lexer) {struct fuel} : option (Value * Lexer) :=
  match fuel with
  | O => None
  | S fuel =>
      let '(peek, lexer) := lexer_peek_token lexer in
      if decide (tok_type peek = TOK_PLUS) then
        let '(_, lexer) := lexer_next_token lexer in
        '(right_, lexer) ← evaluate_factor fuel interp lexer;
        expression_loop fuel interp (apply_plus left_ right_) lexer
      else if is_relational (tok_type peek) then
        let '(_, lexer) := lexer_next_token lexer in
        '(right_, lexer) ← evaluate_factor fuel interp lexer;
        expression_loop fuel interp (apply_relational (tok_type peek) left_ right_) lexer
      else Some (left_, lexer)
  end.

(** Fuel that is enough for the rest of the input of [lexer]. *)
Definition eval_fuel (lexer : Lexer) : nat := (2 * remaining lexer + 2)%nat.

(** [evaluate_expression(interp, lexer)] *)
Definition eval_expression (interp : Interpreter) (lexer : Lexer) : Value * Lexer :=
  default (value_init, lexer) (evaluate_expression (eval_fuel lexer) interp lexer).

(** The value of a source text. *)
Definition eval_string (interp : Interpreter) (input : string) : Value :=
  (eval_expression interp (lexer_init input)).1.

(** ** Well-formed values *)

(** A text value has a string and the number 0. *)
Definition value_ok (v : Value) : Prop :=
  v_is_string v = true -> v_number v = d_zero /\ is_Some (v_string v).

(** The value that reading a variable with the content [v] gives. *)
Definition value_of (v : VarValue) : Value :=
  match v with
  | VNumber d => {| v_is_string := false; v_number := d; v_string := None |}
  | VString s => {| v_is_string := true; v_number := d_zero; v_string := Some s |}
  end.

(** The number [z] as a value. *)
Definition vnum (z : Z) : Value :=
  {| v_is_string := false; v_number := d_of_Z z; v_string := None |}.

(** What a call answers when it has fuel enough: a value and a lexer that
    is not behind. *)
Definition answers {A} (r : option (A * Lexer)) (lexer : Lexer) : Prop :=
  exists v l, r = Some (v, l) /\ lx_le lexer l.

(** ** Fuel *)

(** The equations of the three functions at a successor fuel. *)
Lemma evaluate_expression_S fuel interp lexer :
  evaluate_expression (S fuel) interp lexer =
    '(left_, lexer) ← evaluate_factor fuel interp lexer;
    expression_loop fuel interp left_ lexer.
Proof. reflexivity. Qed.

Lemma answers_bind_next r lexer (f : Value -> Value) :
  answers r lexer ->
  answers ('(v, l) ← r; let '(_, l) := lexer_next_token l in Some (f v, l)) lexer.
Proof.
  intros (v & l & -> & Hle). simpl.
  pose proof (next_token_le l). destruct (lexer_next_token l) as [t l'].
  exists (f v), l'. split; [done | by etrans].
Qed.

Lemma answers_le {A} (r : option (A * Lexer)) a b :
  lx_le a b -> answers r b -> answers r a.
Proof. intros Hab (v & l & -> & Hle). exists v, l. split; [done | by etrans]. Qed.

Lemma answers_bind {A B} (r : option (A * Lexer)) a
    (k : A -> Lexer -> option (B * Lexer)) :
  answers r a -> (forall v l, lx_le a l -> answers (k v l) l) ->
  answers ('(v, l) ← r; k v l) a.
Proof.
  intros (v & l & -> & Hle) Hk. simpl. eapply answers_le; [done | by apply Hk].
Qed.

Section Total.
Context (fuel : nat) (interp : Interpreter).

(** The three functions answer at [fuel] on every lexer with little enough
    input left. *)
Context (IHfactor : forall lexer, lexer_ok lexer ->
  (2 * remaining lexer + 1 <= fuel)%nat ->
  answers (evaluate_factor fuel interp lexer) lexer).
Context (IHexpr : forall lexer, lexer_ok lexer ->
  (2 * remaining lexer + 2 <= fuel)%nat ->
  answers (evaluate_expression fuel interp lexer) lexer).
Context (IHloop : forall lexer left_, lexer_ok lexer ->
  (2 * remaining lexer + 1 <= fuel)%nat ->
  answers (expression_loop fuel interp left_ lexer) lexer).

Lemma next_token_fuel lexer :
  lexer_ok lexer -> (2 * remaining lexer + 1 <= S fuel)%nat ->
  tok_type (lexer_next_token lexer).1 <> TOK_EOF ->
  forall l, lx_le (lexer_next_token lexer).2 l ->
  lexer_ok l /\ (2 * remaining l + 2 <= fuel)%nat.
Proof.
  intros Hok Hf Hne l Hle.
  pose proof (lx_lt_remaining _ _ Hok (next_token_lt lexer Hne)).
  pose proof (lx_le_remaining _ _ Hle).
  split; [|lia]. apply Hle, (next_token_le lexer), Hok.
Qed.

Lemma evaluate_factor_step lexer :
  lexer_ok lexer -> (2 * remaining lexer + 1 <= S fuel)%nat ->
  answers (evaluate_factor (S fuel) interp lexer) lexer.
Proof.
  intros Hok Hf. simpl.
  pose proof (next_token_le lexer) as Hle.
  pose proof (next_token_fuel lexer Hok Hf) as Hnext.
  destruct (lexer_next_token lexer) as [token l1]. simpl in *.
  repeat case_decide; try (eexists _, _; split; [done|done]).
  - destruct (Hnext ltac:(congruence) l1) as [Hok1 Hf1]; [done|].
    eapply answers_le; [done|].
    apply (answers_bind_next _ _ (fun v => v)). by apply IHexpr.
  - pose proof (next_token_le l1) as Hle2.
    destruct (lexer_next_token l1) as [lparen l2]. simpl in *.
    destruct (Hnext ltac:(congruence) l2) as [Hok2 Hf2]; [done|].
    eapply answers_le; [by etrans|].
    apply (answers_bind_next _ _ chr_value). by apply IHexpr.
  - pose proof (next_token_le l1) as Hle2.
    destruct (lexer_next_token l1) as [lparen l2]. simpl in *.
    destruct (Hnext ltac:(congruence) l2) as [Hok2 Hf2]; [done|].
    eapply answers_le; [by etrans|].
    apply (answers_bind_next _ _ (peek_value interp)). by apply IHexpr.
Qed.

Lemma expression_operand_step lexer (f : Value -> Value) :
  lexer_ok lexer -> (2 * remaining lexer + 1 <= S fuel)%nat ->
  tok_type (lexer_next_token lexer).1 <> TOK_EOF ->
  answers ('(right_, l) ← evaluate_factor fuel interp (lexer_next_token lexer).2;
           expression_loop fuel interp (f right_) l) lexer.
Proof.
  intros Hok Hf Hne. pose proof (next_token_fuel lexer Hok Hf Hne) as Hnext.
  eapply answers_le; [apply next_token_le|].
  apply answers_bind.
  - destruct (Hnext _ (reflexivity _)). apply IHfactor; [done | lia].
  - intros v l Hle. destruct (Hnext _ Hle). apply IHloop; [done | lia].
Qed.

Lemma is_relational_not_eof (type : TokenType) :
  is_relational type = true -> type <> TOK_EOF.
Proof. by intros H ->. Qed.

Lemma expression_loop_step lexer left_ :
  lexer_ok lexer -> (2 * remaining lexer + 1 <= S fuel)%nat ->
  answers (expression_loop (S fuel) interp left_ lexer) lexer.
Proof.
  intros Hok Hf. simpl. rewrite peek_token_eq.
  pose proof (expression_operand_step lexer) as Hstep.
  destruct (lexer_next_token lexer) as [peek l1]. simpl in *.
  case_decide as Hplus; [apply Hstep; [done..|congruence]|].
  destruct (is_relational (tok_type peek)) eqn:Hrel.
  - apply Hstep; [done..|]. by apply is_relational_not_eof.
  - by exists left_, lexer.
Qed.

Lemma evaluate_expression_step lexer :
  lexer_ok lexer -> (2 * remaining lexer + 2 <= S fuel)%nat ->
  answers (evaluate_expression (S fuel) interp lexer) lexer.
Proof.
  intros Hok Hf. rewrite evaluate_expression_S. apply answers_bind.
  - apply IHfactor; [done | lia].
  - intros v l Hle. pose proof (lx_le_remaining _ _ Hle).
    apply IHloop; [by apply Hle | lia].
Qed.

End Total.

(** With fuel enough for the input that is left, the three functions
    answer. *)
Lemma evaluate_total (fuel : nat) (interp : Interpreter) (lexer : Lexer) :
  lexer_ok lexer ->
  ((2 * remaining lexer + 1 <= fuel)%nat ->
   answers (evaluate_factor fuel interp lexer) lexer) /\
  ((2 * remaining lexer + 2 <= fuel)%nat ->
   answers (evaluate_expression fuel interp lexer) lexer) /\
  (forall left_, (2 * remaining lexer + 1 <= fuel)%nat ->
   answers (expression_loop fuel interp left_ lexer) lexer).
Proof.
  revert lexer. induction fuel as [|fuel IH]; intros lexer Hok;
    [repeat split; intros; lia|].
  split; [|split].
  - apply evaluate_factor_step; [|done]. intros l Hl. by apply IH.
  - apply evaluate_expression_step; [| |done].
    + intros l Hl. by apply IH.
    + intros l left_ Hl. by apply IH.
  - intros left_. apply expression_loop_step; [| |done].
    + intros l Hl. by apply IH.
    + intros l left' Hl. by apply IH.
Qed.

(** More fuel does not change an answer. *)
Lemma bind_mono (r r' : option (Value * Lexer))
    (k k' : Value -> Lexer -> option (Value * Lexer)) x :
  (forall y, r = Some y -> r' = Some y) ->
  (forall v l, k v l = Some x -> k' v l = Some x) ->
  ('(v, l) ← r; k v l) = Some x -> ('(v, l) ← r'; k' v l) = Some x.
Proof.
  intros Hr Hk. destruct r as [[v l]|]; [|done]. rewrite (Hr _ eq_refl). apply Hk.
Qed.

Lemma evaluate_mono (fuel fuel' : nat) (interp : Interpreter) :
  (fuel <= fuel')%nat -> forall lexer x,
  (evaluate_factor fuel interp lexer = Some x ->
   evaluate_factor fuel' interp lexer = Some x) /\
  (evaluate_expression fuel interp lexer = Some x ->
   evaluate_expression fuel' interp lexer = Some x) /\
  (forall left_, expression_loop fuel interp left_ lexer = Some x ->
   expression_loop fuel' interp left_ lexer = Some x).
Proof.
  revert fuel'. induction fuel as [|fuel IH]; intros fuel' Hle lexer x; [done|].
  destruct fuel' as [|fuel']; [lia|]. specialize (IH fuel' ltac:(lia)).
  split; [|split]; [| |intros left_]; simpl.
  - destruct (lexer_next_token lexer) as [token l1].
    repeat case_decide; try done; try destruct (lexer_next_token l1) as [lparen l2];
      (apply bind_mono; [intros y; apply IH | done]).
  - apply bind_mono; [intros y; apply IH | intros v l; apply IH].
  - destruct (lexer_peek_token lexer) as [peek l0].
    destruct (lexer_next_token l0) as [t l1].
    case_decide; [|case_match; [|done]];
      (apply bind_mono; [intros y; apply IH | intros v l; apply IH]).
Qed.

(** ** The evaluator at its fuel *)

Lemma eval_expression_answers (interp : Interpreter) (lexer : Lexer) :
  lexer_ok lexer ->
  evaluate_expression (eval_fuel lexer) interp lexer =
    Some (eval_expression interp lexer) /\
  lx_le lexer (eval_expression interp lexer).2.
Proof.
  intros Hok. unfold eval_expression.
  destruct (evaluate_total (eval_fuel lexer) interp lexer Hok) as (_ & H & _).
  destruct H as (v & l & -> & Hle); [unfold eval_fuel; lia | done].
Qed.

(** ** Well-formed answers *)

Lemma bind_inv (r : option (Value * Lexer))
    (k : Value -> Lexer -> option (Value * Lexer)) x :
  ('(v, l) ← r; k v l) = Some x -> exists v l, r = Some (v, l) /\ k v l = Some x.
Proof. destruct r as [[v l]|]; [|done]. intros H. by exists v, l. Qed.

Lemma apply_plus_ok (left right : Value) :
  value_ok left -> value_ok (apply_plus left right).
Proof.
  intros Hl. unfold apply_plus.
  destruct (v_is_string left) eqn:El, (v_is_string right); simpl; try done.
  intros _. simpl. by destruct (Hl El).
Qed.

Lemma apply_relational_ok op (left right : Value) :
  value_ok (apply_relational op left right).
Proof. done. Qed.

Lemma identifier_value_ok interp token : value_ok (identifier_value interp token).
Proof.
  unfold identifier_value, value_ok. repeat case_match; simpl; try done.
  all: by intros _.
Qed.

Lemma chr_value_ok v : value_ok (chr_value v).
Proof. by intros _. Qed.

#[export] Hint Resolve apply_plus_ok apply_relational_ok identifier_value_ok
  chr_value_ok : cfb.

Lemma evaluate_value_ok (fuel : nat) (interp : Interpreter) (lexer : Lexer) x :
  (evaluate_factor fuel interp lexer = Some x -> value_ok x.1) /\
  (evaluate_expression fuel interp lexer = Some x -> value_ok x.1) /\
  (forall left_, value_ok left_ ->
     expression_loop fuel interp left_ lexer = Some x -> value_ok x.1).
Proof.
  revert lexer x. induction fuel as [|fuel IH]; intros lexer x; [done|].
  split; [|split]; [| |intros left_ Hl]; simpl.
  - pose proof (next_token_text lexer) as Htext.
    destruct (lexer_next_token lexer) as [token l1]. simpl in *.
    repeat case_decide; try destruct (lexer_next_token l1) as [lparen l2];
      try (intros (v & l & E & Hk)%bind_inv; apply IH in E;
           destruct (lexer_next_token l) as [rparen l3]; revert Hk);
      intros; simplify_eq; simpl; auto with cfb; try done.
    intros _. auto.
  - intros (v & l & E & Hk)%bind_inv. apply IH in E. by apply IH in Hk.
  - destruct (lexer_peek_token lexer) as [peek l0].
    destruct (lexer_next_token l0) as [t l1].
    case_decide; [|case_match];
      try (intros (v & l & E & Hk)%bind_inv; apply IH in Hk; auto with cfb).
    by intros [= <-].
Qed.

(** ** Progress of an answer *)

(** [lx_le] over the token that [lexer_next_token] consumes. *)
Lemma lx_le_next a b : lx_le a b -> lx_le a (lexer_next_token b).2.
Proof. intros H. etrans; [done | apply next_token_le]. Qed.

Lemma lx_le_after a b : lx_le (lexer_next_token a).2 b -> lx_le a b.
Proof. intros H. etrans; [apply next_token_le | done]. Qed.

#[export] Hint Resolve lx_le_next lx_le_after : cfb.

(** An answer of [evaluate_factor] or [evaluate_expression] is past the
    first token; the loop does not go back. *)
Lemma evaluate_after (fuel : nat) (interp : Interpreter) (lexer : Lexer) x :
  (evaluate_factor fuel interp lexer = Some x ->
   lx_le (lexer_next_token lexer).2 x.2) /\
  (evaluate_expression fuel interp lexer = Some x ->
   lx_le (lexer_next_token lexer).2 x.2) /\
  (forall left_, expression_loop fuel interp left_ lexer = Some x -> lx_le lexer x.2).
Proof.
  revert lexer x. induction fuel as [|fuel IH]; intros lexer x; [done|].
  split; [|split]; [| |intros left_]; simpl.
  - destruct (lexer_next_token lexer) as [token l1]. simpl.
    pose proof (next_token_le l1) as Hl2.
    destruct (lexer_next_token l1) as [lparen l2] eqn:E2. simpl in Hl2.
    repeat case_decide; try (by intros [= <-]).
    all: intros (v & l & E & Hk)%bind_inv; apply IH in E; rewrite ?E2 in E;
      pose proof (next_token_le l) as Hl3;
      destruct (lexer_next_token l) as [rparen l3];
      injection Hk as <-; simpl in *;
      (etrans; [apply Hl2|]);
      (etrans; [first [apply E | apply lx_le_after, E] | apply Hl3]).
  - intros (v & l & E & Hk)%bind_inv. apply IH in E. apply IH in Hk.
    by etrans.
  - rewrite peek_token_eq. destruct (lexer_next_token lexer) as [t l1] eqn:E1.
    simpl. assert (lx_le lexer l1) as Hl1.
    { replace l1 with (lexer_next_token lexer).2 by (by rewrite E1).
      apply next_token_le. }
    case_decide; [|case_match; [|by intros [= <-]]];
      intros (v & l & E & Hk)%bind_inv; apply IH in E; apply IH in Hk;
      (etrans; [done|]); (etrans; [|done]); by apply lx_le_after.
Qed.

Lemma eval_expression_after (interp : Interpreter) (lexer : Lexer) :
  lexer_ok lexer ->
  lx_le (lexer_next_token lexer).2 (eval_expression interp lexer).2.
Proof.
  intros Hok. destruct (eval_expression_answers interp lexer Hok) as [E _].
  by apply evaluate_after in E.
Qed.

Lemma eval_expression_le (interp : Interpreter) (lexer : Lexer) :
  lexer_ok lexer -> lx_le lexer (eval_expression interp lexer).2.
Proof. intros Hok. by apply eval_expression_answers. Qed.

(** An expression that does not start at the end of the input consumes at
    least one character. *)
Lemma eval_expression_lt (interp : Interpreter) (lexer : Lexer) :
  lexer_ok lexer -> tok_type (lexer_next_token lexer).1 <> TOK_EOF ->
  lx_lt lexer (eval_expression interp lexer).2.
Proof.
  intros Hok Hne. eapply lx_lt_le_trans; [by apply next_token_lt|].
  by apply eval_expression_after.
Qed.

#[export] Hint Resolve eval_expression_le eval_expression_after : cfb.

(** ** The evaluator terminates *)

(** C7: the evaluator terminates on every input: with the fuel [eval_fuel]
    or any larger one [evaluate_expression] answers, and the answer is that
    of [eval_expression]; the lexer has not moved backwards and is still
    inside its input. *)
Theorem evaluate_expression_total (interp : Interpreter) (lexer : Lexer) (fuel : nat) :
  lexer_ok lexer -> (eval_fuel lexer <= fuel)%nat ->
  evaluate_expression fuel interp lexer = Some (eval_expression interp lexer) /\
  lx_le lexer (eval_expression interp lexer).2.
Proof.
  intros Hok Hf. destruct (eval_expression_answers interp lexer Hok) as [E Hle].
  split; [|done]. by apply (evaluate_mono (eval_fuel lexer) fuel interp Hf).
Qed.

Lemma evaluate_expression_total_witness :
  evaluate_expression 100 interpreter_init (lexer_init "1+(2+3)") =
    Some (eval_expression interpreter_init (lexer_init "1+(2+3)")) /\
  lx_le (lexer_init "1+(2+3)")
    (eval_expression interpreter_init (lexer_init "1+(2+3)")).2.
Proof.
  apply evaluate_expression_total; [apply lexer_init_ok | vm_compute; lia].
Defined.

(** C38: a text value carries the number 0 and a string: whatever the
    expression, when the evaluator answers a text its [number] member is 0,
    so a condition that is a text is false. *)
Theorem text_value_is_zero (interp : Interpreter) (lexer : Lexer) :
  v_is_string (eval_expression interp lexer).1 = true ->
  v_number (eval_expression interp lexer).1 = d_zero /\
  d_nonzero (v_number (eval_expression interp lexer).1) = false /\
  is_Some (v_string (eval_expression interp lexer).1).
Proof.
  unfold eval_expression.
  destruct (evaluate_expression (eval_fuel lexer) interp lexer) as [x|] eqn:E;
    [|done].
  apply evaluate_value_ok in E. simpl. intros Hs. destruct (E Hs) as [-> ?].
  by rewrite d_nonzero_zero.
Qed.

Lemma text_value_is_zero_witness :
  let v := (eval_expression interpreter_init (lexer_init (quoted "A" +++ "+B$"))).1 in
  v_number v = d_zero /\ d_nonzero (v_number v) = false /\ is_Some (v_string v).
Proof. apply text_value_is_zero. reflexivity. Defined.

(** ** Reading variables *)

(** The identifier branch reads the store through its lookup. *)
Lemma identifier_value_lookup (interp : Interpreter) (token : Token) :
  vars_ok (variables interp) ->
  identifier_value interp token =
    match var_lookup interp (default "" (tok_text token)) with
    | Some v => value_of v
    | None =>
        if Ascii.eqb (last_char (default "" (tok_text token))) "$"
        then value_of (VString "") else value_init
    end.
Proof.
  intros Hok. unfold identifier_value, var_lookup. cbv zeta.
  destruct (var_at interp _) as [v|] eqn:E; simpl; [|done].
  unfold var_at in E. destruct (var_get interp _) as [i|]; [|done]. simpl in E.
  unfold vars_ok in Hok. rewrite Forall_forall in Hok.
  destruct (Hok v) as [_ Hwf]; [by eapply list_elem_of_lookup_2|].
  unfold var_wf in Hwf. by destruct (var_value v); rewrite Hwf.
Qed.

(** C23: what an assignment stores is what the evaluator reads.  After
    [var_set_number] or [var_set_string] under a name, an identifier token
    with the same name in any letter case evaluates to the value that was
    assigned, with its type. *)
Theorem read_after_assignment (interp : Interpreter) (name : string) (v : VarValue)
    (token : Token) (text : string) :
  vars_ok (variables interp) -> cstr name -> cstr text ->
  tok_text token = Some text -> same_name name text ->
  identifier_value (var_set interp name v) token = value_of v.
Proof.
  intros Hok Hn Ht Htok E.
  rewrite identifier_value_lookup by (by apply (ks_put_inv (KeyedStore := variable_store))).
  rewrite Htok. cbn [default from_option id].
  pose proof (ks_get_put_same (KS := variable_store) interp name text v
                Hok Hn Ht I E) as H.
  change (var_lookup (var_set interp name v) text = Some v) in H. by rewrite H.
Qed.

Lemma read_after_assignment_witness :
  identifier_value (var_set interpreter_init "total" (VNumber (d_of_Z 5)))
    (make_token TOK_IDENTIFIER (Some "TOTAL") d_zero 1 1) = value_of (VNumber (d_of_Z 5)).
Proof.
  apply (read_after_assignment interpreter_init "total" _ _ "TOTAL");
    try reflexivity; try (simpl; repeat split; discriminate). constructor.
Defined.

(** ** Evaluation *)

Example eval_add : eval_string interpreter_init "2+3" = vnum 5.
Proof. vm_compute. reflexivity. Qed.

Example eval_concat :
  let v := eval_string interpreter_init (quoted "2" +++ "+" +++ quoted "3") in
  v_is_string v = true /\ v_string v = Some "23".
Proof. vm_compute. auto. Qed.

(** A number plus a text is the number: the text is dropped. *)
Example eval_mixed_plus :
  eval_string interpreter_init ("2+" +++ quoted "x") = vnum 2.
Proof. vm_compute. reflexivity. Qed.

(** A comparison of a number with a text is false. *)
Example eval_mixed_compare :
  v_number (eval_string interpreter_init ("2=" +++ quoted "x")) = d_zero.
Proof. vm_compute. reflexivity. Qed.

Example eval_string_less :
  v_number (eval_string interpreter_init (quoted "A" +++ "<" +++ quoted "B")) =
    d_of_Z (-1).
Proof. vm_compute. reflexivity. Qed.

(** Operators apply from left to right: [1 < 2 + 5] is [(1 < 2) + 5]. *)
Example eval_left_to_right : eval_string interpreter_init "1<2+5" = vnum 4.
Proof. vm_compute. reflexivity. Qed.

(** A name that was never set is 0, or the empty text when it ends in [$]. *)
Example eval_unset :
  eval_string interpreter_init "X" = vnum 0 /\
  v_string (eval_string interpreter_init "X$") = Some "".
Proof. vm_compute. auto. Qed.

(** No multiplication: [2*3] is 2, and the lexer stands before the [*]. *)
Example eval_no_product :
  let r := eval_expression interpreter_init (lexer_init "2*3") in
  r.1 = vnum 2 /\ lx_position r.2 = 1%nat.
Proof. vm_compute. auto. Qed.

Example eval_chr_peek :
  v_string (eval_string interpreter_init "CHR$(65)") = Some "A" /\
  eval_string (set_ram interpreter_init (ram_set ∅ 1024 7)) "PEEK(1024)" = vnum 7.
Proof. vm_compute. auto. Qed.
