(* ===== verification/Semantics.v ===== *)
(** * Semantics: what the evaluator computes

    [evaluate_expression] of [src/interpreter.c] reads tokens and computes
    on the way; the grammar it accepts and the value of an expression are
    nowhere written down in the code.  This file writes them down and
    proves that the evaluator implements them.

    - [Factor] and [Expr] are the syntax: numbers, string literals,
      variables, parentheses, [CHR$(e)] and [PEEK(e)], joined by [+] and
      the six comparisons.  An [Expr] is a chain of factors that associates
      to the left: there is no precedence between [+] and a comparison.
    - [show_expr] writes an expression as BASIC text.
    - [den_expr] is the value of an expression, a [VarValue] (a number or a
      text): addition of numbers, concatenation of texts, comparisons with
      the answers -1 and 0, the left operand for [+] on mixed types and 0
      for a comparison on mixed types.
    - [abstract] maps the [Value] of the code, which carries a number and a
      string whatever its type, to the [VarValue] that it stands for.

    The theorem ([evaluate_denotes]): on the text of a well-formed
    expression, followed by anything that is no operator, the evaluator
    answers a value that stands for the value of the expression, and the
    lexer is left at the text that follows.

    The type of an expression ([ty_expr]) is computed from its syntax and
    the types of the values of the variables; the tag of the value that
    the evaluator answers is that type ([evaluate_typed]).

    Numbers in the syntax are the natural numbers: the evaluator has no
    sign, and [atof] is followed through decimal fractions by the examples
    of [Numbers] only. *)

From S2P Require Import Prelude Utils Numbers Lexer Tokens Editor Store State.
From S2P Require Import Variables Eval.

#[local] Open Scope Z_scope.
#[local] Open Scope cfb_scope.

(** ** Syntax *)

Inductive Op : Type := OPlus | OEq | ONe | OLt | OGt | OLe | OGe.

Inductive Factor : Type :=
  | FNum (n : Z)
  | FStr (s : string)
  | FVar (x : string)
  | FParen (e : Expr)
  | FChr (e : Expr)
  | FPeek (e : Expr)
with Expr : Type :=
  | EFactor (f : Factor)
  | EBin (e : Expr) (o : Op) (f : Factor).

Scheme Factor_mut := Induction for Factor Sort Prop
  with Expr_mut := Induction for Expr Sort Prop.

Combined Scheme Syntax_mut from Factor_mut, Expr_mut.

Definition op_text (o : Op) : string :=
  match o with
  | OPlus => "+" | OEq => "=" | ONe => "<>" | OLt => "<" | OGt => ">"
  | OLe => "<=" | OGe => ">="
  end.

Definition op_type (o : Op) : TokenType :=
  match o with
  | OPlus => TOK_PLUS | OEq => TOK_EQUAL | ONe => TOK_NOT_EQUAL | OLt => TOK_LESS
  | OGt => TOK_GREATER | OLe => TOK_LESS_EQUAL | OGe => TOK_GREATER_EQUAL
  end.

(** The text of an expression: operators between blanks, nothing else
    added. *)
Fixpoint show_factor (f : Factor) : string :=
  match f with
  | FNum n => fmt_d n
  | FStr s => quoted s
  | FVar x => x
  | FParen e => "(" +++ show_expr e +++ ")"
  | FChr e => "CHR$(" +++ show_expr e +++ ")"
  | FPeek e => "PEEK(" +++ show_expr e +++ ")"
  end
with show_expr (e : Expr) : string :=
  match e with
  | EFactor f => show_factor f
  | EBin e o f => show_expr e +++ " " +++ op_text o +++ " " +++ show_factor f
  end.

(** What can be written: a natural number, a text without quote and line
    feed, a word that is no keyword. *)
Fixpoint wf_factor (f : Factor) : bool :=
  match f with
  | FNum n => 0 <=? n
  | FStr s => str_all in_string s
  | FVar x =>
      is_word x && bool_decide (keyword_lookup (str_upper x) keywords = TOK_IDENTIFIER)
  | FParen e | FChr e | FPeek e => wf_expr e
  end
with wf_expr (e : Expr) : bool :=
  match e with
  | EFactor f => wf_factor f
  | EBin e _ f => wf_expr e && wf_factor f
  end.

(** ** Values *)

(** -1 for true, 0 for false. *)
Definition truth (b : bool) : VarValue := VNumber (if b then d_of_Z (-1) else d_zero).

Definition holds_numbers (o : Op) (x y : double) : bool :=
  match o with
  | OPlus => false
  | OEq => d_eq x y | ONe => d_ne x y | OLt => d_lt x y | OGt => d_gt x y
  | OLe => d_le x y | OGe => d_ge x y
  end.

(** Texts compare as [strcmp] orders them. *)
Definition holds_texts (o : Op) (s t : string) : bool :=
  match o with
  | OPlus => false
  | OEq => strcmp s t =? 0 | ONe => negb (strcmp s t =? 0)
  | OLt => strcmp s t <? 0 | OGt => strcmp s t >? 0
  | OLe => strcmp s t <=? 0 | OGe => strcmp s t >=? 0
  end.

Definition den_op (o : Op) (a b : VarValue) : VarValue :=
  match o, a, b with
  | OPlus, VNumber x, VNumber y => VNumber (d_add x y)
  | OPlus, VString s, VString t => VString (s +++ t)
  | OPlus, _, _ => a
  | _, VNumber x, VNumber y => truth (holds_numbers o x y)
  | _, VString s, VString t => truth (holds_texts o s t)
  | _, _, _ => truth false
  end.

(** A variable without a value reads as 0, or as the empty text when its
    name ends in a dollar sign. *)
Definition den_var (interp : Interpreter) (x : string) : VarValue :=
  match var_lookup interp x with
  | Some v => v
  | None => if (last_char x =? "$")%char then VString "" else VNumber d_zero
  end.

(** The text of one character, empty for the character 0; a text counts as
    the number 0. *)
Definition den_chr (v : VarValue) : VarValue :=
  let c := double_to_char (value_number v) in
  VString (if (c =? NUL)%char then "" else [c]s).

Definition den_peek (interp : Interpreter) (v : VarValue) : VarValue :=
  VNumber (d_of_Z (ram_get (ram interp) (double_to_uint16 (value_number v)))).

Fixpoint den_factor (interp : Interpreter) (f : Factor) : VarValue :=
  match f with
  | FNum n => VNumber (d_of_Z n)
  | FStr s => VString s
  | FVar x => den_var interp x
  | FParen e => den_expr interp e
  | FChr e => den_chr (den_expr interp e)
  | FPeek e => den_peek interp (den_expr interp e)
  end
with den_expr (interp : Interpreter) (e : Expr) : VarValue :=
  match e with
  | EFactor f => den_factor interp f
  | EBin e o f => den_op o (den_expr interp e) (den_factor interp f)
  end.

(** ** Types *)

(** The two types of values.  A variable has the type of the value it
    holds; without a value its name decides. *)
Inductive Ty : Type := TNumber | TText.

#[export] Instance Ty_eq_dec : EqDecision Ty.
Proof. solve_decision. Defined.

Definition ty_of (w : VarValue) : Ty :=
  match w with VNumber _ => TNumber | VString _ => TText end.

Definition ty_var (interp : Interpreter) (x : string) : Ty :=
  match var_lookup interp x with
  | Some w => ty_of w
  | None => if (last_char x =? "$")%char then TText else TNumber
  end.

(** The type of an expression: a sum has the type of its left operand, a
    comparison is a number. *)
Fixpoint ty_factor (interp : Interpreter) (f : Factor) : Ty :=
  match f with
  | FNum _ | FPeek _ => TNumber
  | FStr _ | FChr _ => TText
  | FVar x => ty_var interp x
  | FParen e => ty_expr interp e
  end
with ty_expr (interp : Interpreter) (e : Expr) : Ty :=
  match e with
  | EFactor f => ty_factor interp f
  | EBin e OPlus _ => ty_expr interp e
  | EBin _ _ _ => TNumber
  end.

(** What a [Value] of the code stands for. *)
Definition abstract (v : Value) : VarValue :=
  if v_is_string v then VString (default "" (v_string v)) else VNumber (v_number v).

(** The operator of the loop of [evaluate_expression]. *)
Definition apply_op (o : Op) (left right : Value) : Value :=
  match o with
  | OPlus => apply_plus left right
  | _ => apply_relational (op_type o) left right
  end.

(** ** What may follow an expression *)

(** A character that ends a number and a word. *)
Definition delimits (r : string) : Prop :=
  ends_number (first_char r) = true /\ is_ident_char (first_char r) = false.

(** The next token is no operator of an expression. *)
Definition no_operator (r : string) : Prop :=
  exists type text number r',
    next_is r type text number r' /\ type <> TOK_PLUS /\ is_relational type = false.

Definition follows (r : string) : Prop := delimits r /\ no_operator r.

(** The tokens of expressions. *)
Definition is_expr_token (type : TokenType) : bool :=
  match type with
  | TOK_NUMBER | TOK_STRING | TOK_IDENTIFIER | TOK_LPAREN | TOK_RPAREN | TOK_CHR
  | TOK_PEEK | TOK_PLUS => true
  | _ => is_relational type
  end.

(** ** The evaluator against the semantics *)

(** A factor: the evaluator answers its value and leaves what follows. *)
Definition factor_spec (interp : Interpreter) (f : Factor) : Prop :=
  forall lexer r, reads lexer (show_factor f +++ r) -> delimits r ->
    exists fuel v lexer',
      evaluate_factor fuel interp lexer = Some (v, lexer') /\
      abstract v = den_factor interp f /\ reads lexer' r.

(** An expression in front of anything: the evaluator is where its loop
    would be with the value of the expression as the left operand. *)
Definition expr_spec (interp : Interpreter) (e : Expr) : Prop :=
  forall lexer r, reads lexer (show_expr e +++ r) -> delimits r ->
    exists v lexer',
      abstract v = den_expr interp e /\ value_ok v /\ reads lexer' r /\
      forall fuel x, expression_loop fuel interp v lexer' = Some x ->
        exists fuel', evaluate_expression fuel' interp lexer = Some x.

(** ** Values of the code and values of the semantics *)

Section Abstract.
Implicit Types (v left right : Value) (interp : Interpreter).

Lemma abstract_value_of (w : VarValue) : abstract (value_of w) = w.
Proof. by destruct w. Qed.

Lemma abstract_apply_op o left right :
  abstract (apply_op o left right) = den_op o (abstract left) (abstract right).
Proof.
  destruct o; unfold apply_op, apply_plus, apply_relational, abstract;
    destruct (v_is_string left) eqn:El, (v_is_string right) eqn:Er; simpl;
    rewrite ?El; reflexivity.
Qed.

Lemma value_number_abstract v : value_ok v -> value_number (abstract v) = v_number v.
Proof.
  unfold value_ok, abstract. destruct (v_is_string v); [|done].
  intros H. by destruct (H eq_refl) as [-> _].
Qed.

Lemma abstract_number v d :
  abstract v = VNumber d -> v_is_string v = false /\ v_number v = d.
Proof. unfold abstract. destruct (v_is_string v); [done|]. by intros [= ->]. Qed.

Lemma abstract_text v (s : string) :
  abstract v = VString s -> v_is_string v = true /\ default "" (v_string v) = s.
Proof. unfold abstract. destruct (v_is_string v); [|done]. by intros [= ->]. Qed.

Lemma abstract_chr v : value_ok v -> abstract (chr_value v) = den_chr (abstract v).
Proof. intros H. unfold den_chr. by rewrite value_number_abstract. Qed.

Lemma abstract_peek interp v :
  value_ok v -> abstract (peek_value interp v) = den_peek interp (abstract v).
Proof. intros H. unfold den_peek. by rewrite value_number_abstract. Qed.

Lemma abstract_identifier interp token x :
  vars_ok (variables interp) -> tok_text token = Some x ->
  abstract (identifier_value interp token) = den_var interp x.
Proof.
  intros Hok Hx. rewrite identifier_value_lookup, Hx by done. unfold den_var. simpl.
  destruct (var_lookup interp x); [apply abstract_value_of|].
  by destruct (last_char x =? "$")%char.
Qed.

End Abstract.

(** ** Fuel and blanks *)

Section Steps.
Context (interp : Interpreter).
Implicit Types (lexer : Lexer) (v : Value) (fuel : nat) (x : Value * Lexer).

Lemma factor_more fuel fuel' lexer x :
  evaluate_factor fuel interp lexer = Some x -> (fuel <= fuel')%nat ->
  evaluate_factor fuel' interp lexer = Some x.
Proof. intros E Hle. by apply (evaluate_mono fuel fuel' interp Hle lexer x). Qed.

Lemma expression_more fuel fuel' lexer x :
  evaluate_expression fuel interp lexer = Some x -> (fuel <= fuel')%nat ->
  evaluate_expression fuel' interp lexer = Some x.
Proof. intros E Hle. by apply (evaluate_mono fuel fuel' interp Hle lexer x). Qed.

Lemma loop_more fuel fuel' v lexer x :
  expression_loop fuel interp v lexer = Some x -> (fuel <= fuel')%nat ->
  expression_loop fuel' interp v lexer = Some x.
Proof. intros E Hle. by apply (evaluate_mono fuel fuel' interp Hle lexer x). Qed.

(** An answer at some fuel is the answer of [eval_expression]. *)
Lemma eval_expression_at fuel lexer x :
  lexer_ok lexer -> evaluate_expression fuel interp lexer = Some x ->
  eval_expression interp lexer = x.
Proof.
  intros Hok E. destruct (eval_expression_answers interp lexer Hok) as [E' _].
  apply (expression_more _ (Nat.max fuel (eval_fuel lexer))) in E, E'; [|lia..].
  congruence.
Qed.

Lemma evaluate_factor_blank lexer c s :
  reads lexer (String c s) -> is_blank c = true ->
  reads (advance lexer) s /\
  forall fuel,
    evaluate_factor fuel interp lexer = evaluate_factor fuel interp (advance lexer).
Proof.
  intros Hr Hb. split; [eapply reads_advance; [done|]; by intros ->|].
  intros [|fuel]; [done|]. simpl.
  by rewrite next_token_blank by (by rewrite (peek_rest _ _ Hr)).
Qed.

Lemma evaluate_expression_blank lexer c s :
  reads lexer (String c s) -> is_blank c = true ->
  reads (advance lexer) s /\
  eval_expression interp lexer = eval_expression interp (advance lexer).
Proof.
  intros Hr Hb. destruct (evaluate_factor_blank lexer c s Hr Hb) as [Hr' E].
  split; [done|]. destruct (eval_expression_answers interp (advance lexer)) as [E' _];
    [apply Hr'|].
  destruct (eval_fuel (advance lexer)) as [|fuel] eqn:Ef; [done|].
  apply (eval_expression_at (S fuel)); [apply Hr|].
  by rewrite evaluate_expression_S, E, <- evaluate_expression_S.
Qed.

Lemma eval_expression_value_ok lexer : value_ok (eval_expression interp lexer).1.
Proof.
  unfold eval_expression.
  destruct (evaluate_expression _ _ _) as [x|] eqn:E; [|done].
  by apply (evaluate_value_ok _ _ _ _) in E.
Qed.

(** A turn of the loop on an operator. *)
Lemma loop_operator fuel v lexer o text number line col lexer' :
  lexer_next_token lexer = (make_token (op_type o) text number line col, lexer') ->
  expression_loop (S fuel) interp v lexer =
    '(right_, l) ← evaluate_factor fuel interp lexer';
    expression_loop fuel interp (apply_op o v right_) l.
Proof. intros E. simpl. rewrite peek_token_eq, E. by destruct o. Qed.

(** The loop ends in front of a token that is no operator. *)
Lemma loop_stops fuel v lexer r :
  reads lexer r -> no_operator r ->
  expression_loop (S fuel) interp v lexer = Some (v, lexer).
Proof.
  intros Hr (type & text & number & r' & Hnext & Hp & Hrel).
  destruct (peek_is _ _ _ _ _ _ Hnext Hr) as (line & col & E).
  simpl. rewrite E. simpl. rewrite Hrel. by case_decide.
Qed.

End Steps.

(** ** Tokens of expressions *)

Section Operators.
Implicit Types (r s : string) (o : Op).

Lemma next_is_lparen r : next_is ("(" +++ r) TOK_LPAREN (Some "(") d_zero r.
Proof. by apply next_is_operator. Qed.

Lemma next_is_rparen r : next_is (")" +++ r) TOK_RPAREN (Some ")") d_zero r.
Proof. by apply next_is_operator. Qed.

(** An operator between two blanks. *)
Lemma next_is_op o s :
  next_is (" " +++ op_text o +++ " " +++ s) (op_type o) (Some (op_text o)) d_zero
    (" " +++ s).
Proof.
  apply next_is_blank; [done|].
  destruct o; simpl;
    first [ by apply next_is_operator2; [done | done | intros ? ? ? E; unfold read_operator; simpl; rewrite E]
          | by apply next_is_operator; [done | intros ? ? ? E; unfold read_operator; simpl; rewrite ?E] ].
Qed.

Lemma delimits_blank s : delimits (" " +++ s).
Proof. done. Qed.

Lemma delimits_rparen s : delimits (")" +++ s).
Proof. done. Qed.

Lemma follows_rparen s : follows (")" +++ s).
Proof.
  split; [done|]. exists TOK_RPAREN, (Some ")"), d_zero, s.
  split; [apply next_is_rparen | done].
Qed.

Lemma follows_end : follows "".
Proof.
  split; [done|]. exists TOK_EOF, None, d_zero, "". split; [apply next_is_eof | done].
Qed.

End Operators.

(** ** The cases of the grammar *)

Section Denotes.
Context (interp : Interpreter) (Hvars : vars_ok (variables interp)).
Implicit Types (lexer : Lexer) (e : Expr) (f : Factor) (r : string).

Lemma spec_num n : 0 <= n -> factor_spec interp (FNum n).
Proof.
  intros Hn lexer r Hr [He _].
  destruct (next_is_number n r Hn He lexer Hr) as (line & col & l' & E & Hr').
  eexists 1%nat, _, l'. simpl. by rewrite E.
Qed.

Lemma spec_str s : str_all in_string s = true -> factor_spec interp (FStr s).
Proof.
  intros Hs lexer r Hr _.
  destruct (next_is_string s r Hs lexer Hr) as (line & col & l' & E & Hr').
  eexists 1%nat, _, l'. simpl. by rewrite E.
Qed.

Lemma spec_var x :
  is_word x = true -> keyword_lookup (str_upper x) keywords = TOK_IDENTIFIER ->
  factor_spec interp (FVar x).
Proof.
  intros Hx Hk lexer r Hr [_ Hi].
  destruct (next_is_word x r Hx Hi lexer Hr) as (line & col & l' & E & Hr').
  rewrite Hk in E. eexists 1%nat, _, l'. simpl. rewrite E. simpl.
  split; [done|]. split; [by apply abstract_identifier | done].
Qed.

(** An expression in front of a token that is no operator. *)
Lemma expr_closed e lexer r :
  expr_spec interp e -> reads lexer (show_expr e +++ r) -> follows r ->
  exists fuel v lexer',
    evaluate_expression fuel interp lexer = Some (v, lexer') /\
    abstract v = den_expr interp e /\ value_ok v /\ reads lexer' r.
Proof.
  intros IH Hr [Hd Hno]. destruct (IH lexer r Hr Hd) as (v & l' & Hv & Hok & Hr' & Hk).
  destruct (Hk 1%nat (v, l')) as [fuel E]; [by eapply loop_stops|].
  by exists fuel, v, l'.
Qed.

(** An expression and the parenthesis that closes it. *)
Lemma spec_argument e lexer r :
  expr_spec interp e -> reads lexer (show_expr e +++ ")" +++ r) ->
  exists fuel v l2 rparen l3,
    evaluate_expression fuel interp lexer = Some (v, l2) /\
    lexer_next_token l2 = (rparen, l3) /\
    abstract v = den_expr interp e /\ value_ok v /\ reads l3 r.
Proof.
  intros IH Hr.
  destruct (expr_closed e lexer _ IH Hr (follows_rparen r))
    as (fuel & v & l2 & E & Hv & Hok & Hr2).
  destruct (next_is_rparen r l2 Hr2) as (line & col & l3 & E3 & Hr3).
  by eexists fuel, v, l2, _, l3.
Qed.

Lemma spec_paren e : expr_spec interp e -> factor_spec interp (FParen e).
Proof.
  intros IH lexer r Hr _. simpl in Hr. rewrite !append_assoc in Hr.
  destruct (next_is_lparen _ lexer Hr) as (line & col & l1 & E1 & Hr1).
  destruct (spec_argument e l1 r IH Hr1) as (fuel & v & l2 & t & l3 & E & E3 & Hv & _ & Hr3).
  exists (S fuel), v, l3. simpl. rewrite E1. simpl. rewrite E. simpl. by rewrite E3.
Qed.

(** A word, a parenthesis, an expression and a parenthesis: the shape of
    [CHR$(e)] and [PEEK(e)]. *)
Lemma spec_call w e lexer r :
  is_word w = true -> expr_spec interp e ->
  reads lexer (w +++ "(" +++ show_expr e +++ ")" +++ r) ->
  exists line col l1 lparen l2 fuel v l3 rparen l4,
    lexer_next_token lexer =
      (make_token (keyword_lookup (str_upper w) keywords) (Some w) d_zero line col, l1) /\
    lexer_next_token l1 = (lparen, l2) /\
    evaluate_expression fuel interp l2 = Some (v, l3) /\
    lexer_next_token l3 = (rparen, l4) /\
    abstract v = den_expr interp e /\ value_ok v /\ reads l4 r.
Proof.
  intros Hw IH Hr.
  destruct (next_is_word w ("(" +++ show_expr e +++ ")" +++ r) Hw eq_refl lexer Hr)
    as (line & col & l1 & E1 & Hr1).
  destruct (next_is_lparen _ l1 Hr1) as (line2 & col2 & l2 & E2 & Hr2).
  destruct (spec_argument e l2 r IH Hr2) as (fuel & v & l3 & t & l4 & E & E4 & H).
  by eexists line, col, l1, _, l2, fuel, v, l3, t, l4.
Qed.

Lemma spec_chr e : expr_spec interp e -> factor_spec interp (FChr e).
Proof.
  intros IH lexer r Hr _.
  destruct (spec_call "CHR$" e lexer r eq_refl IH)
    as (line & col & l1 & t1 & l2 & fuel & v & l3 & t3 & l4 & E1 & E2 & E & E4 & Hv & Hok & Hr4).
  { simpl in *. by rewrite !append_assoc in Hr. }
  exists (S fuel), (chr_value v), l4. simpl. rewrite E1. simpl. rewrite E2, E. simpl.
  rewrite E4, <- Hv. by split; [|split; [apply abstract_chr|]].
Qed.

Lemma spec_peek e : expr_spec interp e -> factor_spec interp (FPeek e).
Proof.
  intros IH lexer r Hr _.
  destruct (spec_call "PEEK" e lexer r eq_refl IH)
    as (line & col & l1 & t1 & l2 & fuel & v & l3 & t3 & l4 & E1 & E2 & E & E4 & Hv & Hok & Hr4).
  { simpl in *. by rewrite !append_assoc in Hr. }
  exists (S fuel), (peek_value interp v), l4. simpl. rewrite E1. simpl. rewrite E2, E. simpl.
  rewrite E4, <- Hv. by split; [|split; [apply abstract_peek|]].
Qed.

Lemma apply_op_ok o (left right : Value) :
  value_ok left -> value_ok (apply_op o left right).
Proof. destruct o; simpl; auto with cfb. Qed.

Lemma spec_factor f : factor_spec interp f -> expr_spec interp (EFactor f).
Proof.
  intros IH lexer r Hr Hd. destruct (IH lexer r Hr Hd) as (fuel & v & l' & E & Hv & Hr').
  exists v, l'. split; [done|].
  split; [by apply (proj1 (evaluate_value_ok fuel interp lexer (v, l')))|].
  split; [done|]. intros fuel2 x Hloop.
  exists (S (Nat.max fuel fuel2)). rewrite evaluate_expression_S.
  rewrite (factor_more _ _ (Nat.max fuel fuel2) _ _ E) by lia. simpl.
  apply (loop_more _ fuel2); [done | lia].
Qed.

Lemma spec_bin e o f :
  expr_spec interp e -> factor_spec interp f -> expr_spec interp (EBin e o f).
Proof.
  intros IHe IHf lexer r Hr Hd. simpl in Hr. rewrite !append_assoc in Hr.
  destruct (IHe lexer _ Hr (delimits_blank _)) as (v1 & l1 & Hv1 & Hok1 & Hr1 & Hk).
  destruct (next_is_op o _ l1 Hr1) as (line & col & l2 & E2 & Hr2).
  destruct (evaluate_factor_blank interp l2 _ _ Hr2 eq_refl) as [Hr3 Eb].
  destruct (IHf (advance l2) r Hr3 Hd) as (fuel_f & v2 & l4 & E4 & Hv2 & Hr4).
  exists (apply_op o v1 v2), l4. split; [by rewrite abstract_apply_op, Hv1, Hv2|].
  split; [by apply apply_op_ok|]. split; [done|].
  intros fuel x Hloop. apply (Hk (S (Nat.max fuel fuel_f))).
  rewrite (loop_operator _ _ _ _ _ _ _ _ _ _ E2), Eb.
  rewrite (factor_more _ _ (Nat.max fuel fuel_f) _ _ E4) by lia. simpl.
  apply (loop_more _ fuel); [done | lia].
Qed.

(** Every expression that can be written. *)
Lemma syntax_spec :
  (forall f, wf_factor f = true -> factor_spec interp f) /\
  (forall e, wf_expr e = true -> expr_spec interp e).
Proof.
  apply Syntax_mut; simpl.
  - intros n Hn. apply spec_num. lia.
  - apply spec_str.
  - intros x [Hx Hk%bool_decide_eq_true]%andb_prop. by apply spec_var.
  - intros e IH Hwf. by apply spec_paren, IH.
  - intros e IH Hwf. by apply spec_chr, IH.
  - intros e IH Hwf. by apply spec_peek, IH.
  - intros f IH Hwf. by apply spec_factor, IH.
  - intros e IHe o f IHf [He Hf]%andb_prop. apply spec_bin; auto.
Qed.

(** The evaluator at its own fuel. *)
Lemma eval_expression_denotes e lexer r :
  wf_expr e = true -> reads lexer (show_expr e +++ r) -> follows r ->
  abstract (eval_expression interp lexer).1 = den_expr interp e /\
  reads (eval_expression interp lexer).2 r.
Proof.
  intros Hwf Hr Hf. destruct syntax_spec as [_ H].
  destruct (expr_closed e lexer r (H e Hwf) Hr Hf) as (fuel & v & l' & E & Hv & _ & Hr').
  apply eval_expression_at in E; [|apply Hr]. by rewrite E.
Qed.

End Denotes.

(** ** The tokens of an expression *)

Section Spelling.
Implicit Types (e : Expr) (f : Factor) (r : string).

#[local] Abbreviation tokens := (spelled is_expr_token).

Lemma spelled_rparen r : tokens (")" +++ r) r.
Proof. by eapply spelled_one; [apply next_is_rparen|]. Qed.

(** An expression between parentheses, behind the tokens [s]. *)
Lemma spelled_argument e r :
  (forall r, delimits r -> tokens (show_expr e +++ r) r) ->
  tokens ("(" +++ show_expr e +++ ")" +++ r) r.
Proof.
  intros IH. exists TOK_LPAREN, (Some "("), d_zero, (show_expr e +++ ")" +++ r).
  split; [apply next_is_lparen|]. split; [done|].
  eapply spells_app; apply spelled_spells; [by apply IH | apply spelled_rparen].
Qed.

Lemma spelled_call (w : string) type e r :
  is_word w = true -> keyword_lookup (str_upper w) keywords = type ->
  is_expr_token type = true ->
  (forall r, delimits r -> tokens (show_expr e +++ r) r) ->
  tokens (w +++ "(" +++ show_expr e +++ ")" +++ r) r.
Proof.
  intros Hw Hk Hok IH. exists type, (Some w), d_zero, ("(" +++ show_expr e +++ ")" +++ r).
  split; [by rewrite <- Hk; apply next_is_word|]. split; [done|].
  by apply spelled_spells, spelled_argument.
Qed.

Lemma spelled_op o r : tokens (" " +++ op_text o +++ " " +++ r) (" " +++ r).
Proof. eapply spelled_one; [apply next_is_op | by destruct o]. Qed.

Lemma expr_spelled :
  (forall f, wf_factor f = true -> forall r, delimits r -> tokens (show_factor f +++ r) r) /\
  (forall e, wf_expr e = true -> forall r, delimits r -> tokens (show_expr e +++ r) r).
Proof.
  apply Syntax_mut; cbn [wf_factor wf_expr show_factor show_expr].
  - intros n Hn r [Hr _]. eapply spelled_one; [apply next_is_number; [lia | done] | done].
  - intros s Hs r _. by eapply spelled_one; [apply next_is_string|].
  - intros x [Hx Hk%bool_decide_eq_true]%andb_prop r [_ Hr].
    eapply spelled_one; [by apply next_is_word|]. by rewrite Hk.
  - intros e IH Hwf r _. rewrite !append_assoc. apply spelled_argument; auto.
  - intros e IH Hwf r _. rewrite !append_assoc. apply (spelled_call "CHR$" TOK_CHR); auto.
  - intros e IH Hwf r _. rewrite !append_assoc. apply (spelled_call "PEEK" TOK_PEEK); auto.
  - auto.
  - intros e IHe o f IHf [He Hf]%andb_prop r Hr. rewrite !append_assoc.
    eapply spelled_app; [by apply IHe|]. eapply spells_app; apply spelled_spells;
      [apply spelled_op | by apply spelled_blank, IHf].
Qed.

End Spelling.

(** ** The type of a value *)

Section Typing.
Context (interp : Interpreter).

Lemma ty_of_den_op o (a b : VarValue) :
  ty_of (den_op o a b) = match o with OPlus => ty_of a | _ => TNumber end.
Proof. by destruct o, a, b. Qed.

Lemma den_typed :
  (forall f, ty_of (den_factor interp f) = ty_factor interp f) /\
  (forall e, ty_of (den_expr interp e) = ty_expr interp e).
Proof.
  apply Syntax_mut; cbn [den_factor den_expr ty_factor ty_expr]; try done.
  - intros x. unfold den_var, ty_var. destruct (var_lookup interp x); [done|].
    by destruct (last_char x =? "$")%char.
  - intros e IHe o f IHf. rewrite ty_of_den_op, IHe. by destruct o.
Qed.

Lemma abstract_tag (v : Value) :
  v_is_string v = bool_decide (ty_of (abstract v) = TText).
Proof. unfold abstract. by destruct (v_is_string v). Qed.

End Typing.

(** C3: the evaluator implements the semantics of expressions.  On the text
    of an expression that can be written, followed by a text [r] that ends
    a number and a word and does not begin with an operator, the evaluator
    answers a value that stands for the value of the expression, with the
    operators applied from left to right, and leaves the lexer at [r]. *)
Theorem evaluate_denotes (interp : Interpreter) (e : Expr) (lexer : Lexer)
    (r : string) :
  vars_ok (variables interp) -> wf_expr e = true ->
  reads lexer (show_expr e +++ r) -> follows r ->
  abstract (eval_expression interp lexer).1 = den_expr interp e /\
  reads (eval_expression interp lexer).2 r.
Proof. intros Hvars. by apply eval_expression_denotes. Qed.

Lemma evaluate_denotes_witness :
  let e := EBin (EBin (EFactor (FNum 1)) OPlus (FParen (EFactor (FNum 2)))) OLt
             (FChr (EFactor (FVar "code"))) in
  let lexer := lexer_init (show_expr e +++ "") in
  abstract (eval_expression interpreter_init lexer).1 = den_expr interpreter_init e /\
  reads (eval_expression interpreter_init lexer).2 "".
Proof.
  intros e lexer. apply (evaluate_denotes interpreter_init e lexer "").
  - constructor.
  - reflexivity.
  - apply reads_init.
  - apply follows_end.
Defined.

(** The text of a chain is read from left to right: a comparison that is
    written before a sum is its left operand. *)
Example show_chain :
  show_expr (EBin (EBin (EFactor (FNum 1)) OLt (FNum 2)) OPlus (FNum 3)) = "1 < 2 + 3" /\
  abstract (eval_string interpreter_init "1 < 2 + 3") = VNumber (d_of_Z 2) /\
  abstract (eval_string interpreter_init "3 + 2 < 1") = VNumber d_zero.
Proof. by vm_compute. Qed.

(** A text and a number do not compare and do not add. *)
Example mixed_operands :
  let e := EBin (EBin (EFactor (FStr "A")) OPlus (FNum 1)) OEq (FNum 1) in
  show_expr e = quoted "A" +++ " + 1 = 1" /\ den_expr interpreter_init e = VNumber d_zero.
Proof. by vm_compute. Qed.

(** C24: the evaluator is typed.  The tag of the value that the evaluator
    answers on the text of an expression is the type of the expression: a
    literal has its own type, a variable the type of what it holds, [CHR$]
    is a text and [PEEK] a number, a sum has the type of its left operand
    and a comparison is a number. *)
Theorem evaluate_typed (interp : Interpreter) (e : Expr) (lexer : Lexer) (r : string) :
  vars_ok (variables interp) -> wf_expr e = true ->
  reads lexer (show_expr e +++ r) -> follows r ->
  v_is_string (eval_expression interp lexer).1 =
    bool_decide (ty_expr interp e = TText).
Proof.
  intros Hvars Hwf Hr Hf.
  destruct (eval_expression_denotes interp Hvars e lexer r Hwf Hr Hf) as [Hv _].
  by rewrite abstract_tag, Hv, (proj2 (den_typed interp)).
Qed.

Lemma evaluate_typed_witness :
  let e := EBin (EBin (EFactor (FStr "A")) OPlus (FNum 1)) OPlus (FChr (EFactor (FNum 66))) in
  let lexer := lexer_init (show_expr e +++ "") in
  v_is_string (eval_expression interpreter_init lexer).1 =
    bool_decide (ty_expr interpreter_init e = TText).
Proof.
  intros e lexer. apply (evaluate_typed interpreter_init e lexer "").
  - constructor.
  - reflexivity.
  - apply reads_init.
  - apply follows_end.
Defined.
