(* ===== verification/Exec.v ===== *)
(** * Exec: the statement executor of [src/interpreter.c]

    [interpreter_execute_line] reads the tokens of one line and runs its
    statements.  The token loop, the loop of [PRINT] and the loop that skips
    a false [IF] recurse on a fuel; each turn of each loop consumes at least
    one character of the line, so the characters left plus one are fuel
    enough ([execute_tokens_total]).  [exec_line] is the executor at that
    fuel.

    A statement answers the interpreter, whether the token loop goes on
    ([Next]) or is left ([Stop]), and the lexer.  Output goes through
    [basic_print]: to the editor when there is one, to [stdout] otherwise.

    [draw_line] scales its arguments and calls the rasteriser of [Draw]; it
    computes in [int], and a product that overflows is undefined in C and
    is not modelled: the arithmetic here is that of [Z], with the truncating
    division of C.

    What a line keeps is proved once.  The class [Preserved] lists the
    steps that statements are made of; a relation that holds across each
    step holds across every line ([kept_exec_line]).  [frame] and
    [vars_kept] are its two instances. *)

From S2P Require Import Prelude Utils Numbers Lexer Editor Draw State Program Variables Eval.

#[local] Open Scope Z_scope.
#[local] Open Scope cfb_scope.

(** ** Output *)

(** [basic_print] on the text that [vasprintf] produced. *)
Definition basic_print (interp : Interpreter) (buf : string) : Interpreter :=
  match editor interp with
  | Some ed => set_screen interp (editor_print (ed, stdout interp) buf)
  | None => set_stdout interp (stdout interp +++ buf)
  end.

(** The text a character of a printed string is shown as. *)
Definition display_char (c : ascii) : string :=
  if code c =? 147 then [ESC]s +++ "[2J" +++ [ESC]s +++ "[H"
  else if code c =? 19 then [ESC]s +++ "[H"
  else if code c =? 17 then [ESC]s +++ "[B"
  else if code c =? 145 then [ESC]s +++ "[A"
  else if code c =? 157 then [ESC]s +++ "[D"
  else if code c =? 29 then [ESC]s +++ "[C"
  else [c]s.

(** [for (char *p = v.string; *p; p++) ...] *)
Fixpoint print_chars (interp : Interpreter) (s : string) : Interpreter :=
  match s with
  | EmptyString => interp
  | String c s' =>
      if (c =? NUL)%char then interp
      else print_chars (basic_print interp (display_char c)) s'
  end.

(** The output of one item of [PRINT]. *)
Definition print_value (interp : Interpreter) (v : Value) : Interpreter :=
  if v_is_string v then
    match v_string v with
    | Some s => print_chars interp s
    | None => interp
    end
  else basic_print interp (fmt_g (v_number v)).

(** ** Graphics *)

Definition draw_line (interp : Interpreter) (x1 y1 x2 y2 : Z) : Interpreter :=
  match editor interp with
  | None => interp
  | Some ed =>
      let tx1 := Z.quot (x1 * ed_cols ed) 320 in
      let ty1 := Z.quot (y1 * ed_rows ed) 200 in
      let tx2 := Z.quot (x2 * ed_cols ed) 320 in
      let ty2 := Z.quot (y2 * ed_rows ed) 200 in
      match draw_scaled (ed, stdout interp) tx1 ty1 tx2 ty2 with
      | Some sc => set_screen interp sc
      | None => interp
      end
  end.

(** ** Statements *)

(** Whether the token loop goes on after a statement. *)
Inductive Flow : Type := Next | Stop.

Definition Outcome : Type := Interpreter * Flow * Lexer.

Definition ends_print (type : TokenType) : bool :=
  bool_decide (type = TOK_EOF) || bool_decide (type = TOK_NEWLINE)
  || bool_decide (type = TOK_COLON).

Definition ends_line (type : TokenType) : bool :=
  bool_decide (type = TOK_EOF) || bool_decide (type = TOK_NEWLINE).

(** The loop of [PRINT]. *)
Fixpoint print_loop (fuel : nat) (interp : Interpreter) (lexer : Lexer)
  : option (Interpreter * Lexer) :=
  match fuel with
  | O => None
  | S fuel =>
      let '(peek, lexer) := lexer_peek_token lexer in
      if ends_print (tok_type peek) then
        Some (basic_print interp ["010"%char]s, lexer)
      else
        let '(v, lexer) := eval_expression interp lexer in
        let interp := print_value interp v in
        let '(peek, lexer) := lexer_peek_token lexer in
        if decide (tok_type peek = TOK_SEMICOLON) then
          print_loop fuel interp (lexer_next_token lexer).2
        else if decide (tok_type peek = TOK_COMMA) then
          print_loop fuel (basic_print interp ["009"%char]s) (lexer_next_token lexer).2
        else Some (basic_print interp ["010"%char]s, lexer)
  end.

(** The loop of a false [IF]: skip to [ELSE] or to the end of the line. *)
Fixpoint skip_to_else (fuel : nat) (lexer : Lexer) : option Lexer :=
  match fuel with
  | O => None
  | S fuel =>
      let '(token, lexer) := lexer_next_token lexer in
      if ends_line (tok_type token) then Some lexer
      else if decide (tok_type token = TOK_ELSE) then Some lexer
      else skip_to_else fuel lexer
  end.

Definition execute_if (interp : Interpreter) (lexer : Lexer) : option Outcome :=
  let '(cond, lexer) := eval_expression interp lexer in
  let '(then_tok, lexer) := lexer_next_token lexer in
  if decide (tok_type then_tok = TOK_THEN) then
    if d_nonzero (v_number cond) then
      let '(peek, lexer) := lexer_peek_token lexer in
      if decide (tok_type peek = TOK_NUMBER) then
        let lexer := (lexer_next_token lexer).2 in
        match program_find_line interp (double_to_int (tok_number_value peek)) with
        | Some target => Some (set_current_line interp (Some target), Stop, lexer)
        | None => Some (interp, Next, lexer)
        end
      else Some (interp, Next, lexer)
    else
      lexer ← skip_to_else (S (remaining lexer)) lexer;
      Some (interp, Next, lexer)
  else Some (interp, Next, lexer).

Definition execute_goto (interp : Interpreter) (lexer : Lexer) : Outcome :=
  let '(v, lexer) := eval_expression interp lexer in
  if negb (v_is_string v) then
    match program_find_line interp (double_to_int (v_number v)) with
    | Some target => (set_current_line interp (Some target), Next, lexer)
    | None =>
        (set_error_occurred
           (set_stderr interp (error (stderr interp) "LINE NOT FOUND")) true,
         Next, lexer)
    end
  else (interp, Next, lexer).

(** The assignment to [name], after the name was read. *)
Definition execute_assign (interp : Interpreter) (name : string) (lexer : Lexer)
  : Outcome :=
  let '(eq, lexer) := lexer_next_token lexer in
  if decide (tok_type eq = TOK_EQUAL) then
    let '(v, lexer) := eval_expression interp lexer in
    if v_is_string v then
      (var_set_string interp name (default "" (v_string v)), Next, lexer)
    else (var_set_number interp name (v_number v), Next, lexer)
  else (interp, Next, lexer).

Definition execute_let (interp : Interpreter) (token : Token) (lexer : Lexer)
  : Outcome :=
  if decide (tok_type token = TOK_IDENTIFIER) then
    match tok_text token with
    | Some name => execute_assign interp name lexer
    | None => (interp, Next, lexer)
    end
  else
    let '(token, lexer) := lexer_next_token lexer in
    if decide (tok_type token = TOK_IDENTIFIER) then
      match tok_text token with
      | Some name => execute_assign interp name lexer
      | None => (interp, Next, lexer)
      end
    else (interp, Next, lexer).

(** The two operands of [POKE], [PLOT] and [DRAW], with the token between
    them. *)
Definition two_operands (interp : Interpreter) (lexer : Lexer)
  : Value * Value * Lexer :=
  let '(a, lexer) := eval_expression interp lexer in
  let '(comma, lexer) := lexer_next_token lexer in
  let '(b, lexer) := eval_expression interp lexer in
  (a, b, lexer).

Definition poke (interp : Interpreter) (a v : Z) : Interpreter :=
  let interp := set_ram interp (ram_set (ram interp) a v) in
  match editor interp with
  | Some ed =>
      if (a =? 53280) || (a =? 53281) then
        set_screen interp (editor_set_background_color (ed, stdout interp) v)
      else if (1024 <=? a) && (a <=? 2023) then
        set_screen interp (editor_poke_char (ed, stdout interp) a v)
      else interp
  | None => interp
  end.

Definition execute_poke (interp : Interpreter) (lexer : Lexer) : Outcome :=
  let '(addr, val, lexer) := two_operands interp lexer in
  if negb (v_is_string addr) && negb (v_is_string val) then
    (poke interp (double_to_uint16 (v_number addr)) (double_to_uint8 (v_number val)),
     Next, lexer)
  else (interp, Next, lexer).

Definition execute_plot (interp : Interpreter) (lexer : Lexer) : Outcome :=
  let '(vx, vy, lexer) := two_operands interp lexer in
  if negb (v_is_string vx) && negb (v_is_string vy) then
    (set_graphics interp (v_number vx) (v_number vy), Next, lexer)
  else (interp, Next, lexer).

Definition execute_draw (interp : Interpreter) (lexer : Lexer) : Outcome :=
  let '(vx, vy, lexer) := two_operands interp lexer in
  if negb (v_is_string vx) && negb (v_is_string vy) then
    let interp :=
      draw_line interp (double_to_int (graphics_x interp))
        (double_to_int (graphics_y interp))
        (double_to_int (v_number vx)) (double_to_int (v_number vy)) in
    (set_graphics interp (v_number vx) (v_number vy), Next, lexer)
  else (interp, Next, lexer).

(** The statement that starts with [token]: one turn of the token loop
    after the test for the end of the line. *)
Definition execute_statement (interp : Interpreter) (token : Token) (lexer : Lexer)
  : option Outcome :=
  let type := tok_type token in
  if bool_decide (type = TOK_PRINT) || bool_decide (type = TOK_QUESTION) then
    '(interp, lexer) ← print_loop (S (remaining lexer)) interp lexer;
    Some (interp, Next, lexer)
  else if decide (type = TOK_IF) then execute_if interp lexer
  else if decide (type = TOK_GOTO) then Some (execute_goto interp lexer)
  else if bool_decide (type = TOK_LET) || bool_decide (type = TOK_IDENTIFIER) then
    Some (execute_let interp token lexer)
  else if decide (type = TOK_POKE) then Some (execute_poke interp lexer)
  else if decide (type = TOK_PLOT) then Some (execute_plot interp lexer)
  else if decide (type = TOK_DRAW) then Some (execute_draw interp lexer)
  else if decide (type = TOK_EXIT) then
    Some (set_running (set_exit_requested interp true) false, Stop, lexer)
  else if bool_decide (type = TOK_END) || bool_decide (type = TOK_STOP) then
    Some (set_running interp false, Stop, lexer)
  else if decide (type = TOK_COLON) then Some (interp, Next, lexer)
  else if decide (type = TOK_REM) then Some (interp, Stop, lexer)
  else Some (interp, Next, lexer).

(** The token loop. *)
Fixpoint execute_tokens (fuel : nat) (interp : Interpreter) (lexer : Lexer)
  : option Interpreter :=
  match fuel with
  | O => None
  | S fuel =>
      let '(token, lexer) := lexer_next_token lexer in
      if ends_line (tok_type token) then Some interp
      else
        '(interp, flow, lexer) ← execute_statement interp token lexer;
        match flow with
        | Stop => Some interp
        | Next => execute_tokens fuel interp lexer
        end
  end.

Definition interpreter_execute_line (interp : Interpreter) (line : string)
  : option Interpreter :=
  execute_tokens (S (String.length line)) interp (lexer_init line).

(** [interpreter_execute_line(interp, line)] *)
Definition exec_line (interp : Interpreter) (line : string) : Interpreter :=
  default interp (interpreter_execute_line interp line).

(** ** What a statement leaves as it is *)

(** The cursor is [NULL] or points to a line of the program. *)
Definition cursor_ok (interp : Interpreter) : Prop :=
  forall c, current_line interp = Some c -> (c < length (program interp))%nat.

(** The screen, when there is one, is well formed. *)
Definition screen_ok (interp : Interpreter) : Prop :=
  forall ed, editor interp = Some ed -> editor_ok ed.

(** [frame a b]: [b] has the program and the stacks of [a]; its cursor is
    valid and its screen well formed if those of [a] are; an error that
    [a] has recorded is still recorded in [b]. *)
Definition frame (a b : Interpreter) : Prop :=
  program b = program a /\ call_stack b = call_stack a /\
  for_stack b = for_stack a /\ (cursor_ok a -> cursor_ok b) /\
  (screen_ok a -> screen_ok b) /\
  (error_occurred a = true -> error_occurred b = true).

(** The variable store is well formed, with one variable per name. *)
Definition vars_inv (interp : Interpreter) : Prop :=
  vars_ok (variables interp) /\ vars_unique (variables interp).

(** [vars_kept a b]: the variable store of [b] is well formed if that of
    [a] is. *)
Definition vars_kept (a b : Interpreter) : Prop := vars_inv a -> vars_inv b.

(** [flags_step a b]: [b] differs from [a] in flags, in the graphics
    position or in the error stream only, and a recorded error stays. *)
Definition flags_step (a b : Interpreter) : Prop :=
  program b = program a /\ current_line b = current_line a /\
  variables b = variables a /\ call_stack b = call_stack a /\
  for_stack b = for_stack a /\ editor b = editor a /\ stdout b = stdout a /\
  fs b = fs a /\ ram b = ram a /\
  (error_occurred a = true -> error_occurred b = true).

(** The name of an identifier token is a C string. *)
Definition token_ok (token : Token) : Prop :=
  tok_type token = TOK_IDENTIFIER ->
  forall name, tok_text token = Some name -> cstr name.

(** [Preserved R]: the relation [R] holds across each of the steps that
    the statements are made of, and therefore across every statement. *)
Class Preserved (R : relation Interpreter) := {
  preserved_preorder :: PreOrder R;
  preserved_print interp buf : R interp (basic_print interp buf);
  preserved_var_set interp name v : cstr name -> R interp (var_set interp name v);
  preserved_jump interp n target :
    program_find_line interp n = Some target ->
    R interp (set_current_line interp (Some target));
  preserved_poke interp a v : R interp (poke interp a v);
  preserved_draw_line interp x1 y1 x2 y2 : R interp (draw_line interp x1 y1 x2 y2);
  preserved_flags a b : flags_step a b -> R a b
}.

(** ** Progress of the lexer and totality *)

Section Total.
Implicit Types (interp : Interpreter) (lexer : Lexer) (token : Token).

Lemma ends_print_eof (type : TokenType) : ends_print type = false -> type <> TOK_EOF.
Proof. by intros H ->. Qed.

Lemma ends_line_eof (type : TokenType) : ends_line type = false -> type <> TOK_EOF.
Proof. by intros H ->. Qed.

Lemma answers_some {A} (r : A * Lexer) lexer : lx_le lexer r.2 -> answers (Some r) lexer.
Proof. destruct r as [a l]. intros H. by exists a, l. Qed.

Lemma answers_pure {A} (a : A) lexer l : lx_le lexer l -> answers (Some (a, l)) lexer.
Proof. apply (answers_some (a, l)). Qed.

Lemma print_loop_total fuel interp lexer :
  lexer_ok lexer -> (remaining lexer < fuel)%nat ->
  answers (print_loop fuel interp lexer) lexer.
Proof.
  revert interp lexer. induction fuel as [|fuel IH]; intros interp lexer Hok Hf; [lia|].
  simpl. rewrite peek_token_eq.
  destruct (ends_print (tok_type (lexer_next_token lexer).1)) eqn:Hend;
    [by apply answers_pure|].
  apply ends_print_eof in Hend.
  pose proof (eval_expression_lt interp lexer Hok Hend) as Hlt.
  destruct (eval_expression interp lexer) as [v l1]. simpl in Hlt.
  rewrite peek_token_eq.
  pose proof (lx_lt_remaining _ _ Hok Hlt). pose proof (next_token_le l1) as Hn.
  pose proof (lx_le_remaining _ _ Hn).
  assert (lx_le lexer (lexer_next_token l1).2) as Hle
    by (etrans; [apply lx_lt_le, Hlt | done]).
  repeat case_decide; try (by apply answers_pure, lx_lt_le).
  all: eapply answers_le; [done|]; apply IH; [by apply Hle | lia].
Qed.

Lemma skip_to_else_total fuel lexer :
  lexer_ok lexer -> (remaining lexer < fuel)%nat ->
  exists l, skip_to_else fuel lexer = Some l /\ lx_le lexer l.
Proof.
  revert lexer. induction fuel as [|fuel IH]; intros lexer Hok Hf; [lia|].
  simpl. pose proof (next_token_le lexer) as Hle.
  pose proof (next_token_lt lexer) as Hlt.
  destruct (lexer_next_token lexer) as [token l1]. simpl in *.
  destruct (ends_line (tok_type token)) eqn:Hend; [by exists l1|].
  case_decide; [by exists l1|].
  specialize (Hlt (ends_line_eof _ Hend)).
  pose proof (lx_lt_remaining _ _ Hok Hlt).
  destruct (IH l1) as (l & -> & Hl); [by apply Hle | lia |].
  exists l. split; [done | by etrans].
Qed.

Lemma two_operands_le interp lexer :
  lexer_ok lexer -> lx_le lexer (two_operands interp lexer).2.
Proof.
  intros Hok. unfold two_operands.
  pose proof (eval_expression_le interp lexer Hok) as H1.
  destruct (eval_expression interp lexer) as [a l1]. simpl in H1.
  pose proof (next_token_le l1) as H2.
  destruct (lexer_next_token l1) as [comma l2]. simpl in H2.
  pose proof (eval_expression_le interp l2 ltac:(by apply H2, H1)) as H3.
  destruct (eval_expression interp l2) as [b l3]. simpl in *.
  by repeat (etrans; [eassumption|]).
Qed.

Lemma execute_if_total interp lexer :
  lexer_ok lexer -> answers (execute_if interp lexer) lexer.
Proof.
  intros Hok. unfold execute_if.
  pose proof (eval_expression_le interp lexer Hok) as H1.
  destruct (eval_expression interp lexer) as [cond l1]. simpl in H1.
  pose proof (next_token_le l1) as H2.
  destruct (lexer_next_token l1) as [then_tok l2]. simpl in H2.
  assert (lx_le lexer l2) as H12 by (by etrans).
  case_decide; [|by apply answers_pure].
  destruct (d_nonzero (v_number cond)).
  - rewrite peek_token_eq. pose proof (next_token_le l2) as H3.
    assert (lx_le lexer (lexer_next_token l2).2) by (by etrans).
    repeat case_match; by apply answers_pure.
  - destruct (skip_to_else_total (S (remaining l2)) l2) as (l & -> & Hl);
      [by apply H12 | lia |].
    apply answers_pure. by etrans.
Qed.

Lemma execute_goto_le interp lexer :
  lexer_ok lexer -> lx_le lexer (execute_goto interp lexer).2.
Proof.
  intros Hok. unfold execute_goto.
  pose proof (eval_expression_le interp lexer Hok) as H1.
  destruct (eval_expression interp lexer) as [v l1]. by repeat case_match.
Qed.

Lemma execute_assign_le interp name lexer :
  lexer_ok lexer -> lx_le lexer (execute_assign interp name lexer).2.
Proof.
  intros Hok. unfold execute_assign.
  pose proof (next_token_le lexer) as H1.
  destruct (lexer_next_token lexer) as [eq l1]. simpl in H1.
  case_decide; [|done].
  pose proof (eval_expression_le interp l1 ltac:(by apply H1)) as H2.
  destruct (eval_expression interp l1) as [v l2]. simpl in H2.
  case_match; simpl; by etrans.
Qed.

Lemma execute_let_le interp token lexer :
  lexer_ok lexer -> lx_le lexer (execute_let interp token lexer).2.
Proof.
  intros Hok. unfold execute_let.
  case_decide; [case_match; [by apply execute_assign_le | done]|].
  pose proof (next_token_le lexer) as H1.
  destruct (lexer_next_token lexer) as [t l1]. simpl in H1.
  repeat case_match; try done.
  etrans; [done|]. apply execute_assign_le. by apply H1.
Qed.

Lemma execute_poke_le interp lexer :
  lexer_ok lexer -> lx_le lexer (execute_poke interp lexer).2.
Proof.
  intros Hok. unfold execute_poke. pose proof (two_operands_le interp lexer Hok) as H.
  destruct (two_operands interp lexer) as [[a b] l]. by case_match.
Qed.

Lemma execute_plot_le interp lexer :
  lexer_ok lexer -> lx_le lexer (execute_plot interp lexer).2.
Proof.
  intros Hok. unfold execute_plot. pose proof (two_operands_le interp lexer Hok) as H.
  destruct (two_operands interp lexer) as [[a b] l]. by case_match.
Qed.

Lemma execute_draw_le interp lexer :
  lexer_ok lexer -> lx_le lexer (execute_draw interp lexer).2.
Proof.
  intros Hok. unfold execute_draw. pose proof (two_operands_le interp lexer Hok) as H.
  destruct (two_operands interp lexer) as [[a b] l]. by case_match.
Qed.

Lemma execute_statement_total interp token lexer :
  lexer_ok lexer -> answers (execute_statement interp token lexer) lexer.
Proof.
  intros Hok. unfold execute_statement. cbv zeta.
  destruct (bool_decide (tok_type token = TOK_PRINT) ||
            bool_decide (tok_type token = TOK_QUESTION)).
  { destruct (print_loop_total (S (remaining lexer)) interp lexer Hok)
      as (i & l & -> & Hl); [lia|]. by apply answers_pure. }
  case_decide; [by apply execute_if_total|].
  repeat first [case_decide | case_match]; apply answers_some;
    first [done | auto using execute_goto_le, execute_let_le, execute_poke_le,
                    execute_plot_le, execute_draw_le].
Qed.

Lemma execute_tokens_total fuel interp lexer :
  lexer_ok lexer -> (remaining lexer < fuel)%nat ->
  is_Some (execute_tokens fuel interp lexer).
Proof.
  revert interp lexer. induction fuel as [|fuel IH]; intros interp lexer Hok Hf; [lia|].
  simpl. pose proof (next_token_le lexer) as Hle.
  pose proof (next_token_lt lexer) as Hlt.
  destruct (lexer_next_token lexer) as [token l1]. simpl in *.
  destruct (ends_line (tok_type token)) eqn:Hend; [done|].
  specialize (Hlt (ends_line_eof _ Hend)).
  pose proof (lx_lt_remaining _ _ Hok Hlt).
  destruct (execute_statement_total interp token l1) as ([i flow] & l & -> & Hl);
    [by apply Hle|].
  simpl. destruct flow; [|done].
  pose proof (lx_le_remaining _ _ Hl). apply IH; [by apply Hl, Hle | lia].
Qed.

End Total.

(** C6: the executor terminates on every line: the token loop, with the
    loops of [PRINT] and of a false [IF] inside it, ends within the fuel of
    one turn for each character of the line and one more. *)
Theorem interpreter_execute_line_total (interp : Interpreter) (line : string) :
  interpreter_execute_line interp line = Some (exec_line interp line).
Proof.
  unfold exec_line.
  destruct (execute_tokens_total (S (String.length line)) interp (lexer_init line))
    as [i Hi]; [apply lexer_init_ok | unfold remaining; simpl; lia |].
  unfold interpreter_execute_line. by rewrite Hi.
Qed.

(** ** The frame of a statement *)

#[export] Instance frame_preorder : PreOrder frame.
Proof.
  split.
  - intros a. do 3 (split; [done|]). by do 2 (split; [done|]).
  - intros a b c (? & ? & ? & ? & ? & ?) (? & ? & ? & ? & ? & ?).
    do 3 (split; [congruence|]). do 2 (split; [auto|]). auto.
Qed.

(** A state that differs from [a] in fields other than those of the frame,
    or in a valid cursor. *)
Lemma frame_fields (a b : Interpreter) :
  program b = program a -> call_stack b = call_stack a ->
  for_stack b = for_stack a ->
  (current_line b = current_line a \/
   exists c, current_line b = Some c /\ (c < length (program a))%nat) ->
  (screen_ok a -> screen_ok b) ->
  (error_occurred a = true -> error_occurred b = true) ->
  frame a b.
Proof.
  intros Hp Hc Hf Hcur Hsc He. do 3 (split; [done|]). split; [|done].
  intros Hok c. rewrite Hp. destruct Hcur as [->|(c' & -> & Hlt)]; [apply Hok|].
  by intros [= <-].
Qed.

Ltac frame_fields := apply frame_fields; simpl; auto; try exact (fun H => H).

(** The frame of an update of the screen. *)
Lemma frame_set_screen (interp : Interpreter) (ed : Editor) (sc : Screen) :
  editor interp = Some ed -> (editor_ok ed -> editor_ok sc.1) ->
  frame interp (set_screen interp sc).
Proof.
  intros He Hsc. frame_fields. intros Hok ed' [= <-]. by apply Hsc, Hok.
Qed.

Section Frame.
Implicit Types (interp : Interpreter) (lexer : Lexer) (token : Token).

Lemma frame_basic_print interp buf : frame interp (basic_print interp buf).
Proof.
  unfold basic_print. case_match; [|frame_fields].
  eapply frame_set_screen; [done|]. apply (editor_print_ok (_, _)).
Qed.

Lemma frame_var_set interp name v : frame interp (var_set interp name v).
Proof.
  destruct v; simpl; unfold var_set_number, var_set_string;
    case_match; frame_fields.
Qed.

Lemma frame_draw_line interp x1 y1 x2 y2 : frame interp (draw_line interp x1 y1 x2 y2).
Proof.
  unfold draw_line. case_match; [|done]. case_match eqn:Hd; [|done].
  eapply frame_set_screen; [done|]. by apply (draw_scaled_ok _ _ _ _ _ _ Hd).
Qed.

Lemma frame_poke interp a v : frame interp (poke interp a v).
Proof.
  unfold poke. cbv zeta.
  transitivity (set_ram interp (ram_set (ram interp) a v)); [frame_fields|].
  generalize (set_ram interp (ram_set (ram interp) a v)). intros i.
  case_match eqn:He; [|done].
  repeat case_match; try done; (eapply frame_set_screen; [done|]).
  - done.
  - apply (editor_poke_char_ok (_, _)).
Qed.

Lemma frame_set_cursor interp target :
  (forall c, target = Some c -> (c < length (program interp))%nat) ->
  frame interp (set_current_line interp target).
Proof.
  intros H. do 3 (split; [done|]). split; [|split; exact (fun Hs => Hs)].
  intros _ c. simpl. apply H.
Qed.

Lemma frame_jump interp n target :
  program_find_line interp n = Some target ->
  frame interp (set_current_line interp (Some target)).
Proof.
  intros H%program_find_line_lt. apply frame_set_cursor. by intros c [= <-].
Qed.

End Frame.

Lemma frame_flags (a b : Interpreter) : flags_step a b -> frame a b.
Proof.
  intros (Hp & Hc & Hv & Hcs & Hfs & He & Ho & _ & _ & Herr).
  apply frame_fields; auto. unfold screen_ok. by rewrite He.
Qed.

#[export] Instance frame_preserved : Preserved frame := {|
  preserved_print := frame_basic_print;
  preserved_var_set interp name v _ := frame_var_set interp name v;
  preserved_jump := frame_jump;
  preserved_poke := frame_poke;
  preserved_draw_line := frame_draw_line;
  preserved_flags := frame_flags
|}.

#[export] Hint Resolve frame_basic_print frame_var_set frame_draw_line frame_poke
  frame_jump : cfb.

(** ** What every statement keeps *)

Section Statements.
Context `{HR : Preserved R}.
Implicit Types (interp : Interpreter) (lexer : Lexer) (token : Token).

(** An update of flags only. *)
Ltac flags := apply preserved_flags; by repeat split.

Lemma kept_print_chars interp (s : string) : R interp (print_chars interp s).
Proof.
  revert interp. induction s as [|c s IH]; intros interp; simpl; [done|].
  case_match; [done|]. etrans; [apply preserved_print | apply IH].
Qed.

Lemma kept_print_value interp (v : Value) : R interp (print_value interp v).
Proof.
  unfold print_value.
  case_match; [case_match; [apply kept_print_chars | done] | apply preserved_print].
Qed.

Lemma kept_print_loop fuel interp lexer r :
  print_loop fuel interp lexer = Some r -> R interp r.1.
Proof.
  revert interp lexer. induction fuel as [|fuel IH]; intros interp lexer; [done|].
  simpl. destruct (lexer_peek_token lexer) as [peek l0].
  case_match; [intros [= <-]; apply preserved_print|].
  destruct (eval_expression interp l0) as [v l1].
  destruct (lexer_peek_token l1) as [peek' l2].
  repeat case_decide; first [intros H'%IH | intros [= <-]];
    (etrans; [apply kept_print_value|]);
    first [done | apply preserved_print | etrans; [apply preserved_print | done]].
Qed.

Lemma kept_execute_if interp lexer r :
  execute_if interp lexer = Some r -> R interp r.1.1.
Proof.
  unfold execute_if. destruct (eval_expression interp lexer) as [cond l1].
  destruct (lexer_next_token l1) as [then_tok l2].
  case_decide; [|by intros [= <-]].
  case_match.
  - destruct (lexer_peek_token l2) as [peek l3].
    case_decide; [|by intros [= <-]].
    case_match eqn:Hfind; intros [= <-]; [by eapply preserved_jump | done].
  - destruct (skip_to_else _ _); [|done]. by intros [= <-].
Qed.

Lemma kept_execute_goto interp lexer : R interp (execute_goto interp lexer).1.1.
Proof.
  unfold execute_goto. destruct (eval_expression interp lexer) as [v l1].
  case_match; [|done]. case_match eqn:Hfind; simpl; [by eapply preserved_jump|].
  flags.
Qed.

Lemma kept_execute_assign interp (name : string) lexer :
  cstr name -> R interp (execute_assign interp name lexer).1.1.
Proof.
  intros Hn. unfold execute_assign. destruct (lexer_next_token lexer) as [eq l1].
  case_decide; [|done]. destruct (eval_expression interp l1) as [v l2].
  case_match; simpl.
  - by apply (preserved_var_set interp name (VString _)).
  - by apply (preserved_var_set interp name (VNumber _)).
Qed.

Lemma next_token_ok lexer : token_ok (lexer_next_token lexer).1.
Proof. intros Hty name. by apply next_token_identifier. Qed.

Lemma kept_execute_let interp token lexer :
  token_ok token -> R interp (execute_let interp token lexer).1.1.
Proof.
  intros Hok. unfold execute_let.
  case_decide; [case_match; [apply kept_execute_assign; auto | done]|].
  pose proof (next_token_ok lexer) as Hok'.
  destruct (lexer_next_token lexer) as [t l1].
  case_decide; [|done]. case_match; [|done]. apply kept_execute_assign; auto.
Qed.

Lemma kept_execute_poke interp lexer : R interp (execute_poke interp lexer).1.1.
Proof.
  unfold execute_poke. destruct (two_operands interp lexer) as [[a b] l].
  case_match; [apply preserved_poke | done].
Qed.

Lemma kept_execute_plot interp lexer : R interp (execute_plot interp lexer).1.1.
Proof.
  unfold execute_plot. destruct (two_operands interp lexer) as [[a b] l].
  case_match; [flags | done].
Qed.

Lemma kept_execute_draw interp lexer : R interp (execute_draw interp lexer).1.1.
Proof.
  unfold execute_draw. destruct (two_operands interp lexer) as [[a b] l].
  case_match; [|done]. simpl. etrans; [apply preserved_draw_line|]. flags.
Qed.

Lemma kept_execute_statement interp token lexer r :
  token_ok token -> execute_statement interp token lexer = Some r -> R interp r.1.1.
Proof.
  intros Hok. unfold execute_statement. cbv zeta.
  destruct (bool_decide (tok_type token = TOK_PRINT) ||
            bool_decide (tok_type token = TOK_QUESTION)).
  { destruct (print_loop _ interp lexer) as [[i l]|] eqn:E; [|done].
    intros [= <-]. by apply kept_print_loop in E. }
  case_decide; [apply kept_execute_if|].
  case_decide; [intros [= <-]; apply kept_execute_goto|].
  destruct (_ || _); [intros [= <-]; by apply kept_execute_let|].
  case_decide; [intros [= <-]; apply kept_execute_poke|].
  case_decide; [intros [= <-]; apply kept_execute_plot|].
  case_decide; [intros [= <-]; apply kept_execute_draw|].
  case_decide; [intros [= <-]; flags|].
  destruct (_ || _); [intros [= <-]; flags|].
  repeat case_decide; intros [= <-]; reflexivity.
Qed.

Lemma kept_execute_tokens fuel interp lexer r :
  execute_tokens fuel interp lexer = Some r -> R interp r.
Proof.
  revert interp lexer. induction fuel as [|fuel IH]; intros interp lexer; [done|].
  simpl. pose proof (next_token_ok lexer) as Hok.
  destruct (lexer_next_token lexer) as [token l1].
  case_match; [by intros [= <-]|].
  destruct (execute_statement interp token l1) as [[[i flow] l]|] eqn:E; [|done].
  apply kept_execute_statement in E; [|done]. simpl in *.
  destruct flow; [|by intros [= <-]]. intros H'%IH. by etrans.
Qed.

(** Every line keeps what its steps keep. *)
Lemma kept_exec_line interp (line : string) : R interp (exec_line interp line).
Proof.
  unfold exec_line, interpreter_execute_line.
  destruct (execute_tokens _ interp _) eqn:E; [|done].
  by apply kept_execute_tokens in E.
Qed.

End Statements.

Lemma frame_exec_line (interp : Interpreter) (line : string) :
  frame interp (exec_line interp line).
Proof. apply kept_exec_line. Qed.

(** ** The variable store across a statement *)

Section Variables.
Implicit Types (interp : Interpreter).

Lemma vars_kept_same (a b : Interpreter) : variables b = variables a -> vars_kept a b.
Proof. unfold vars_kept, vars_inv. by intros ->. Qed.

Lemma vars_kept_preorder : PreOrder vars_kept.
Proof. split; [intros a Ha; exact Ha | intros a b c Hab Hbc Ha; auto]. Qed.

Lemma vars_kept_print interp buf : vars_kept interp (basic_print interp buf).
Proof. apply vars_kept_same. unfold basic_print. by case_match. Qed.

Lemma vars_kept_var_set interp name v :
  cstr name -> vars_kept interp (var_set interp name v).
Proof.
  intros Hn [Hok Hu]. split; [by apply var_set_map_ok | by apply var_set_nodup].
Qed.

Lemma vars_kept_poke interp a v : vars_kept interp (poke interp a v).
Proof. apply vars_kept_same. unfold poke. by repeat case_match. Qed.

Lemma vars_kept_draw_line interp x1 y1 x2 y2 :
  vars_kept interp (draw_line interp x1 y1 x2 y2).
Proof. apply vars_kept_same. unfold draw_line. by repeat case_match. Qed.

Lemma vars_kept_flags (a b : Interpreter) : flags_step a b -> vars_kept a b.
Proof. intros (_ & _ & Hv & _). by apply vars_kept_same. Qed.

End Variables.

#[export] Instance vars_preserved : Preserved vars_kept := {|
  preserved_preorder := vars_kept_preorder;
  preserved_print := vars_kept_print;
  preserved_var_set := vars_kept_var_set;
  preserved_jump interp n target _ := vars_kept_same interp _ eq_refl;
  preserved_poke := vars_kept_poke;
  preserved_draw_line := vars_kept_draw_line;
  preserved_flags := vars_kept_flags
|}.

(** A line keeps the variable store well formed. *)
Lemma exec_line_vars (interp : Interpreter) (line : string) :
  vars_inv interp -> vars_inv (exec_line interp line).
Proof. apply (kept_exec_line (R := vars_kept)). Qed.

#[export] Hint Resolve frame_exec_line : cfb.

(** ** The emulated memory *)

Lemma ram_poke (interp : Interpreter) (a v : Z) :
  ram (poke interp a v) = ram_set (ram interp) a v.
Proof. unfold poke. cbv zeta. by repeat case_match. Qed.

Lemma peek_value_ram (interp : Interpreter) (a : Z) :
  INT_MIN <= a <= INT_MAX ->
  peek_value interp (vnum a) = vnum (ram_get (ram interp) (wrap16 a)).
Proof.
  intros Ha. unfold peek_value, vnum, double_to_uint16. simpl.
  by rewrite double_to_int_of_Z.
Qed.

(** C27: the memory that [POKE] writes is the memory that [PEEK] reads.
    With the address and the value given as numbers, as the statement gets
    them, a read at the address finds the value modulo 256, at any address
    that is the same modulo 65536; a read at another address finds what was
    there. *)
Theorem poke_then_peek (interp : Interpreter) (a v b : Z) :
  INT_MIN <= a <= INT_MAX -> INT_MIN <= v <= INT_MAX -> INT_MIN <= b <= INT_MAX ->
  let interp' :=
    poke interp (double_to_uint16 (d_of_Z a)) (double_to_uint8 (d_of_Z v)) in
  peek_value interp' (vnum b) =
    if decide (b mod 65536 = a mod 65536) then vnum (v mod 256)
    else peek_value interp (vnum b).
Proof.
  intros Ha Hv Hb interp'. rewrite !peek_value_ram by done. unfold interp'.
  rewrite ram_poke. unfold double_to_uint16, double_to_uint8.
  rewrite !double_to_int_of_Z by done. unfold wrap16, wrap8.
  change (2 ^ 16) with 65536. change (2 ^ 8) with 256.
  case_decide as E; [by rewrite E, ram_get_set_eq | by rewrite ram_get_set_ne].
Qed.

Lemma poke_then_peek_witness :
  let interp := poke interpreter_init (double_to_uint16 (d_of_Z 66560))
                  (double_to_uint8 (d_of_Z 257)) in
  peek_value interp (vnum 1024) = vnum 1 /\ peek_value interp (vnum 1025) = vnum 0.
Proof.
  split.
  - apply (poke_then_peek interpreter_init 66560 257 1024); vm_compute; by split.
  - apply (poke_then_peek interpreter_init 66560 257 1025); vm_compute; by split.
Defined.

