(* ===== verification/Statements.v ===== *)
(** * Statements: what a line of BASIC does

    [interpreter_execute_line] of [src/interpreter.c] reads a line token by
    token and acts on the way.  This file writes down the statements it
    accepts ([Stmt]), their text ([show_line]) and what they do
    ([run_line], in terms of the values of [Semantics] and of the operations
    on the state), and proves that the executor implements them
    ([execute_line_denotes]).

    A line is a list of statements.  They are written with a colon between
    them, except that the statements after [IF e THEN] follow it directly.
    What a line does:
    - [PRINT] writes its items, a tab for each comma, and one line feed at
      the end, also after a semicolon;
    - [LET x = e] and [x = e] assign;
    - [GOTO e] moves the cursor to the line with the number of [e] and goes
      on with the rest of the line, or records an error when there is no
      such line;
    - [IF e THEN n] moves the cursor and leaves the line when [e] is not 0
      and line [n] exists, goes on with the line when the line does not
      exist, and leaves the line when [e] is 0 or a text; [IF e THEN]
      goes on with the line when [e] is not 0 and leaves it otherwise;
    - [POKE], [PLOT] and [DRAW] act when both operands are numbers;
    - [END], [STOP], [EXIT] and [REM] leave the line.

    The skip of a false [IF] reads the rest of the line as tokens, so the
    text of a [REM] behind an [IF] is not a comment for it
    ([rem_else_runs]); lines with a [REM] behind an [IF] are left out of
    the theorem ([rem_ok]). *)

From S2P Require Import Prelude Utils Numbers Lexer Tokens Editor Store State.
From S2P Require Import Program Variables Eval Semantics Exec.

#[local] Open Scope Z_scope.
#[local] Open Scope cfb_scope.

(** ** Syntax *)

Inductive Sep : Type := Semi | Comma.

Inductive Stmt : Type :=
  | SPrint (items : list (Expr * Sep)) (last : option Expr)
  | SLet (x : string) (e : Expr)
  | SAssign (x : string) (e : Expr)
  | SGoto (e : Expr)
  | SIfGoto (e : Expr) (n : Z)
  | SIfThen (e : Expr)
  | SPoke (a v : Expr)
  | SPlot (x y : Expr)
  | SDraw (x y : Expr)
  | SEnd
  | SStop
  | SExit
  | SRem (text : string).

Definition sep_text (sep : Sep) : string :=
  match sep with Semi => ";" | Comma => "," end.

Fixpoint show_items (items : list (Expr * Sep)) : string :=
  match items with
  | [] => ""
  | (e, sep) :: items' => " " +++ show_expr e +++ sep_text sep +++ show_items items'
  end.

Definition show_last (last : option Expr) : string :=
  match last with Some e => " " +++ show_expr e | None => "" end.

Definition show_stmt (s : Stmt) : string :=
  match s with
  | SPrint items last => "PRINT" +++ show_items items +++ show_last last
  | SLet x e => "LET " +++ x +++ " = " +++ show_expr e
  | SAssign x e => x +++ " = " +++ show_expr e
  | SGoto e => "GOTO " +++ show_expr e
  | SIfGoto e n => "IF " +++ show_expr e +++ " THEN " +++ fmt_d n
  | SIfThen e => "IF " +++ show_expr e +++ " THEN"
  | SPoke a v => "POKE " +++ show_expr a +++ ", " +++ show_expr v
  | SPlot x y => "PLOT " +++ show_expr x +++ ", " +++ show_expr y
  | SDraw x y => "DRAW " +++ show_expr x +++ ", " +++ show_expr y
  | SEnd => "END"
  | SStop => "STOP"
  | SExit => "EXIT"
  | SRem text => "REM " +++ text
  end.

(** What stands between a statement and the next one. *)
Definition joint (s : Stmt) : string :=
  match s with SIfThen _ => " " | _ => " : " end.

Fixpoint show_line (l : list Stmt) : string :=
  match l with
  | [] => ""
  | [s] => show_stmt s
  | s :: l' => show_stmt s +++ joint s +++ show_line l'
  end.

(** A name that can be assigned: a word that is no keyword. *)
Definition wf_name (x : string) : bool :=
  is_word x && bool_decide (keyword_lookup (str_upper x) keywords = TOK_IDENTIFIER).

Definition wf_stmt (s : Stmt) : bool :=
  match s with
  | SPrint items last =>
      forallb (fun i => wf_expr i.1) items && from_option wf_expr true last
  | SLet x e | SAssign x e => wf_name x && wf_expr e
  | SGoto e | SIfThen e => wf_expr e
  | SIfGoto e n => wf_expr e && (0 <=? n) && (n <=? INT_MAX)
  | SPoke a b | SPlot a b | SDraw a b => wf_expr a && wf_expr b
  | SEnd | SStop | SExit | SRem _ => true
  end.

(** A [REM] ends its line and stands behind no [IF]. *)
Fixpoint rem_ok (behind_if : bool) (l : list Stmt) : bool :=
  match l with
  | [] => true
  | SRem _ :: l' => negb behind_if && bool_decide (l' = [])
  | (SIfGoto _ _ | SIfThen _) :: l' => rem_ok true l'
  | _ :: l' => rem_ok behind_if l'
  end.

Definition wf_line (l : list Stmt) : bool := forallb wf_stmt l && rem_ok false l.

(** ** What a statement does *)

(** The output of a value. *)
Definition print_val (interp : Interpreter) (w : VarValue) : Interpreter :=
  match w with
  | VNumber d => basic_print interp (fmt_g d)
  | VString s => print_chars interp s
  end.

Fixpoint print_items (interp : Interpreter) (items : list (Expr * Sep)) : Interpreter :=
  match items with
  | [] => interp
  | (e, sep) :: items' =>
      let interp := print_val interp (den_expr interp e) in
      let interp :=
        match sep with
        | Semi => interp
        | Comma => basic_print interp ["009"%char]s
        end in
      print_items interp items'
  end.

Definition print_last (interp : Interpreter) (last : option Expr) : Interpreter :=
  match last with
  | Some e => print_val interp (den_expr interp e)
  | None => interp
  end.

Definition line_not_found (interp : Interpreter) : Interpreter :=
  set_error_occurred (set_stderr interp (error (stderr interp) "LINE NOT FOUND")) true.

(** The act of a statement with two numbers. *)
Definition on_numbers (interp : Interpreter) (a b : VarValue)
    (act : double -> double -> Interpreter) : Interpreter :=
  match a, b with
  | VNumber x, VNumber y => act x y
  | _, _ => interp
  end.

(** [GOTO] on a value: a text is no line number. *)
Definition goto_value (interp : Interpreter) (w : VarValue) : Interpreter :=
  match w with
  | VNumber d =>
      match program_find_line interp (double_to_int d) with
      | Some target => set_current_line interp (Some target)
      | None => line_not_found interp
      end
  | VString _ => interp
  end.

Definition step_stmt (interp : Interpreter) (s : Stmt) : Interpreter * Flow :=
  match s with
  | SPrint items last =>
      (basic_print (print_last (print_items interp items) last) ["010"%char]s, Next)
  | SLet x e | SAssign x e => (var_set interp x (den_expr interp e), Next)
  | SGoto e => (goto_value interp (den_expr interp e), Next)
  | SIfGoto e n =>
      if d_nonzero (value_number (den_expr interp e)) then
        match program_find_line interp n with
        | Some target => (set_current_line interp (Some target), Stop)
        | None => (interp, Next)
        end
      else (interp, Stop)
  | SIfThen e =>
      (interp, if d_nonzero (value_number (den_expr interp e)) then Next else Stop)
  | SPoke a v =>
      (on_numbers interp (den_expr interp a) (den_expr interp v)
         (fun x y => poke interp (double_to_uint16 x) (double_to_uint8 y)), Next)
  | SPlot x y =>
      (on_numbers interp (den_expr interp x) (den_expr interp y)
         (fun x y => set_graphics interp x y), Next)
  | SDraw x y =>
      (on_numbers interp (den_expr interp x) (den_expr interp y)
         (fun x y =>
            set_graphics
              (draw_line interp (double_to_int (graphics_x interp))
                 (double_to_int (graphics_y interp)) (double_to_int x) (double_to_int y))
              x y), Next)
  | SEnd | SStop => (set_running interp false, Stop)
  | SExit => (set_running (set_exit_requested interp true) false, Stop)
  | SRem _ => (interp, Stop)
  end.

(** The statements of a line in their order, up to the first that leaves
    the line. *)
Fixpoint run_line (interp : Interpreter) (l : list Stmt) : Interpreter :=
  match l with
  | [] => interp
  | s :: l' =>
      let '(interp, flow) := step_stmt interp s in
      match flow with
      | Stop => interp
      | Next => run_line interp l'
      end
  end.

(** ** What may follow a statement *)

(** The end of the line or a colon. *)
Definition ends_statement (r : string) : Prop :=
  delimits r /\
  exists type text number r',
    next_is r type text number r' /\
    (type = TOK_EOF /\ r = "" \/ type = TOK_COLON).

(** The tokens that the skip of a false [IF] passes, and those a statement
    can begin with. *)
Definition is_stmt_token (type : TokenType) : bool :=
  negb (ends_line type) && negb (bool_decide (type = TOK_ELSE)).

Definition is_head_token (type : TokenType) : bool :=
  is_stmt_token type && negb (bool_decide (type = TOK_NUMBER)).

(** [headed s r]: the text [s] is a token that can begin a statement and
    tokens that the skip passes, followed by [r]. *)
Definition headed (s r : string) : Prop :=
  exists type text number r',
    next_is s type text number r' /\ is_head_token type = true /\
    spells is_stmt_token r' r.

Definition is_rem (s : Stmt) : bool :=
  match s with SRem _ => true | _ => false end.

(** The text behind the first statement of a line. *)
Definition rest_text (s : Stmt) (l : list Stmt) : string :=
  match l with [] => "" | _ => joint s +++ show_line l end.

(** What the token loop does from [lexer] on, given that the statement at
    [lexer] leaves the state [interp'] and the text [r]. *)
Definition continues (interp : Interpreter) (lexer : Lexer) (interp' : Interpreter)
    (flow : Flow) (r : string) : Prop :=
  match flow with
  | Stop => exists fuel, execute_tokens fuel interp lexer = Some interp'
  | Next =>
      exists lexer', reads lexer' r /\
        forall fuel x, execute_tokens fuel interp' lexer' = Some x ->
          exists fuel', execute_tokens fuel' interp lexer = Some x
  end.

(** A text of tokens that the skip of a false [IF] passes: no [ELSE] and no
    line feed in it. *)
Inductive skippable : string -> Prop :=
  | skippable_end s : next_is s TOK_EOF None d_zero "" -> skippable s
  | skippable_token s type text number r :
      next_is s type text number r -> ends_line type = false -> type <> TOK_ELSE ->
      skippable r -> skippable s.

(** ** Fuel: an answer at some fuel is the answer at the fuel of the code *)

Section Fuel.
Implicit Types (interp : Interpreter) (lexer : Lexer) (fuel : nat).

Lemma print_loop_more fuel fuel' interp lexer x :
  print_loop fuel interp lexer = Some x -> (fuel <= fuel')%nat ->
  print_loop fuel' interp lexer = Some x.
Proof.
  revert fuel' interp lexer.
  induction fuel as [|fuel IH]; intros [|fuel'] interp lexer; try done; [lia|].
  simpl. intros H Hle. destruct (lexer_peek_token lexer) as [peek l].
  destruct (ends_print _); [done|]. destruct (eval_expression interp l) as [v l1].
  destruct (lexer_peek_token l1) as [p2 l2].
  repeat case_decide; try done; (apply IH; [done | lia]).
Qed.

Lemma print_loop_at fuel interp lexer x :
  lexer_ok lexer -> print_loop fuel interp lexer = Some x ->
  print_loop (S (remaining lexer)) interp lexer = Some x.
Proof.
  intros Hok E.
  destruct (print_loop_total (S (remaining lexer)) interp lexer Hok)
    as (i & l & E' & _); [lia|].
  pose proof (print_loop_more _ (Nat.max fuel (S (remaining lexer))) _ _ _ E) as H.
  pose proof (print_loop_more _ (Nat.max fuel (S (remaining lexer))) _ _ _ E') as H'.
  rewrite E'. rewrite H in H' by lia. symmetry. apply H'. lia.
Qed.

Lemma skip_to_else_more fuel fuel' lexer x :
  skip_to_else fuel lexer = Some x -> (fuel <= fuel')%nat ->
  skip_to_else fuel' lexer = Some x.
Proof.
  revert fuel' lexer.
  induction fuel as [|fuel IH]; intros [|fuel'] lexer; try done; [lia|].
  simpl. intros H Hle. destruct (lexer_next_token lexer) as [token l].
  destruct (ends_line _); [done|]. case_decide; [done|]. apply IH; [done | lia].
Qed.

Lemma skip_to_else_at fuel lexer x :
  lexer_ok lexer -> skip_to_else fuel lexer = Some x ->
  skip_to_else (S (remaining lexer)) lexer = Some x.
Proof.
  intros Hok E.
  destruct (skip_to_else_total (S (remaining lexer)) lexer Hok)
    as (l & E' & _); [lia|].
  pose proof (skip_to_else_more _ (Nat.max fuel (S (remaining lexer))) _ _ E) as H.
  pose proof (skip_to_else_more _ (Nat.max fuel (S (remaining lexer))) _ _ E') as H'.
  rewrite E'. rewrite H in H' by lia. symmetry. apply H'. lia.
Qed.

Lemma execute_tokens_more fuel fuel' interp lexer x :
  execute_tokens fuel interp lexer = Some x -> (fuel <= fuel')%nat ->
  execute_tokens fuel' interp lexer = Some x.
Proof.
  revert fuel' interp lexer.
  induction fuel as [|fuel IH]; intros [|fuel'] interp lexer; try done; [lia|].
  simpl. intros H Hle. destruct (lexer_next_token lexer) as [token l].
  destruct (ends_line _); [done|].
  destruct (execute_statement interp token l) as [[[i flow] l1]|]; [|done].
  simpl in *. destruct flow; [|done]. apply IH; [done | lia].
Qed.

(** The executor on a line, from an answer of the token loop at any fuel. *)
Lemma exec_line_at fuel interp (line : string) x :
  execute_tokens fuel interp (lexer_init line) = Some x -> exec_line interp line = x.
Proof.
  intros E. pose proof (interpreter_execute_line_total interp line) as E'.
  unfold interpreter_execute_line in E'.
  pose proof (execute_tokens_more _ (Nat.max fuel (S (String.length line))) _ _ _ E) as H.
  pose proof (execute_tokens_more _ (Nat.max fuel (S (String.length line))) _ _ _ E') as H'.
  rewrite H in H' by lia. symmetry. apply (inj Some), H'. lia.
Qed.

End Fuel.

Lemma skip_to_else_S (fuel : nat) (lexer : Lexer) :
  skip_to_else (S fuel) lexer =
    let '(token, lexer) := lexer_next_token lexer in
    if ends_line (tok_type token) then Some lexer
    else if decide (tok_type token = TOK_ELSE) then Some lexer
    else skip_to_else fuel lexer.
Proof. reflexivity. Qed.

#[local] Arguments skip_to_else : simpl never.

(** ** Statements on values *)

Section Values.
Implicit Types (interp : Interpreter) (lexer : Lexer) (v : Value).

Lemma print_value_abstract interp v : print_value interp v = print_val interp (abstract v).
Proof.
  unfold print_value, print_val, abstract.
  destruct (v_is_string v); [|done]. by destruct (v_string v).
Qed.

Lemma assign_abstract interp (x : string) v lexer :
  (if v_is_string v
   then (var_set_string interp x (default "" (v_string v)), Next, lexer)
   else (var_set_number interp x (v_number v), Next, lexer)) =
  (var_set interp x (abstract v), Next, lexer).
Proof. unfold abstract. by destruct (v_is_string v). Qed.

Lemma execute_goto_value interp lexer :
  execute_goto interp lexer =
    (goto_value interp (abstract (eval_expression interp lexer).1), Next,
     (eval_expression interp lexer).2).
Proof.
  unfold execute_goto, goto_value, abstract, line_not_found.
  destruct (eval_expression interp lexer) as [v l]. simpl.
  destruct (v_is_string v); [done|]. simpl. by case_match.
Qed.

Lemma on_numbers_abstract interp v1 v2 (act : double -> double -> Interpreter) lexer :
  (if negb (v_is_string v1) && negb (v_is_string v2)
   then (act (v_number v1) (v_number v2), Next, lexer) else (interp, Next, lexer)) =
  (on_numbers interp (abstract v1) (abstract v2) act, Next, lexer).
Proof. unfold on_numbers, abstract. by destruct (v_is_string v1), (v_is_string v2). Qed.

(** The condition of [IF] is the number of the value, 0 for a text. *)
Lemma condition_abstract v :
  value_ok v -> d_nonzero (v_number v) = d_nonzero (value_number (abstract v)).
Proof. intros H. by rewrite value_number_abstract. Qed.

End Values.

(** ** The token loop *)

Section Loop.
Implicit Types (interp : Interpreter) (lexer : Lexer) (r s : string) (fuel : nat).

Lemma tokens_step fuel interp lexer token l1 interp' flow l2 :
  lexer_next_token lexer = (token, l1) -> ends_line (tok_type token) = false ->
  execute_statement interp token l1 = Some (interp', flow, l2) ->
  execute_tokens (S fuel) interp lexer =
    match flow with Stop => Some interp' | Next => execute_tokens fuel interp' l2 end.
Proof. intros E Hend Hs. simpl. by rewrite E, Hend, Hs. Qed.

Lemma continues_statement interp lexer token l1 interp' flow l2 r :
  lexer_next_token lexer = (token, l1) -> ends_line (tok_type token) = false ->
  execute_statement interp token l1 = Some (interp', flow, l2) ->
  (flow = Next -> reads l2 r) ->
  continues interp lexer interp' flow r.
Proof.
  intros E Hend Hs Hr. destruct flow; simpl.
  - exists l2. split; [auto|]. intros fuel x Hx. exists (S fuel).
    by rewrite (tokens_step _ _ _ _ _ _ _ _ E Hend Hs).
  - exists 1%nat. by rewrite (tokens_step _ _ _ _ _ _ _ _ E Hend Hs).
Qed.

(** The end of the line ends the loop. *)
Lemma tokens_end interp lexer : reads lexer "" -> execute_tokens 1 interp lexer = Some interp.
Proof.
  intros Hr. destruct (next_is_eof lexer Hr) as (line & col & l' & E & _).
  simpl. by rewrite E.
Qed.

Lemma execute_tokens_blank interp lexer c s :
  reads lexer (String c s) -> is_blank c = true ->
  reads (advance lexer) s /\
  forall fuel, execute_tokens fuel interp lexer = execute_tokens fuel interp (advance lexer).
Proof.
  intros Hr Hb. split; [eapply reads_advance; [done|]; by intros ->|].
  intros [|fuel]; [done|]. simpl.
  by rewrite next_token_blank by (by rewrite (peek_rest _ _ Hr)).
Qed.

(** A colon between two statements. *)
Lemma tokens_colon interp lexer s :
  reads lexer (" : " +++ s) ->
  exists l', reads l' s /\
    forall fuel, execute_tokens (S fuel) interp lexer = execute_tokens fuel interp l'.
Proof.
  intros Hr.
  destruct (next_is_blank " " _ _ _ _ _ eq_refl
              (next_is_operator ":" (" " +++ s) TOK_COLON (Some ":") eq_refl
                 (fun _ _ _ _ => eq_refl)) lexer Hr) as (line & col & l1 & E & Hr1).
  destruct (execute_tokens_blank interp l1 _ _ Hr1 eq_refl) as [Hr2 Eb].
  exists (advance l1). split; [done|]. intros fuel. simpl. rewrite E. simpl. apply Eb.
Qed.

(** A keyword and what is behind it. *)
Lemma next_is_keyword (w : string) type r :
  is_word w = true -> keyword_lookup (str_upper w) keywords = type ->
  is_ident_char (first_char r) = false ->
  next_is (w +++ r) type (Some w) d_zero r.
Proof. intros Hw <- Hr. by apply next_is_word. Qed.

End Loop.

(** ** What follows *)

Section Follows.
Implicit Types (r s : string).

Lemma ends_statement_follows r : ends_statement r -> follows r.
Proof.
  intros [Hd (type & text & number & r' & Hnext & Hty)]. split; [done|].
  exists type, text, number, r'. split; [done|]. by destruct Hty as [[-> _]| ->].
Qed.

Lemma ends_statement_end : ends_statement "".
Proof.
  split; [done|]. exists TOK_EOF, None, d_zero, "". split; [apply next_is_eof | by left].
Qed.

Lemma next_is_colon s : next_is (" : " +++ s) TOK_COLON (Some ":") d_zero (" " +++ s).
Proof. apply next_is_blank; [done|]. by apply next_is_operator. Qed.

Lemma ends_statement_colon s : ends_statement (" : " +++ s).
Proof.
  split; [done|]. exists TOK_COLON, (Some ":"), d_zero, (" " +++ s).
  split; [apply next_is_colon | by right].
Qed.

Lemma next_is_comma s : next_is ("," +++ s) TOK_COMMA (Some ",") d_zero s.
Proof. by apply next_is_operator. Qed.

Lemma next_is_semicolon s : next_is (";" +++ s) TOK_SEMICOLON (Some ";") d_zero s.
Proof. by apply next_is_operator. Qed.

Lemma follows_comma s : follows ("," +++ s).
Proof.
  split; [done|]. exists TOK_COMMA, (Some ","), d_zero, s.
  split; [apply next_is_comma | done].
Qed.

Lemma follows_semicolon s : follows (";" +++ s).
Proof.
  split; [done|]. exists TOK_SEMICOLON, (Some ";"), d_zero, s.
  split; [apply next_is_semicolon | done].
Qed.

Lemma next_is_then s :
  is_ident_char (first_char s) = false ->
  next_is (" THEN" +++ s) TOK_THEN (Some "THEN") d_zero s.
Proof. intros Hs. apply next_is_blank; [done|]. by apply (next_is_keyword "THEN"). Qed.

Lemma follows_then s : is_ident_char (first_char s) = false -> follows (" THEN" +++ s).
Proof.
  intros Hs. split; [done|]. exists TOK_THEN, (Some "THEN"), d_zero, s.
  split; [by apply next_is_then | done].
Qed.

End Follows.

(** ** The statements, one by one *)

Section Parse.
Context (interp : Interpreter) (Hvars : vars_ok (variables interp)).
Implicit Types (lexer : Lexer) (e : Expr) (r s : string).

(** An expression behind a blank. *)
Lemma eval_spaced e lexer r :
  wf_expr e = true -> reads lexer (" " +++ show_expr e +++ r) -> follows r ->
  exists v l',
    eval_expression interp lexer = (v, l') /\ abstract v = den_expr interp e /\
    value_ok v /\ reads l' r.
Proof.
  intros Hwf Hr Hf.
  destruct (evaluate_expression_blank interp lexer _ _ Hr eq_refl) as [Hr' E].
  destruct (eval_expression_denotes interp Hvars e (advance lexer) r Hwf Hr' Hf)
    as [Hv Hl].
  pose proof (eval_expression_value_ok interp (advance lexer)).
  rewrite E. destruct (eval_expression interp (advance lexer)) as [v l'].
  by exists v, l'.
Qed.

(** The statements of one word. *)
Lemma spec_word (w : string) type r lexer interp' :
  is_word w = true -> keyword_lookup (str_upper w) keywords = type ->
  ends_line type = false ->
  (forall line col l,
     execute_statement interp (make_token type (Some w) d_zero line col) l =
       Some (interp', Stop, l)) ->
  is_ident_char (first_char r) = false -> reads lexer (w +++ r) ->
  continues interp lexer interp' Stop r.
Proof.
  intros Hw Hk Hend Hs Hr Hl.
  destruct (next_is_keyword w type r Hw Hk Hr lexer Hl) as (line & col & l1 & E & _).
  by eapply continues_statement.
Qed.

Lemma spec_goto e lexer r :
  wf_expr e = true -> reads lexer ("GOTO " +++ show_expr e +++ r) -> follows r ->
  continues interp lexer (goto_value interp (den_expr interp e)) Next r.
Proof.
  intros Hwf Hl Hf.
  destruct (next_is_keyword "GOTO" TOK_GOTO (" " +++ show_expr e +++ r)
              eq_refl eq_refl eq_refl lexer Hl)
    as (line & col & l1 & E & Hl1).
  destruct (eval_spaced e l1 r Hwf Hl1 Hf) as (v & l2 & Ev & Hv & _ & Hl2).
  eapply continues_statement; [done | done | | done].
  unfold execute_statement. simpl. by rewrite execute_goto_value, Ev, <- Hv.
Qed.

(** The assignment behind the name. *)
Lemma execute_assign_spec (x : string) e lexer r :
  wf_expr e = true -> reads lexer (" = " +++ show_expr e +++ r) -> follows r ->
  exists l',
    execute_assign interp x lexer = (var_set interp x (den_expr interp e), Next, l') /\
    reads l' r.
Proof.
  intros Hwf Hl Hf.
  destruct (next_is_op OEq _ lexer Hl) as (line & col & l1 & E & Hl1).
  destruct (eval_spaced e l1 r Hwf Hl1 Hf) as (v & l2 & Ev & Hv & _ & Hl2).
  exists l2. split; [|done]. unfold execute_assign. rewrite E. simpl.
  by rewrite Ev, assign_abstract, Hv.
Qed.

Lemma spec_assign (x : string) e lexer r :
  wf_name x = true -> wf_expr e = true ->
  reads lexer (x +++ " = " +++ show_expr e +++ r) -> follows r ->
  continues interp lexer (var_set interp x (den_expr interp e)) Next r.
Proof.
  intros [Hx Hk%bool_decide_eq_true]%andb_prop Hwf Hl Hf.
  destruct (next_is_keyword x TOK_IDENTIFIER (" = " +++ show_expr e +++ r)
              Hx Hk eq_refl lexer Hl) as (line & col & l1 & E & Hl1).
  destruct (execute_assign_spec x e l1 r Hwf Hl1 Hf) as (l2 & Ea & Hl2).
  eapply continues_statement; [done | done | | done].
  unfold execute_statement, execute_let. simpl. by rewrite Ea.
Qed.

Lemma spec_let (x : string) e lexer r :
  wf_name x = true -> wf_expr e = true ->
  reads lexer ("LET " +++ x +++ " = " +++ show_expr e +++ r) -> follows r ->
  continues interp lexer (var_set interp x (den_expr interp e)) Next r.
Proof.
  intros [Hx Hk%bool_decide_eq_true]%andb_prop Hwf Hl Hf.
  destruct (next_is_keyword "LET" TOK_LET (" " +++ x +++ " = " +++ show_expr e +++ r)
              eq_refl eq_refl eq_refl lexer Hl) as (line & col & l1 & E & Hl1).
  destruct (next_is_blank " " _ _ _ _ _ eq_refl
              (next_is_keyword x TOK_IDENTIFIER (" = " +++ show_expr e +++ r)
                 Hx Hk eq_refl) l1 Hl1)
    as (line2 & col2 & l2 & E2 & Hl2).
  destruct (execute_assign_spec x e l2 r Hwf Hl2 Hf) as (l3 & Ea & Hl3).
  eapply continues_statement; [done | done | | done].
  unfold execute_statement, execute_let. simpl. rewrite E2. simpl. by rewrite Ea.
Qed.

(** The two operands of [POKE], [PLOT] and [DRAW]. *)
Lemma two_operands_spec a b lexer r :
  wf_expr a = true -> wf_expr b = true ->
  reads lexer (" " +++ show_expr a +++ ", " +++ show_expr b +++ r) -> follows r ->
  exists v1 v2 l',
    two_operands interp lexer = (v1, v2, l') /\ abstract v1 = den_expr interp a /\
    abstract v2 = den_expr interp b /\ reads l' r.
Proof.
  intros Ha Hb Hl Hf.
  destruct (eval_spaced a lexer (", " +++ show_expr b +++ r) Ha Hl (follows_comma _))
    as (v1 & l1 & E1 & Hv1 & _ & Hl1).
  destruct (next_is_comma _ l1 Hl1) as (line & col & l2 & E2 & Hl2).
  destruct (eval_spaced b l2 r Hb Hl2 Hf) as (v2 & l3 & E3 & Hv2 & _ & Hl3).
  exists v1, v2, l3. unfold two_operands. by rewrite E1, E2, E3.
Qed.

Lemma spec_operands (w : string) type a b lexer r
    (act : double -> double -> Interpreter) :
  is_word w = true -> keyword_lookup (str_upper w) keywords = type ->
  ends_line type = false ->
  (forall line col l,
     execute_statement interp (make_token type (Some w) d_zero line col) l =
       Some (let '(v1, v2, l') := two_operands interp l in
             if negb (v_is_string v1) && negb (v_is_string v2)
             then (act (v_number v1) (v_number v2), Next, l')
             else (interp, Next, l'))) ->
  wf_expr a = true -> wf_expr b = true ->
  reads lexer (w +++ " " +++ show_expr a +++ ", " +++ show_expr b +++ r) -> follows r ->
  continues interp lexer (on_numbers interp (den_expr interp a) (den_expr interp b) act)
    Next r.
Proof.
  intros Hw Hk Hend Hs Ha Hb Hl Hf.
  destruct (next_is_keyword w type (" " +++ show_expr a +++ ", " +++ show_expr b +++ r)
              Hw Hk eq_refl lexer Hl) as (line & col & l1 & E & Hl1).
  destruct (two_operands_spec a b l1 r Ha Hb Hl1 Hf)
    as (v1 & v2 & l2 & E2 & Hv1 & Hv2 & Hl2).
  eapply continues_statement; [done | done | | done].
  by rewrite Hs, E2, on_numbers_abstract, Hv1, Hv2.
Qed.

(** A statement that leaves the lexer at the end of the line leaves the
    line. *)
Lemma continues_ended lexer token l1 interp' l2 r :
  lexer_next_token lexer = (token, l1) -> ends_line (tok_type token) = false ->
  execute_statement interp token l1 = Some (interp', Next, l2) -> reads l2 "" ->
  continues interp lexer interp' Stop r.
Proof.
  intros E Hend Hs Hl2. exists 2%nat.
  rewrite (tokens_step _ _ _ _ _ _ _ _ E Hend Hs). by apply tokens_end.
Qed.

(** The skip of a false [IF] reaches the end of the line. *)
Lemma skip_spec lexer s :
  skippable s -> reads lexer s ->
  exists l', skip_to_else (S (remaining lexer)) lexer = Some l' /\ reads l' "".
Proof.
  intros Hs Hl.
  enough (exists fuel l', skip_to_else fuel lexer = Some l' /\ reads l' "")
    as (fuel & l' & E & Hl').
  { exists l'. split; [|done]. apply (skip_to_else_at fuel); [apply Hl | done]. }
  revert lexer Hl. induction Hs as [s Hnext|s type text number r Hnext Hend Helse _ IH];
    intros lexer Hl; destruct (Hnext lexer Hl) as (line & col & l1 & E & Hl1).
  - exists 1%nat, l1. by rewrite skip_to_else_S, E.
  - destruct (IH l1 Hl1) as (fuel & l' & E' & Hl'). exists (S fuel), l'.
    rewrite skip_to_else_S, E. simpl. rewrite Hend. by case_decide.
Qed.

(** The condition of [IF] and the token [THEN]. *)
Lemma execute_if_condition e lexer s :
  wf_expr e = true -> reads lexer (" " +++ show_expr e +++ " THEN" +++ s) ->
  is_ident_char (first_char s) = false ->
  exists cond l2 line col l3,
    eval_expression interp lexer = (cond, l2) /\
    lexer_next_token l2 = (make_token TOK_THEN (Some "THEN") d_zero line col, l3) /\
    d_nonzero (v_number cond) = d_nonzero (value_number (den_expr interp e)) /\
    reads l3 s.
Proof.
  intros Hwf Hl Hs.
  destruct (eval_spaced e lexer _ Hwf Hl (follows_then s Hs))
    as (cond & l2 & E & Hv & Hok & Hl2).
  destruct (next_is_then s Hs l2 Hl2) as (line & col & l3 & E3 & Hl3).
  exists cond, l2, line, col, l3. by rewrite <- Hv, <- condition_abstract.
Qed.

(** A false condition: the rest of the line is skipped. *)
Lemma spec_if_false e lexer s r :
  wf_expr e = true -> reads lexer ("IF " +++ show_expr e +++ " THEN" +++ s) ->
  is_ident_char (first_char s) = false -> skippable s ->
  d_nonzero (value_number (den_expr interp e)) = false ->
  continues interp lexer interp Stop r.
Proof.
  intros Hwf Hl Hs Hskip Hz.
  destruct (next_is_keyword "IF" TOK_IF (" " +++ show_expr e +++ " THEN" +++ s)
              eq_refl eq_refl eq_refl lexer Hl) as (line & col & l1 & E & Hl1).
  destruct (execute_if_condition e l1 s Hwf Hl1 Hs)
    as (cond & l2 & line2 & col2 & l3 & Ec & Et & Hc & Hl3).
  destruct (skip_spec l3 s Hskip Hl3) as (l' & Es & Hl').
  eapply continues_ended; [done | done | | done].
  unfold execute_statement, execute_if. simpl. rewrite Ec, Et. simpl.
  by rewrite Hc, Hz, Es.
Qed.

(** A true condition in front of a line number. *)
Lemma spec_if_number e n lexer r :
  wf_expr e = true -> 0 <= n <= INT_MAX ->
  reads lexer ("IF " +++ show_expr e +++ " THEN " +++ fmt_d n +++ r) -> delimits r ->
  d_nonzero (value_number (den_expr interp e)) = true ->
  match program_find_line interp n with
  | Some target => continues interp lexer (set_current_line interp (Some target)) Stop r
  | None => continues interp lexer interp Next r
  end.
Proof.
  intros Hwf Hn Hl [Hd _] Hnz.
  destruct (next_is_keyword "IF" TOK_IF
              (" " +++ show_expr e +++ " THEN " +++ fmt_d n +++ r)
              eq_refl eq_refl eq_refl lexer Hl) as (line & col & l1 & E & Hl1).
  destruct (execute_if_condition e l1 (" " +++ fmt_d n +++ r) Hwf Hl1 eq_refl)
    as (cond & l2 & line2 & col2 & l3 & Ec & Et & Hc & Hl3).
  destruct (next_is_blank " " _ _ _ _ _ eq_refl
              (next_is_number n r (proj1 Hn) Hd) l3 Hl3)
    as (line3 & col3 & l4 & E4 & Hl4).
  assert (execute_statement interp (make_token TOK_IF (Some "IF") d_zero line col) l1 =
          Some match program_find_line interp n with
               | Some target => (set_current_line interp (Some target), Stop, l4)
               | None => (interp, Next, l4)
               end) as Es.
  { unfold execute_statement, execute_if. simpl. rewrite Ec, Et. simpl.
    rewrite Hc, Hnz, peek_token_eq, E4. simpl.
    rewrite double_to_int_of_Z by (unfold INT_MIN, INT_MAX in *; lia).
    by case_match. }
  destruct (program_find_line interp n); by eapply continues_statement.
Qed.

(** A true condition in front of a statement. *)
Lemma spec_if_then e lexer r :
  wf_expr e = true -> reads lexer ("IF " +++ show_expr e +++ " THEN" +++ r) ->
  is_ident_char (first_char r) = false ->
  (exists type text number r', next_is r type text number r' /\ type <> TOK_NUMBER) ->
  d_nonzero (value_number (den_expr interp e)) = true ->
  continues interp lexer interp Next r.
Proof.
  intros Hwf Hl Hr (type & text & number & r' & Hnext & Hty) Hnz.
  destruct (next_is_keyword "IF" TOK_IF (" " +++ show_expr e +++ " THEN" +++ r)
              eq_refl eq_refl eq_refl lexer Hl) as (line & col & l1 & E & Hl1).
  destruct (execute_if_condition e l1 r Hwf Hl1 Hr)
    as (cond & l2 & line2 & col2 & l3 & Ec & Et & Hc & Hl3).
  destruct (peek_is _ _ _ _ _ _ Hnext Hl3) as (line3 & col3 & Ep).
  eapply continues_statement; [done | done | | done].
  unfold execute_statement, execute_if. simpl. rewrite Ec, Et. simpl.
  rewrite Hc, Hnz, Ep. simpl. by case_decide.
Qed.

End Parse.

(** ** [PRINT] *)

Section Print.
Implicit Types (interp : Interpreter) (lexer : Lexer) (e : Expr) (r s : string).

Lemma variables_basic_print interp buf :
  variables (basic_print interp buf) = variables interp.
Proof. unfold basic_print. by case_match. Qed.

Lemma variables_print_val interp w : variables (print_val interp w) = variables interp.
Proof.
  destruct w as [d|t]; simpl; [apply variables_basic_print|].
  revert interp. induction t as [|c t IH]; intros interp; simpl; [done|].
  case_match; [done|]. by rewrite IH, variables_basic_print.
Qed.

Lemma ends_statement_peek interp r lexer :
  ends_statement r -> reads lexer r ->
  exists token,
    lexer_peek_token lexer = (token, lexer) /\ ends_print (tok_type token) = true.
Proof.
  intros [_ (type & text & number & r' & Hnext & Hty)] Hl.
  destruct (peek_is _ _ _ _ _ _ Hnext Hl) as (line & col & E).
  eexists. split; [done|]. by destruct Hty as [[-> _]| ->].
Qed.

(** One item: its value is printed, and the loop looks at what follows. *)
Lemma print_item interp e lexer r :
  vars_ok (variables interp) -> wf_expr e = true ->
  reads lexer (" " +++ show_expr e +++ r) -> follows r ->
  exists l', reads l' r /\
    forall fuel,
      print_loop (S fuel) interp lexer =
        let interp := print_val interp (den_expr interp e) in
        let peek := (lexer_peek_token l').1 in
        if decide (tok_type peek = TOK_SEMICOLON) then
          print_loop fuel interp (lexer_next_token l').2
        else if decide (tok_type peek = TOK_COMMA) then
          print_loop fuel (basic_print interp ["009"%char]s) (lexer_next_token l').2
        else Some (basic_print interp ["010"%char]s, l').
Proof.
  intros Hvars Hwf Hl Hf.
  destruct (spelled_blank _ " " _ _ eq_refl (proj2 expr_spelled e Hwf r (proj1 Hf)))
    as (type & text & number & r' & Hnext & Hty & _).
  destruct (peek_is _ _ _ _ _ _ Hnext Hl) as (line & col & Ep).
  destruct (eval_spaced interp Hvars e lexer r Hwf Hl Hf) as (v & l' & Ev & Hv & _ & Hl').
  exists l'. split; [done|]. intros fuel. simpl. rewrite Ep. simpl.
  replace (ends_print type) with false by (by destruct type).
  rewrite Ev, print_value_abstract, Hv, peek_token_eq. done.
Qed.

(** The end of the list of items: a line feed. *)
Lemma print_loop_last interp (last : option Expr) lexer r :
  vars_ok (variables interp) -> from_option wf_expr true last = true ->
  reads lexer (show_last last +++ r) -> ends_statement r ->
  exists l',
    print_loop 2 interp lexer =
      Some (basic_print (print_last interp last) ["010"%char]s, l') /\ reads l' r.
Proof.
  intros Hvars Hwf Hl Hr.
  destruct last as [e|]; cbn [show_last from_option print_last] in *.
  - destruct (print_item interp e lexer r Hvars Hwf Hl (ends_statement_follows r Hr))
      as (l' & Hl' & E).
    destruct (ends_statement_peek interp r l' Hr Hl') as (token & Ep & Hend).
    exists l'. split; [|done]. rewrite (E 1%nat), Ep. cbv zeta. simpl.
    by destruct (tok_type token).
  - destruct (ends_statement_peek interp r lexer Hr Hl) as (token & E & Hend).
    exists lexer. split; [|done]. simpl. by rewrite E, Hend.
Qed.

(** A separator behind an item. *)
Lemma print_separator interp sep s lexer :
  reads lexer (sep_text sep +++ s) ->
  exists l', reads l' s /\
    forall fuel i,
      (let peek := (lexer_peek_token lexer).1 in
       if decide (tok_type peek = TOK_SEMICOLON) then
         print_loop fuel i (lexer_next_token lexer).2
       else if decide (tok_type peek = TOK_COMMA) then
         print_loop fuel (basic_print i ["009"%char]s) (lexer_next_token lexer).2
       else Some (basic_print i ["010"%char]s, lexer)) =
      print_loop fuel
        match sep with Semi => i | Comma => basic_print i ["009"%char]s end l'.
Proof.
  intros Hl. destruct sep; simpl in Hl.
  - destruct (next_is_semicolon s lexer Hl) as (line & col & l' & E & Hl').
    exists l'. split; [done|]. intros fuel i. by rewrite peek_token_eq, E.
  - destruct (next_is_comma s lexer Hl) as (line & col & l' & E & Hl').
    exists l'. split; [done|]. intros fuel i. by rewrite peek_token_eq, E.
Qed.

Lemma follows_separator sep s : follows (sep_text sep +++ s).
Proof. destruct sep; [apply follows_semicolon | apply follows_comma]. Qed.

(** The loop of [PRINT] on its items. *)
Lemma print_loop_spec (items : list (Expr * Sep)) (last : option Expr) r :
  forall interp lexer,
  vars_ok (variables interp) -> forallb (fun i => wf_expr i.1) items = true ->
  from_option wf_expr true last = true ->
  reads lexer (show_items items +++ show_last last +++ r) -> ends_statement r ->
  exists fuel l',
    print_loop fuel interp lexer =
      Some (basic_print (print_last (print_items interp items) last) ["010"%char]s, l') /\
    reads l' r.
Proof.
  induction items as [|[e sep] items IH]; intros interp lexer Hvars Hwf Hlast Hl Hr.
  - destruct (print_loop_last interp last lexer r Hvars Hlast Hl Hr) as (l' & E & Hl').
    by exists 2%nat, l'.
  - cbn [show_items forallb fst] in Hl, Hwf. apply andb_prop in Hwf as [He Hwf].
    rewrite !append_assoc in Hl.
    destruct (print_item interp e lexer _ Hvars He Hl (follows_separator sep _))
      as (l1 & Hl1 & E1).
    destruct (print_separator interp sep _ l1 Hl1) as (l2 & Hl2 & E2).
    destruct (IH (match sep with
                  | Semi => print_val interp (den_expr interp e)
                  | Comma => basic_print (print_val interp (den_expr interp e)) ["009"%char]s
                  end) l2) as (fuel & l' & E & Hl'); try done.
    { destruct sep; by rewrite ?variables_basic_print, variables_print_val. }
    exists (S fuel), l'. split; [|done]. rewrite E1. cbv zeta. rewrite E2.
    simpl. by destruct sep.
Qed.

Lemma delimits_items (items : list (Expr * Sep)) (last : option Expr) r :
  delimits r -> is_ident_char (first_char (show_items items +++ show_last last +++ r)) = false.
Proof. intros [_ Hr]. destruct items as [|[e sep] items]; [by destruct last | done]. Qed.

Lemma spec_print interp (items : list (Expr * Sep)) (last : option Expr) lexer r :
  vars_ok (variables interp) -> forallb (fun i => wf_expr i.1) items = true ->
  from_option wf_expr true last = true ->
  reads lexer ("PRINT" +++ show_items items +++ show_last last +++ r) ->
  ends_statement r ->
  continues interp lexer
    (basic_print (print_last (print_items interp items) last) ["010"%char]s) Next r.
Proof.
  intros Hvars Hwf Hlast Hl Hr.
  destruct (next_is_keyword "PRINT" TOK_PRINT _ eq_refl eq_refl
              (delimits_items items last r (proj1 Hr)) lexer Hl)
    as (line & col & l1 & E & Hl1).
  destruct (print_loop_spec items last r interp l1 Hvars Hwf Hlast Hl1 Hr)
    as (fuel & l' & Ep & Hl').
  apply print_loop_at in Ep; [|apply Hl1].
  eapply continues_statement; [done | done | | done].
  unfold execute_statement. cbn -[print_loop]. by rewrite Ep.
Qed.

End Print.

(** ** The tokens of a statement *)

Section Spelling.
Implicit Types (e : Expr) (r s : string).

#[local] Abbreviation tokens := (spells is_stmt_token).

Lemma headed_word (w : string) type s r :
  is_word w = true -> keyword_lookup (str_upper w) keywords = type ->
  is_head_token type = true -> is_ident_char (first_char s) = false ->
  tokens s r -> headed (w +++ s) r.
Proof.
  intros Hw Hk Hty Hs Hr. exists type, (Some w), d_zero, s.
  split; [by apply next_is_keyword | done].
Qed.

Lemma headed_tokens s r : headed s r -> tokens s r.
Proof.
  intros (type & text & number & r' & Hnext & [Hty _]%andb_prop & Hr).
  by eapply spells_cons.
Qed.

Lemma tokens_one s type text number r r' :
  next_is s type text number r -> is_stmt_token type = true -> tokens r r' ->
  tokens s r'.
Proof. apply spells_cons. Qed.

(** An expression behind a blank. *)
Lemma tokens_expr e r r' :
  wf_expr e = true -> delimits r -> tokens r r' -> tokens (" " +++ show_expr e +++ r) r'.
Proof.
  intros Hwf Hd Hr. eapply spells_app; [|done].
  apply spelled_spells, spelled_blank; [done|].
  eapply spelled_impl; [|by apply expr_spelled]. by intros [].
Qed.

Lemma tokens_items (items : list (Expr * Sep)) (last : option Expr) r :
  forallb (fun i => wf_expr i.1) items = true -> from_option wf_expr true last = true ->
  delimits r -> tokens (show_items items +++ show_last last +++ r) r.
Proof.
  intros Hwf Hlast Hd. induction items as [|[e sep] items IH]; simpl in *.
  - destruct last as [e|]; [|constructor]. simpl. apply tokens_expr; [done..|constructor].
  - apply andb_prop in Hwf as [He Hwf]. rewrite !append_assoc.
    apply tokens_expr; [done | by destruct sep |].
    destruct sep;
      [eapply tokens_one; [apply next_is_semicolon | done | by apply IH]
      |eapply tokens_one; [apply next_is_comma | done | by apply IH]].
Qed.

(** The assignment behind the name. *)
Lemma tokens_assign e r :
  wf_expr e = true -> delimits r -> tokens (" = " +++ show_expr e +++ r) r.
Proof.
  intros Hwf Hd. eapply tokens_one; [apply (next_is_op OEq) | done |].
  apply tokens_expr; [done..|constructor].
Qed.

Lemma headed_assign (x : string) e r :
  wf_name x = true -> wf_expr e = true -> delimits r ->
  headed (x +++ " = " +++ show_expr e +++ r) r.
Proof.
  intros [Hx Hk%bool_decide_eq_true]%andb_prop Hwf Hd.
  apply (headed_word x TOK_IDENTIFIER (" = " +++ show_expr e +++ r)); [done..|].
  by apply tokens_assign.
Qed.

Lemma tokens_operands a b r :
  wf_expr a = true -> wf_expr b = true -> delimits r ->
  tokens (" " +++ show_expr a +++ ", " +++ show_expr b +++ r) r.
Proof.
  intros Ha Hb Hd. apply tokens_expr; [done..|].
  eapply tokens_one; [apply next_is_comma | done |].
  apply tokens_expr; [done..|constructor].
Qed.

Lemma tokens_then e s r :
  wf_expr e = true -> is_ident_char (first_char s) = false -> tokens s r ->
  tokens (" " +++ show_expr e +++ " THEN" +++ s) r.
Proof.
  intros Hwf Hs Hr. apply tokens_expr; [done..|].
  eapply tokens_one; [by apply next_is_then | done | done].
Qed.

Lemma headed_blank s r : headed s r -> headed (" " +++ s) r.
Proof.
  intros (type & text & number & r' & Hnext & Hty & Hr).
  exists type, text, number, r'. split; [by apply next_is_blank | done].
Qed.

Lemma headed_app s r r' : headed s r -> tokens r r' -> headed s r'.
Proof.
  intros (type & text & number & r1 & Hnext & Hty & Hr) H'.
  exists type, text, number, r1. repeat split; [done..|]. by eapply spells_app.
Qed.

Lemma headed_if e s r :
  wf_expr e = true -> is_ident_char (first_char s) = false -> tokens s r ->
  headed ("IF " +++ show_expr e +++ " THEN" +++ s) r.
Proof.
  intros Hwf Hs Hr.
  apply (headed_word "IF" TOK_IF (" " +++ show_expr e +++ " THEN" +++ s));
    [done..|by apply tokens_then].
Qed.

Lemma tokens_number n r : 0 <= n -> delimits r -> tokens (" " +++ fmt_d n +++ r) r.
Proof.
  intros Hn [Hd _].
  eapply tokens_one; [by apply next_is_blank, next_is_number | done | constructor].
Qed.

(** A statement that is no [REM] is a word and tokens. *)
Lemma stmt_headed (s : Stmt) r :
  wf_stmt s = true -> is_rem s = false -> delimits r -> headed (show_stmt s +++ r) r.
Proof.
  intros Hwf Hrem Hd. pose proof (proj2 Hd) as Hi.
  destruct s; cbn [show_stmt wf_stmt] in *; rewrite ?append_assoc; try done;
    repeat match goal with H : _ && _ = true |- _ => apply andb_prop in H as [? ?] end.
  - apply (headed_word "PRINT" TOK_PRINT); [done..|by apply delimits_items|].
    by apply tokens_items.
  - apply (headed_word "LET" TOK_LET (" " +++ x +++ " = " +++ show_expr e +++ r));
      [done..|]. apply headed_tokens, headed_blank, (headed_assign x e r); done.
  - by apply headed_assign.
  - apply (headed_word "GOTO" TOK_GOTO (" " +++ show_expr e +++ r)); [done..|].
    apply tokens_expr; [done..|constructor].
  - apply (headed_if e (" " +++ fmt_d n +++ r)); [done..|]. apply tokens_number; [lia|done].
  - apply headed_if; [done..|constructor].
  - apply (headed_word "POKE" TOK_POKE (" " +++ show_expr a +++ ", " +++ show_expr v +++ r));
      [done..|by apply tokens_operands].
  - apply (headed_word "PLOT" TOK_PLOT (" " +++ show_expr x +++ ", " +++ show_expr y +++ r));
      [done..|by apply tokens_operands].
  - apply (headed_word "DRAW" TOK_DRAW (" " +++ show_expr x +++ ", " +++ show_expr y +++ r));
      [done..|by apply tokens_operands].
  - apply (headed_word "END" TOK_END); [done..|constructor].
  - apply (headed_word "STOP" TOK_STOP); [done..|constructor].
  - apply (headed_word "EXIT" TOK_EXIT); [done..|constructor].
Qed.

End Spelling.

(** ** Lines *)

Section Lines.
Implicit Types (interp : Interpreter) (lexer : Lexer) (s : Stmt) (l : list Stmt).

Lemma show_line_cons s l : show_line (s :: l) = show_stmt s +++ rest_text s l.
Proof. destruct l; simpl; [by rewrite append_nil_r | done]. Qed.

Lemma rem_ok_cons b s l :
  rem_ok b (s :: l) = true -> is_rem s = false -> exists b', rem_ok b' l = true.
Proof. destruct s; simpl; try done; by eexists. Qed.

Lemma rem_ok_behind s l :
  rem_ok true (s :: l) = true -> is_rem s = false /\ rem_ok true l = true.
Proof. by destruct s. Qed.

Lemma delimits_rest s l : delimits (rest_text s l).
Proof. destruct l; [done | by destruct s]. Qed.

Lemma ends_statement_rest s l :
  (forall e, s <> SIfThen e) -> ends_statement (rest_text s l).
Proof.
  intros Hs. destruct l as [|s' l]; [apply ends_statement_end|].
  destruct s; try apply ends_statement_colon. by destruct (Hs e).
Qed.

(** The lines without [REM]: a word and tokens to the end. *)
Lemma line_headed s l :
  forallb wf_stmt (s :: l) = true -> rem_ok true (s :: l) = true ->
  headed (show_line (s :: l)) "".
Proof.
  revert s. induction l as [|s' l IH]; intros s [Hs Hl]%andb_prop [Hr Hrem]%rem_ok_behind.
  - rewrite show_line_cons. by apply stmt_headed.
  - rewrite show_line_cons. eapply headed_app; [apply stmt_headed; [done..|apply delimits_rest]|].
    cbn [rest_text]. specialize (IH s' Hl Hrem). apply headed_blank, headed_tokens in IH.
    destruct s; try (eapply tokens_one; [apply next_is_colon | done | done]); done.
Qed.

Lemma skippable_tokens r : spells is_stmt_token r "" -> skippable r.
Proof.
  intros H. remember "" as r' eqn:E. induction H as [|s type text number r r' Hn Hok _ IH].
  - subst. apply skippable_end, next_is_eof.
  - apply andb_prop in Hok as [Hend Helse]. apply negb_true_iff in Hend, Helse.
    eapply skippable_token; [done | done | | by apply IH].
    intros ->. by rewrite bool_decide_eq_true_2 in Helse.
Qed.

(** What stands behind an [IF] can be skipped and begins with no number. *)
Lemma rest_skippable s l :
  forallb wf_stmt l = true -> rem_ok true l = true ->
  skippable (rest_text s l) /\
  exists type text number r',
    next_is (rest_text s l) type text number r' /\ type <> TOK_NUMBER.
Proof.
  intros Hwf Hrem. destruct l as [|s' l]; cbn [rest_text].
  { split; [apply skippable_end, next_is_eof|]. eexists _, _, _, _.
    split; [apply next_is_eof | done]. }
  pose proof (headed_blank _ _ (line_headed s' l Hwf Hrem)) as H.
  assert (headed (joint s +++ show_line (s' :: l)) "") as Hj.
  { destruct s; try done; exists TOK_COLON, (Some ":"), d_zero, (" " +++ show_line (s' :: l));
      (split; [apply next_is_colon | split; [done | by apply headed_tokens]]). }
  split; [by apply skippable_tokens, headed_tokens|].
  destruct Hj as (type & text & number & r' & Hn & [_ Hty]%andb_prop & _).
  exists type, text, number, r'. split; [done|]. intros ->. done.
Qed.

(** The statements keep the variable store well formed. *)
Lemma variables_print_items interp (items : list (Expr * Sep)) :
  variables (print_items interp items) = variables interp.
Proof.
  revert interp. induction items as [|[e sep] items IH]; intros interp; simpl; [done|].
  rewrite IH. destruct sep; by rewrite ?variables_basic_print, variables_print_val.
Qed.

Lemma wf_name_cstr (x : string) : wf_name x = true -> cstr x.
Proof.
  intros [Hx _]%andb_prop. destruct x as [|c x]; [done|].
  apply andb_prop in Hx as [_ Hx]. by apply (str_all_cstr is_ident_char).
Qed.

Lemma on_numbers_variables interp a b (act : double -> double -> Interpreter) :
  (forall x y, variables (act x y) = variables interp) ->
  variables (on_numbers interp a b act) = variables interp.
Proof. intros H. destruct a, b; simpl; auto. Qed.

Lemma variables_poke interp a v : variables (poke interp a v) = variables interp.
Proof. unfold poke. cbv zeta. by repeat case_match. Qed.

Lemma variables_draw_line interp x1 y1 x2 y2 :
  variables (draw_line interp x1 y1 x2 y2) = variables interp.
Proof. unfold draw_line. by repeat case_match. Qed.

Lemma step_vars_ok interp s :
  vars_ok (variables interp) -> wf_stmt s = true ->
  vars_ok (variables (step_stmt interp s).1).
Proof.
  intros Hok Hwf. destruct s; cbn [step_stmt fst wf_stmt] in *; try done;
    try (apply andb_prop in Hwf as [Hx _];
         by apply (ks_put_inv (KeyedStore := variable_store)); [|apply wf_name_cstr|]).
  - rewrite variables_basic_print.
    match goal with |- context [print_last _ ?o] => destruct o end; simpl;
      by rewrite ?variables_print_val, variables_print_items.
  - unfold goto_value. by repeat case_match.
  - by repeat case_match.
  - rewrite on_numbers_variables; [done|]. intros. apply variables_poke.
  - by rewrite on_numbers_variables.
  - rewrite on_numbers_variables; [done|]. intros. apply variables_draw_line.
Qed.

(** The two forms of [IF], on both values of the condition. *)
Lemma stmt_if_goto interp e n lexer r :
  vars_ok (variables interp) -> wf_expr e = true -> 0 <= n <= INT_MAX ->
  reads lexer ("IF " +++ show_expr e +++ " THEN " +++ fmt_d n +++ r) ->
  delimits r -> skippable r ->
  continues interp lexer (step_stmt interp (SIfGoto e n)).1
    (step_stmt interp (SIfGoto e n)).2 r.
Proof.
  intros Hvars Hwf Hn Hl Hd Hskip. cbn [step_stmt].
  destruct (d_nonzero (value_number (den_expr interp e))) eqn:Hnz.
  - pose proof (spec_if_number interp Hvars e n lexer r Hwf Hn Hl Hd Hnz) as H.
    by destruct (program_find_line interp n).
  - apply (spec_if_false interp Hvars e lexer (" " +++ fmt_d n +++ r)); try done.
    apply (skippable_token _ TOK_NUMBER (Some (fmt_d n)) (d_of_Z n) r); [|done..].
    apply next_is_blank; [done|]. apply next_is_number; [lia | apply Hd].
Qed.

Lemma stmt_if_then interp e lexer r :
  vars_ok (variables interp) -> wf_expr e = true ->
  reads lexer ("IF " +++ show_expr e +++ " THEN" +++ r) -> delimits r ->
  skippable r /\
  (exists type text number r', next_is r type text number r' /\ type <> TOK_NUMBER) ->
  continues interp lexer (step_stmt interp (SIfThen e)).1
    (step_stmt interp (SIfThen e)).2 r.
Proof.
  intros Hvars Hwf Hl [_ Hd] [Hskip Hnum]. cbn [step_stmt fst snd].
  destruct (d_nonzero (value_number (den_expr interp e))) eqn:Hnz.
  - by apply (spec_if_then interp Hvars e).
  - by apply (spec_if_false interp Hvars e lexer r).
Qed.

(** Every statement, in front of the rest of its line. *)
Lemma stmt_spec s l interp lexer b :
  vars_ok (variables interp) -> wf_stmt s = true -> forallb wf_stmt l = true ->
  rem_ok b (s :: l) = true -> reads lexer (show_stmt s +++ rest_text s l) ->
  continues interp lexer (step_stmt interp s).1 (step_stmt interp s).2 (rest_text s l).
Proof.
  intros Hvars Hs Hl Hrem Hr. pose proof (delimits_rest s l) as Hd.
  assert ((forall e, s <> SIfThen e) -> follows (rest_text s l)) as Hf
    by (intros H; by apply ends_statement_follows, ends_statement_rest).
  destruct s; cbn [show_stmt wf_stmt] in Hs, Hr; rewrite ?append_assoc in Hr;
    repeat match goal with H : _ && _ = true |- _ => apply andb_prop in H as [? ?] end;
    try specialize (Hf ltac:(done)).
  - apply spec_print; try done. by apply ends_statement_rest.
  - by apply spec_let.
  - by apply spec_assign.
  - by apply spec_goto.
  - apply stmt_if_goto; try done; [lia|]. by apply rest_skippable.
  - apply stmt_if_then; try done. by apply rest_skippable.
  - by apply (spec_operands interp Hvars "POKE" TOK_POKE).
  - by apply (spec_operands interp Hvars "PLOT" TOK_PLOT).
  - by apply (spec_operands interp Hvars "DRAW" TOK_DRAW).
  - apply (spec_word interp "END" TOK_END); try done. apply Hd.
  - apply (spec_word interp "STOP" TOK_STOP); try done. apply Hd.
  - apply (spec_word interp "EXIT" TOK_EXIT); try done. apply Hd.
  - by apply (spec_word interp "REM" TOK_REM (" " +++ text +++ rest_text (SRem text) l)).
Qed.

Lemma rem_ok_next interp b s l :
  rem_ok b (s :: l) = true -> (step_stmt interp s).2 = Next ->
  exists b', rem_ok b' l = true.
Proof. destruct s; simpl; try done; by eexists. Qed.

(** From the end of a statement to the next one. *)
Lemma rest_runs interp s l lexer x :
  reads lexer (rest_text s l) ->
  (forall lexer', reads lexer' (show_line l) ->
     exists fuel, execute_tokens fuel interp lexer' = Some x) ->
  exists fuel, execute_tokens fuel interp lexer = Some x.
Proof.
  intros Hl Hk. destruct l as [|s' l]; [by apply Hk|]. cbn [rest_text] in Hl.
  destruct s; cbn [joint] in Hl;
    try (destruct (tokens_colon interp lexer _ Hl) as (l' & Hl' & E);
         destruct (Hk l' Hl') as [fuel Ex]; exists (S fuel); by rewrite E).
  destruct (execute_tokens_blank interp lexer _ _ Hl eq_refl) as [Hl' E].
  destruct (Hk _ Hl') as [fuel Ex]. exists fuel. by rewrite E.
Qed.

(** The token loop on the text of a line. *)
Lemma line_spec l :
  forall interp lexer b,
  vars_ok (variables interp) -> forallb wf_stmt l = true -> rem_ok b l = true ->
  reads lexer (show_line l) ->
  exists fuel, execute_tokens fuel interp lexer = Some (run_line interp l).
Proof.
  induction l as [|s l IH]; intros interp lexer b Hvars Hwf Hrem Hr.
  { exists 1%nat. by apply tokens_end. }
  cbn [forallb] in Hwf. apply andb_prop in Hwf as [Hs Hl]. rewrite show_line_cons in Hr.
  pose proof (stmt_spec s l interp lexer b Hvars Hs Hl Hrem Hr) as Hc.
  pose proof (step_vars_ok interp s Hvars Hs) as Hvars'.
  pose proof (rem_ok_next interp b s l Hrem) as Hnext.
  cbn [run_line]. destruct (step_stmt interp s) as [i' flow]. simpl in *.
  destruct flow; [|exact Hc]. destruct Hc as (l2 & Hl2 & Hk).
  destruct (Hnext eq_refl) as [b' Hb'].
  destruct (rest_runs i' s l l2 (run_line i' l) Hl2) as [fuel E]; [|by apply (Hk fuel)].
  intros l3 Hl3. by apply (IH i' l3 b').
Qed.

Lemma exec_line_denotes interp l :
  vars_ok (variables interp) -> wf_line l = true ->
  exec_line interp (show_line l) = run_line interp l.
Proof.
  intros Hvars [Hwf Hrem]%andb_prop.
  destruct (line_spec l interp (lexer_init (show_line l)) false Hvars Hwf Hrem
              (reads_init _)) as [fuel E].
  by apply (exec_line_at fuel).
Qed.

End Lines.

(** C2: the executor implements the semantics of lines.  On the text of a
    line of statements that can be written, [interpreter_execute_line] leaves
    the state that the statements of the line leave, one after the other, up
    to the first statement that leaves the line. *)
Theorem execute_line_denotes (interp : Interpreter) (l : list Stmt) :
  vars_ok (variables interp) -> wf_line l = true ->
  interpreter_execute_line interp (show_line l) = Some (run_line interp l).
Proof.
  intros Hvars Hwf. rewrite interpreter_execute_line_total.
  by rewrite exec_line_denotes.
Qed.

Lemma execute_line_denotes_witness :
  let l := [SLet "n" (EBin (EFactor (FNum 2)) OPlus (FNum 3));
            SPrint [(EFactor (FStr "N="), Semi)] (Some (EFactor (FVar "n")));
            SIfGoto (EBin (EFactor (FVar "n")) OLt (FNum 9)) 10;
            SPoke (EFactor (FNum 1024)) (EFactor (FVar "n"))] in
  interpreter_execute_line interpreter_init (show_line l) =
    Some (run_line interpreter_init l).
Proof.
  intros l. apply (execute_line_denotes interpreter_init l); [constructor | reflexivity].
Defined.

(** The text of the line of the witness, and what it prints. *)
Example show_line_text :
  let l := [SLet "n" (EBin (EFactor (FNum 2)) OPlus (FNum 3));
            SPrint [(EFactor (FStr "N="), Semi)] (Some (EFactor (FVar "n")));
            SIfGoto (EBin (EFactor (FVar "n")) OLt (FNum 9)) 10;
            SPoke (EFactor (FNum 1024)) (EFactor (FVar "n"))] in
  show_line l =
    "LET n = 2 + 3 : PRINT " +++ quoted "N=" +++ "; n : IF n < 9 THEN 10 : POKE 1024, n" /\
  stdout (run_line interpreter_init l) = "N=5" +++ ["010"%char]s /\
  ram_get (ram (run_line interpreter_init l)) 1024 = 5.
Proof. by vm_compute. Qed.

(** The skip of a false [IF] reads a comment as tokens: the [ELSE] in the
    text of the [REM] ends the skip, and the [PRINT] behind it runs. *)
Example rem_else_runs :
  stdout (exec_line interpreter_init "IF 0 THEN 10 : REM ELSE PRINT 1") =
    "1" +++ ["010"%char]s.
Proof. by vm_compute. Qed.
