(* ===== verification/Run.v ===== *)
(** * Run: the run loop of [src/interpreter.c]

    [interpreter_run] executes the program from its first line.  One turn
    of its loop is [run_step]; the loop is [run_loop], on a fuel, because a
    program may run for ever: [None] says that the fuel did not reach the
    end of the run.  The relation [step] is the same turn as a transition
    between interpreter states, for the invariants of a run.

    The loop tells a jump from a fall through by comparing pointers: the
    successor of the line the cursor stands on after the statement with the
    successor of the line that was executed.  With indices for pointers the
    two successors are [node_next] of the two positions.

    [interpreter_list] and [interpreter_new] are here as well, and with
    them the invariant of the two stores ([interp_ok]) across a listing, a
    run and a line that is added. *)

From S2P Require Import Prelude Utils Numbers Lexer Editor State.
From S2P Require Import Program Variables Eval Exec.

#[local] Open Scope Z_scope.
#[local] Open Scope cfb_scope.

(** ** Listing and clearing *)

(** The loop of [interpreter_list]. *)
Fixpoint list_lines (interp : Interpreter) (l : list ProgramLine) (start end_ : Z)
  : Interpreter :=
  match l with
  | [] => interp
  | current :: rest =>
      let interp :=
        if (pl_line_number current >=? start)
           && ((end_ =? -1) || (pl_line_number current <=? end_))
        then basic_print interp
               (fmt_d (pl_line_number current) +++ " " +++ pl_text current
                +++ ["010"%char]s)
        else interp in
      list_lines interp rest start end_
  end.

Definition interpreter_list (interp : Interpreter) (start end_ : Z) : Interpreter :=
  list_lines interp (program interp) start end_.

Definition interpreter_new (interp : Interpreter) : Interpreter :=
  let interp := var_clear_all (program_clear interp) in
  let interp := pop_all_calls (length (call_stack interp)) interp in
  pop_all_fors (length (for_stack interp)) interp.

(** ** The run loop *)

(** The line number that [interp->current_line->line_number] reads. *)
Definition current_line_number (interp : Interpreter) : Z :=
  match line_at interp (current_line interp) with
  | Some pl => pl_line_number pl
  | None => 0
  end.

(** [interp->current_line->next == next_line], for a cursor that is set. *)
Definition successor_is (interp : Interpreter) (next_line : option nat) : bool :=
  match current_line interp with
  | Some c => bool_decide (node_next (length (program interp)) c = next_line)
  | None => false
  end.

(** One turn of the loop, on the line [pl] at the cursor [cur]. *)
Definition run_step (interp : Interpreter) (cur : nat) (pl : ProgramLine)
  : Interpreter * Flow :=
  if break_requested interp then
    let interp := basic_print interp (["010"%char]s +++ "? BREAK" +++ ["010"%char]s) in
    (set_running (set_break_requested interp false) false, Stop)
  else
    let next_line := node_next (length (program interp)) cur in
    let interp := exec_line interp (pl_text pl) in
    if error_occurred interp then
      let interp :=
        basic_print interp
          ("ERROR IN LINE " +++ fmt_d (current_line_number interp) +++ ["010"%char]s) in
      (set_error_occurred (set_running interp false) false, Stop)
    else if running interp && successor_is interp next_line then
      (set_current_line interp next_line, Next)
    else (interp, Next).

(** [while (interp->running && interp->current_line)] *)
Definition at_line (interp : Interpreter) : option (nat * ProgramLine) :=
  if running interp then
    cur ← current_line interp; pl ← program interp !! cur; Some (cur, pl)
  else None.

Fixpoint run_loop (fuel : nat) (interp : Interpreter) : option Interpreter :=
  match fuel with
  | O => None
  | S fuel =>
      match at_line interp with
      | None => Some interp
      | Some (cur, pl) =>
          let '(interp, flow) := run_step interp cur pl in
          match flow with
          | Stop => Some interp
          | Next => run_loop fuel interp
          end
      end
  end.

(** The state in which the loop is entered. *)
Definition run_start (interp : Interpreter) : Interpreter :=
  set_current_line (set_running interp true) (list_head (program interp)).

Definition interpreter_run (fuel : nat) (interp : Interpreter) : option Interpreter :=
  match program interp with
  | [] => Some interp
  | _ =>
      interp ← run_loop fuel (run_start interp);
      Some (set_running interp false)
  end.

(** ** The run as a transition system *)

(** One line is executed and the loop goes on. *)
Inductive step : Interpreter -> Interpreter -> Prop :=
  | step_line interp cur pl interp' :
      at_line interp = Some (cur, pl) ->
      run_step interp cur pl = (interp', Next) ->
      step interp interp'.

(** The loop is left: its condition fails, or a turn ends in [break]. *)
Inductive halts : Interpreter -> Interpreter -> Prop :=
  | halts_condition interp :
      at_line interp = None -> halts interp interp
  | halts_break interp cur pl interp' :
      at_line interp = Some (cur, pl) ->
      run_step interp cur pl = (interp', Stop) ->
      halts interp interp'.

(** A run of the loop from [a] that ends in [b]. *)
Definition runs_to (a b : Interpreter) : Prop :=
  exists c, rtc step a c /\ halts c b.

(** What a run leaves as it is: the frame of a statement without the
    error flag, which the loop clears when it reports an error. *)
Definition run_frame (a b : Interpreter) : Prop :=
  program b = program a /\ call_stack b = call_stack a /\
  for_stack b = for_stack a /\ (cursor_ok a -> cursor_ok b) /\
  (screen_ok a -> screen_ok b).

(** The two stores are well formed: lines in ascending order, variables
    well formed with one variable per name. *)
Definition interp_ok (interp : Interpreter) : Prop :=
  program_sorted (program interp) /\ vars_inv interp.

(** A program in memory from source lines. *)
Definition load_program (lines : list (Z * string)) : Interpreter :=
  fold_left (fun interp '(n, t) => program_add_line interp n (Some t)) lines
    interpreter_init.

(** ** The frame of a run *)

Section Invariants.
Implicit Types (interp a b c : Interpreter).

Lemma kept_list_lines `{HR : Preserved R} interp (l : list ProgramLine) (start end_ : Z) :
  R interp (list_lines interp l start end_).
Proof.
  revert interp. induction l as [|pl l IH]; intros interp; simpl; [done|].
  case_match; [|done]. etrans; [apply preserved_print | apply IH].
Qed.

(** A listing keeps what a statement keeps. *)
Lemma kept_interpreter_list `{HR : Preserved R} interp (start end_ : Z) :
  R interp (interpreter_list interp start end_).
Proof. apply kept_list_lines. Qed.

(** [NEW] leaves no line, no variable and no frame on the two stacks. *)
Lemma interpreter_new_empty interp :
  program (interpreter_new interp) = [] /\ variables (interpreter_new interp) = [] /\
  call_stack (interpreter_new interp) = [] /\ for_stack (interpreter_new interp) = [].
Proof.
  unfold interpreter_new. cbv zeta.
  set (a := var_clear_all (program_clear interp)).
  set (b := pop_all_calls (length (call_stack a)) a).
  destruct (pop_all_fors_keeps (length (for_stack b)) b) as (-> & -> & ->).
  destruct (pop_all_calls_keeps (length (call_stack a)) a) as (Hp & Hv & _).
  fold b in Hp, Hv. rewrite Hp, Hv. do 2 (split; [done|]).
  split; [apply pop_all_calls_empty | apply pop_all_fors_empty].
Qed.

Lemma at_line_Some interp cur pl :
  at_line interp = Some (cur, pl) <->
  running interp = true /\ current_line interp = Some cur /\
  program interp !! cur = Some pl.
Proof.
  unfold at_line. destruct (running interp); [|by split; [|intros [? _]]].
  destruct (current_line interp) as [c|]; simpl; [|by split; [|intros (_ & ? & _)]].
  destruct (program interp !! c) as [p|] eqn:E; simpl.
  - split; [by intros [= <- <-] | intros (_ & [= <-] & H); congruence].
  - split; [done | intros (_ & [= <-] & H); congruence].
Qed.

Lemma run_frame_preorder : PreOrder run_frame.
Proof.
  split.
  - intros a. do 3 (split; [done|]). by split.
  - intros a b c (? & ? & ? & ? & ?) (? & ? & ? & ? & ?).
    do 3 (split; [congruence|]). split; auto.
Qed.

#[export] Existing Instance run_frame_preorder.

Lemma frame_run_frame a b : frame a b -> run_frame a b.
Proof. intros (? & ? & ? & ? & ? & _). by do 4 (split; [done|]). Qed.

(** The two ways in which a turn stops the run leave the frame. *)
Lemma run_frame_stop interp err :
  run_frame interp (set_error_occurred (set_running interp false) err).
Proof. do 3 (split; [done|]). split; exact (fun H => H). Qed.

Lemma run_frame_run_step interp cur pl : run_frame interp (run_step interp cur pl).1.
Proof.
  unfold run_step. case_match; simpl.
  { apply frame_run_frame. etrans; [apply frame_basic_print|]. frame_fields. }
  pose proof (frame_exec_line interp (pl_text pl)) as Hf.
  destruct (error_occurred _).
  { simpl. etrans; [by apply frame_run_frame|].
    etrans; [apply frame_run_frame, frame_basic_print | apply run_frame_stop]. }
  apply frame_run_frame.
  case_match; simpl;
    first [done | etrans; [done|]; apply frame_set_cursor;
                  intros c [-> ?]%node_next_Some; destruct Hf as [-> _]; lia].
Qed.

(** A statement never clears the error flag. *)
Lemma exec_line_keeps_error interp line :
  error_occurred interp = true -> error_occurred (exec_line interp line) = true.
Proof. apply (frame_exec_line interp line). Qed.

Lemma step_frame a b : step a b -> run_frame a b.
Proof.
  intros [interp cur pl interp' _ E]. pose proof (run_frame_run_step interp cur pl) as H.
  by rewrite E in H.
Qed.

Lemma halts_frame a b : halts a b -> run_frame a b.
Proof.
  intros [interp _|interp cur pl interp' _ E]; [done|].
  pose proof (run_frame_run_step interp cur pl) as H. by rewrite E in H.
Qed.

Lemma steps_frame a b : rtc step a b -> run_frame a b.
Proof.
  induction 1 as [|a b c Hab _ IH]; [done|]. etrans; [by apply step_frame | done].
Qed.

(** ** The loop and the transition system *)

Lemma run_loop_runs_to fuel a b : run_loop fuel a = Some b -> runs_to a b.
Proof.
  revert a. induction fuel as [|fuel IH]; intros a; [done|]. simpl.
  destruct (at_line a) as [[cur pl]|] eqn:Hat.
  - destruct (run_step a cur pl) as [a' flow] eqn:Hstep. destruct flow.
    + intros (c & Hsteps & Hhalt)%IH. exists c. split; [|done].
      eapply rtc_l; [|done]. by econstructor.
    + intros [= <-]. exists a. split; [done | by econstructor].
  - intros [= <-]. exists a. split; [done | by constructor].
Qed.

Lemma halts_run_loop a b fuel : halts a b -> run_loop (S fuel) a = Some b.
Proof.
  intros [interp Hat|interp cur pl interp' Hat E]; simpl; rewrite Hat; [done|].
  by rewrite E.
Qed.

Lemma runs_to_run_loop a b : runs_to a b -> exists fuel, run_loop fuel a = Some b.
Proof.
  intros (c & Hsteps & Hhalt). induction Hsteps as [a|a a' c Hstep _ IH].
  - exists 1%nat. by apply halts_run_loop.
  - destruct (IH Hhalt) as [fuel Hf]. exists (S fuel).
    destruct Hstep as [interp cur pl interp' Hat E]. simpl. by rewrite Hat, E.
Qed.

(** More fuel does not change the answer of the loop. *)
Lemma run_loop_mono fuel fuel' a b :
  (fuel <= fuel')%nat -> run_loop fuel a = Some b -> run_loop fuel' a = Some b.
Proof.
  revert fuel' a. induction fuel as [|fuel IH]; intros fuel' a Hle; [done|].
  destruct fuel' as [|fuel']; [lia|]. simpl.
  destruct (at_line a) as [[cur pl]|]; [|done].
  destruct (run_step a cur pl) as [a' flow]. destruct flow; [|done].
  apply IH. lia.
Qed.

End Invariants.

(** ** The run against the transition system *)

Lemma interpreter_run_keeps (fuel : nat) (interp r : Interpreter) :
  interpreter_run fuel interp = Some r ->
  program r = program interp /\ call_stack r = call_stack interp /\
  for_stack r = for_stack interp /\ (program interp <> [] -> cursor_ok r) /\
  (screen_ok interp -> screen_ok r).
Proof.
  unfold interpreter_run. destruct (program interp) as [|pl l] eqn:Hp.
  { intros [= <-]. by rewrite Hp. }
  destruct (run_loop fuel (run_start interp)) as [b|] eqn:E; [|done].
  intros [= <-]. apply run_loop_runs_to in E as (c & Hs%steps_frame & Hh%halts_frame).
  destruct (transitivity Hs Hh) as (Hprog & Hcall & Hfor & Hcur & Hscr). simpl in *.
  rewrite Hprog, Hcall, Hfor, Hp. do 3 (split; [done|]). split; [|exact Hscr].
  intros _. apply Hcur.
  intros c'. unfold run_start. simpl. rewrite Hp. simpl. intros [= <-]. lia.
Qed.

(** ** The two stores across a run *)

Lemma run_step_vars interp cur pl : vars_kept interp (run_step interp cur pl).1.
Proof.
  unfold run_step. case_match; simpl.
  { etrans; [apply vars_kept_print | by apply vars_kept_same]. }
  pose proof (kept_exec_line (R := vars_kept) interp (pl_text pl)) as Hv.
  destruct (error_occurred _).
  { simpl. etrans; [done|]. etrans; [apply vars_kept_print | by apply vars_kept_same]. }
  case_match; simpl; first [done | etrans; [done | by apply vars_kept_same]].
Qed.

Lemma run_loop_vars fuel a b : run_loop fuel a = Some b -> vars_kept a b.
Proof.
  revert a. induction fuel as [|fuel IH]; intros a; [done|]. simpl.
  destruct (at_line a) as [[cur pl]|]; [|by intros [= <-]].
  pose proof (run_step_vars a cur pl) as Hs.
  destruct (run_step a cur pl) as [i flow]. destruct flow; [|by intros [= <-]].
  intros Hr%IH. by etrans.
Qed.

Lemma interpreter_run_ok fuel interp r :
  interpreter_run fuel interp = Some r -> interp_ok interp -> interp_ok r.
Proof.
  intros E [Hs Hv]. pose proof (interpreter_run_keeps _ _ _ E) as [Hp _].
  split; [by rewrite Hp|]. revert E. unfold interpreter_run.
  destruct (program interp); [by intros [= <-]|].
  destruct (run_loop fuel (run_start interp)) as [b|] eqn:El; [|done].
  intros [= <-]. by apply (run_loop_vars _ _ _ El).
Qed.

Lemma interpreter_new_ok interp : interp_ok (interpreter_new interp).
Proof.
  destruct (interpreter_new_empty interp) as (Hp & Hv & _). unfold interp_ok, vars_inv.
  rewrite Hp, Hv. split; [apply sorted_nil|]. split; constructor.
Qed.

Lemma exec_line_ok interp (line : string) :
  interp_ok interp -> interp_ok (exec_line interp line).
Proof.
  intros [Hs Hv]. split; [|by apply exec_line_vars].
  by rewrite (proj1 (frame_exec_line interp line)).
Qed.

Lemma interpreter_list_ok interp (start end_ : Z) :
  interp_ok interp -> interp_ok (interpreter_list interp start end_).
Proof.
  intros [Hs Hv]. split; [|by apply (kept_interpreter_list (R := vars_kept))].
  by rewrite (proj1 (kept_interpreter_list (R := frame) interp start end_)).
Qed.

Lemma program_add_line_ok interp (n : Z) (text : option string) :
  interp_ok interp -> interp_ok (program_add_line interp n text).
Proof.
  intros [Hs Hv]. split; [by apply program_add_line_sorted|].
  unfold vars_inv. by rewrite program_add_line_variables.
Qed.

(** C17: a run never edits the program and never touches the two stacks;
    it leaves a cursor that is [NULL] or points to a line of the program,
    and a screen that is well formed if it was: no statement of the program
    writes outside the screen buffer. *)
Theorem interpreter_run_frame (fuel : nat) (interp r : Interpreter) :
  interpreter_run fuel interp = Some r ->
  program r = program interp /\ call_stack r = call_stack interp /\
  for_stack r = for_stack interp /\ (program interp <> [] -> cursor_ok r) /\
  (screen_ok interp -> screen_ok r).
Proof.
  apply interpreter_run_keeps.
Qed.

Lemma interpreter_run_frame_witness :
  let p := load_program [(10, "X = 1"); (20, "GOTO 40"); (40, "END")] in
  exists r, interpreter_run 10 p = Some r /\ program r = program p /\ cursor_ok r.
Proof.
  eexists. split; [vm_compute; reflexivity|].
  match goal with |- program ?r = _ /\ _ =>
    destruct (interpreter_run_frame 10
      (load_program [(10, "X = 1"); (20, "GOTO 40"); (40, "END")]) r)
      as (Hp & _ & _ & Hc & _) end; [vm_compute; reflexivity|].
  split; [exact Hp | apply Hc; vm_compute; discriminate].
Defined.

(** C18: an error that a direct statement recorded (a [GOTO] to a line
    that is not there) is still recorded when the program is run: the run
    stops after its first line and reports an error in it, whatever the
    line does. *)
Theorem stale_error_stops_run (fuel : nat) (interp : Interpreter)
    (pl : ProgramLine) (l : list ProgramLine) :
  program interp = pl :: l -> break_requested interp = false ->
  error_occurred interp = true ->
  let interp' := exec_line (run_start interp) (pl_text pl) in
  interpreter_run (S fuel) interp =
    Some (set_running
      (set_error_occurred (set_running
        (basic_print interp'
           ("ERROR IN LINE " +++ fmt_d (current_line_number interp') +++ ["010"%char]s))
        false) false) false).
Proof.
  intros Hp Hb He interp'. unfold interpreter_run. rewrite Hp.
  assert (at_line (run_start interp) = Some (0%nat, pl)) as Hat.
  { apply at_line_Some. simpl. by rewrite Hp. }
  cbn [run_loop]. rewrite Hat. unfold run_step.
  change (break_requested (run_start interp)) with (break_requested interp).
  rewrite Hb. fold interp'.
  assert (error_occurred interp' = true) as -> by by apply exec_line_keeps_error.
  done.
Qed.

Lemma stale_error_stops_run_witness :
  let interp := exec_line (load_program [(10, "PRINT 7"); (20, "PRINT 8")]) "GOTO 99" in
  exists r, interpreter_run 1 interp = Some r /\ stdout r = "7
ERROR IN LINE 10
".
Proof.
  eexists. split; [|shelve].
  apply (stale_error_stops_run 0
    (exec_line (load_program [(10, "PRINT 7"); (20, "PRINT 8")]) "GOTO 99")
    (mkProgramLine 10 "PRINT 7") [mkProgramLine 20 "PRINT 8"]); vm_compute; reflexivity.
  Unshelve. vm_compute. reflexivity.
Defined.

(** ** Evaluation *)

Example run_hello :
  let p := load_program [(10, "PRINT " +++ quoted "HI"); (20, "END")] in
  exists r, interpreter_run 10 p = Some r /\
    stdout r = "HI" +++ ["010"%char]s /\ running r = false /\
    current_line r = Some 1%nat.
Proof. eexists. split; [vm_compute; reflexivity|]. vm_compute. auto. Qed.

(** A jump of a line to itself ends: the run goes on with the next line. *)
Example run_self_goto :
  let p := load_program [(10, "GOTO 10"); (20, "PRINT " +++ quoted "X")] in
  exists r, interpreter_run 10 p = Some r /\ stdout r = "X" +++ ["010"%char]s.
Proof. eexists. split; [vm_compute; reflexivity|]. reflexivity. Qed.

(** A jump to a line that does not exist halts the run with two messages. *)
Example run_goto_absent :
  let p := load_program [(10, "GOTO 99"); (20, "PRINT 1")] in
  exists r, interpreter_run 10 p = Some r /\
    stderr r = "?LINE NOT FOUND ERROR" +++ ["010"%char]s /\
    stdout r = "ERROR IN LINE 10" +++ ["010"%char]s /\
    running r = false /\ error_occurred r = false.
Proof. eexists. split; [vm_compute; reflexivity|]. vm_compute. auto. Qed.

(** The statements after a [GOTO] on its line run before the jump. *)
Example run_goto_rest_of_line :
  let p := load_program
    [(10, "GOTO 30: PRINT " +++ quoted "A"); (20, "PRINT " +++ quoted "B");
     (30, "END")] in
  exists r, interpreter_run 10 p = Some r /\ stdout r = "A" +++ ["010"%char]s.
Proof. eexists. split; [vm_compute; reflexivity|]. reflexivity. Qed.

(** After a true condition the [ELSE] branch runs as well. *)
Example run_if_else_both :
  let p := load_program
    [(10, "IF 1 THEN PRINT " +++ quoted "T" +++ " ELSE PRINT " +++ quoted "E")] in
  exists r, interpreter_run 10 p = Some r /\
    stdout r = "T" +++ ["010"%char]s +++ "E" +++ ["010"%char]s.
Proof. eexists. split; [vm_compute; reflexivity|]. reflexivity. Qed.

Example run_if_false_else :
  let p := load_program
    [(10, "IF 0 THEN PRINT " +++ quoted "T" +++ " ELSE PRINT " +++ quoted "E")] in
  exists r, interpreter_run 10 p = Some r /\ stdout r = "E" +++ ["010"%char]s.
Proof. eexists. split; [vm_compute; reflexivity|]. reflexivity. Qed.

(** A condition that is a text is false. *)
Example run_if_text :
  let p := load_program [(10, "IF " +++ quoted "A" +++ " THEN PRINT 1")] in
  exists r, interpreter_run 10 p = Some r /\ stdout r = "".
Proof. eexists. split; [vm_compute; reflexivity|]. reflexivity. Qed.

(** An interrupt is seen at the line boundary. *)
Example run_break :
  let p := set_break_requested (load_program [(10, "PRINT 1")]) true in
  exists r, interpreter_run 10 p = Some r /\
    stdout r = ["010"%char]s +++ "? BREAK" +++ ["010"%char]s /\
    break_requested r = false /\ error_occurred r = false.
Proof. eexists. split; [vm_compute; reflexivity|]. vm_compute. auto. Qed.

(** A loop that counts to 3.  The [;] that ends line 30 does not hold the
    line feed back: the [PRINT] loop goes on, finds the end of the line and
    emits it. *)
Example run_count :
  let p := load_program
    [(10, "LET I = 0"); (20, "I = I + 1"); (30, "PRINT I;");
     (40, "IF I < 3 THEN 20")] in
  exists r, interpreter_run 20 p = Some r /\
    stdout r = "1" +++ ["010"%char]s +++ "2" +++ ["010"%char]s +++ "3" +++ ["010"%char]s /\
    current_line r = None.
Proof. eexists. split; [vm_compute; reflexivity|]. vm_compute. auto. Qed.

(** Two lines that jump to each other: the loop has no answer, whatever
    the fuel. *)
Example run_mutual_gotos (fuel : nat) :
  interpreter_run fuel (load_program [(10, "GOTO 20"); (20, "GOTO 10")]) = None.
Proof.
  set (p := load_program [(10, "GOTO 20"); (20, "GOTO 10")]).
  set (s0 := run_start p). set (s1 := set_current_line s0 (Some 1%nat)).
  assert (forall n, run_loop n s0 = None /\ run_loop n s1 = None) as H.
  { induction n as [|n [IH0 IH1]]; [done|]. split.
    - change (run_loop (S n) s0) with (run_loop n s1). exact IH1.
    - change (run_loop (S n) s1) with (run_loop n s0). exact IH0. }
  unfold interpreter_run. change (program p) with
    [mkProgramLine 10 "GOTO 20"; mkProgramLine 20 "GOTO 10"].
  cbv iota. fold s0. by rewrite (proj1 (H fuel)).
Qed.
