(* ===== verification/Programs.v ===== *)
(** * Programs: the run loop on the lines of a program

    A program whose lines hold no [GOTO] and no [IF] with a line number is
    run from its first line to its last, or to the first [END], [STOP] or
    [EXIT].  [run_lines] says so on the statements of the lines, with the
    semantics of [Statements]; the theorem says that [interpreter_run]
    does the same on the text of the program, within one turn of its loop
    per line and one more.

    The run loop of the code tells a jump from a fall through by a
    comparison of pointers after every line.  The proof shows that the
    statements other than the two jumps leave the cursor, the program and
    the two flags that the loop tests as they are ([steady]), so that the
    comparison succeeds and the cursor moves to the next line.

    A line that ends in a jump is followed through the search of the
    program for the line number ([line_index]) and through the comparison
    of the loop: the run goes on at the line that was named, at the next
    line when the line names itself, and stops with an error when a
    [GOTO] names no line ([jump_turn]).  A [GOTO] at the end of a line to
    an earlier line, behind lines that neither jump nor stop, is a loop
    that no fuel gets out of ([backward_goto_diverges]).

    As in [Semantics] and [Statements], the definitions of this file model
    no line of the code. *)

From S2P Require Import Prelude Utils Numbers Lexer Tokens Editor State.
From S2P Require Import Program Variables Eval Semantics Exec Statements Run.
From stdpp Require Import sorting list_misc.

#[local] Open Scope Z_scope.
#[local] Open Scope cfb_scope.

(** ** Programs and their text *)

(** A line: its number and its statements. *)
Abbreviation Line := (Z * list Stmt)%type (only parsing).

Definition show_program (p : list Line) : list ProgramLine :=
  (fun nl => mkProgramLine nl.1 (show_line nl.2)) <$> p.

Definition jumps (s : Stmt) : bool :=
  match s with
  | SGoto _ | SIfGoto _ _ => true
  | _ => false
  end.

Definition jump_free (l : list Stmt) : bool := forallb (fun s => negb (jumps s)) l.

Definition wf_lines (ls : list Line) : bool :=
  forallb (fun nl => wf_line nl.2 && jump_free nl.2) ls.

(** Statements that end the run, and statements that do neither that nor
    jump. *)
Definition stops (s : Stmt) : bool :=
  match s with
  | SEnd | SStop | SExit => true
  | _ => false
  end.

Definition goes_on (s : Stmt) : bool := negb (jumps s) && negb (stops s).

(** Statements behind which the next statement of the line runs, whatever
    the state. *)
Definition plain (s : Stmt) : bool :=
  match s with
  | SPrint _ _ | SLet _ _ | SAssign _ _ | SPoke _ _ | SPlot _ _ | SDraw _ _ => true
  | _ => false
  end.

(** Line numbers in ascending order. *)
Definition numbers_ascend (p : list Line) : Prop := StronglySorted Z.lt (p.*1).

(** The index of the line with the number [m]. *)
Definition line_index (p : list Line) (m : Z) : option nat :=
  fst <$> list_find (fun nl => nl.1 = m) p.

(** ** What a program without jumps does *)

(** The lines from the cursor [cur] on, one after the other, as long as
    the program is running. *)
Fixpoint run_lines (interp : Interpreter) (cur : nat) (ls : list Line) : Interpreter :=
  match ls with
  | [] => interp
  | nl :: ls' =>
      let interp := run_line interp nl.2 in
      if running interp then
        run_lines (set_current_line interp (node_next (length (program interp)) cur))
          (S cur) ls'
      else interp
  end.

Definition run_program (interp : Interpreter) (p : list Line) : Interpreter :=
  match p with
  | [] => interp
  | _ => set_running (run_lines (run_start interp) 0 p) false
  end.

(** What the run loop tests between two lines, and the program. *)
Definition steady (a b : Interpreter) : Prop :=
  program b = program a /\ current_line b = current_line a /\
  break_requested b = break_requested a /\ error_occurred b = error_occurred a.

(** With them the flag of the run: what a statement that goes on leaves
    as it is. *)
Definition calm (a b : Interpreter) : Prop := steady a b /\ running b = running a.

(** ** What a jump at the end of a line does *)

(** The line number that a jump names in the state [r]: the value of the
    operand of [GOTO] when it is a number, the number behind [THEN] when
    the condition holds. *)
Definition jump_number (r : Interpreter) (s : Stmt) : option Z :=
  match s with
  | SGoto e =>
      match den_expr r e with
      | VNumber d => Some (double_to_int d)
      | VString _ => None
      end
  | SIfGoto e n => if d_nonzero (value_number (den_expr r e)) then Some n else None
  | _ => None
  end.

Definition is_goto (s : Stmt) : bool :=
  match s with SGoto _ => true | _ => false end.

(** The end of a run in line [n] after a [GOTO] that found no line. *)
Definition error_stop (n : Z) (r : Interpreter) : Interpreter :=
  set_error_occurred
    (set_running
       (basic_print (line_not_found r) ("ERROR IN LINE " +++ fmt_d n +++ [LF]s)) false)
    false.

(** One turn of the loop on line [cur], with the number [n], whose
    statements left the state [r] before the jump [s] at their end. *)
Definition jump_to (p : list Line) (cur : nat) (n : Z) (s : Stmt) (r : Interpreter)
  : Interpreter * Flow :=
  let next := node_next (length p) cur in
  match jump_number r s with
  | None => (set_current_line r next, Next)
  | Some m =>
      match line_index p m with
      | Some t => (set_current_line r (if decide (t = cur) then next else Some t), Next)
      | None => if is_goto s then (error_stop n r, Stop) else (set_current_line r next, Next)
      end
  end.

(** The state in which the loop stands before line [cur] of [p]. *)
Definition before_line (p : list Line) (cur : nat) (interp : Interpreter) : Prop :=
  program interp = show_program p /\ running interp = true /\
  current_line interp = (if decide (cur < length p)%nat then Some cur else None) /\
  break_requested interp = false /\ error_occurred interp = false /\
  vars_ok (variables interp).

(** ** Evaluation *)

(** Three lines: the second ends the run, the third is not reached. *)
Example run_program_end :
  let p := [(10, [SAssign "X" (EFactor (FNum 2))]);
            (20, [SPrint [] (Some (EFactor (FVar "X"))); SEnd]);
            (30, [SPrint [] (Some (EFactor (FNum 3)))])] in
  let r := run_program (set_program interpreter_init (show_program p)) p in
  show_program p = [mkProgramLine 10 "X = 2"; mkProgramLine 20 "PRINT X : END";
                    mkProgramLine 30 "PRINT 3"] /\
  stdout r = "2" +++ [LF]s /\ current_line r = Some 1%nat /\ running r = false.
Proof. vm_compute. auto. Qed.

(** The jumps at the end of line 10 of a program of three lines: to line
    30; to line 10 itself, which goes on at line 20; to a line that is
    not there, which stops the run for [GOTO] and goes on at line 20 for
    [IF]; and an [IF] that does not hold. *)
Example jump_to_cases :
  let p := [(10, [SGoto (EFactor (FNum 30))]); (20, [SEnd]); (30, [SEnd])] in
  let r := interpreter_init in
  jump_to p 0 10 (SGoto (EFactor (FNum 30))) r = (set_current_line r (Some 2%nat), Next) /\
  jump_to p 0 10 (SGoto (EFactor (FNum 10))) r = (set_current_line r (Some 1%nat), Next) /\
  jump_to p 0 10 (SGoto (EFactor (FNum 15))) r = (error_stop 10 r, Stop) /\
  jump_to p 0 10 (SGoto (EFactor (FStr "30"))) r = (set_current_line r (Some 1%nat), Next) /\
  jump_to p 0 10 (SIfGoto (EFactor (FNum 1)) 15) r = (set_current_line r (Some 1%nat), Next) /\
  jump_to p 0 10 (SIfGoto (EFactor (FNum 0)) 30) r = (set_current_line r (Some 1%nat), Next) /\
  stderr (error_stop 10 r) = "?LINE NOT FOUND ERROR" +++ [LF]s /\
  stdout (error_stop 10 r) = "ERROR IN LINE 10" +++ [LF]s.
Proof. vm_compute. by split_and!. Qed.

(** ** The statements without a jump *)

#[export] Instance steady_preorder : PreOrder steady.
Proof.
  split; [by intros a|].
  intros a b c (? & ? & ? & ?) (? & ? & ? & ?). repeat split; congruence.
Qed.

#[export] Instance calm_preorder : PreOrder calm.
Proof.
  split; [by intros a|].
  intros a b c [? ?] [? ?]. split; [by etrans | congruence].
Qed.

Section Steady.
Implicit Types (interp : Interpreter) (s : Stmt) (l : list Stmt) (w : VarValue).

Lemma calm_basic_print interp buf : calm interp (basic_print interp buf).
Proof. unfold basic_print. by case_match. Qed.

Lemma calm_print_val interp w : calm interp (print_val interp w).
Proof.
  destruct w as [d|t]; simpl; [apply calm_basic_print|].
  revert interp. induction t as [|c t IH]; intros interp; simpl; [done|].
  case_match; [done|]. etrans; [apply calm_basic_print | apply IH].
Qed.

Lemma calm_print_items interp (items : list (Expr * Sep)) :
  calm interp (print_items interp items).
Proof.
  revert interp. induction items as [|[e sep] items IH]; intros interp; simpl; [done|].
  etrans; [apply calm_print_val|]. etrans; [|apply IH].
  destruct sep; [done | apply calm_basic_print].
Qed.

Lemma calm_var_set interp (x : string) w : calm interp (var_set interp x w).
Proof. destruct w; simpl; unfold var_set_number, var_set_string; by case_match. Qed.

Lemma calm_on_numbers interp a b (act : double -> double -> Interpreter) :
  (forall x y, calm interp (act x y)) -> calm interp (on_numbers interp a b act).
Proof. intros H. destruct a, b; simpl; auto; done. Qed.

Lemma calm_poke interp a v : calm interp (poke interp a v).
Proof. unfold poke. cbv zeta. by repeat case_match. Qed.

Lemma calm_draw_line interp x1 y1 x2 y2 : calm interp (draw_line interp x1 y1 x2 y2).
Proof. unfold draw_line. by repeat case_match. Qed.

Lemma calm_step interp s : goes_on s = true -> calm interp (step_stmt interp s).1.
Proof.
  intros Hg. destruct s; try done; cbn [step_stmt fst].
  - etrans; [apply calm_print_items|].
    etrans; [|apply calm_basic_print].
    match goal with |- context [print_last _ ?o] => destruct o end;
      [apply calm_print_val | done].
  - apply calm_var_set.
  - apply calm_var_set.
  - apply calm_on_numbers. intros. apply calm_poke.
  - by apply calm_on_numbers.
  - apply calm_on_numbers. intros ? ?.
    etrans; [apply calm_draw_line | done].
Qed.

Lemma steady_step interp s : jumps s = false -> steady interp (step_stmt interp s).1.
Proof.
  intros Hj. destruct (stops s) eqn:Hs; [by destruct s|].
  apply calm_step. unfold goes_on. by rewrite Hj, Hs.
Qed.

Lemma steady_run_line l :
  forall interp, jump_free l = true -> steady interp (run_line interp l).
Proof.
  induction l as [|s l IH]; intros interp; [done|].
  intros [Hs%negb_true_iff Hl]%andb_prop. cbn [run_line].
  pose proof (steady_step interp s Hs) as H.
  destruct (step_stmt interp s) as [i' []]; simpl in H; [etrans; [exact H | by apply IH] | done].
Qed.

Lemma calm_run_line l :
  forall interp, forallb goes_on l = true -> calm interp (run_line interp l).
Proof.
  induction l as [|s l IH]; intros interp; [done|].
  intros [Hs Hl]%andb_prop. cbn [run_line].
  pose proof (calm_step interp s Hs) as H.
  destruct (step_stmt interp s) as [i' []]; simpl in H; [etrans; [exact H | by apply IH] | done].
Qed.

Lemma run_line_vars_ok l :
  forall interp, vars_ok (variables interp) -> forallb wf_stmt l = true ->
  vars_ok (variables (run_line interp l)).
Proof.
  induction l as [|s l IH]; intros interp Hv; [done|].
  intros [Hs Hl]%andb_prop. cbn [run_line].
  pose proof (step_vars_ok interp s Hv Hs) as H.
  destruct (step_stmt interp s) as [i' []]; simpl in H; [by apply IH | done].
Qed.

Lemma plain_goes_on s : plain s = true -> goes_on s = true.
Proof. by destruct s. Qed.

Lemma plain_all_go_on l : forallb plain l = true -> forallb goes_on l = true.
Proof.
  induction l as [|s l IH]; [done|]. cbn [forallb].
  intros [Hs Hl]%andb_prop. by rewrite (plain_goes_on s Hs), IH.
Qed.

Lemma goes_on_jump_free l : forallb goes_on l = true -> jump_free l = true.
Proof.
  unfold jump_free. induction l as [|s l IH]; [done|]. cbn [forallb].
  intros [[-> _]%andb_prop ?]%andb_prop. by rewrite IH.
Qed.

(** Behind plain statements the rest of the line runs. *)
Lemma run_line_plain l l' :
  forall interp, forallb plain l = true ->
  run_line interp (l ++ l') = run_line (run_line interp l) l'.
Proof.
  induction l as [|s l IH]; intros interp; [done|].
  intros [Hs Hl]%andb_prop. cbn [run_line app].
  destruct s; try done; cbn [step_stmt]; by apply IH.
Qed.

End Steady.

(** ** The loop over the lines *)

Section Loop.
Implicit Types (interp : Interpreter) (p ls : list Line) (cur fuel : nat).

Lemma show_program_lookup p cur (nl : Line) :
  p !! cur = Some nl ->
  show_program p !! cur = Some (mkProgramLine nl.1 (show_line nl.2)).
Proof. intros H. unfold show_program. by rewrite list_lookup_fmap, H. Qed.

Lemma length_show_program p : length (show_program p) = length p.
Proof. apply length_fmap. Qed.

Lemma wf_lines_cons (nl : Line) ls :
  wf_lines (nl :: ls) = true ->
  wf_line nl.2 = true /\ jump_free nl.2 = true /\ wf_lines ls = true.
Proof. by intros [[? ?]%andb_prop ?]%andb_prop. Qed.

(** One turn of the loop on a line that leaves the cursor where it is. *)
Lemma run_step_steady p cur (nl : Line) interp :
  before_line p cur interp -> p !! cur = Some nl ->
  wf_line nl.2 = true -> steady interp (run_line interp nl.2) ->
  run_step interp cur (mkProgramLine nl.1 (show_line nl.2)) =
  (let r := run_line interp nl.2 in
   if running r then set_current_line r (node_next (length (program r)) cur) else r,
   Next).
Proof.
  intros (Hp & Hr & Hc & Hb & He & Hv) Hl Hwf (Hp' & Hc' & _ & He'). unfold run_step.
  rewrite Hb. cbn [pl_text]. rewrite exec_line_denotes by done. cbv zeta.
  rewrite He', He, Hp'. destruct (running (run_line interp nl.2)); [|done].
  unfold successor_is. rewrite Hc', Hc, Hp'.
  apply lookup_lt_Some in Hl. rewrite decide_True by done. cbn [andb].
  by rewrite bool_decide_eq_true_2.
Qed.

(** One turn of the loop on a line without jumps. *)
Lemma run_step_line p cur (nl : Line) interp :
  before_line p cur interp -> p !! cur = Some nl ->
  wf_line nl.2 = true -> jump_free nl.2 = true ->
  run_step interp cur (mkProgramLine nl.1 (show_line nl.2)) =
  (let r := run_line interp nl.2 in
   if running r then set_current_line r (node_next (length (program r)) cur) else r,
   Next).
Proof. intros Hb Hl Hwf Hj. by apply (run_step_steady p), steady_run_line. Qed.

Lemma before_line_next p cur (nl : Line) interp :
  before_line p cur interp -> p !! cur = Some nl ->
  wf_line nl.2 = true -> jump_free nl.2 = true ->
  running (run_line interp nl.2) = true ->
  before_line p (S cur)
    (set_current_line (run_line interp nl.2)
       (node_next (length (program (run_line interp nl.2))) cur)).
Proof.
  intros (Hp & Hr & Hc & Hb & He & Hv) Hl [Hwf _]%andb_prop Hj Hrun.
  destruct (steady_run_line nl.2 interp Hj) as (Hp' & Hc' & Hb' & He').
  split_and!; simpl; try congruence.
  - rewrite Hp', Hp, length_show_program. unfold node_next.
    destruct (decide (S cur < length p)%nat); by rewrite ?decide_True, ?decide_False.
  - by apply run_line_vars_ok.
Qed.

Lemma run_loop_lines p ls :
  forall cur fuel interp,
  drop cur p = ls -> wf_lines ls = true -> (length ls < fuel)%nat ->
  before_line p cur interp ->
  run_loop fuel interp = Some (run_lines interp cur ls).
Proof.
  induction ls as [|nl ls IH]; intros cur fuel interp Hd Hwf Hf Hb;
    (destruct fuel as [|fuel]; [simpl in Hf; lia|]); cbn [run_loop run_lines].
  - destruct Hb as (_ & Hr & Hc & _). unfold at_line.
    assert (length p <= cur)%nat
      by (apply (f_equal length) in Hd; rewrite length_drop in Hd; simpl in Hd; lia).
    by rewrite Hr, Hc, decide_False by lia.
  - assert (p !! cur = Some nl) as Hl
      by (rewrite <- (Nat.add_0_r cur), <- lookup_drop, Hd; done).
    apply wf_lines_cons in Hwf as (Hwf & Hj & Hls).
    pose proof Hb as (Hp & Hr & Hc & _). unfold at_line.
    rewrite Hr, Hc, decide_True by (by apply lookup_lt_Some in Hl). cbn [mbind option_bind].
    rewrite Hp, (show_program_lookup p cur nl Hl). cbn [mbind option_bind].
    rewrite (run_step_line p cur nl interp) by done. cbv zeta.
    destruct (running (run_line interp nl.2)) eqn:Hrun.
    + apply IH; [|done|simpl in Hf; lia|by apply before_line_next].
      erewrite drop_S in Hd by done. by simplify_eq.
    + destruct fuel as [|fuel]; [simpl in Hf; lia|]. cbn [run_loop]. unfold at_line.
      by rewrite Hrun.
Qed.

Lemma run_start_before p interp :
  p <> [] -> program interp = show_program p ->
  break_requested interp = false -> error_occurred interp = false ->
  vars_ok (variables interp) ->
  before_line p 0 (run_start interp).
Proof.
  intros Hne Hp Hb He Hv. unfold run_start. split_and!; simpl; try done.
  rewrite Hp. destruct p; [done|]. by rewrite decide_True by (simpl; lia).
Qed.

Lemma run_program_runs interp p fuel :
  vars_ok (variables interp) -> break_requested interp = false ->
  error_occurred interp = false -> program interp = show_program p ->
  wf_lines p = true -> (length p < fuel)%nat ->
  interpreter_run fuel interp = Some (run_program interp p).
Proof.
  intros Hv Hb He Hp Hwf Hf. unfold interpreter_run, run_program. rewrite Hp.
  destruct p as [|nl p]; [done|]. cbn [show_program fmap list_fmap].
  by rewrite (run_loop_lines (nl :: p) (nl :: p) 0 fuel (run_start interp));
    [| | | |apply run_start_before].
Qed.

End Loop.

(** ** The search for a line number *)

Section Index.
Implicit Types (p : list Line) (nl : Line) (m : Z) (t cur : nat).

Lemma line_index_cons nl p m :
  line_index (nl :: p) m =
  if decide (nl.1 = m) then Some 0%nat else S <$> line_index p m.
Proof.
  unfold line_index. cbn [list_find]. case_decide; [done|].
  by destruct (list_find _ p) as [[j y]|].
Qed.

Lemma numbers_ascend_cons nl p :
  numbers_ascend (nl :: p) -> numbers_ascend p /\ Forall (fun x => nl.1 < x.1) p.
Proof.
  unfold numbers_ascend. cbn [fmap list_fmap]. intros H.
  apply StronglySorted_inv in H as [Hs Hf]. split; [done|].
  rewrite Forall_fmap in Hf. eapply Forall_impl; [exact Hf | done].
Qed.

Lemma line_index_above nl p m :
  Forall (fun x => nl.1 < x.1) p -> m <= nl.1 -> line_index p m = None.
Proof.
  intros Hf Hm. unfold line_index.
  rewrite (proj2 (list_find_None (fun x : Line => x.1 = m) p)); [done|].
  eapply Forall_impl; [exact Hf|]. simpl. lia.
Qed.

(** The scan of [program_find_line], which gives up at the first larger
    number, finds what a search of the whole program finds. *)
Lemma find_from_line_index p m :
  numbers_ascend p ->
  forall i, find_from m i (show_program p) = (fun j => (i + j)%nat) <$> line_index p m.
Proof.
  induction p as [|nl p IH]; intros Hs i; [done|].
  apply numbers_ascend_cons in Hs as [Hs Hf].
  cbn [show_program fmap list_fmap find_from pl_line_number]. rewrite line_index_cons.
  destruct (Z.eqb_spec nl.1 m) as [E|Hne].
  { rewrite decide_True by done. simpl. by rewrite Nat.add_0_r. }
  rewrite decide_False by done. destruct (Z.gtb_spec nl.1 m).
  { by rewrite (line_index_above nl p m) by (done || lia). }
  fold (show_program p). rewrite (IH Hs (S i)).
  destruct (line_index p m); simpl; f_equal; lia.
Qed.

Lemma program_find_line_index (r : Interpreter) p m :
  numbers_ascend p -> program r = show_program p ->
  program_find_line r m = line_index p m.
Proof.
  intros Hs Hp. unfold program_find_line. rewrite Hp, find_from_line_index by done.
  by destruct (line_index p m).
Qed.

Lemma line_index_lt p m t : line_index p m = Some t -> (t < length p)%nat.
Proof.
  unfold line_index. destruct (list_find _ p) as [[j y]|] eqn:E; [|done].
  intros [= <-]. apply list_find_Some in E as [E _]. by apply lookup_lt_Some in E.
Qed.

Lemma line_index_found p m t (l : list Stmt) :
  numbers_ascend p -> p !! t = Some (m, l) -> line_index p m = Some t.
Proof.
  revert t. induction p as [|nl p IH]; intros t Hs Hl; [done|].
  apply numbers_ascend_cons in Hs as [Hs Hf]. rewrite line_index_cons.
  destruct t as [|t]; simpl in Hl; [simplify_eq; by rewrite decide_True|].
  rewrite Forall_lookup in Hf. specialize (Hf t _ Hl). simpl in Hf.
  rewrite decide_False by lia. by rewrite (IH t Hs Hl).
Qed.

End Index.

(** ** A jump at the end of a line *)

Section Jump.
Implicit Types (interp r : Interpreter) (p : list Line) (s : Stmt) (l : list Stmt).
Implicit Types (cur t : nat) (n m : Z).

Lemma set_current_line_same r (c : option nat) :
  current_line r = c -> set_current_line r c = r.
Proof. intros <-. by destruct r. Qed.

Lemma node_next_inj (len cur t : nat) :
  (cur < len)%nat -> (t < len)%nat -> node_next len t = node_next len cur -> t = cur.
Proof. unfold node_next. intros ? ?. repeat case_decide; intros ?; simplify_eq; lia. Qed.

(** The turn of the loop, from the state that the line left. *)
Lemma turn_lands interp cur (pl : ProgramLine) r t :
  break_requested interp = false -> exec_line interp (pl_text pl) = r ->
  error_occurred r = false -> running r = true -> program r = program interp ->
  current_line r = Some t ->
  (t < length (program interp))%nat -> (cur < length (program interp))%nat ->
  run_step interp cur pl =
  (set_current_line r
     (if decide (t = cur) then node_next (length (program interp)) cur else Some t),
   Next).
Proof.
  intros Hb Hx He Hr Hp Hc Ht Hcur. unfold run_step, successor_is.
  rewrite Hb, Hx. cbv zeta. rewrite He, Hr, Hc, Hp. cbn [andb].
  destruct (decide (t = cur)) as [->|Hne]; [by rewrite bool_decide_eq_true_2|].
  rewrite bool_decide_eq_false_2 by (intros E; by apply node_next_inj in E).
  by rewrite set_current_line_same.
Qed.

(** The turn of the loop after a [GOTO] that found no line. *)
Lemma turn_fails interp cur (pl : ProgramLine) r :
  break_requested interp = false ->
  exec_line interp (pl_text pl) = line_not_found r ->
  current_line r = Some cur -> program r !! cur = Some pl ->
  run_step interp cur pl = (error_stop (pl_line_number pl) r, Stop).
Proof.
  intros Hb Hx Hc Hl. unfold run_step. rewrite Hb, Hx. cbv zeta.
  cbn [line_not_found error_occurred set_error_occurred].
  unfold current_line_number, line_at.
  change (current_line (line_not_found r)) with (current_line r).
  change (program (line_not_found r)) with (program r).
  rewrite Hc. cbn [mbind option_bind]. by rewrite Hl.
Qed.

(** What the statements before the jump leave, as the turn needs it. *)
Lemma before_jump p cur interp (nl : Line) r :
  before_line p cur interp -> p !! cur = Some nl -> calm interp r ->
  program r = show_program p /\ program r = program interp /\
  current_line r = Some cur /\ error_occurred r = false /\ running r = true /\
  (cur < length (program interp))%nat /\
  program r !! cur = Some (mkProgramLine nl.1 (show_line nl.2)).
Proof.
  intros (Hp & Hr & Hc & Hb & He & Hv) Hl [(Hp' & Hc' & Hb' & He') Hr'].
  pose proof (lookup_lt_Some _ _ _ Hl) as Hlt. rewrite decide_True in Hc by done.
  split_and!; try congruence.
  - by rewrite Hp, length_show_program.
  - by rewrite Hp', Hp, (show_program_lookup p cur _ Hl).
Qed.

(** The turn on a line whose statements before the jump [s] leave [r]. *)
Lemma jump_turn_from p cur interp n l s r :
  before_line p cur interp -> numbers_ascend p ->
  p !! cur = Some (n, l ++ [s]) -> wf_line (l ++ [s]) = true ->
  calm interp r -> run_line interp (l ++ [s]) = run_line r [s] -> jumps s = true ->
  run_step interp cur (mkProgramLine n (show_line (l ++ [s]))) = jump_to p cur n s r.
Proof.
  intros Hbl Hs Hl Hwf Hcalm Hrun Hj.
  destruct (before_jump p cur interp _ r Hbl Hl Hcalm)
    as (Hp & Hp' & Hc & He & Hr & Hlt & Hpl').
  destruct Hbl as (Hpi & _ & _ & Hb & _ & Hv).
  pose proof (exec_line_denotes interp (l ++ [s]) Hv Hwf) as Hx.
  rewrite Hrun in Hx. cbn [fst snd] in Hpl'. clear Hrun Hcalm.
  assert (length (program interp) = length p) as Hlen
    by (by rewrite Hpi, length_show_program).
  assert (forall m, line_index p m = None \/
            exists i, line_index p m = Some i /\ (i < length (program interp))%nat) as Hi.
  { intros m. destruct (line_index p m) as [i|] eqn:Ei; [right|by left].
    exists i. split; [done|]. apply line_index_lt in Ei. lia. }
  unfold jump_to. rewrite <- Hlen.
  remember (mkProgramLine n (show_line (l ++ [s]))) as pl eqn:Epl.
  assert (pl_line_number pl = n) as Hn by (by subst pl).
  replace (show_line (l ++ [s])) with (pl_text pl) in Hx by (by subst pl).
  clear Epl Hwf Hl. rewrite <- Hn. clear Hn.
  destruct s; try done; cbn [run_line step_stmt jump_number is_goto] in *.
  - destruct (den_expr _ e) as [d|?]; cbn [goto_value] in Hx.
    + rewrite (program_find_line_index _ p) in Hx by done.
      destruct (Hi (double_to_int d)) as [Ei|(t & Ei & Ht)]; rewrite Ei in Hx |- *.
      * by rewrite (turn_fails interp cur _ _ Hb Hx Hc Hpl').
      * by rewrite (turn_lands interp cur _ _ t Hb Hx).
    + rewrite (turn_lands interp cur _ _ cur Hb Hx); try done. by rewrite decide_True.
  - rewrite (program_find_line_index _ p) in Hx by done.
    destruct (d_nonzero _);
      [destruct (Hi n0) as [Ei|(t & Ei & Ht)]; rewrite Ei in Hx |- *|].
    + rewrite (turn_lands interp cur _ _ cur Hb Hx); try done. by rewrite decide_True.
    + by rewrite (turn_lands interp cur _ _ t Hb Hx).
    + rewrite (turn_lands interp cur _ _ cur Hb Hx); try done. by rewrite decide_True.
Qed.

Lemma jump_turn_holds p cur interp n l s :
  before_line p cur interp -> numbers_ascend p ->
  p !! cur = Some (n, l ++ [s]) -> wf_line (l ++ [s]) = true ->
  forallb plain l = true -> jumps s = true ->
  run_step interp cur (mkProgramLine n (show_line (l ++ [s]))) =
  jump_to p cur n s (run_line interp l).
Proof.
  intros Hbl Hs Hl Hwf Hpl Hj. apply jump_turn_from; try done.
  - by apply calm_run_line, plain_all_go_on.
  - by apply run_line_plain.
Qed.

End Jump.

(** ** A loop *)

Lemma forallb_lookup {A} (f : A -> bool) (l : list A) (i : nat) (x : A) :
  forallb f l = true -> l !! i = Some x -> f x = true.
Proof.
  revert i. induction l as [|y l IH]; intros [|i]; simpl; try done.
  - by intros [? _]%andb_prop [= <-].
  - intros [_ ?]%andb_prop. by apply IH.
Qed.

(** The condition of the loop before a line of the program. *)
Lemma at_line_before (p : list Line) (c : nat) (interp : Interpreter) (nl : Line) :
  before_line p c interp -> p !! c = Some nl ->
  at_line interp = Some (c, mkProgramLine nl.1 (show_line nl.2)).
Proof.
  intros (Hp & Hr & Hc & _) Hl. unfold at_line.
  rewrite Hr, Hc, decide_True by (by apply lookup_lt_Some in Hl). cbn [mbind option_bind].
  by rewrite Hp, (show_program_lookup p c nl Hl).
Qed.

Section Diverge.
Context (p : list Line) (cur t : nat) (n m : Z) (l body : list Stmt).
Context (Hs : numbers_ascend p).
Context (Hcur : p !! cur = Some (n, l ++ [SGoto (EFactor (FNum m))])).
Context (Hwf : wf_line (l ++ [SGoto (EFactor (FNum m))]) = true).
Context (Hpl : forallb plain l = true).
Context (Ht : p !! t = Some (m, body)) (Hlt : (t < cur)%nat) (Hm : m <= INT_MAX).
Context (Hbody : forallb (fun nl => wf_line nl.2 && forallb goes_on nl.2) (take cur p) = true).

(** A line before the jump hands the run to the next line. *)
Lemma body_turn (c : nat) (interp : Interpreter) :
  (c < cur)%nat -> before_line p c interp ->
  exists pl interp',
    at_line interp = Some (c, pl) /\ run_step interp c pl = (interp', Next) /\
    before_line p (S c) interp'.
Proof.
  intros Hc Hb. destruct (lookup_lt_is_Some_2 p c) as [nl Hl];
    [apply lookup_lt_Some in Hcur; lia|].
  assert (wf_line nl.2 = true /\ forallb goes_on nl.2 = true) as [Hw Hg].
  { apply andb_prop, (forallb_lookup _ (take cur p) c nl Hbody).
    by rewrite lookup_take_lt. }
  pose proof (goes_on_jump_free _ Hg) as Hj.
  pose proof (proj2 (calm_run_line nl.2 interp Hg)) as Hr.
  rewrite (proj1 (proj2 Hb)) in Hr.
  exists (mkProgramLine nl.1 (show_line nl.2)). eexists.
  split; [exact (at_line_before p c interp nl Hb Hl)|].
  rewrite (run_step_line p c nl interp) by done.
  cbv zeta. rewrite Hr. split; [done|]. by apply before_line_next.
Qed.

(** The line with the jump hands the run to the line it names. *)
Lemma goto_turn_back (interp : Interpreter) :
  before_line p cur interp ->
  exists pl interp',
    at_line interp = Some (cur, pl) /\ run_step interp cur pl = (interp', Next) /\
    before_line p t interp'.
Proof.
  intros Hb. exists (mkProgramLine n (show_line (l ++ [SGoto (EFactor (FNum m))]))).
  eexists. split; [exact (at_line_before p cur interp _ Hb Hcur)|].
  rewrite (jump_turn_holds p cur interp n l _ Hb Hs Hcur Hwf Hpl eq_refl).
  unfold jump_to. cbn [jump_number den_expr den_factor].
  apply andb_prop in Hwf as [Hw _]. rewrite forallb_app in Hw.
  apply andb_prop in Hw as [Hwl Hwg]. cbn in Hwg. rewrite andb_true_r in Hwg.
  apply Z.leb_le in Hwg.
  rewrite double_to_int_of_Z by (unfold INT_MIN, INT_MAX in *; lia).
  rewrite (line_index_found p m t body Hs Ht), decide_False by lia.
  split; [done|].
  pose proof (calm_run_line l interp (plain_all_go_on l Hpl)) as Hcalm.
  destruct (before_jump p cur interp _ _ Hb Hcur Hcalm) as (Hp & _ & _ & He & Hr & _).
  destruct Hb as (_ & _ & _ & Hbr & _ & Hv).
  destruct Hcalm as [(_ & _ & Hbr' & _) _].
  split_and!; simpl; try done; try congruence.
  - by rewrite decide_True by (by apply lookup_lt_Some in Ht).
  - by apply run_line_vars_ok.
Qed.

Lemma loop_stays (fuel : nat) :
  forall (c : nat) (interp : Interpreter),
  (c <= cur)%nat -> before_line p c interp -> run_loop fuel interp = None.
Proof.
  induction fuel as [|fuel IH]; intros c interp Hc Hb; [done|]. cbn [run_loop].
  destruct (decide (c = cur)) as [->|Hne].
  - destruct (goto_turn_back interp Hb) as (pl & i' & -> & -> & Hb').
    apply (IH t); [lia | done].
  - destruct (body_turn c interp) as (pl & i' & -> & -> & Hb'); [lia|done|].
    apply (IH (S c)); [lia | done].
Qed.

Lemma run_diverges (interp : Interpreter) (fuel : nat) :
  vars_ok (variables interp) -> break_requested interp = false ->
  error_occurred interp = false -> program interp = show_program p ->
  interpreter_run fuel interp = None.
Proof.
  intros Hv Hb He Hp. unfold interpreter_run.
  assert (p <> []) as Hne by (intros E; by rewrite E in Ht).
  rewrite (loop_stays fuel 0 (run_start interp)); [|lia|by apply run_start_before].
  destruct (program interp) eqn:E; [|done].
  rewrite Hp in E. by destruct p.
Qed.

End Diverge.

(** C4: a program without jumps runs through its lines and ends.  When the
    lines of the program are the texts of statements other than [GOTO] and
    [IF] with a line number, and no interrupt or error is pending,
    [interpreter_run] answers for every fuel above the number of lines,
    and the state it leaves is the one that the statements of the lines
    give one after the other, from the first line to the last or to the
    first [END], [STOP] or [EXIT]. *)
Theorem jump_free_program_runs (interp : Interpreter) (p : list Line) (fuel : nat) :
  vars_ok (variables interp) -> break_requested interp = false ->
  error_occurred interp = false -> program interp = show_program p ->
  wf_lines p = true -> (length p < fuel)%nat ->
  interpreter_run fuel interp = Some (run_program interp p).
Proof. apply run_program_runs. Qed.

Lemma jump_free_program_runs_witness :
  let p := [(10, [SAssign "X" (EFactor (FNum 2))]);
            (20, [SPrint [] (Some (EFactor (FVar "X"))); SEnd]);
            (30, [SPrint [] (Some (EFactor (FNum 3)))])] in
  interpreter_run 4 (set_program interpreter_init (show_program p)) =
  Some (run_program (set_program interpreter_init (show_program p)) p).
Proof.
  intros p. apply jump_free_program_runs;
    [constructor | reflexivity | reflexivity | reflexivity | reflexivity | simpl; lia].
Defined.

(** C8: a jump at the end of a line sends the run to the line it names.
    For a line of an ascending program that is plain statements followed
    by a [GOTO] or by an [IF] with a line number, one turn of the run loop
    leaves the state of the plain statements and moves the cursor: to the
    line with the number that the jump names; to the next line when the
    jump is not taken, when it names the line itself, or when an [IF]
    names no line; and when a [GOTO] names no line the run stops with
    LINE NOT FOUND and the number of the line. *)
Theorem jump_turn (interp : Interpreter) (p : list Line) (cur : nat) (n : Z)
    (l : list Stmt) (s : Stmt) :
  before_line p cur interp -> numbers_ascend p ->
  p !! cur = Some (n, l ++ [s]) -> wf_line (l ++ [s]) = true ->
  forallb plain l = true -> jumps s = true ->
  run_step interp cur (mkProgramLine n (show_line (l ++ [s]))) =
  jump_to p cur n s (run_line interp l).
Proof. apply jump_turn_holds. Qed.

Lemma jump_turn_witness :
  let p := [(10, [SPrint [] (Some (EFactor (FNum 1))); SGoto (EFactor (FNum 10))]);
            (20, [SEnd])] in
  let interp := run_start (set_program interpreter_init (show_program p)) in
  run_step interp 0 (mkProgramLine 10 "PRINT 1 : GOTO 10") =
  jump_to p 0 10 (SGoto (EFactor (FNum 10)))
    (run_line interp [SPrint [] (Some (EFactor (FNum 1)))]).
Proof.
  intros p interp.
  apply (jump_turn interp p 0 10 [SPrint [] (Some (EFactor (FNum 1)))]
           (SGoto (EFactor (FNum 10))));
    [split_and!; (reflexivity || constructor) | repeat constructor; lia
    | reflexivity | reflexivity | reflexivity | reflexivity].
Defined.

(** C22: a [GOTO] back to an earlier line is a loop without an end.  When
    the lines before a line neither jump nor stop, and that line is plain
    statements followed by a [GOTO] with the number of an earlier line,
    [interpreter_run] has no answer for any fuel, whatever the state of
    the variables, the memory and the screen, and whatever lines follow. *)
Theorem backward_goto_diverges (p : list Line) (cur t : nat) (n m : Z)
    (l body : list Stmt) (interp : Interpreter) (fuel : nat) :
  numbers_ascend p ->
  p !! cur = Some (n, l ++ [SGoto (EFactor (FNum m))]) ->
  wf_line (l ++ [SGoto (EFactor (FNum m))]) = true -> forallb plain l = true ->
  p !! t = Some (m, body) -> (t < cur)%nat -> m <= INT_MAX ->
  forallb (fun nl => wf_line nl.2 && forallb goes_on nl.2) (take cur p) = true ->
  vars_ok (variables interp) -> break_requested interp = false ->
  error_occurred interp = false -> program interp = show_program p ->
  interpreter_run fuel interp = None.
Proof. intros. by eapply run_diverges. Qed.

Lemma backward_goto_diverges_witness :
  let p := [(10, [SAssign "X" (EBin (EFactor (FVar "X")) OPlus (FNum 1))]);
            (20, [SPrint [] (Some (EFactor (FVar "X"))); SGoto (EFactor (FNum 10))]);
            (30, [SEnd])] in
  show_program p = [mkProgramLine 10 "X = X + 1"; mkProgramLine 20 "PRINT X : GOTO 10";
                    mkProgramLine 30 "END"] /\
  interpreter_run 1000 (set_program interpreter_init (show_program p)) = None.
Proof.
  intros p. split; [reflexivity|].
  apply (backward_goto_diverges p 1 0 20 10 [SPrint [] (Some (EFactor (FVar "X")))]
           [SAssign "X" (EBin (EFactor (FVar "X")) OPlus (FNum 1))]);
    [repeat constructor; lia | reflexivity | reflexivity | reflexivity | reflexivity
    | lia | unfold INT_MAX; lia | reflexivity | constructor | reflexivity | reflexivity
    | reflexivity].
Defined.
