(* ===== verification/Loops.v ===== *)
(** * Loops: the run of a program with jumps

    [Programs] follows one turn of the run loop through a jump.  This file
    puts the turns together: [run_ref] is the run of a program on its
    statements, with a jump resolved by a search for its number among the
    lines, and the theorem says that [interpreter_run] on the text of the
    program is [run_ref], for every fuel: the two end together, in the
    same state, or both go on for ever.

    The programs are those whose lines hold a jump at their end only
    ([tidy]).  The statements before the jump may stop the line, as in
    [IF X < 3 THEN GOTO 10]: [run_flow] says whether the end of those
    statements is reached.

    As in [Programs], the definitions of this file model no line of the
    code. *)

From S2P Require Import Prelude Utils Numbers Lexer Tokens Editor State.
From S2P Require Import Program Variables Eval Semantics Exec Statements Run Programs.

#[local] Open Scope Z_scope.
#[local] Open Scope cfb_scope.

(** ** The reference *)

(** The statements of a line, and whether their end is reached ([Next])
    or one of them left the line ([Stop]). *)
Fixpoint run_flow (interp : Interpreter) (l : list Stmt) : Interpreter * Flow :=
  match l with
  | [] => (interp, Next)
  | s :: l' =>
      let '(interp, flow) := step_stmt interp s in
      match flow with
      | Stop => (interp, Stop)
      | Next => run_flow interp l'
      end
  end.

(** A line that ends in a jump: the statements before it, and the jump. *)
Definition split_jump (l : list Stmt) : option (list Stmt * Stmt) :=
  s ← last l; if jumps s then Some (removelast l, s) else None.

(** No jump but at the end of the line. *)
Definition tidy (l : list Stmt) : bool := jump_free (removelast l).

Definition tidy_lines (p : list Line) : bool :=
  forallb (fun nl => wf_line nl.2 && tidy nl.2) p.

(** The run goes on at the line behind line [cur], if it goes on. *)
Definition fall (p : list Line) (cur : nat) (r : Interpreter) : Interpreter :=
  if running r then set_current_line r (node_next (length p) cur) else r.

(** One line of the program: the statements before a jump at the end, and
    the jump when they reach it. *)
Definition turn (p : list Line) (cur : nat) (nl : Line) (interp : Interpreter)
  : Interpreter * Flow :=
  match split_jump nl.2 with
  | Some (l, s) =>
      match run_flow interp l with
      | (r, Next) => jump_to p cur nl.1 s r
      | (r, Stop) => (fall p cur r, Next)
      end
  | None => (fall p cur (run_line interp nl.2), Next)
  end.

(** The line at which a run stands. *)
Definition line_here (p : list Line) (interp : Interpreter) : option (nat * Line) :=
  if running interp then cur ← current_line interp; nl ← p !! cur; Some (cur, nl)
  else None.

(** Line after line, up to the end of the program, a statement that ends
    the run, or a [GOTO] to no line. *)
Fixpoint run_turns (fuel : nat) (p : list Line) (interp : Interpreter)
  : option Interpreter :=
  match fuel with
  | O => None
  | S fuel =>
      match line_here p interp with
      | None => Some interp
      | Some (cur, nl) =>
          let '(r, flow) := turn p cur nl interp in
          match flow with
          | Stop => Some r
          | Next => run_turns fuel p r
          end
      end
  end.

(** The run of a program from its first line. *)
Definition run_ref (fuel : nat) (p : list Line) (interp : Interpreter)
  : option Interpreter :=
  match p with
  | [] => Some interp
  | _ =>
      r ← run_turns fuel p (set_current_line (set_running interp true) (Some 0%nat));
      Some (set_running r false)
  end.

(** What the run loop relies on between two lines. *)
Definition ready (p : list Line) (interp : Interpreter) : Prop :=
  program interp = show_program p /\ break_requested interp = false /\
  error_occurred interp = false /\ vars_ok (variables interp).

(** ** Evaluation *)

(** A loop that counts to three, with the jump behind a condition, and
    the same with the line number behind [THEN]. *)
Definition count_goto : list Line :=
  [(10, [SAssign "X" (EBin (EFactor (FVar "X")) OPlus (FNum 1))]);
   (20, [SPrint [] (Some (EFactor (FVar "X")))]);
   (30, [SIfThen (EBin (EFactor (FVar "X")) OLt (FNum 3)); SGoto (EFactor (FNum 10))]);
   (40, [SPrint [] (Some (EFactor (FStr "DONE")))])].

Definition count_then : list Line :=
  [(10, [SAssign "X" (EBin (EFactor (FVar "X")) OPlus (FNum 1))]);
   (20, [SPrint [] (Some (EFactor (FVar "X")));
         SIfGoto (EBin (EFactor (FVar "X")) OLt (FNum 3)) 10]);
   (30, [SPrint [] (Some (EFactor (FStr "DONE")))])].

Example run_ref_count_goto :
  show_program count_goto =
    [mkProgramLine 10 "X = X + 1"; mkProgramLine 20 "PRINT X";
     mkProgramLine 30 "IF X < 3 THEN GOTO 10"; mkProgramLine 40 ("PRINT " +++ quoted "DONE")] /\
  (stdout <$> run_ref 11 count_goto (set_program interpreter_init (show_program count_goto)))
    = Some ("1" +++ [LF]s +++ "2" +++ [LF]s +++ "3" +++ [LF]s +++ "DONE" +++ [LF]s) /\
  run_ref 10 count_goto (set_program interpreter_init (show_program count_goto)) = None.
Proof. vm_compute. by split_and!. Qed.

Example run_ref_count_then :
  (stdout <$> run_ref 8 count_then (set_program interpreter_init (show_program count_then)))
    = Some ("1" +++ [LF]s +++ "2" +++ [LF]s +++ "3" +++ [LF]s +++ "DONE" +++ [LF]s) /\
  (stdout <$> interpreter_run 8 (set_program interpreter_init (show_program count_then)))
    = Some ("1" +++ [LF]s +++ "2" +++ [LF]s +++ "3" +++ [LF]s +++ "DONE" +++ [LF]s).
Proof. vm_compute. by split_and!. Qed.

(** ** The statements before a jump *)

Section Flow.
Implicit Types (interp r : Interpreter) (s : Stmt) (l : list Stmt).

Lemma run_flow_fst l : forall interp, (run_flow interp l).1 = run_line interp l.
Proof.
  induction l as [|s l IH]; intros interp; [done|]. cbn [run_flow run_line].
  destruct (step_stmt interp s) as [i' []]; [apply IH | done].
Qed.

(** Statements that reach their end leave the flag of the run as it is,
    and the rest of the line runs behind them. *)
Lemma run_flow_next l :
  forall interp r, jump_free l = true -> run_flow interp l = (r, Next) ->
  calm interp r /\ forall l', run_line interp (l ++ l') = run_line r l'.
Proof.
  induction l as [|s l IH]; intros interp r; [by intros _ [= <-]|].
  intros [Hs%negb_true_iff Hl]%andb_prop. cbn [run_flow run_line app].
  assert (stops s = false -> calm interp (step_stmt interp s).1) as Hcalm
    by (intros Hst; apply calm_step; unfold goes_on; by rewrite Hs, Hst).
  destruct (step_stmt interp s) as [i' []] eqn:E; [|done].
  intros Hf. destruct (IH i' r Hl Hf) as [Hc Hrun]. split; [|done].
  etrans; [|exact Hc]. destruct s; try done; by apply Hcalm.
Qed.

(** Statements that stop the line leave what the whole line leaves. *)
Lemma run_flow_stop l :
  forall interp r, run_flow interp l = (r, Stop) ->
  forall l', run_line interp (l ++ l') = r.
Proof.
  induction l as [|s l IH]; intros interp r; [done|]. cbn [run_flow run_line app].
  destruct (step_stmt interp s) as [i' []]; [apply IH | by intros [= <-]].
Qed.

Lemma split_jump_Some l l0 s :
  split_jump l = Some (l0, s) -> l = l0 ++ [s] /\ jumps s = true.
Proof.
  unfold split_jump. destruct (last l) as [s'|] eqn:E; [|done]. cbn [mbind option_bind].
  destruct (jumps s') eqn:Hj; [|done]. intros [= <- <-].
  apply last_Some in E as [l' ->]. by rewrite removelast_last.
Qed.

Lemma split_jump_None l : tidy l = true -> split_jump l = None -> jump_free l = true.
Proof.
  unfold split_jump, tidy. destruct (last l) as [s|] eqn:E.
  - apply last_Some in E as [l' ->]. rewrite removelast_last. cbn [mbind option_bind].
    destruct (jumps s) eqn:Hj; [done|]. intros Hl _.
    unfold jump_free in *. rewrite forallb_app, Hl. cbn. by rewrite Hj.
  - by apply last_None in E as ->.
Qed.

End Flow.

(** ** One turn *)

Section Turn.
Context (p : list Line) (Hs : numbers_ascend p).
Implicit Types (interp r : Interpreter) (nl : Line) (cur : nat).

Lemma ready_before interp cur nl :
  ready p interp -> line_here p interp = Some (cur, nl) ->
  before_line p cur interp /\ p !! cur = Some nl.
Proof.
  intros (Hp & Hb & He & Hv). unfold line_here.
  destruct (running interp) eqn:Hr; [|done].
  destruct (current_line interp) as [c|] eqn:Hc; [|done]. cbn [mbind option_bind].
  destruct (p !! c) as [x|] eqn:Hl; [|done]. intros [= <- <-].
  split; [|done]. split_and!; try done.
  by rewrite decide_True by (by apply lookup_lt_Some in Hl).
Qed.

Lemma at_line_here interp :
  ready p interp ->
  at_line interp =
  (fun x => (x.1, mkProgramLine x.2.1 (show_line x.2.2))) <$> line_here p interp.
Proof.
  intros (Hp & _). unfold at_line, line_here. destruct (running interp); [|done].
  destruct (current_line interp) as [c|]; [|done]. cbn [mbind option_bind].
  rewrite Hp. unfold show_program. rewrite list_lookup_fmap.
  by destruct (p !! c).
Qed.

Lemma ready_fall interp cur r :
  ready p interp -> steady interp r -> vars_ok (variables r) -> ready p (fall p cur r).
Proof.
  intros (Hp & Hb & He & Hv) (Hp' & _ & Hb' & He') Hv'. unfold fall.
  destruct (running r); split_and!; simpl; congruence.
Qed.

(** A turn on a line whose statements leave the cursor where it is. *)
Lemma turn_steady interp cur nl :
  before_line p cur interp -> p !! cur = Some nl -> wf_line nl.2 = true ->
  steady interp (run_line interp nl.2) ->
  run_step interp cur (mkProgramLine nl.1 (show_line nl.2)) =
  (fall p cur (run_line interp nl.2), Next).
Proof.
  intros Hb Hl Hwf Hst. rewrite (run_step_steady p) by done. cbv zeta. unfold fall.
  destruct Hst as (-> & _). destruct Hb as (-> & _). by rewrite length_show_program.
Qed.

(** The turn of the loop is the turn of the reference. *)
Lemma run_step_turn interp cur nl :
  ready p interp -> line_here p interp = Some (cur, nl) ->
  wf_line nl.2 = true -> tidy nl.2 = true ->
  run_step interp cur (mkProgramLine nl.1 (show_line nl.2)) = turn p cur nl interp.
Proof.
  intros Hr Hh Hwf Ht. destruct (ready_before interp cur nl Hr Hh) as [Hb Hl].
  unfold turn. destruct (split_jump nl.2) as [[l s]|] eqn:E.
  - apply split_jump_Some in E as [E Hj]. destruct nl as [n l0]. cbn [fst snd] in *.
    subst l0. unfold tidy in Ht. rewrite removelast_last in Ht.
    destruct (run_flow interp l) as [r []] eqn:Ef.
    + destruct (run_flow_next l interp r Ht Ef) as [Hc Hrun].
      by apply jump_turn_from.
    + pose proof (run_flow_stop l interp r Ef) as Hrun.
      rewrite <- (Hrun [s]). apply (turn_steady interp cur (n, l ++ [s])); try done.
      cbn [snd]. rewrite (Hrun [s]), <- (Hrun []), app_nil_r. by apply steady_run_line.
  - apply turn_steady; try done. by apply steady_run_line, split_jump_None.
Qed.

(** The turn keeps what the loop relies on. *)
Lemma ready_turn interp cur nl r :
  ready p interp -> line_here p interp = Some (cur, nl) ->
  wf_line nl.2 = true -> tidy nl.2 = true ->
  turn p cur nl interp = (r, Next) -> ready p r.
Proof.
  intros Hr Hh Hwf Ht. pose proof Hr as (Hp & Hb & He & Hv).
  apply andb_prop in Hwf as [Hwf _].
  unfold turn. destruct (split_jump nl.2) as [[l s]|] eqn:E.
  - apply split_jump_Some in E as [E Hj]. rewrite E in Hwf, Ht.
    unfold tidy in Ht. rewrite removelast_last in Ht.
    rewrite forallb_app in Hwf. apply andb_prop in Hwf as [Hwf _].
    pose proof (run_line_vars_ok l interp Hv Hwf) as Hv'.
    pose proof (steady_run_line l interp Ht) as Hst.
    rewrite <- run_flow_fst in Hv', Hst.
    destruct (run_flow interp l) as [r' []] eqn:Ef; cbn [fst] in *.
    + destruct Hst as (Hp' & _ & Hb' & He').
      unfold jump_to. repeat case_match; intros [= <-];
        split_and!; simpl; congruence.
    + intros [= <-]. by apply (ready_fall interp).
  - intros [= <-]. apply (ready_fall interp); [done| |by apply run_line_vars_ok].
    by apply steady_run_line, split_jump_None.
Qed.

End Turn.

(** ** The run *)

Section Run.
Context (p : list Line) (Hs : numbers_ascend p) (Ht : tidy_lines p = true).

Lemma tidy_lines_lookup (interp : Interpreter) (cur : nat) (nl : Line) :
  line_here p interp = Some (cur, nl) -> wf_line nl.2 = true /\ tidy nl.2 = true.
Proof.
  unfold line_here. intros Hh. apply andb_prop.
  apply (forallb_lookup _ p cur nl Ht).
  destruct (running interp); [|done]. destruct (current_line interp); [|done].
  simpl in Hh. destruct (p !! n) eqn:E; simpl in Hh; by simplify_eq.
Qed.

Lemma run_loop_turns (fuel : nat) :
  forall interp, ready p interp -> run_loop fuel interp = run_turns fuel p interp.
Proof.
  induction fuel as [|fuel IH]; intros interp Hr; [done|]. cbn [run_loop run_turns].
  rewrite (at_line_here p interp Hr).
  destruct (line_here p interp) as [[cur nl]|] eqn:Hh; [|done]. cbn [fmap option_fmap option_map fst snd].
  destruct (tidy_lines_lookup interp cur nl Hh) as [Hwf Htl].
  rewrite (run_step_turn p Hs interp cur nl) by done.
  destruct (turn p cur nl interp) as [r []] eqn:E; [|done].
  apply IH. by apply (ready_turn p interp cur nl).
Qed.

End Run.

Lemma run_is_run_ref (p : list Line) (interp : Interpreter) (fuel : nat) :
  numbers_ascend p -> tidy_lines p = true -> ready p interp ->
  interpreter_run fuel interp = run_ref fuel p interp.
Proof.
  intros Hs Ht Hr. pose proof Hr as (Hp & _). unfold interpreter_run, run_ref, run_start.
  rewrite Hp. destruct p as [|nl p']; [done|].
  cbn [show_program fmap list_fmap list_head].
  by rewrite (run_loop_turns (nl :: p')).
Qed.

(** C5: the run of a program with jumps is the run of its statements.
    For a program in ascending order whose lines are the texts of
    statements with no jump but at the end of a line, and a state with no
    interrupt or error pending, [interpreter_run] on the text is
    [run_ref] on the statements, for every fuel: both end, in the same
    state, or neither does.  In [run_ref] a jump goes to the line with
    its number, found by a search of the lines, and to the next line when
    that is the line of the jump itself. *)
Theorem interpreter_run_refines (interp : Interpreter) (p : list Line) (fuel : nat) :
  numbers_ascend p -> tidy_lines p = true ->
  vars_ok (variables interp) -> break_requested interp = false ->
  error_occurred interp = false -> program interp = show_program p ->
  interpreter_run fuel interp = run_ref fuel p interp.
Proof. intros. by apply run_is_run_ref. Qed.

Lemma interpreter_run_refines_witness :
  let interp := set_program interpreter_init (show_program count_goto) in
  interpreter_run 11 interp = run_ref 11 count_goto interp /\
  interpreter_run 10 interp = None.
Proof.
  intros interp.
  assert (forall fuel, interpreter_run fuel interp = run_ref fuel count_goto interp) as H.
  { intros fuel. apply interpreter_run_refines;
      [repeat constructor; lia | reflexivity | constructor | reflexivity | reflexivity
      | reflexivity]. }
  split; [apply H | rewrite H; reflexivity].
Defined.
