(* ===== verification/Files.v ===== *)
(** * Files: [interpreter_load] and [interpreter_save] of [src/interpreter.c]

    A program is saved as one line of text per program line, the number in
    decimal, a blank and the text; it is loaded by reading the file in
    pieces of at most 1023 bytes with [fgets] and parsing each piece with
    [sscanf] and the format [%d %[^\n]].  The files are the field [fs] of
    the interpreter: [fopen] for reading fails on a name without a file,
    [fopen] for writing fails on a locked name and otherwise empties the
    file.

    [fgets] and [sscanf] are libc functions, modelled from the C standard;
    a number that does not fit an [int] is read as [strtol] reads it and
    then cut to 32 bits.  The loop over the pieces of the file is on a fuel;
    each piece takes at least one byte, so the length of the file is fuel
    enough ([load_lines_enough]).

    The theorems: a load keeps the program sorted, whatever the file holds;
    a program that was saved is the program that a load of the file gives
    back, for lines that fit a piece and whose text is a line of text
    ([storable]); the listing of a program on the standard output is the
    text that a save writes. *)

From stdpp Require Import sorting.
From S2P Require Import Prelude Utils Numbers Lexer Tokens Editor State.
From S2P Require Import Program Variables Eval Exec Run.

#[local] Open Scope Z_scope.
#[local] Open Scope cfb_scope.

(** ** libc *)

(** The longest prefix of characters that satisfy [p], and what follows. *)
Fixpoint span (p : ascii -> bool) (s : string) : string * string :=
  match s with
  | String c s' =>
      if p c then let '(a, b) := span p s' in (String c a, b) else (EmptyString, s)
  | EmptyString => (EmptyString, EmptyString)
  end.

(** The C string in a buffer: the bytes before the first NUL. *)
Definition until_nul (buf : string) : string :=
  (span (fun c => negb (c =? NUL)%char) buf).1.

(** The bytes that [fgets] stores from a stream with [room] bytes of room:
    up to and with the first line feed. *)
Fixpoint fgets_bytes (room : nat) (s : string) : string * string :=
  match room, s with
  | S room, String c s' =>
      if (c =? LF)%char then ([c]s, s')
      else let '(a, b) := fgets_bytes room s' in (String c a, b)
  | _, _ => (EmptyString, s)
  end.

(** [fgets(line, size, file)] on the rest of a file: the buffer and the
    rest of the file, [None] at the end of the file. *)
Definition fgets (size : nat) (file : string) : option (string * string) :=
  match file with
  | EmptyString => None
  | _ => Some (fgets_bytes (size - 1) file)
  end.

(** The sign that [%d] accepts before the digits. *)
Definition scan_sign (s : string) : bool * string :=
  match s with
  | String c s' =>
      if (c =? "-")%char then (true, s')
      else if (c =? "+")%char then (false, s')
      else (false, s)
  | EmptyString => (false, s)
  end.

(** [sscanf(line, "%d %[^\n]", &line_num, text) == 2] with the two
    results. *)
Definition scan_line (line : string) : option (Z * string) :=
  let '(neg, s) := scan_sign (span c_isspace line).2 in
  if negb (c_isdigit (char_at s 0)) then None
  else
    let '(digits, rest) := take_digits s in
    let n := digits_to_Z 0 digits in
    let n := if neg then Z.max (- n) (- LONG_MAX - 1) else Z.min n LONG_MAX in
    let text := (span (fun c => negb (c =? LF)%char) (span c_isspace rest).2).1 in
    if (String.length text =? 0)%nat then None else Some (wrap32 n, text).

(** ** Loading *)

(** The line in the buffer of [fgets], without its line feed. *)
Definition chomp (buf : string) : string :=
  let line := until_nul buf in
  if (last_char line =? LF)%char
  then substring 0 (String.length line - 1) line else line.

(** The loop of [interpreter_load] over the rest of the file. *)
Fixpoint load_lines (fuel : nat) (interp : Interpreter) (file : string)
  : option Interpreter :=
  match fuel with
  | O => None
  | S fuel =>
      match fgets 1024 file with
      | None => Some interp
      | Some (buf, file) =>
          let interp :=
            match scan_line (chomp buf) with
            | Some (line_num, text) => program_add_line interp line_num (Some text)
            | None => interp
            end in
          load_lines fuel interp file
      end
  end.

(** [fopen(filename, "r")]: the contents of the file. *)
Definition fopen_read (fs : FileSystem) (filename : option string) : option string :=
  name ← filename; fs_files fs !! name.

Definition interpreter_load (interp : Interpreter) (filename : option string)
  : option (Interpreter * bool) :=
  match fopen_read (fs interp) filename with
  | None => Some (set_stderr interp (error (stderr interp) "FILE NOT FOUND"), false)
  | Some file =>
      interp ← load_lines (S (String.length file)) (interpreter_new interp) file;
      Some (interp, true)
  end.

(** ** Saving *)

(** The bytes that the loop of [interpreter_save] prints. *)
Fixpoint save_lines (l : list ProgramLine) : string :=
  match l with
  | [] => EmptyString
  | current :: rest =>
      fmt_d (pl_line_number current) +++ " " +++ pl_text current +++ [LF]s
      +++ save_lines rest
  end.

(** [fopen(filename, "w")]: whether the file can be written. *)
Definition fopen_write (fs : FileSystem) (filename : option string) : option string :=
  name ← filename; if decide (name ∈ fs_locked fs) then None else Some name.

Definition interpreter_save (interp : Interpreter) (filename : option string)
  : Interpreter * bool :=
  match fopen_write (fs interp) filename with
  | None => (set_stderr interp (error (stderr interp) "CANNOT SAVE FILE"), false)
  | Some name =>
      let files := <[name := save_lines (program interp)]> (fs_files (fs interp)) in
      (set_fs interp {| fs_files := files; fs_locked := fs_locked (fs interp) |}, true)
  end.

(** ** Specification *)

(** The lines that [LIST] shows for a range. *)
Definition listed (start end_ : Z) (pl : ProgramLine) : bool :=
  (pl_line_number pl >=? start) && ((end_ =? -1) || (pl_line_number pl <=? end_)).

(** A line of text: no line feed and no NUL. *)
Definition is_text_char (c : ascii) : bool :=
  negb (c =? LF)%char && negb (c =? NUL)%char.

(** A program line that a file holds as it is: the number fits an [int]
    and has no sign, the text is a line of text that is not empty and does
    not start with white space, and the printed line fits the buffer of
    [fgets]. *)
Definition storable (pl : ProgramLine) : Prop :=
  0 <= pl_line_number pl <= INT_MAX /\
  str_all is_text_char (pl_text pl) = true /\
  pl_text pl <> EmptyString /\
  c_isspace (char_at (pl_text pl) 0) = false /\
  (String.length (fmt_d (pl_line_number pl)) + String.length (pl_text pl) + 2 <= 1023)%nat.

(** ** Strings *)

Section Strings.
Implicit Types (p : ascii -> bool) (s a b rest : string) (c : ascii).

Lemma span_append p s : (span p s).1 +++ (span p s).2 = s.
Proof.
  induction s as [|c s IH]; simpl; [done|]. destruct (p c); [|done].
  destruct (span p s). simpl in *. by rewrite <- IH.
Qed.

Lemma span_stop p s : p (char_at s 0) = false -> span p s = ("", s).
Proof. destruct s as [|c s]; [done|]. unfold char_at. simpl. by intros ->. Qed.

Lemma span_all p a rest :
  str_all p a = true -> span p rest = ("", rest) -> span p (a +++ rest) = (a, rest).
Proof.
  intros Ha Hr. induction a as [|c a IH]; simpl in *; [done|].
  apply andb_true_iff in Ha as [-> Ha]. by rewrite IH.
Qed.

Lemma last_char_snoc a c : last_char (a +++ [c]s) = c.
Proof.
  induction a as [|c' a IH]; [done|].
  change (String c' a +++ [c]s) with (String c' (a +++ [c]s)).
  destruct a; [done|]. exact IH.
Qed.

Lemma fgets_bytes_append (room : nat) s :
  (fgets_bytes room s).1 +++ (fgets_bytes room s).2 = s.
Proof.
  revert s. induction room as [|room IH]; intros [|c s]; simpl; try done.
  destruct (c =? LF)%char; [done|]. specialize (IH s).
  destruct (fgets_bytes room s). simpl in *. by rewrite <- IH.
Qed.

(** [fgets] takes at least one byte of a file that has one. *)
Lemma fgets_bytes_progress (room : nat) s :
  s <> "" -> (String.length (fgets_bytes (S room) s).2 < String.length s)%nat.
Proof.
  intros Hs. destruct s as [|c s]; [done|]. cbn [fgets_bytes].
  destruct (c =? LF)%char; simpl; [lia|].
  pose proof (fgets_bytes_append room s) as Happ.
  destruct (fgets_bytes room s) as [a b]. simpl in *. subst s.
  rewrite length_append. lia.
Qed.

(** A line that fits the buffer is read whole. *)
Lemma fgets_bytes_line (room : nat) a rest :
  str_all (fun c => negb (c =? LF)%char) a = true ->
  (String.length a < room)%nat ->
  fgets_bytes room (a +++ [LF]s +++ rest) = (a +++ [LF]s, rest).
Proof.
  revert room. induction a as [|c a IH]; intros [|room] Ha Hlen; simpl in *; try lia.
  - done.
  - apply andb_true_iff in Ha as [Hc Ha]. apply negb_true_iff in Hc. rewrite Hc.
    rewrite IH by (done || lia). done.
Qed.

End Strings.

(** ** A printed line is read back *)

Section Printed.
Implicit Types (a text rest : string) (n : Z) (c : ascii).

Lemma digit_is_text c : c_isdigit c = true -> is_text_char c = true.
Proof.
  intros H. unfold is_text_char.
  destruct (Ascii.eqb_spec c LF) as [->|]; [done|].
  by destruct (Ascii.eqb_spec c NUL) as [->|].
Qed.

(** The line that [interpreter_save] prints, without its line feed. *)
Lemma printed_is_text n text :
  0 <= n -> str_all is_text_char text = true ->
  str_all is_text_char (fmt_d n +++ " " +++ text) = true.
Proof.
  intros Hn Ht. rewrite str_all_append. apply andb_true_iff. split; [|done].
  eapply str_all_impl; [apply digit_is_text | by apply fmt_d_digits].
Qed.

Lemma until_nul_text a : str_all is_text_char a = true -> until_nul (a +++ [LF]s) = a +++ [LF]s.
Proof.
  intros Ha. unfold until_nul. rewrite <- (append_nil_r (a +++ [LF]s)) at 1.
  rewrite span_all; [done | | done]. rewrite str_all_append, andb_true_r.
  revert Ha. apply str_all_impl. by intros c [_ ?]%andb_true_iff.
Qed.

Lemma chomp_line a : str_all is_text_char a = true -> chomp (a +++ [LF]s) = a.
Proof.
  intros Ha. unfold chomp. rewrite until_nul_text, last_char_snoc by done.
  rewrite Ascii.eqb_refl, length_append. simpl.
  replace (String.length a + 1 - 1)%nat with (String.length a) by lia.
  apply substring_prefix.
Qed.

Lemma span_line text :
  str_all is_text_char text = true ->
  span (fun c => negb (c =? LF)%char) text = (text, "").
Proof.
  intros Ht. rewrite <- (append_nil_r text) at 1. apply span_all; [|done].
  revert Ht. apply str_all_impl. by intros c [? _]%andb_true_iff.
Qed.

Lemma scan_sign_digit a : c_isdigit (char_at a 0) = true -> scan_sign a = (false, a).
Proof.
  destruct a as [|c a]; [done|]. unfold char_at. simpl. intros H.
  destruct (Ascii.eqb_spec c "-") as [->|]; [done|].
  by destruct (Ascii.eqb_spec c "+") as [->|].
Qed.

Lemma digit_not_space c : c_isdigit c = true -> c_isspace c = false.
Proof. unfold c_isdigit, c_isspace. lia. Qed.

(** [sscanf] reads the number and the text back from a printed line. *)
Lemma scan_line_printed n text :
  0 <= n <= INT_MAX -> text <> "" -> c_isspace (char_at text 0) = false ->
  str_all is_text_char text = true ->
  scan_line (fmt_d n +++ " " +++ text) = Some (n, text).
Proof.
  intros Hn Hne Hsp Ht. pose proof (fmt_d_digit_head n ltac:(lia)) as Hd.
  pose proof (fmt_d_nonempty n ltac:(lia)) as Hf. unfold scan_line.
  rewrite span_stop by (rewrite char_at_append_head by done; by apply digit_not_space).
  cbn [snd]. rewrite scan_sign_digit by (by rewrite char_at_append_head).
  rewrite char_at_append_head, Hd by done. cbn [negb].
  destruct (take_digits_fmt_d n (" " +++ text)) as [-> ->]; [lia | done |].
  change (span c_isspace (" " +++ text)) with
    (let '(a, b) := span c_isspace text in (String " " a, b)).
  rewrite (span_stop c_isspace text Hsp). cbn [snd].
  rewrite (span_line text Ht). cbn [fst].
  destruct (String.length text =? 0)%nat eqn:E; [by apply length_zero_iff in E|].
  unfold LONG_MAX, INT_MAX in *. change (2 ^ 31) with 2147483648 in Hn.
  change (2 ^ 63) with 9223372036854775808.
  by rewrite Z.min_l, wrap32_small by (unfold INT_MIN, INT_MAX; lia).
Qed.

End Printed.

(** ** The loop of a load *)

Section Load.
Implicit Types (interp r : Interpreter) (file : string) (l : list ProgramLine).

Lemma fgets_line (a rest : string) :
  str_all is_text_char a = true -> (String.length a < 1023)%nat ->
  fgets 1024 (a +++ [LF]s +++ rest) = Some (a +++ [LF]s, rest).
Proof.
  intros Ha Hlen. unfold fgets. rewrite fgets_bytes_line; [by destruct a | | done].
  revert Ha. apply str_all_impl. by intros c [? _]%andb_true_iff.
Qed.

Lemma load_lines_enough (fuel : nat) interp file :
  (String.length file < fuel)%nat -> is_Some (load_lines fuel interp file).
Proof.
  revert interp file. induction fuel as [|fuel IH]; intros interp file Hlt; [lia|].
  cbn [load_lines]. destruct file as [|c file]; [done|]. unfold fgets.
  pose proof (fgets_bytes_progress 1022 (String c file) ltac:(done)) as Hp.
  destruct (fgets_bytes (1024 - 1) (String c file)) as [buf rest] eqn:E.
  change (1024 - 1)%nat with 1023%nat in E. rewrite E in Hp.
  apply IH. simpl in *. lia.
Qed.

Lemma load_lines_ok (fuel : nat) interp file r :
  load_lines fuel interp file = Some r -> interp_ok interp -> interp_ok r.
Proof.
  revert interp file. induction fuel as [|fuel IH]; intros interp file; [done|].
  cbn [load_lines]. destruct (fgets 1024 file) as [[buf rest]|]; [|by intros [= <-]].
  intros Hr Hs. apply (IH _ _ Hr).
  destruct (scan_line (chomp buf)) as [[n text]|]; [|done].
  by apply program_add_line_ok.
Qed.

Lemma save_lines_cons (pl : ProgramLine) l :
  save_lines (pl :: l) =
  (fmt_d (pl_line_number pl) +++ " " +++ pl_text pl) +++ [LF]s +++ save_lines l.
Proof. simpl. by rewrite !append_assoc. Qed.

Lemma save_lines_head (pl : ProgramLine) l :
  save_lines (pl :: l) = save_lines [pl] +++ save_lines l.
Proof. simpl. by rewrite !append_assoc. Qed.

Lemma sorted_app_below l (pl : ProgramLine) l' :
  program_sorted (l ++ pl :: l') ->
  Forall (fun a => pl_line_number a < pl_line_number pl) l.
Proof.
  unfold program_sorted, keys. rewrite fmap_app, fmap_cons. intros Hs.
  apply Forall_forall. intros a Ha.
  apply (StronglySorted_app_1_elem_of _ _ _ _ _ Hs); [|by left].
  by apply list_elem_of_fmap_2.
Qed.

(** One turn of the loop on a line that was saved. *)
Lemma load_lines_step (fuel : nat) interp (pl : ProgramLine) (rest : string) :
  storable pl -> Forall (fun a => pl_line_number a < pl_line_number pl) (program interp) ->
  exists interp',
    load_lines (S fuel) interp (save_lines [pl] +++ rest) = load_lines fuel interp' rest /\
    program interp' = program interp ++ [pl].
Proof.
  intros (Hn & Ht & Hne & Hsp & Hlen) Hall.
  exists (program_add_line interp (pl_line_number pl) (Some (pl_text pl))). split.
  - assert (save_lines [pl] +++ rest =
            (fmt_d (pl_line_number pl) +++ " " +++ pl_text pl) +++ [LF]s +++ rest) as ->
      by (rewrite save_lines_cons, !append_assoc; reflexivity).
    cbn [load_lines]. rewrite fgets_line, chomp_line, scan_line_printed;
      try done; try (apply printed_is_text; [lia | done]).
    rewrite !length_append. simpl. lia.
  - rewrite add_line_last by done. by destruct pl.
Qed.

Lemma load_lines_saved l (fuel : nat) interp :
  Forall storable l -> program_sorted (program interp ++ l) ->
  (String.length (save_lines l) < fuel)%nat ->
  exists r, load_lines fuel interp (save_lines l) = Some r /\
            program r = program interp ++ l.
Proof.
  revert fuel interp. induction l as [|pl l IH]; intros fuel interp Hall Hs Hlen.
  { destruct fuel; [simpl in Hlen; lia|]. exists interp. by rewrite app_nil_r. }
  inversion Hall as [|? ? Hpl Hall']; subst. destruct fuel as [|fuel]; [lia|].
  destruct (load_lines_step fuel interp pl (save_lines l) Hpl) as (i & E & Hi);
    [by eapply sorted_app_below|].
  rewrite (save_lines_head pl l) in Hlen |- *. rewrite E. destruct (IH fuel i Hall') as (r & Hr & Hp).
  - by rewrite Hi, <- app_assoc.
  - rewrite save_lines_cons, !length_append in Hlen. simpl in Hlen. lia.
  - exists r. split; [done|]. by rewrite Hp, Hi, <- app_assoc.
Qed.

End Load.

(** ** Load and save *)

Section LoadSave.
Implicit Types (interp r : Interpreter) (filename : option string).

(** A load of a file that is there answers, with well-formed stores. *)
Lemma interpreter_load_file interp filename (file : string) :
  fopen_read (fs interp) filename = Some file ->
  exists r, interpreter_load interp filename = Some (r, true) /\ interp_ok r /\
            load_lines (S (String.length file)) (interpreter_new interp) file = Some r.
Proof.
  intros E. unfold interpreter_load. rewrite E.
  destruct (load_lines_enough (S (String.length file)) (interpreter_new interp) file)
    as [r Hr]; [lia|].
  exists r. rewrite Hr. split; [done|]. split; [|done].
  apply (load_lines_ok _ _ _ _ Hr), interpreter_new_ok.
Qed.

Lemma interpreter_load_ok interp filename r (ok : bool) :
  interpreter_load interp filename = Some (r, ok) -> interp_ok interp -> interp_ok r.
Proof.
  destruct (fopen_read (fs interp) filename) as [file|] eqn:E.
  - destruct (interpreter_load_file interp filename file E) as (r' & -> & Hs & _).
    by intros [= <- <-].
  - unfold interpreter_load. rewrite E. by intros [= <- <-].
Qed.

Lemma interpreter_save_ok interp filename :
  interp_ok interp -> interp_ok (interpreter_save interp filename).1.
Proof. unfold interpreter_save. by destruct (fopen_write _ _). Qed.

Lemma interpreter_save_file interp (name : string) :
  name ∉ fs_locked (fs interp) ->
  fs_files (fs (interpreter_save interp (Some name)).1) !! name =
    Some (save_lines (program interp)).
Proof.
  intros Hn. unfold interpreter_save, fopen_write. simpl.
  rewrite decide_False by done. simpl. apply lookup_insert_eq.
Qed.

End LoadSave.

(** C29: a load ends, whatever the file holds.  When the file is there the
    program is replaced by the lines of the file that start with a number
    and have a text, in ascending order, and the variables are cleared;
    when it is not, an error is reported and the program stays. *)
Theorem interpreter_load_total (interp : Interpreter) (filename : option string) :
  match fopen_read (fs interp) filename with
  | Some file =>
      exists r, interpreter_load interp filename = Some (r, true) /\ interp_ok r
  | None =>
      interpreter_load interp filename =
        Some (set_stderr interp (error (stderr interp) "FILE NOT FOUND"), false)
  end.
Proof.
  destruct (fopen_read (fs interp) filename) as [file|] eqn:E.
  - destruct (interpreter_load_file interp filename file E) as (r & ? & ? & _). eauto.
  - unfold interpreter_load. by rewrite E.
Qed.

(** C14: what was saved is what a load gives back.  For a sorted program
    whose lines are [storable], a load of the file that [interpreter_save]
    wrote, in any interpreter that sees the file, answers the program that
    was saved. *)
Theorem save_load_roundtrip (interp interp' : Interpreter) (name : string) :
  program_sorted (program interp) -> Forall storable (program interp) ->
  name ∉ fs_locked (fs interp) ->
  fs interp' = fs (interpreter_save interp (Some name)).1 ->
  exists r, interpreter_load interp' (Some name) = Some (r, true) /\
            program r = program interp.
Proof.
  intros Hs Hall Hn Hfs.
  destruct (interpreter_load_file interp' (Some name) (save_lines (program interp)))
    as (r & Hr & _ & Hl); [simpl; rewrite Hfs; by apply interpreter_save_file|].
  exists r. split; [done|].
  destruct (load_lines_saved (program interp)
    (S (String.length (save_lines (program interp)))) (interpreter_new interp'))
    as (r' & Hr' & Hp); [done | | lia |].
  - by rewrite (proj1 (interpreter_new_empty interp')).
  - rewrite Hl in Hr'. injection Hr' as <-.
    by rewrite Hp, (proj1 (interpreter_new_empty interp')).
Qed.

Lemma save_load_roundtrip_witness :
  let interp := load_program [(20, "GOTO 10"); (10, "PRINT 1")] in
  exists r, interpreter_load (interpreter_save interp (Some "loop.bas")).1
              (Some "loop.bas") = Some (r, true) /\
            program r = [mkProgramLine 10 "PRINT 1"; mkProgramLine 20 "GOTO 10"].
Proof.
  apply (save_load_roundtrip (load_program [(20, "GOTO 10"); (10, "PRINT 1")])).
  - vm_compute. repeat constructor.
  - repeat constructor; vm_compute; congruence.
  - apply not_elem_of_empty.
  - reflexivity.
Defined.

(** ** Listings *)

Lemma basic_print_stdout (interp : Interpreter) (buf : string) :
  editor interp = None -> basic_print interp buf = set_stdout interp (stdout interp +++ buf).
Proof. intros He. unfold basic_print. by rewrite He. Qed.

Lemma list_lines_stdout (interp : Interpreter) (l : list ProgramLine) (start end_ : Z) :
  editor interp = None ->
  editor (list_lines interp l start end_) = None /\
  stdout (list_lines interp l start end_) =
    stdout interp +++ save_lines (filter (fun pl => listed start end_ pl) l).
Proof.
  revert interp. induction l as [|pl l IH]; intros interp He; simpl.
  { by rewrite append_nil_r. }
  rewrite filter_cons. fold (listed start end_ pl).
  destruct (listed start end_ pl) eqn:E; cbn [Is_true].
  - rewrite decide_True by done. rewrite basic_print_stdout by done.
    match goal with |- context [list_lines ?i l start end_] =>
      destruct (IH i He) as [H1 H2] end.
    split; [done|]. rewrite H2. simpl. by rewrite !append_assoc.
  - rewrite decide_False by (by intros []). by apply IH.
Qed.

(** C30: a listing is the text of a save.  Without a screen, [LIST] writes
    to the output the lines of its range, in the order of the program, each
    exactly as [SAVE] writes it to a file; the whole listing is the file. *)
Theorem list_is_save (interp : Interpreter) (start end_ : Z) :
  editor interp = None ->
  stdout (interpreter_list interp start end_) =
    stdout interp +++ save_lines (filter (fun pl => listed start end_ pl) (program interp)).
Proof. intros He. by apply list_lines_stdout. Qed.

Lemma list_is_save_witness :
  let interp := load_program [(30, "END"); (10, "X = 1"); (20, "PRINT X")] in
  stdout (interpreter_list interp 15 (-1)) = "20 PRINT X" +++ [LF]s +++ "30 END" +++ [LF]s.
Proof.
  apply (list_is_save (load_program [(30, "END"); (10, "X = 1"); (20, "PRINT X")]) 15 (-1)).
  reflexivity.
Defined.

(** ** Evaluation *)

(** A file with lines out of order, a line without text, a line without a
    number, and signed numbers. *)
Example load_mixed_file :
  let file := "20 PRINT 2" +++ [LF]s +++ "  10   PRINT 1" +++ [LF]s +++ "30" +++ [LF]s
              +++ "REM" +++ [LF]s +++ "-5 END" +++ [LF]s +++ "+7 X=1" in
  let interp :=
    set_fs interpreter_init {| fs_files := {[ "a" := file ]}; fs_locked := ∅ |} in
  (fun r => program r.1) <$> interpreter_load interp (Some "a") =
  Some [mkProgramLine (-5) "END"; mkProgramLine 7 "X=1";
        mkProgramLine 10 "PRINT 1"; mkProgramLine 20 "PRINT 2"].
Proof. vm_compute. reflexivity. Qed.

Example save_locked_file :
  let interp :=
    set_fs interpreter_init {| fs_files := ∅; fs_locked := {[ "a" ]} |} in
  (fun r => (stderr r.1, r.2)) (interpreter_save interp (Some "a")) =
  ("?CANNOT SAVE FILE ERROR" +++ [LF]s, false).
Proof. vm_compute. reflexivity. Qed.

(** The blank between the number and the text is not needed. *)
Example load_without_blank :
  scan_line "10PRINT 1" = Some (10, "PRINT 1").
Proof. vm_compute. reflexivity. Qed.

(** A line of more than 1023 bytes is read in pieces, and each piece is
    parsed as a line: here one line of the file gives two program lines. *)
Example load_long_line :
  let file := "10 REM " +++ zeros 1016 +++ "20 END" +++ [LF]s in
  let interp :=
    set_fs interpreter_init {| fs_files := {[ "a" := file ]}; fs_locked := ∅ |} in
  (fun r => (pl_line_number <$> program r.1, pl_text <$> program r.1 !! 1%nat)) <$>
    interpreter_load interp (Some "a") =
  Some ([10; 20], Some "END").
Proof. vm_compute. reflexivity. Qed.
