(* ===== verification/Repl.v ===== *)
(** * Repl: the direct mode of [src/cfbasic.c]

    A line that the user enters is a program line when it starts with a
    number ([extract_line_number]) and a command otherwise
    ([execute_immediate_command]); [repl_loop] is the loop of [repl] over
    the keys of the input.

    The editor of [repl] is the one the interpreter points to, so the loop
    works on the screen of the interpreter state.  The signal handler is
    part of the input: an interrupted read ([RdIntr]) sets
    [break_requested] before the loop looks at it.  [LOAD] and [SAVE] are
    the two operations of [Files].  A [RUN] may not end: the loop takes
    the fuel of a run and has no answer when a run has none.

    [repl] starts with the screen and the banner.  The cells of the screen
    are the one allocation that the model charges to the budget of
    [Utils], because [print_banner] prints what is left of it; [repl]
    takes the state of the allocator as its first argument.  A budget
    that refuses the cells leaves [editor_init] with [NULL], through which
    it writes: the model answers with the fault set and no key read.

    The theorems show that a printed line is read back as it is and that
    the program and the variables stay well formed whatever is typed,
    that the loop ends on keys without Enter and leaves the stores as
    they are and the interrupt flag cleared, and that the banner fits its
    buffer on a screen of up to 720 columns; [session] runs the loop on
    the keys of whole sessions. *)

From S2P Require Import Prelude Utils Numbers MemSize Lexer Editor ReadLine State.
From S2P Require Import Program Variables Eval Exec Run Files.

#[local] Open Scope Z_scope.
#[local] Open Scope cfb_scope.

(** ** Line numbers *)

(** The loop that skips blanks and tabs at the head of a line. *)
Fixpoint skip_blanks (s : string) : string :=
  match s with
  | String c s' => if is_blank c then skip_blanks s' else s
  | EmptyString => EmptyString
  end.

Definition is_immediate_command (line : string) : bool :=
  negb (c_isdigit (char_at (skip_blanks line) 0)).

(** The line number and, when there is one, the text after it. *)
Definition extract_line_number (line : string) : Z * option string :=
  let line := skip_blanks line in
  if negb (c_isdigit (char_at line 0)) then (-1, None)
  else
    let '(n, endptr) := strtol line in
    (wrap32 n, Some (skip_blanks endptr)).

(** ** Commands *)

(** The range of [LIST], from the tokens after the keyword. *)
Definition list_range (lexer : Lexer) : Z * Z :=
  let '(token, lexer) := lexer_next_token lexer in
  if decide (tok_type token = TOK_NUMBER) then
    let start := double_to_int (tok_number_value token) in
    let '(token, lexer) := lexer_next_token lexer in
    if bool_decide (tok_type token = TOK_COMMA) || bool_decide (tok_type token = TOK_MINUS)
    then
      let '(token, lexer) := lexer_next_token lexer in
      if decide (tok_type token = TOK_NUMBER)
      then (start, double_to_int (tok_number_value token))
      else (start, -1)
    else (start, -1)
  else (0, -1).

(** [LOAD] and [SAVE] on the token after the keyword; the answer of the
    file operation is not looked at. *)
Definition load_command (interp : Interpreter) (lexer : Lexer) : option Interpreter :=
  let '(token, lexer) := lexer_next_token lexer in
  if decide (tok_type token = TOK_STRING)
  then fst <$> interpreter_load interp (tok_text token)
  else Some (set_stderr interp (error (stderr interp) "FILENAME REQUIRED")).

Definition save_command (interp : Interpreter) (lexer : Lexer) : Interpreter :=
  let '(token, lexer) := lexer_next_token lexer in
  if decide (tok_type token = TOK_STRING)
  then (interpreter_save interp (tok_text token)).1
  else set_stderr interp (error (stderr interp) "FILENAME REQUIRED").

Definition execute_immediate_command (run_fuel : nat) (interp : Interpreter)
    (line : string) : option Interpreter :=
  let '(token, lexer) := lexer_next_token (lexer_init line) in
  if decide (tok_type token = TOK_LIST) then
    let '(start, end_) := list_range lexer in
    Some (interpreter_list interp start end_)
  else if decide (tok_type token = TOK_RUN) then interpreter_run run_fuel interp
  else if decide (tok_type token = TOK_NEW) then Some (interpreter_new interp)
  else if decide (tok_type token = TOK_LOAD) then load_command interp lexer
  else if decide (tok_type token = TOK_SAVE) then Some (save_command interp lexer)
  else if decide (tok_type token = TOK_EXIT) then Some (set_exit_requested interp true)
  else Some (exec_line interp line).

(** ** The loop *)

(** [editor_print(&ed, str)] on the editor of the interpreter. *)
Definition repl_print (interp : Interpreter) (str : string) : Interpreter :=
  match editor interp with
  | Some ed => set_screen interp (editor_print (ed, stdout interp) str)
  | None => interp
  end.

(** What the loop does with a line that was entered. *)
Definition repl_line (run_fuel : nat) (interp : Interpreter) (line : string)
  : option Interpreter :=
  if (String.length line =? 0)%nat then Some interp
  else
    match extract_line_number line with
    | (line_num, rest) =>
        if line_num >=? 0 then Some (program_add_line interp line_num rest)
        else
          interp ← execute_immediate_command run_fuel interp line;
          if exit_requested interp then Some interp
          else Some (repl_print interp (["010"%char]s +++ "READY." +++ ["010"%char]s))
    end.

Definition break_notice : string :=
  ["010"%char]s +++ "? BREAK" +++ ["010"%char]s +++ "READY." +++ ["010"%char]s.

Fixpoint repl_loop (fuel run_fuel : nat) (interp : Interpreter) (inp : Input)
  : option (Interpreter * Input) :=
  match fuel with
  | O => None
  | S fuel =>
      if exit_requested interp then Some (interp, inp)
      else
        match editor interp with
        | None => None
        | Some ed =>
            let '(res, sc, inp) := read_line_loop inp (ed, stdout interp) in
            let interp := set_screen interp sc in
            let interp :=
              match res with
              | Interrupted => set_break_requested interp true
              | _ => interp
              end in
            match res with
            | Line line =>
                interp ← repl_line run_fuel interp line;
                repl_loop fuel run_fuel interp inp
            | _ =>
                if break_requested interp then
                  repl_loop fuel run_fuel
                    (set_break_requested (repl_print interp break_notice) false) inp
                else Some (interp, inp)
            end
        end
  end.

(** ** The banner *)

Definition VERSION : string := "1.0".

Fixpoint blanks (n : nat) : string :=
  match n with
  | O => EmptyString
  | S n => String " " (blanks n)
  end.

(** [(cols - (int)strlen(line)) / 2], and 0 when that is negative. *)
Definition banner_pad (cols : Z) (line : string) : Z :=
  let pad := (cols - Z.of_nat (String.length line)) ÷ 2 in
  if pad <? 0 then 0 else pad.

(** The text that [print_banner] builds in [buf]: the two centred lines,
    the line of the memory and the prompt. *)
Definition banner_text (cols : Z) (mem_buf : string) : string :=
  let line1 := "**** CFBasic V" +++ VERSION +++ " ****" in
  let line2 := "A Microsoft BASIC Interpreter for Modern Systems" in
  blanks (Z.to_nat (banner_pad cols line1)) +++ line1 +++ [LF]s +++
  blanks (Z.to_nat (banner_pad cols line2)) +++ line2 +++ [LF]s +++ [LF]s +++
  " " +++ mem_buf +++ [LF]s +++ [LF]s +++ "READY." +++ [LF]s.

(** [print_banner], with the two globals of the allocator as [mem]: the
    loop over [mem_buf] is the one of [str_upper]. *)
Definition print_banner (mem : MemState) (interp : Interpreter) : Interpreter :=
  let mem_buf :=
    str_upper (format_memory_size (get_free_memory mem) (total_memory_limit mem)) in
  match editor interp with
  | Some ed => repl_print interp (banner_text (ed_cols ed) mem_buf)
  | None => set_stdout interp (stdout interp +++ banner_text 80 mem_buf)
  end.

(** ** The direct mode *)

(** The head of [repl]: [editor_init] takes the cells of the screen from
    the budget.  When the budget refuses them the buffer is [NULL] and the
    [memset] that follows writes through it: the answer is [None]. *)
Definition repl_start (mem : MemState) (ws : option (Z * Z)) (interp : Interpreter)
  : option Interpreter :=
  let ed := editor_init ws in
  match safe_malloc true mem (wrap64u (ed_rows ed * ed_cols ed)) with
  | AllocOk mem =>
      Some (print_banner mem (set_screen interp (editor_clear_screen (ed, stdout interp))))
  | _ => None
  end.

(** [repl]: with a screen, the loop over the keys; without one, the state
    in which the process faults, the error of the allocator on [stderr]. *)
Definition repl (mem : MemState) (run_fuel : nat) (ws : option (Z * Z))
    (interp : Interpreter) (inp : Input) : option (Interpreter * Input) :=
  match repl_start mem ws interp with
  | Some interp => repl_loop (length inp + 2) run_fuel interp inp
  | None =>
      Some (set_editor (set_stderr interp (error (stderr interp) "OUT OF MEMORY"))
              (Some (buf_set (set_buffer (editor_init ws) []) 0 " "%char)), inp)
  end.

(** ** Keys that enter no line *)

(** A key other than Enter. *)
Definition no_enter (k : ReadResult) : bool :=
  match k with
  | RdChar c => negb (is_enter c)
  | _ => true
  end.

(** What stays as it is while no command runs. *)
Definition idle (a b : Interpreter) : Prop :=
  program b = program a /\ variables b = variables a /\ ram b = ram a /\
  fs b = fs a /\ exit_requested b = exit_requested a /\
  (is_Some (editor a) -> is_Some (editor b)).

(** ** Sessions *)

(** The keys of a line and of Enter. *)
Definition enter (s : string) : Input := keys_of s ++ [RdChar CR].

(** A row without the blanks at its end. *)
Definition strip_right (row : list ascii) : list ascii :=
  foldr (fun c acc => match acc with
                      | [] => if (c =? " ")%char then [] else [c]
                      | _ => c :: acc
                      end) [] row.

(** The rows of the screen, as text. *)
Definition screen_rows (interp : Interpreter) : list string :=
  match editor interp with
  | Some ed =>
      let cols := Z.to_nat (ed_cols ed) in
      map (fun r => string_of_list_ascii
                      (strip_right (take cols (drop (r * cols) (ed_buffer ed)))))
        (seq 0 (Z.to_nat (ed_rows ed)))
  | None => []
  end.

(** A session on a screen of 20 rows and 50 columns, with the budget of
    1GB and without files at its start. *)
Definition session (run_fuel : nat) (inp : Input) : option (Interpreter * Input) :=
  repl mem_initial run_fuel (Some (20, 50)) interpreter_init inp.

(** ** Line numbers *)

Section LineNumbers.
Implicit Types (s line text : string) (n : Z).

Lemma skip_blanks_id s : is_blank (char_at s 0) = false -> skip_blanks s = s.
Proof. destruct s as [|c s]; [done|]. unfold char_at. simpl. by intros ->. Qed.

Lemma digit_not_blank (c : ascii) : c_isdigit c = true -> is_blank c = false.
Proof.
  intros H. unfold is_blank.
  destruct (Ascii.eqb_spec c " ") as [->|]; [done|].
  by destruct (Ascii.eqb_spec c "009") as [->|].
Qed.

Lemma fmt_d_head n :
  0 <= n -> c_isdigit (char_at (fmt_d n) 0) = true /\ is_blank (char_at (fmt_d n) 0) = false.
Proof.
  intros Hn. pose proof (fmt_d_digit_head n Hn). auto using digit_not_blank.
Qed.

End LineNumbers.

(** C31: a line that [LIST] prints enters the program as it is.  For a
    line number that fits an [int] and a text that does not start with a
    blank, [extract_line_number] reads the number and the text back from
    the line that [interpreter_list] and [interpreter_save] write. *)
Theorem extract_line_number_printed (n : Z) (text : string) :
  0 <= n <= INT_MAX -> is_blank (char_at text 0) = false ->
  extract_line_number (fmt_d n +++ " " +++ text) = (n, Some text).
Proof.
  intros Hn Ht. destruct (fmt_d_head n) as [Hd Hb]; [lia|].
  pose proof (fmt_d_nonempty n ltac:(lia)) as Hne.
  unfold extract_line_number, strtol.
  rewrite skip_blanks_id by (by rewrite char_at_append_head).
  rewrite char_at_append_head, Hd by done. cbn [negb].
  destruct (take_digits_fmt_d n (" " +++ text)) as [-> ->]; [lia | done |].
  unfold LONG_MAX, INT_MAX in *. change (2 ^ 31) with 2147483648 in Hn.
  change (2 ^ 63) with 9223372036854775808.
  rewrite Z.min_l, wrap32_small by (unfold INT_MIN, INT_MAX; lia).
  change (skip_blanks (" " +++ text)) with (skip_blanks text).
  by rewrite skip_blanks_id.
Qed.

Lemma extract_line_number_printed_witness :
  extract_line_number (fmt_d 10 +++ " " +++ "PRINT 1") = (10, Some "PRINT 1").
Proof. apply extract_line_number_printed; [unfold INT_MAX; lia | reflexivity]. Defined.

(** ** The two stores in direct mode *)

Section Stores.
Implicit Types (interp r : Interpreter) (line : string).

Lemma load_command_ok interp lexer r :
  load_command interp lexer = Some r -> interp_ok interp -> interp_ok r.
Proof.
  unfold load_command. destruct (lexer_next_token lexer) as [token lexer'].
  case_decide; [|by intros [= <-]].
  destruct (interpreter_load interp (tok_text token)) as [[i ok]|] eqn:E; [|done].
  intros [= <-]. by apply (interpreter_load_ok _ _ _ _ E).
Qed.

Lemma save_command_ok interp lexer :
  interp_ok interp -> interp_ok (save_command interp lexer).
Proof.
  unfold save_command. destruct (lexer_next_token lexer).
  case_decide; [apply interpreter_save_ok | done].
Qed.

Lemma execute_immediate_command_ok run_fuel interp line r :
  execute_immediate_command run_fuel interp line = Some r ->
  interp_ok interp -> interp_ok r.
Proof.
  unfold execute_immediate_command. destruct (lexer_next_token _) as [token lexer].
  intros E Hs.
  case_decide; [destruct (list_range lexer); simplify_eq; by apply interpreter_list_ok|].
  case_decide; [by apply (interpreter_run_ok _ _ _ E)|].
  case_decide; [simplify_eq; apply interpreter_new_ok|].
  case_decide; [by apply (load_command_ok _ _ _ E)|].
  case_decide; [simplify_eq; by apply save_command_ok|].
  case_decide; simplify_eq; [done|]. by apply exec_line_ok.
Qed.

Lemma repl_print_ok interp str : interp_ok interp -> interp_ok (repl_print interp str).
Proof. unfold repl_print. by destruct (editor interp). Qed.

Lemma repl_line_ok run_fuel interp line r :
  repl_line run_fuel interp line = Some r -> interp_ok interp -> interp_ok r.
Proof.
  unfold repl_line. case_match; [by intros [= <-]|].
  destruct (extract_line_number line) as [n rest].
  case_match; [intros [= <-]; apply program_add_line_ok|].
  destruct (execute_immediate_command _ _ _) as [i|] eqn:E; [|done]. simpl.
  intros Hr Hs. apply execute_immediate_command_ok in E; [|done].
  case_match; simplify_eq; [done|]. by apply repl_print_ok.
Qed.

Lemma repl_loop_ok fuel run_fuel interp inp r rest :
  repl_loop fuel run_fuel interp inp = Some (r, rest) -> interp_ok interp -> interp_ok r.
Proof.
  revert interp inp. induction fuel as [|fuel IH]; intros interp inp; [done|]. simpl.
  case_match; [by intros [= <- <-]|]. destruct (editor interp) as [ed|]; [|done].
  destruct (read_line_loop inp (ed, stdout interp)) as [[res sc] inp'].
  destruct res as [line| |]; simpl.
  - destruct (repl_line _ _ _) as [i|] eqn:E; [|done]. simpl.
    intros Hr Hs. apply (IH _ _ Hr). by apply (repl_line_ok _ _ _ _ E).
  - intros Hr Hs. apply (IH _ _ Hr). by apply (repl_print_ok (set_screen interp sc) break_notice).
  - case_match; [|by intros [= <- <-]].
    intros Hr Hs. apply (IH _ _ Hr). by apply (repl_print_ok (set_screen interp sc) break_notice).
Qed.

Lemma print_banner_ok mem interp : interp_ok interp -> interp_ok (print_banner mem interp).
Proof. unfold print_banner. destruct (editor interp); [apply repl_print_ok | done]. Qed.

Lemma repl_start_ok mem ws interp r :
  repl_start mem ws interp = Some r -> interp_ok interp -> interp_ok r.
Proof.
  unfold repl_start. case_match; [|done..]. intros [= <-] Hs. by apply print_banner_ok.
Qed.

Lemma repl_ok mem run_fuel ws interp inp r rest :
  repl mem run_fuel ws interp inp = Some (r, rest) -> interp_ok interp -> interp_ok r.
Proof.
  unfold repl. destruct (repl_start mem ws interp) as [i|] eqn:Es.
  - intros E Hs. apply (repl_loop_ok _ _ _ _ _ _ E). by apply (repl_start_ok _ _ _ _ Es).
  - by intros [= <- <-].
Qed.

End Stores.

(** C12: whatever the user types, the two stores stay well formed: the
    program in ascending order of line numbers without a number twice, the
    variables with one variable per name and a value that agrees with its
    type.  Program lines, [LIST], [RUN], [NEW], [LOAD] of any file, [SAVE],
    direct statements and interrupts all keep them so. *)
Theorem repl_keeps_stores (mem : MemState) (run_fuel : nat) (ws : option (Z * Z))
    (interp r : Interpreter) (inp rest : Input) :
  interp_ok interp ->
  repl mem run_fuel ws interp inp = Some (r, rest) ->
  interp_ok r.
Proof. intros Hs E. by apply (repl_ok _ _ _ _ _ _ _ E). Qed.

Lemma repl_keeps_stores_witness :
  exists r rest,
    session 10 (enter "20 PRINT x" ++ enter "10 X = 1" ++ enter "20" ++ enter "RUN")
      = Some (r, rest) /\
    program r = [mkProgramLine 10 "X = 1"] /\ var_name <$> variables r = ["X"] /\
    interp_ok r.
Proof.
  do 2 eexists. split; [vm_compute; reflexivity|]. do 2 (split; [reflexivity|]).
  apply (repl_keeps_stores mem_initial 10 (Some (20, 50)) interpreter_init _
    (enter "20 PRINT x" ++ enter "10 X = 1" ++ enter "20" ++ enter "RUN") []);
    [|vm_compute; reflexivity].
  split; [apply sorted_nil | split; constructor].
Defined.

(** ** The fuel of the loop *)

Section Fuel.
Implicit Types (interp : Interpreter) (inp : Input) (sc : Screen).

(** A read takes at least one key, unless there is none. *)
Lemma read_line_loop_rest (n : nat) :
  forall inp sc, (length inp <= n)%nat ->
  (length (read_line_loop inp sc).2 <= length inp - 1)%nat.
Proof.
  induction n as [|n IH]; intros inp sc Hn; [destruct inp; simpl in *; lia|].
  destruct inp as [|[c| | |] inp']; cbn [read_line_loop]; simpl in *; try lia;
    [|etrans; [apply IH; lia | lia]].
  destruct (read_enter sc) as [line sc'].
  repeat case_match; subst; simpl in *; try lia; (etrans; [apply IH; simpl; lia | simpl; lia]).
Qed.

Lemma read_line_loop_shorter inp sc :
  inp <> [] -> (length (read_line_loop inp sc).2 < length inp)%nat.
Proof.
  intros Hne. pose proof (read_line_loop_rest (length inp) inp sc (le_n _)).
  destruct inp; [done | simpl in *; lia].
Qed.

(** Without keys the loop ends in its second turn at the latest. *)
Lemma repl_loop_closed (fuel run_fuel : nat) interp :
  repl_loop (S (S fuel)) run_fuel interp [] = repl_loop 2 run_fuel interp [].
Proof.
  cbn [repl_loop read_line_loop]. repeat case_match; try done.
Qed.

Lemma repl_loop_fuel (f1 : nat) :
  forall f2 run_fuel interp inp,
  (length inp + 2 <= f1)%nat -> (length inp + 2 <= f2)%nat ->
  repl_loop f1 run_fuel interp inp = repl_loop f2 run_fuel interp inp.
Proof.
  induction f1 as [|f1 IH]; intros f2 run_fuel interp inp H1 H2; [lia|].
  destruct inp as [|k inp].
  { destruct f1 as [|f1]; [simpl in H1; lia|].
    destruct f2 as [|[|f2]]; [simpl in H2; lia..|].
    by rewrite (repl_loop_closed f1), (repl_loop_closed f2). }
  destruct f2 as [|f2]; [lia|]. cbn [repl_loop].
  case_match; [done|]. destruct (editor interp) as [ed|]; [|done].
  pose proof (read_line_loop_shorter (k :: inp) (ed, stdout interp)) as Hlt.
  destruct (read_line_loop (k :: inp) (ed, stdout interp)) as [[res sc] inp'].
  simpl in Hlt, H1, H2. specialize (Hlt ltac:(done)).
  destruct res; [destruct (repl_line _ _ _); [|done]; simpl| |case_match; [|done]];
    apply IH; lia.
Qed.

End Fuel.

(** ** Keys without Enter *)

#[export] Instance idle_preorder : PreOrder idle.
Proof.
  split; [by intros a|].
  intros a b c (? & ? & ? & ? & ? & ?) (? & ? & ? & ? & ? & ?).
  split_and!; try congruence. auto.
Qed.

Section Idle.
Implicit Types (interp : Interpreter) (inp : Input) (sc : Screen).

Lemma idle_set_screen interp sc : idle interp (set_screen interp sc).
Proof. by split_and!. Qed.

Lemma idle_repl_print interp str : idle interp (repl_print interp str).
Proof. unfold repl_print. case_match; [apply idle_set_screen | done]. Qed.

Lemma idle_set_break interp (b : bool) : idle interp (set_break_requested interp b).
Proof. done. Qed.

(** Keys without Enter complete no line, and those that are left are
    without Enter. *)
Lemma read_line_loop_idle (n : nat) :
  forall inp sc, (length inp <= n)%nat -> forallb no_enter inp = true ->
  (forall line, (read_line_loop inp sc).1.1 <> Line line) /\
  forallb no_enter (read_line_loop inp sc).2 = true.
Proof.
  induction n as [|n IH]; intros inp sc Hn Hk.
  { destruct inp; [done | simpl in Hn; lia]. }
  destruct inp as [|[c| | |] inp']; cbn [read_line_loop]; simpl in Hn;
    [done | | done | apply IH; [lia | done] | done].
  cbn [forallb no_enter] in Hk. apply andb_prop in Hk as [Hc%negb_true_iff Hk].
  rewrite Hc.
  repeat case_match; subst; simpl in Hn; cbn [forallb no_enter] in Hk; try done;
    repeat (apply andb_prop in Hk as [? Hk]); apply IH; (lia || done).
Qed.

(** One turn on keys without Enter: the loop ends, or goes on with the
    interrupt cleared and fewer keys. *)
Lemma repl_turn_idle (fuel run_fuel : nat) interp inp :
  is_Some (editor interp) -> forallb no_enter inp = true ->
  exit_requested interp = false ->
  (exists r rest, repl_loop (S fuel) run_fuel interp inp = Some (r, rest) /\
     idle interp r /\ break_requested r = false) \/
  (exists i inp', repl_loop (S fuel) run_fuel interp inp = repl_loop fuel run_fuel i inp' /\
     idle interp i /\ break_requested i = false /\ forallb no_enter inp' = true /\
     (length inp' <= length inp)%nat /\
     (break_requested interp = false -> length inp' < length inp)%nat).
Proof.
  intros [ed He] Hk Hx. cbn [repl_loop]. rewrite Hx, He.
  destruct (read_line_loop_idle (length inp) inp (ed, stdout interp) (le_n _) Hk)
    as [Hline Hk'].
  pose proof (read_line_loop_rest (length inp) inp (ed, stdout interp) (le_n _)) as Hlen.
  destruct (read_line_loop inp (ed, stdout interp)) as [[res sc] inp'] eqn:E.
  simpl in Hline, Hk', Hlen.
  destruct res as [line| |]; [by destruct (Hline line)| |].
  - right. eexists _, inp'. split; [done|].
    split_and!; try done; (destruct inp; [done | simpl in *; lia]).
  - destruct (break_requested (set_screen interp sc)) eqn:Hb.
    + right. eexists _, inp'. split; [done|].
      split_and!; try done; [lia | simpl in Hb; congruence].
    + left. by exists (set_screen interp sc), inp'.
Qed.

(** The turns of the loop on keys without Enter. *)
Lemma repl_loop_idle (fuel run_fuel : nat) :
  forall interp inp,
  is_Some (editor interp) -> forallb no_enter inp = true ->
  exit_requested interp = false ->
  (length inp + (if break_requested interp then 2 else 1) <= fuel)%nat ->
  exists r rest,
    repl_loop fuel run_fuel interp inp = Some (r, rest) /\ idle interp r /\
    break_requested r = false.
Proof.
  induction fuel as [|fuel IH]; intros interp inp He Hk Hx Hf;
    [destruct (break_requested interp); lia|].
  destruct (repl_turn_idle fuel run_fuel interp inp He Hk Hx)
    as [(r & rest & E & Hi & Hb)|(i & inp' & E & Hi & Hb & Hk' & Hle & Hlt)];
    [by exists r, rest|].
  destruct (IH i inp') as (r & rest & E' & Hi' & Hb'); try done.
  - by apply Hi.
  - by rewrite <- (proj1 (proj2 (proj2 (proj2 (proj2 Hi))))) in Hx.
  - rewrite Hb. destruct (break_requested interp); [lia|]. specialize (Hlt eq_refl). lia.
  - exists r, rest. rewrite E. split_and!; [done | by etrans | done].
Qed.

End Idle.

(** C13: keys that enter no line end the direct mode.  On keys without
    Enter (characters, backspace, cursor keys, interrupts, failed reads,
    the end of the input) the loop of [repl] answers with one turn per key
    and two more as fuel, whatever the state it starts in: every interrupt
    is printed and cleared, no command runs, and the program, the
    variables, the memory and the files are as they were. *)
Theorem repl_loop_ends (fuel run_fuel : nat) (interp : Interpreter) (inp : Input) :
  is_Some (editor interp) -> forallb no_enter inp = true ->
  exit_requested interp = false -> (length inp + 2 <= fuel)%nat ->
  exists r rest,
    repl_loop fuel run_fuel interp inp = Some (r, rest) /\ idle interp r /\
    break_requested r = false.
Proof.
  intros He Hk Hx Hf. apply repl_loop_idle; try done.
  destruct (break_requested interp); lia.
Qed.

Lemma repl_loop_ends_witness :
  exists r rest,
    repl_loop 7 0 (set_break_requested
                     (set_editor interpreter_init (Some (editor_init None))) true)
      (keys_of "RUN" ++ [RdIntr; RdError]) = Some (r, rest) /\
    idle (set_break_requested (set_editor interpreter_init (Some (editor_init None))) true) r /\
    break_requested r = false.
Proof. apply repl_loop_ends; [by eexists | reflexivity | reflexivity | simpl; lia]. Defined.

(** ** The banner *)

Section Banner.
Implicit Types (cols : Z) (line mem_buf : string).

Lemma length_blanks (n : nat) : String.length (blanks n) = n.
Proof. induction n; simpl; congruence. Qed.

Lemma banner_pad_bounds cols line :
  0 <= banner_pad cols line /\
  2 * banner_pad cols line <= Z.max 0 (cols - Z.of_nat (String.length line)).
Proof.
  unfold banner_pad. cbv zeta. generalize (cols - Z.of_nat (String.length line)).
  intros a. pose proof (Z.quot_rem' a 2). destruct (Z.ltb_spec (a ÷ 2) 0); [lia|].
  destruct (Z.le_gt_cases 0 a).
  - pose proof (Z.rem_bound_pos a 2). lia.
  - pose proof (Z.rem_bound_pos_neg a 2). lia.
Qed.

Lemma length_banner_text cols mem_buf :
  String.length (banner_text cols mem_buf) =
  (Z.to_nat (banner_pad cols "**** CFBasic V1.0 ****") +
   Z.to_nat (banner_pad cols "A Microsoft BASIC Interpreter for Modern Systems") +
   String.length mem_buf + 83)%nat.
Proof.
  unfold banner_text. cbv zeta. rewrite !length_append, !length_blanks.
  change (String.length ("**** CFBasic V" +++ VERSION +++ " ****")) with 22%nat.
  change ("**** CFBasic V" +++ VERSION +++ " ****") with "**** CFBasic V1.0 ****".
  simpl String.length. lia.
Qed.

End Banner.

(** C33: the banner fits its buffer.  [print_banner] builds the banner in
    1024 bytes; on a screen of up to 720 columns, with a line of the
    memory that fits the 256 bytes it was printed to, the text and its
    end stay inside. *)
Theorem banner_fits (cols : Z) (mem_buf : string) :
  cols <= 720 -> (String.length mem_buf < 256)%nat ->
  (String.length (banner_text cols mem_buf) < 1024)%nat.
Proof.
  intros Hc Hm. rewrite length_banner_text.
  pose proof (banner_pad_bounds cols "**** CFBasic V1.0 ****") as [H1 H1'].
  pose proof (banner_pad_bounds cols "A Microsoft BASIC Interpreter for Modern Systems")
    as [H2 H2'].
  simpl String.length in H1', H2'. lia.
Qed.

Lemma banner_fits_witness :
  (String.length (banner_text 80 " 1024.00 MB FREE, 1 GB ALLOCATED") < 1024)%nat.
Proof. apply banner_fits; [lia | simpl; lia]. Defined.

(** ** Evaluation *)

(** A line number that does not fit an [int] wraps around, or is taken for
    no line number at all. *)
Example line_number_wraps :
  extract_line_number "4294967306 PRINT 1" = (10, Some "PRINT 1") /\
  (extract_line_number "2147483648 PRINT 1").1 = -2147483648 /\
  (extract_line_number "99999999999999999999 PRINT 1").1 = -1.
Proof. vm_compute. auto. Qed.

(** The screen on which a session starts: the banner, with the cells of
    the screen taken from the budget, so that a little less than 1GB is
    free, which is printed as 1024.00 MB. *)
Example session_banner :
  (fun r => take 7 (screen_rows r.1)) <$> session 10 [] =
  Some ["              **** CFBasic V1.0 ****";
        " A Microsoft BASIC Interpreter for Modern Systems"; "";
        " 1024.00 MB FREE, 1 GB ALLOCATED"; ""; "READY."; ""].
Proof. vm_compute. reflexivity. Qed.

(** A program is entered, run and listed; the rows are those below the
    banner. *)
Example session_run_list :
  (fun r => (take 9 (drop 6 (screen_rows r.1)), program r.1)) <$>
    session 10 (enter "10 PRINT 1+2" ++ enter "RUN" ++ enter "LIST") =
  Some (["10 PRINT 1+2"; "RUN"; "3"; ""; "READY."; "LIST"; "10 PRINT 1+2"; ""; "READY."],
        [mkProgramLine 10 "PRINT 1+2"]).
Proof. vm_compute. reflexivity. Qed.

(** A [GOTO] in direct mode to a line that is not there records an error
    that the next [RUN] reports in the first line of the program: line 20
    does not run. *)
Example session_stale_error :
  (fun r => take 10 (drop 6 (screen_rows r.1))) <$>
    session 10 (enter "GOTO 99" ++ enter "10 PRINT 7" ++ enter "20 PRINT 8" ++ enter "RUN") =
  Some ["GOTO 99"; ""; "READY."; "10 PRINT 7"; "20 PRINT 8"; "RUN"; "7";
        "ERROR IN LINE 10"; ""; "READY."].
Proof. vm_compute. reflexivity. Qed.

(** An interrupt at the prompt prints the break notice; [EXIT] leaves the
    loop with the rest of the input unread. *)
Example session_break_exit :
  (fun r => (take 6 (drop 6 (screen_rows r.1)), exit_requested r.1, r.2)) <$>
    session 10 (enter "10 PRINT 7" ++ [RdIntr] ++ enter "EXIT" ++ enter "LIST") =
  Some (["10 PRINT 7"; ""; "? BREAK"; "READY."; "EXIT"; ""], true, enter "LIST").
Proof. vm_compute. reflexivity. Qed.

(** On a screen of 1000 columns the banner is longer than the 1024 bytes
    of its buffer. *)
Example banner_overflows :
  String.length (banner_text 1000 " 1024.00 MB FREE, 1 GB ALLOCATED") = 1080%nat.
Proof. vm_compute. reflexivity. Qed.

(** A budget below the cells of the screen: the allocator refuses the
    buffer and [editor_init] writes through [NULL]. *)
Example session_no_screen :
  (fun r => (ed_fault <$> editor r.1, stderr r.1, r.2)) <$>
    repl (init_memory mem_initial 1024) 10 None interpreter_init (enter "LIST") =
  Some (Some true, "?OUT OF MEMORY ERROR" +++ [LF]s, enter "LIST").
Proof. vm_compute. reflexivity. Qed.

(** A program is saved, cleared and loaded again in one session. *)
Example session_save_load :
  (fun r => (program r.1, fs_files (fs r.1) !! "P")) <$>
    session 10 (enter "10 PRINT 1" ++ enter ("SAVE " +++ quoted "P") ++ enter "NEW"
                ++ enter "20 END" ++ enter ("LOAD " +++ quoted "P")) =
  Some ([mkProgramLine 10 "PRINT 1"], Some ("10 PRINT 1" +++ [LF]s)).
Proof. vm_compute. reflexivity. Qed.
