(* ===== verification/Main.v ===== *)
(** * Main: the entry of the process in [src/cfbasic.c]

    [main] reads its options ([parse_args], the loop over [argv] behind
    the name of the program), sets the budget of the allocator, and either
    loads and runs the file that was named or enters the direct mode of
    [Repl]; [interpreter_free] ends it.  The streams of the process before
    the interpreter exists are the two strings of [Stopped].

    [parse_memory_size] has no answer on the texts that [MemSize] leaves
    out (hexadecimal, infinity, not-a-number), and so has [parse_args].

    The theorems show which command lines are refused and with what
    message, that the last file name is the one used, and that a size that
    is written with a unit becomes the budget of the session. *)

From S2P Require Import Prelude Utils Numbers MemSize Lexer Editor ReadLine State.
From S2P Require Import Program Variables Eval Exec Run Files Repl.

#[local] Open Scope Z_scope.
#[local] Open Scope cfb_scope.

(** ** The options *)

Definition print_usage (out : string) : string :=
  out +++ "Usage: cfbasic [OPTIONS] [filename]" +++ [LF]s +++
  "Options:" +++ [LF]s +++
  "  -M, --MEM <size>    Set memory limit (e.g., 1G, 512M, 2048K)" +++ [LF]s +++
  "  -h, --help          Show this help message" +++ [LF]s +++
  "  -v, --version       Show version information" +++ [LF]s.

(** What the loop over the arguments ends with: a [return] with an exit
    code and what was written to [stdout] and [stderr], or the memory
    limit and the file name for the rest of [main]. *)
Inductive Args : Type :=
  | ArgsExit (code : Z) (out err : string)
  | ArgsRun (memory_limit : Z) (filename : option string).

(** The loop of [main] over [argv[1]] ... [argv[argc - 1]]. *)
Fixpoint parse_args (args : list string) (memory_limit : Z) (filename : option string)
  : option Args :=
  match args with
  | [] => Some (ArgsRun memory_limit filename)
  | arg :: rest =>
      if (arg =? "-M")%string || (arg =? "--MEM")%string then
        match rest with
        | size :: rest =>
            memory_limit ← parse_memory_size size;
            if memory_limit =? 0 then
              Some (ArgsExit 1 "" ("Invalid memory size: " +++ size +++ [LF]s))
            else parse_args rest memory_limit filename
        | [] =>
            Some (ArgsExit 1 (print_usage "") ("Missing memory size argument" +++ [LF]s))
        end
      else if (arg =? "-h")%string || (arg =? "--help")%string then
        Some (ArgsExit 0 (print_usage "") "")
      else if (arg =? "-v")%string || (arg =? "--version")%string then
        Some (ArgsExit 0 ("CFBASIC V" +++ VERSION +++ [LF]s) "")
      else if negb (char_at arg 0 =? "-")%char then parse_args rest memory_limit (Some arg)
      else Some (ArgsExit 1 (print_usage "") ("Unknown option: " +++ arg +++ [LF]s))
  end.

(** ** The process *)

Definition interpreter_free (interp : Interpreter) : Interpreter :=
  let interp := var_clear_all (program_clear interp) in
  let interp := pop_all_calls (length (call_stack interp)) interp in
  pop_all_fors (length (for_stack interp)) interp.

(** The end of [main], after the interpreter is initialised: a file that
    is named on the command line is loaded and, when that worked, run;
    without one the direct mode starts. *)
Definition main_body (mem : MemState) (run_fuel : nat) (ws : option (Z * Z))
    (interp : Interpreter) (filename : option string) (inp : Input)
  : option (Interpreter * Input) :=
  match filename with
  | Some _ =>
      '(interp, ok) ← interpreter_load interp filename;
      if ok : bool then interp ← interpreter_run run_fuel interp; Some (interp, inp)
      else Some (interp, inp)
  | None => repl mem run_fuel ws interp inp
  end.

(** How [main] ends: before the interpreter exists, with an exit code and
    the two streams, or with the state of the interpreter at the [return
    0] and the keys that were not read. *)
Inductive Outcome : Type :=
  | Stopped (code : Z) (out err : string)
  | Ended (interp : Interpreter) (rest : Input).

(** [main] behind its options: the budget, the interpreter, the file or
    the direct mode, the cleanup.  [files] are the files of the system. *)
Definition run_main (run_fuel : nat) (ws : option (Z * Z)) (files : FileSystem)
    (inp : Input) (memory_limit : Z) (filename : option string) : option Outcome :=
  let mem := init_memory mem_initial memory_limit in
  let interp := set_fs interpreter_init files in
  '(interp, rest) ← main_body mem run_fuel ws interp filename inp;
  Some (Ended (interpreter_free interp) rest).

(** [main(argc, argv)], with [args] the arguments behind [argv[0]]. *)
Definition main (run_fuel : nat) (ws : option (Z * Z)) (files : FileSystem)
    (args : list string) (inp : Input) : option Outcome :=
  a ← parse_args args 1073741824 None;
  match a with
  | ArgsExit code out err => Some (Stopped code out err)
  | ArgsRun memory_limit filename => run_main run_fuel ws files inp memory_limit filename
  end.

(** ** The words of a command line *)

(** An argument that is taken for a file name. *)
Definition is_name (arg : string) : bool := negb (char_at arg 0 =? "-")%char.

Definition is_option (arg : string) : bool :=
  bool_decide (arg ∈ ["-M"; "--MEM"; "-h"; "--help"; "-v"; "--version"]).

(** The file name after the names [names]. *)
Definition last_name (names : list string) (filename : option string) : option string :=
  match last names with
  | Some name => Some name
  | None => filename
  end.

(** ** Evaluation *)

(** A file that is named on the command line is loaded and run, with the
    output on the standard stream. *)
Example main_runs_file :
  let file := "20 PRINT X" +++ [LF]s +++ "10 X = 2 + 3" +++ [LF]s in
  let interp :=
    set_fs interpreter_init {| fs_files := {[ "p.bas" := file ]}; fs_locked := ∅ |} in
  (fun r => stdout r.1) <$> main_body mem_initial 10 None interp (Some "p.bas") [] =
  Some ("5" +++ [LF]s).
Proof. vm_compute. reflexivity. Qed.

Example main_help :
  main 10 None (mkFileSystem ∅ ∅) ["p.bas"; "--help"; "-x"] [] =
  Some (Stopped 0 (print_usage "") "").
Proof. vm_compute. reflexivity. Qed.

Example main_version :
  main 10 None (mkFileSystem ∅ ∅) ["-v"] [] = Some (Stopped 0 ("CFBASIC V1.0" +++ [LF]s) "").
Proof. vm_compute. reflexivity. Qed.

(** The word behind [-M] is a size, also when it looks like an option; a
    size of 0 is refused, and so is a size without a number. *)
Example main_bad_sizes :
  main 10 None (mkFileSystem ∅ ∅) ["-M"; "-h"] [] =
    Some (Stopped 1 "" ("Invalid memory size: -h" +++ [LF]s)) /\
  main 10 None (mkFileSystem ∅ ∅) ["--MEM"; "0G"] [] =
    Some (Stopped 1 "" ("Invalid memory size: 0G" +++ [LF]s)) /\
  main 10 None (mkFileSystem ∅ ∅) ["--MEM"] [] =
    Some (Stopped 1 (print_usage "") ("Missing memory size argument" +++ [LF]s)).
Proof. vm_compute. auto. Qed.

(** The options are exact: [--mem] is unknown. *)
Example main_option_case :
  main 10 None (mkFileSystem ∅ ∅) ["--mem"; "1G"] [] =
  Some (Stopped 1 (print_usage "") ("Unknown option: --mem" +++ [LF]s)).
Proof. vm_compute. reflexivity. Qed.

(** A session with a budget of 2048K: the banner counts in MB, with the
    cells of the screen taken off. *)
Example main_banner_budget :
  (fun r => match r with
            | Ended interp _ => take 1 (drop 3 (screen_rows interp))
            | Stopped _ _ _ => []
            end) <$> main 10 (Some (10, 60)) (mkFileSystem ∅ ∅) ["-M"; "2048K"] [] =
  Some [" 2.00 MB FREE, 2 MB ALLOCATED"].
Proof. vm_compute. reflexivity. Qed.

(** The cleanup empties the program that the session entered. *)
Example main_frees :
  (fun r => match r with
            | Ended interp rest => Some (program interp, variables interp, rest)
            | Stopped _ _ _ => None
            end) <$>
    main 10 (Some (10, 60)) (mkFileSystem ∅ ∅) []
      (enter "10 X = 1" ++ enter "RUN" ++ enter "EXIT" ++ enter "LIST") =
  Some (Some ([], [], enter "LIST")).
Proof. vm_compute. reflexivity. Qed.

(** ** The loop over the arguments *)

Section Arguments.
Implicit Types (arg flag size : string) (names rest : list string) (limit : Z).
Implicit Types (filename : option string).

Lemma parse_args_name arg rest limit filename :
  is_name arg = true ->
  parse_args (arg :: rest) limit filename = parse_args rest limit (Some arg).
Proof.
  destruct arg as [|c s]; [done|]. unfold is_name.
  change (char_at (String c s) 0) with c. intros Hc%negb_true_iff.
  cbn [parse_args String.eqb]. change (char_at (String c s) 0) with c. by rewrite Hc.
Qed.

Lemma last_name_cons arg names filename :
  last_name (arg :: names) filename = last_name names (Some arg).
Proof. unfold last_name. rewrite last_cons. by destruct (last names). Qed.

Lemma parse_args_names names rest limit filename :
  forallb is_name names = true ->
  parse_args (names ++ rest) limit filename =
  parse_args rest limit (last_name names filename).
Proof.
  revert filename. induction names as [|arg names IH]; intros filename; [done|].
  intros [Ha Hn]%andb_true_iff. rewrite last_name_cons, <- IH by done.
  by apply parse_args_name.
Qed.

Lemma is_option_eqb arg flag :
  is_option arg = false ->
  flag ∈ ["-M"; "--MEM"; "-h"; "--help"; "-v"; "--version"] ->
  (arg =? flag)%string = false.
Proof.
  intros Ho%bool_decide_eq_false Hf. apply String.eqb_neq. by intros ->.
Qed.

Lemma parse_args_unknown arg rest limit filename :
  is_name arg = false -> is_option arg = false ->
  parse_args (arg :: rest) limit filename =
  Some (ArgsExit 1 (print_usage "") ("Unknown option: " +++ arg +++ [LF]s)).
Proof.
  intros Hn Ho. fold (is_name arg) in Hn. cbn [parse_args]. fold (is_name arg).
  rewrite !(is_option_eqb arg) by (done || set_solver). by rewrite Hn.
Qed.

Lemma parse_args_size flag size rest limit filename (m : Z) :
  flag = "-M" \/ flag = "--MEM" -> parse_memory_size size = Some m -> m <> 0 ->
  parse_args (flag :: size :: rest) limit filename = parse_args rest m filename.
Proof.
  intros Hf Hs Hm. cbn [parse_args].
  replace ((flag =? "-M")%string || (flag =? "--MEM")%string) with true
    by (by destruct Hf as [-> | ->]).
  rewrite Hs. cbn [mbind option_bind]. by rewrite (proj2 (Z.eqb_neq m 0) Hm).
Qed.

End Arguments.

(** C32: an option that [main] does not know ends the process.  Behind any
    number of file names, an argument that starts with a dash and is none
    of the six options makes [main] return 1, with the usage on [stdout]
    and the option on [stderr]; nothing behind it is looked at and no
    interpreter starts. *)
Theorem main_unknown_option (run_fuel : nat) (ws : option (Z * Z)) (files : FileSystem)
    (names : list string) (arg : string) (rest : list string) (inp : Input) :
  forallb is_name names = true -> is_name arg = false -> is_option arg = false ->
  main run_fuel ws files (names ++ arg :: rest) inp =
  Some (Stopped 1 (print_usage "") ("Unknown option: " +++ arg +++ [LF]s)).
Proof.
  intros Hn Ha Ho. unfold main.
  by rewrite parse_args_names, parse_args_unknown.
Qed.

Lemma main_unknown_option_witness :
  main 10 None (mkFileSystem ∅ ∅) (["a.bas"; "b.bas"] ++ "-m" :: ["1G"]) [] =
  Some (Stopped 1 (print_usage "") ("Unknown option: " +++ "-m" +++ [LF]s)).
Proof. apply main_unknown_option; reflexivity. Defined.

(** C26: a size with a unit becomes the budget of the session.  When the
    arguments are file names followed by [-M] or [--MEM] and a positive
    number [n] with one of the suffixes K, M and G (in either case, with
    anything behind it), [main] goes on as with a memory limit of [n]
    times the unit and with the last of the file names, as long as the
    limit is below [2 ^ 53]. *)
Theorem main_memory_limit (run_fuel : nat) (ws : option (Z * Z)) (files : FileSystem)
    (names : list string) (flag : string) (n : Z) (c : ascii) (suffix : string)
    (mult : Z) (inp : Input) :
  forallb is_name names = true -> flag = "-M" \/ flag = "--MEM" ->
  0 < n -> suffix_unit c mult -> n * mult < 2 ^ 53 ->
  main run_fuel ws files (names ++ [flag; fmt_d n +++ String c suffix]) inp =
  run_main run_fuel ws files inp (n * mult) (last_name names None).
Proof.
  intros Hn Hf Hpos Hc%suffix_unit_multiplier Hlt. unfold main.
  rewrite parse_args_names by done.
  rewrite (parse_args_size _ _ _ _ _ (n * mult)); [done|done|by apply parse_printed|].
  destruct (multiplier_cases c mult Hc) as (_ & k & Hk & -> & _).
  assert (0 < 2 ^ k) by (apply Z.pow_pos_nonneg; lia). nia.
Qed.

Lemma main_memory_limit_witness :
  main 10 None (mkFileSystem ∅ ∅) (["p.bas"] ++ ["--MEM"; fmt_d 512 +++ String "m" "b"]) [] =
  run_main 10 None (mkFileSystem ∅ ∅) [] (512 * 1048576) (last_name ["p.bas"] None).
Proof.
  apply main_memory_limit;
    [reflexivity | by right | lia | right; left; split; [by right | reflexivity] | lia].
Defined.
